(* ===== verification/_CoqProject ===== *)
-Q . S2P
Prelude.v
StdString.v
Errors.v
Codec.v
Wide.v
Scope.v
Json.v
MiniJson.v
JsonScan.v
Types.v
Operation.v
Payloads.v
Crypto.v
MiniCrypto.v
Rim2.v
Hardware.v
Clock.v
Keyring.v
Download.v
Sse.v
World.v
Http.v
Handles.v
HttpHandles.v
SseStream.v
Cng.v
StateStore.v
HostIntegrity.v
Multipart.v
MiniEnv.v
Identity.v
KeyHandles.v
Policy.v
Pipeline.v
Send.v
Concurrent.v
Web.v
Rotate.v
Fetch.v
Client.v
Debug.v
Watch.v
Trust.v
Wire.v
System.v
Answers.v
Delivery.v
Offline.v
Demo.v
RotateDemo.v
FetchDemo.v
SystemDemo.v
WireDemo.v
ConcurrentDemo.v
AsyncTask.v
Tasks.v
HostDemo.v
