(* ===== verification/Prelude.v ===== *)
(** * SwmSdk: a verification development for the C++ client SDK

    The program is the C++ SDK under [src/Cpp]: a client library of a software
    management server.  It enrols a device, keeps a session, checks for
    updates and downloads them, reports events and feedback, obtains operation
    grants and proves the integrity of its host, over HTTPS, with every answer
    signed by keys that a root key certifies.  This library translates the
    SDK's own code into functions and proves what makes it correct.

    ** The parts of the program and their files

    - [Errors], [Types] ([include/swm/error.hpp], [types.hpp]): the errors that
      are thrown and the records of the interface.  A function that may throw
      returns [Result]; [Swm e] is an [swm::Error], [StdExn] any other
      exception.
    - [StdString]: the parts of the C++ standard library that the code uses on
      strings ([find], [substr], [getline], [stoll], [to_string]...), each
      with its behaviour on bad input.
    - [Codec], [Json], [JsonScan] ([src/internal/common.cpp]): hexadecimal,
      base64url, UUIDs, query strings; typed access to parsed JSON; the raw
      scanner [extract_json_member_raw], by which the bytes of a member are
      hashed.  The JSON parser itself (nlohmann) is the parameter [JsonLib].
      [Wide]: the conversions between UTF-8 and UTF-16.
    - [Crypto] ([crypto.cpp]): request encryption and signature checks, over
      the parameter [Crypto]; what is used of the primitives is [CryptoLaws].
      [sha256] hashes what the code hashes: BCrypt is told the size modulo
      2^32.  [Cng] models the calls to BCrypt behind those primitives one by
      one, with their failures.
    - [Scope], [Handles]: system handles, with scopes that close them and with
      owners that move them.
    - [Rim2] ([rim2.cpp]): the parser of signed release manifests.
    - [Clock] ([trusted_clock.cpp]), [Keyring] (the key list of
      [request_pipeline.cpp]).
    - [Hardware] ([hardware_evidence.cpp]): the SMBIOS scanner and the digest
      of the machine's components; [Machine] is what the machine answers.
    - [Download], [Sse] ([client.cpp]): download URLs, redirects, content
      ranges, the chain of trust of an artifact; server-sent events.
    - [Operation] ([operation.cpp]): operation requests and grants.
    - [World]: the state of a running client and the monad of its code, below.
    - [Http] ([http_client.cpp]), [StateStore] ([state_store.cpp]),
      [Identity] ([device_identity.cpp]), [HostIntegrity]
      ([host_integrity.cpp]), [Multipart] ([multipart.cpp]): the services of
      the client, in that monad.
    - [HttpHandles], [KeyHandles]: [Http] and [Identity] with the handles they
      open, in the objects that own them.
    - [SseStream]: the reader of [Sse] over a live response stream.
    - [Policy], [Pipeline], [Send], [Web], [Rotate] ([request_pipeline.cpp]):
      deadlines, retries and error classification; the requests and their
      verification; sending; the web requests and the streams; the rotation of
      the device key.  [Concurrent] cuts the key refresh at its locks and
      interleaves threads.  [Trust], [Wire] and [Offline] hold the theorems
      about them together.
    - [Payloads], [Client], [Fetch], [Debug], [Watch] ([client.cpp]): the JSON
      of the operations; the constructor and the operations; the download of
      an artifact; debug requests; the runner of an update stream.
    - [System], [Delivery]: all of it together, every operation of the client
      in any order ([run_op], [at_work]), and what its callbacks are told;
      [Answers]: what the operations send and what answers them.
    - [AsyncTask] ([include/swm/async_task.hpp]): a task and its callers;
      [Tasks]: the [*_async] methods, a task with its operation, and the life
      of the state that a task shares with its thread.
    - [MiniJson], [MiniCrypto], [MiniEnv], [Demo], [RotateDemo], [FetchDemo],
      [SystemDemo], [WireDemo], [ConcurrentDemo], [HostDemo]: concrete
      instances of the parameters and worked runs.  They only show that the
      hypotheses of the theorems can be met.

    ** State and outside world

    A [World] ([World.v]) is the state of one client: the pipeline's members
    ([Pipe]: keyring, session, identity, offline latch, policy, manifest), the
    process-wide clock state, the files and platform keys, the requests handed
    to the network so far, each with the WinHTTP handle it was sent on (server,
    TLS flag, timeouts, redirect policy), the tick counter and the number of
    outside calls made.  [M A] is [World -> Result A * World]: a throw keeps the changes made
    before it, as in the code.

    The components promise each other what they keep of a world through
    classes: [Frame] (the relation a component's steps stay in, [World]),
    [Serves] (the same for the services a pipeline user calls, [Send]) and
    [Clients] (for the operations, [Client]).  A client's theorem is proved
    against the class; [free_serves] and [keeps_trust_serves] are the
    instances.

    Everything outside the SDK (WinHTTP, BCrypt's random generator, NCrypt,
    DPAPI, the file system, the system clock, the machine, a stop request of
    another thread) is the class [Env]:
    functions of the number of the call, so that every answer may differ from
    the one before, including every failure.  No law of [Env] is assumed; where
    a theorem needs one (DPAPI returns what it protected, a flush does not lose
    bytes) it is a named hypothesis, and a witness meets it.

    Bytes and strings are [list ascii]; integers are [Z] with their width
    written out where the code wraps ([u32], [u64], [i64]).

    ** What the theorems show

    - Trust: whatever the application calls and the network answers, the keys
      held are certified by the root, the clock was set by a signed time, the
      session comes from a signed authorization ([client_trust_invariant]);
      data that [send_and_verify] returns is authentic and complete
      ([accepted_data_is_authentic], [check_authz_iff]).  [accepted] is what
      the theorems about operations say of data: signed for the nonce of a
      response and for the device of the client, by a certified key that the
      client holds, within the lifetime by its clock.
    - End to end: accepted data answers the very request that was sent, with
      its proof of possession, session and body, and was read from what the
      network answered to it ([answered], [answers_the_request]); the
      service opens the sealed body by the headers that came with it
      ([service_opens_request]); grants, receipts, heartbeats, tickets, events
      and feedback are what was asked and signed in answer to it
      ([authorization_answered], [reports_answered]).
    - Updates: what [check_update] returns answers its request, signed for it
      ([check_update_genuine]), a download ends with a verified artifact or the old file
      ([download_verified]), the installed file has the digest of a manifest
      that the root certified ([installed_file_is_certified]), and the session
      is sent to no other origin ([credentials_stay_home]).
    - Streams: every event and debug decision that reaches a callback was
      signed for the nonce with which its connection was asked for, events only
      after an authorization on the same connection ([deliveries_are_genuine]
      over a record of connections, messages and callbacks,
      [debug_decisions_genuine]); a stream makes progress, ends when asked and
      waits long enough before it connects again ([watch_progress]).
    - The operations: which options are accepted ([check_options_iff]), what
      blocks them ([offline_lock_blocks], [failed_evidence_blocks_heartbeat],
      [identity_failure_terminates]); the key rotation is all or nothing
      ([rotation_all_or_nothing]).
    - Parsers accept exactly what they should and return what was encoded:
      manifests, SMBIOS tables, event streams under any chunking, raw JSON
      members, content ranges, multipart bodies; reading from a live stream
      refines the reader on the chunks received ([next_stream_event_refines]).
    - Bounds and termination: sending ends within its attempts and deadline
      ([send_refines_retries], [send_web_refines_retries], [retry_schedule]); the trusted clock stays
      within 2500 ms of the server's and never runs back; one request at most
      leaves, over https, within its response limit.
    - Persistence: protected writes replace one file whole, leave it, or cut it
      when the closing flush fails unseen ([write_protected_outcomes]); identity,
      policy and offline budget survive a restart; the offline window is exactly
      24 hours, and an overrun locks.
    - The machine: which components make the hardware evidence
      ([hardware_evidence_iff]).
    - Paths: what a manifest names stays below the package root.
    - Concurrency: in every interleaving a task reports its outcome and invokes
      its callbacks once ([callbacks_exactly_once]), and its operation runs
      once and gives that outcome ([async_is_operation]).  Threads that refresh
      the keys exclude each other, and share one refresh unless they force it
      ([single_flight]), and each of them ends ([turns_bounded]).
    - System calls: the calls to CNG compute the primitives or fail
      ([calls_refine_crypto]); handles are closed once on every path, but for
      the two leaks that [identity_handles_owned] names
      ([handles_are_scoped], [http_handles_owned]).
    - Deviations of the code from what it means to do, stated as theorems about
      the code as it is: [repeated_data_is_accepted],
      [failure_reported_as_completion], [empty_arch_never_verifies],
      [bare_base_rejects_downloads], [zero_signature_misread],
      [flush_error_loses_state], [external_link_skips_root_trust],
      [dotted_name_refused], [commit_failure_loses_key],
      [complete_part_never_finishes], [dropped_task_terminates],
      [colliding_key_leaks], [session_outlives_expiry], [long_values_collide].

    ** Fuel

    The loops of the code that are not structural take fuel: the length of the
    buffer for scanners ([JsonScan], [Hardware], [Sse], [Codec]), since each
    turn consumes a byte, and the number of attempts for sending.
    [extract_terminates], [parse_smbios_table], [next_sse_chunk_independent]
    and [send_refines_retries] show that it is enough.  The loops over a
    response stream take a turn for each read or byte it has left ([save_loop],
    [next_stream_event], [debug_loop]; [stream_loops_finish],
    [next_stream_event_refines]); redirects and challenge rounds are counted as
    in the code; [backoff_loop] takes a turn for each 100 ms of the delay
    ([wait_bounds]), [lock_refresh] one for each 100 ms until its deadline
    ([alone_is_sequential]), [hash_pieces] one for each piece of a file
    ([calls_refine_crypto]).  The runner of an update stream is a step function,
    since its loop has no bound: [watch_progress] says what holds of its runs.

    [std::terminate] is the exception [terminate], which no handler of the
    client catches: the world then is the one the process ended in.

    ** Not modelled

    The vendored JSON and curve libraries (parameters); the conversion to wide
    strings at each call of Windows, where a text that is not UTF-8 is an
    error ([Wide] says which; elsewhere a wide string is its text); failures of
    BCrypt in hashing, but for the hash of a downloaded file ([sha_file]) and
    the calls in [Cng]; operations that run at the same moment in two threads, apart from
    the key refreshes of [Concurrent] and the tasks around them ([Tasks]):
    operations and turns of streams interleave whole; moves and destructors of
    [UpdateStream] and [Client]; the SDKs in other languages. *)
From Stdlib Require Export ZArith Lia String Ascii.
From stdpp Require Export base tactics numbers list gmap strings.

(** ** Text and bytes

    [std::string], [std::string_view], [std::vector<std::uint8_t>] ([Bytes])
    and [std::span<const std::uint8_t>] are all sequences of bytes in the
    code, and the code converts freely between them with [reinterpret_cast]
    and iterator constructors.  Both are [list ascii] here, so that those
    conversions are the identity. *)

Abbreviation text := (list ascii).
Abbreviation Bytes := (list ascii).

Declare Scope text_scope.
Delimit Scope text_scope with text.

(** A string literal of the code. *)
Definition lit (s : string) : text := list_ascii_of_string s.
Notation "& s" := (lit s) (at level 1, s at level 0, format "& s") : text_scope.
Arguments lit : simpl never.

#[global] Open Scope text_scope.
#[global] Open Scope Z_scope.

(** The size of a buffer as the integer the code compares. *)
Definition zlen {A} (l : list A) : Z := Z.of_nat (length l).

(** ** Machine integers

    An integer of the code is a [Z]; the functions below are the conversions
    to the fixed-width types. *)

Definition u8 (z : Z) : Z := z mod 2 ^ 8.
Definition u16 (z : Z) : Z := z mod 2 ^ 16.
Definition u32 (z : Z) : Z := z mod 2 ^ 32.
Definition u64 (z : Z) : Z := z mod 2 ^ 64.
Definition i32 (z : Z) : Z := (z + 2 ^ 31) mod 2 ^ 32 - 2 ^ 31.
Definition i64 (z : Z) : Z := (z + 2 ^ 63) mod 2 ^ 64 - 2 ^ 63.

(** The value of a byte and the byte of a value. *)
Definition zb (a : ascii) : Z := Z.of_N (N_of_ascii a).
Definition bz (z : Z) : ascii := ascii_of_N (Z.to_N (u8 z)).

Lemma zb_range a : 0 <= zb a < 256.
Proof.
  unfold zb. pose proof (N_ascii_bounded a). lia.
Qed.

Lemma zb_bz z : zb (bz z) = u8 z.
Proof.
  unfold zb, bz, u8. pose proof (Z.mod_pos_bound z (2 ^ 8) ltac:(lia)).
  rewrite N_ascii_embedding; lia.
Qed.

Lemma bz_zb a : bz (zb a) = a.
Proof.
  unfold bz, u8. pose proof (zb_range a). rewrite Z.mod_small by lia.
  unfold zb. rewrite N2Z.id. apply ascii_N_embedding.
Qed.

Lemma zb_inj a b : zb a = zb b -> a = b.
Proof. intros H. rewrite <- (bz_zb a), H. apply bz_zb. Qed.

Lemma zb_bz_small z : 0 <= z < 256 -> zb (bz z) = z.
Proof. intros. rewrite zb_bz. unfold u8. apply Z.mod_small. lia. Qed.

Lemma bz_u8 z : bz (u8 z) = bz z.
Proof. unfold bz, u8. now rewrite Z.mod_mod by lia. Qed.

Lemma u32_small z : 0 <= z < 2 ^ 32 -> u32 z = z.
Proof. apply Z.mod_small. Qed.
Lemma u64_small z : 0 <= z < 2 ^ 64 -> u64 z = z.
Proof. apply Z.mod_small. Qed.
Lemma i64_small z : - 2 ^ 63 <= z < 2 ^ 63 -> i64 z = z.
Proof. intros. unfold i64. rewrite Z.mod_small; lia. Qed.
Lemma i64_range z : - 2 ^ 63 <= i64 z < 2 ^ 63.
Proof. unfold i64. pose proof (Z.mod_pos_bound (z + 2 ^ 63) (2 ^ 64) ltac:(lia)). lia. Qed.

Lemma zlen_nonneg {A} (l : list A) : 0 <= zlen l.
Proof. unfold zlen. lia. Qed.
Lemma zlen_app {A} (l k : list A) : zlen (l ++ k) = zlen l + zlen k.
Proof. unfold zlen. rewrite length_app. lia. Qed.
Lemma zlen_cons {A} (x : A) l : zlen (x :: l) = 1 + zlen l.
Proof. unfold zlen. cbn. lia. Qed.
Lemma zlen_nil {A} : zlen (@nil A) = 0.
Proof. reflexivity. Qed.

Lemma zlen_pos {A} (l : list A) : 0 < zlen l <-> l <> [].
Proof. destruct l; rewrite ?zlen_cons; [done|]. pose proof (zlen_nonneg l). split; [done|lia]. Qed.

Create HintDb swm.
#[export] Hint Resolve zb_range zlen_nonneg : swm.
#[export] Hint Rewrite @zlen_app @zlen_cons @zlen_nil : zlen.

(** Equations between bytes are decided through their values. *)
Ltac byte_lia :=
  repeat match goal with
  | a : ascii |- _ =>
      lazymatch goal with
      | _ : 0 <= zb a < 256 |- _ => fail
      | _ => pose proof (zb_range a)
      end
  end; lia.

(** ** Characters, in the "C" locale *)

Definition between (lo hi z : Z) : bool := (lo <=? z) && (z <=? hi).
Definition isdigit (c : ascii) : bool := between 48 57 (zb c).
Definition isupper (c : ascii) : bool := between 65 90 (zb c).
Definition islower (c : ascii) : bool := between 97 122 (zb c).
Definition isalpha (c : ascii) : bool := isupper c || islower c.
Definition isalnum (c : ascii) : bool := isalpha c || isdigit c.
Definition isxdigit (c : ascii) : bool :=
  isdigit c || between 65 70 (zb c) || between 97 102 (zb c).
(** [isspace]: space, [\t], [\n], [\v], [\f], [\r]. *)
Definition isspace (c : ascii) : bool := (zb c =? 32) || between 9 13 (zb c).
Definition tolower (c : ascii) : ascii :=
  if isupper c then bz (zb c + 32) else c.

Definition nl : ascii := "010"%char.
Definition cr : ascii := "013"%char.
Definition quote : ascii := "034"%char.
Definition backslash : ascii := "092"%char.
Definition nul : ascii := "000"%char.

Lemma betweenP lo hi z : between lo hi z = true <-> lo <= z <= hi.
Proof. unfold between. rewrite andb_true_iff, !Z.leb_le. lia. Qed.

(** Booleans of the code as propositions. *)
Ltac breflect :=
  repeat match goal with
  | H : context [bool_decide _ = true] |- _ => rewrite bool_decide_eq_true in H
  | H : context [bool_decide _ = false] |- _ => rewrite bool_decide_eq_false in H
  | H : _ && _ = true |- _ => apply andb_true_iff in H as [? ?]
  | H : _ || _ = false |- _ => apply orb_false_iff in H as [? ?]
  | H : negb _ = true |- _ => apply negb_true_iff in H
  | H : negb _ = false |- _ => apply negb_false_iff in H
  | H : (_ =? _)%Z = true |- _ => apply Z.eqb_eq in H
  | H : (_ =? _)%Z = false |- _ => apply Z.eqb_neq in H
  | H : (_ <=? _)%Z = true |- _ => apply Z.leb_le in H
  | H : (_ <=? _)%Z = false |- _ => apply Z.leb_gt in H
  | H : (_ <? _)%Z = true |- _ => apply Z.ltb_lt in H
  | H : (_ <? _)%Z = false |- _ => apply Z.ltb_ge in H
  | H : (_ >? _)%Z = true |- _ => apply Z.gtb_lt in H
  | H : (_ >? _)%Z = false |- _ => rewrite Z.gtb_ltb in H
  | H : (_ >=? _)%Z = true |- _ => apply Z.geb_le in H
  | H : (_ >=? _)%Z = false |- _ => rewrite Z.geb_leb in H
  | H : (_ =? _)%nat = true |- _ => apply Nat.eqb_eq in H
  | H : (_ =? _)%nat = false |- _ => apply Nat.eqb_neq in H
  | H : (_ <=? _)%nat = true |- _ => apply Nat.leb_le in H
  | H : (_ <=? _)%nat = false |- _ => apply Nat.leb_gt in H
  | H : (_ <? _)%nat = true |- _ => apply Nat.ltb_lt in H
  | H : (_ <? _)%nat = false |- _ => apply Nat.ltb_ge in H
  end.

(** Lists. *)
Lemma forallb_Forall {A} (p : A -> bool) l :
  forallb p l = true <-> Forall (fun x => p x = true) l.
Proof.
  induction l; cbn.
  - split; [constructor | done].
  - rewrite andb_true_iff, IHl, Forall_cons. done.
Qed.

Lemma take_app_exact {A} (l k : list A) n :
  n = length l -> take n (l ++ k) = l.
Proof. intros ->. apply take_app_length. Qed.
Lemma drop_app_exact {A} (l k : list A) n :
  n = length l -> drop n (l ++ k) = k.
Proof. intros ->. apply drop_app_length. Qed.

(** Finite checks by computation: a property of the integers below a bound,
    and of the bytes. *)
Lemma range_check (p : Z -> bool) n :
  forallb p (seqZ 0 n) = true -> forall d, 0 <= d < n -> p d = true.
Proof.
  rewrite forallb_forall. intros H d Hd. apply H.
  apply list_elem_of_In, elem_of_seqZ. lia.
Qed.

Definition all_bytes : list ascii := bz <$> seqZ 0 256.

Lemma byte_check (p : ascii -> bool) :
  forallb p all_bytes = true -> forall a, p a = true.
Proof.
  intros H a. rewrite <- (bz_zb a).
  refine (range_check (fun d => p (bz d)) 256 _ (zb a) (zb_range a)).
  unfold all_bytes in H. rewrite forallb_forall in *. intros d Hd. apply H.
  apply list_elem_of_In. apply list_elem_of_fmap_2, list_elem_of_In. done.
Qed.

Lemma range_dec (P : Z -> Prop) `{forall d, Decision (P d)} n :
  forallb (fun d => bool_decide (P d)) (seqZ 0 n) = true -> forall d, 0 <= d < n -> P d.
Proof. intros Hc d Hd. eapply bool_decide_eq_true_1, (range_check _ _ Hc d Hd). Qed.

Lemma byte_dec (P : ascii -> Prop) `{forall a, Decision (P a)} :
  forallb (fun a => bool_decide (P a)) all_bytes = true -> forall a, P a.
Proof. intros Hc a. eapply bool_decide_eq_true_1, (byte_check _ Hc a). Qed.

(** Induction on the length of a list. *)
Lemma list_len_ind {A} (P : list A -> Prop) :
  (forall l, (forall k, (length k < length l)%nat -> P k) -> P l) -> forall l, P l.
Proof.
  intros H l. remember (length l) as n eqn:E. revert l E.
  induction n as [n IH] using lt_wf_ind. intros l ->. apply H. intros k Hk. by eapply IH.
Qed.

(** A goal about one byte, by computing it for all 256. *)
Ltac byte_cases b := revert b; refine (byte_dec _ _); vm_compute; reflexivity.
