(* ===== verification/StdString.v ===== *)
(** * The C++ standard-library text operations the SDK uses

    [find], [substr], [starts_with], [getline], [to_string], [stoll],
    [stoull] and the ordering of [std::string], on byte lists.  A position is
    a [nat]; [std::string::npos] is [None]. *)
From S2P Require Import Prelude.

(** ** Searching *)

(** [s.find(c)] and [s.find(c, pos)]. *)
Fixpoint find_char (c : ascii) (s : text) : option nat :=
  match s with
  | [] => None
  | x :: s' => if decide (x = c) then Some 0%nat else S <$> find_char c s'
  end.

Definition find_from (c : ascii) (s : text) (pos : nat) : option nat :=
  Nat.add pos <$> find_char c (drop pos s).

(** [s.starts_with(p)], and [s.rfind(p, 0) == 0]. *)
Fixpoint starts_with (p s : text) : bool :=
  match p, s with
  | [], _ => true
  | _ :: _, [] => false
  | a :: p', b :: s' => bool_decide (a = b) && starts_with p' s'
  end.

(** [s.find(p)]. *)
Fixpoint find_sub (p s : text) : option nat :=
  if starts_with p s then Some 0%nat else
  match s with
  | [] => None
  | _ :: s' => S <$> find_sub p s'
  end.

(** [s.find_first_of(set, pos)]. *)
Fixpoint find_pred (p : ascii -> bool) (s : text) : option nat :=
  match s with
  | [] => None
  | x :: s' => if p x then Some 0%nat else S <$> find_pred p s'
  end.
Definition find_pred_from (p : ascii -> bool) (s : text) (pos : nat) : option nat :=
  Nat.add pos <$> find_pred p (drop pos s).

(** [s.rfind(c, pos)]: the last occurrence at or before [pos]. *)
Fixpoint rfind_all (c : ascii) (s : text) : option nat :=
  match s with
  | [] => None
  | x :: s' =>
      match rfind_all c s' with
      | Some i => Some (S i)
      | None => if decide (x = c) then Some 0%nat else None
      end
  end.
Definition rfind (c : ascii) (s : text) (pos : nat) : option nat :=
  rfind_all c (take (S pos) s).

(** [s.substr(pos, len)] for [pos <= s.size()], and [s.substr(pos)]. *)
Definition substr (s : text) (pos len : nat) : text := take len (drop pos s).
Definition substr_to (s : text) (pos : nat) (stop : option nat) : text :=
  match stop with
  | Some e => substr s pos (e - pos)
  | None => drop pos s
  end.

(** ** [std::getline] on a string stream: the line and the unread rest *)

Definition getline (s : text) : option (text * text) :=
  match s with
  | [] => None
  | _ =>
      match find_char nl s with
      | Some i => Some (take i s, drop (S i) s)
      | None => Some (s, [])
      end
  end.

(** ** Decimal printing and parsing *)

Definition digit_char (d : Z) : ascii := bz (48 + d).
Definition digit_val (c : ascii) : Z := zb c - 48.

Fixpoint dec_digits (fuel : nat) (n : Z) (acc : text) : text :=
  match fuel with
  | O => acc
  | S f =>
      if n <? 10 then digit_char n :: acc
      else dec_digits f (n / 10) (digit_char (n mod 10) :: acc)
  end.

Definition dec_fuel (n : Z) : nat := S (Z.to_nat (Z.log2 n)).
Definition dec (n : Z) : text := dec_digits (dec_fuel n) n [].

(** [std::to_string]. *)
Definition to_string (z : Z) : text :=
  if z <? 0 then "-"%char :: dec (- z) else dec z.

Fixpoint parse_digits (acc : Z) (s : text) : Z * text :=
  match s with
  | c :: s' => if isdigit c then parse_digits (10 * acc + digit_val c) s' else (acc, s)
  | [] => (acc, [])
  end.

Fixpoint skip_space (s : text) : text :=
  match s with
  | c :: s' => if isspace c then skip_space s' else s
  | [] => []
  end.

(** The number [strtoll]/[strtoull] read at the front of a text, before the
    range check; [None] when there is no digit ([std::invalid_argument]). *)
Definition scan_integer (s : text) : option Z :=
  let unsigned t :=
    match t with
    | c :: _ => if isdigit c then Some (parse_digits 0 t).1 else None
    | [] => None
    end in
  match skip_space s with
  | "-"%char :: t => Z.opp <$> unsigned t
  | "+"%char :: t => unsigned t
  | t => unsigned t
  end.

(** [std::stoll] and [std::stoull]; [None] is the exception
    ([invalid_argument] or [out_of_range]).  [strtoull] negates modulo 2^64. *)
Definition stoll (s : text) : option Z :=
  z ← scan_integer s;
  if (- 2 ^ 63 <=? z) && (z <? 2 ^ 63) then Some z else None.
Definition stoull (s : text) : option Z :=
  z ← scan_integer s;
  if (Z.abs z <? 2 ^ 64) then Some (u64 z) else None.

(** ** Ordering of [std::string]: lexicographic on unsigned bytes *)

Fixpoint text_leb (s t : text) : bool :=
  match s, t with
  | [], _ => true
  | _ :: _, [] => false
  | a :: s', b :: t' =>
      if zb a <? zb b then true else if zb b <? zb a then false else text_leb s' t'
  end.

(** * Lemmas *)

Lemma find_char_Some c s i :
  find_char c s = Some i ->
  exists s1 s2, s = s1 ++ c :: s2 /\ length s1 = i /\ c ∉ s1.
Proof.
  revert i. induction s as [|x s IH]; intros i; cbn; [done|].
  case_decide as Hx.
  - intros [= <-]. exists [], s. subst. split_and!; [done..|]. apply not_elem_of_nil.
  - destruct (find_char c s) as [j|]; [|done]. intros [= <-].
    destruct (IH j eq_refl) as (s1 & s2 & -> & <- & Hn).
    exists (x :: s1), s2. split_and!; [done..|].
    apply not_elem_of_cons. split; [congruence | done].
Qed.

Lemma find_char_None c s : find_char c s = None <-> c ∉ s.
Proof.
  induction s as [|x s IH]; cbn.
  - split; [intros _; apply not_elem_of_nil | done].
  - rewrite not_elem_of_cons. case_decide as Hx.
    + subst. split; [done | tauto].
    + destruct (find_char c s); cbn; split; try done.
      * intros [_ H]. apply IH in H. done.
      * intros _. split; [congruence | by apply IH].
Qed.

Lemma find_char_app c s t :
  c ∉ s -> find_char c (s ++ c :: t) = Some (length s).
Proof.
  induction s as [|x s IH]; cbn; intros Hn.
  - by rewrite decide_True.
  - apply not_elem_of_cons in Hn as [Hx Hn].
    rewrite decide_False by congruence. rewrite IH by done. done.
Qed.

Lemma getline_app s t : nl ∉ s -> getline (s ++ nl :: t) = Some (s, t).
Proof.
  intros Hn. unfold getline. rewrite find_char_app by done.
  destruct (s ++ nl :: t) eqn:E; [by destruct s|]. rewrite <- E.
  rewrite take_app_exact by done.
  replace (S (length s)) with (length (s ++ [nl])) by (rewrite length_app; cbn; lia).
  replace (s ++ nl :: t) with ((s ++ [nl]) ++ t) by (rewrite <- app_assoc; done).
  by rewrite drop_app_exact.
Qed.

Lemma starts_with_app p s : starts_with p (p ++ s) = true.
Proof. induction p; cbn; [done|]. by rewrite bool_decide_true. Qed.

Lemma starts_with_true p s :
  starts_with p s = true <-> exists t, s = p ++ t.
Proof.
  split.
  - revert s. induction p as [|a p IH]; intros [|b s]; cbn; try done; eauto.
    intros H. breflect. subst. destruct (IH s) as [t ->]; eauto.
  - intros [t ->]. apply starts_with_app.
Qed.

(** ** Decimal round trips *)

Lemma digit_char_val d : 0 <= d < 10 -> digit_val (digit_char d) = d.
Proof. intros. unfold digit_val, digit_char. rewrite zb_bz_small; lia. Qed.

Lemma digit_char_isdigit d : 0 <= d < 10 -> isdigit (digit_char d) = true.
Proof.
  intros. unfold isdigit, digit_char. apply betweenP. rewrite zb_bz_small; lia.
Qed.

Lemma dec_digits_parse fuel n acc rest a :
  0 <= n < 2 ^ Z.of_nat fuel -> (0 < fuel)%nat ->
  exists k, (forall r, parse_digits a (dec_digits fuel n acc ++ r) =
                  parse_digits (a * 10 ^ k + n) (acc ++ r)) /\ 0 <= k /\
            (a = 0 -> parse_digits a (dec_digits fuel n acc ++ rest) =
                  parse_digits n (acc ++ rest)).
Proof.
  revert n acc. induction fuel as [|f IH]; intros n acc Hn Hf; [lia|].
  cbn [dec_digits]. destruct (n <? 10) eqn:E; breflect.
  - exists 1. assert (forall r, parse_digits a ((digit_char n :: acc) ++ r) =
      parse_digits (a * 10 ^ 1 + n) (acc ++ r)) as H.
    { intros r. cbn [app parse_digits]. rewrite digit_char_isdigit, digit_char_val by lia.
      f_equal. lia. }
    split_and!; [done | lia |]. intros ->. rewrite H. done.
  - destruct f as [|f]; [cbn in Hn; lia|].
    assert (0 <= n / 10 < 2 ^ Z.of_nat (S f)) as Hd.
    { rewrite (Nat2Z.inj_succ (S f)), Z.pow_succ_r in Hn by lia.
      split; [apply Z.div_pos; lia|]. apply Z.div_lt_upper_bound; lia. }
    destruct (IH (n / 10) (digit_char (n mod 10) :: acc) Hd ltac:(lia)) as (k & Hk & Hk0 & _).
    assert (forall r, parse_digits a (dec_digits (S f) (n / 10)
       (digit_char (n mod 10) :: acc) ++ r) =
       parse_digits (a * 10 ^ (k + 1) + n) (acc ++ r)) as H.
    { intros r. rewrite Hk. cbn [app parse_digits].
      pose proof (Z.mod_pos_bound n 10 ltac:(lia)).
      rewrite digit_char_isdigit, digit_char_val by lia. f_equal.
      rewrite Z.pow_add_r by lia. pose proof (Z.div_mod n 10 ltac:(lia)). nia. }
    exists (k + 1). split_and!; [done | lia |]. intros ->. rewrite H. f_equal.
Qed.

Lemma dec_fuel_enough n : 0 <= n -> n < 2 ^ Z.of_nat (dec_fuel n).
Proof.
  intros Hn. unfold dec_fuel. rewrite Nat2Z.inj_succ, Z2Nat.id by apply Z.log2_nonneg.
  destruct (Z.eq_dec n 0) as [->|]; [cbn; lia|].
  apply Z.log2_spec. lia.
Qed.

Lemma parse_digits_dec n rest :
  0 <= n -> parse_digits 0 (dec n ++ rest) = parse_digits n rest.
Proof.
  intros Hn. unfold dec.
  destruct (dec_digits_parse (dec_fuel n) n [] rest 0) as (k & _ & _ & H).
  - split; [done | by apply dec_fuel_enough].
  - unfold dec_fuel. lia.
  - by apply H.
Qed.

Lemma dec_digits_Forall fuel n acc :
  0 <= n -> Forall (fun c => isdigit c = true) acc ->
  Forall (fun c => isdigit c = true) (dec_digits fuel n acc).
Proof.
  revert n acc. induction fuel as [|f IH]; intros n acc Hn Ha; cbn; [done|].
  destruct (n <? 10) eqn:E; breflect.
  - constructor; [apply digit_char_isdigit; lia | done].
  - apply IH; [apply Z.div_pos; lia|]. constructor; [|done].
    apply digit_char_isdigit. apply Z.mod_pos_bound. lia.
Qed.

Lemma dec_Forall n : 0 <= n -> Forall (fun c => isdigit c = true) (dec n).
Proof. intros. by apply dec_digits_Forall. Qed.

Lemma dec_digits_nonnil fuel n acc : (0 < fuel)%nat -> dec_digits fuel n acc <> [].
Proof.
  revert n acc. induction fuel as [|f IH]; intros n acc Hf; [lia|]. cbn.
  destruct (n <? 10); [done|]. destruct f; [done|]. apply IH. lia.
Qed.

Lemma dec_head n : 0 <= n -> exists c s, dec n = c :: s /\ isdigit c = true.
Proof.
  intros Hn. pose proof (dec_Forall n Hn) as H.
  pose proof (dec_digits_nonnil (dec_fuel n) n [] ltac:(unfold dec_fuel; lia)).
  unfold dec in *. destruct (dec_digits _ n []) as [|c s]; [done|].
  inversion H; subst. eauto.
Qed.

(** A text that does not start with a digit ends a number. *)
Definition no_digit_head (s : text) : Prop :=
  match s with c :: _ => isdigit c = false | [] => True end.

Lemma parse_digits_stop a s : no_digit_head s -> parse_digits a s = (a, s).
Proof. destruct s as [|c s]; cbn; [done|]. by intros ->. Qed.

Lemma isdigit_not_space c : isdigit c = true -> isspace c = false.
Proof.
  unfold isdigit, isspace. rewrite betweenP. intros.
  apply orb_false_iff. split; [lia|]. apply not_true_iff_false. rewrite betweenP. lia.
Qed.

Lemma isdigit_sign c :
  isdigit c = true -> c <> "-"%char /\ c <> "+"%char /\ c <> nl.
Proof.
  unfold isdigit. rewrite betweenP. intros H.
  split_and!; intros ->; destruct H as [H _]; by apply H.
Qed.

Lemma match_minus {A} (c : ascii) (x y z : A) :
  c <> "-"%char -> c <> "+"%char ->
  match c with "-"%char => x | "+"%char => y | _ => z end = z.
Proof. intros H1 H2. destruct c as [[] [] [] [] [] [] [] []]; done. Qed.

Lemma scan_integer_to_string z rest :
  no_digit_head rest -> scan_integer (to_string z ++ rest) = Some z.
Proof.
  intros Hr. unfold to_string. destruct (z <? 0) eqn:E; breflect.
  - unfold scan_integer. cbn [app skip_space].
    change (isspace "-") with false. cbn [fmap option_fmap option_map].
    destruct (dec_head (- z) ltac:(lia)) as (c & s & Hd & Hc).
    pose proof (parse_digits_dec (- z) rest ltac:(lia)) as Hp.
    rewrite Hd in *. cbn [app] in *. rewrite Hc, Hp, parse_digits_stop by done.
    cbn. f_equal. lia.
  - destruct (dec_head z ltac:(lia)) as (c & s & Hd & Hc).
    pose proof (parse_digits_dec z rest ltac:(lia)) as Hp.
    unfold scan_integer. rewrite Hd in *. cbn [app skip_space] in *.
    rewrite (isdigit_not_space c Hc).
    destruct (isdigit_sign c Hc) as (H1 & H2 & _).
    transitivity (Some (parse_digits 0 (c :: s ++ rest)).1).
    { rewrite <- (match_minus c (Z.opp <$> match s ++ rest with
         | c0 :: _ => if isdigit c0 then Some (parse_digits 0 (s ++ rest)).1 else None
         | [] => None end)
         (match s ++ rest with
         | c0 :: _ => if isdigit c0 then Some (parse_digits 0 (s ++ rest)).1 else None
         | [] => None end) (Some (parse_digits 0 (c :: s ++ rest)).1) H1 H2).
      destruct c as [[] [] [] [] [] [] [] []]; try done; by rewrite Hc. }
    rewrite Hp, parse_digits_stop by done. done.
Qed.

Lemma stoll_to_string z rest :
  - 2 ^ 63 <= z < 2 ^ 63 -> no_digit_head rest ->
  stoll (to_string z ++ rest) = Some z.
Proof.
  intros Hz Hr. unfold stoll. rewrite scan_integer_to_string by done. cbn.
  assert ((- 2 ^ 63 <=? z) && (z <? 2 ^ 63) = true) as ->; [|done].
  apply andb_true_iff. lia.
Qed.

Lemma to_string_inj x y : to_string x = to_string y -> x = y.
Proof.
  intros H. pose proof (scan_integer_to_string x [] I) as Hx.
  rewrite app_nil_r, H in Hx. pose proof (scan_integer_to_string y [] I) as Hy.
  rewrite app_nil_r in Hy. congruence.
Qed.

Lemma to_string_no_nl z : nl ∉ to_string z.
Proof.
  assert (forall n, 0 <= n -> nl ∉ dec n) as H.
  { intros n Hn Hin. pose proof (dec_Forall n Hn) as HF.
    rewrite Forall_forall in HF. apply HF in Hin. done. }
  unfold to_string. destruct (z <? 0) eqn:E; breflect; [|apply H; lia].
  apply not_elem_of_cons. split; [done|]. apply H. lia.
Qed.

#[export] Hint Resolve to_string_no_nl starts_with_app : swm.

Example to_string_ex : to_string (-1203) = &"-1203". Proof. reflexivity. Qed.
Example stoull_ex : stoull (&" +12x") = Some 12. Proof. reflexivity. Qed.
Example stoull_neg : stoull (&"-1") = Some (2 ^ 64 - 1). Proof. reflexivity. Qed.

(** ** The order of texts is total *)

Lemma text_leb_refl s : text_leb s s = true.
Proof. induction s as [|a s IH]; cbn; [done|]. rewrite Z.ltb_irrefl. done. Qed.

Lemma text_leb_total s t : text_leb s t = true \/ text_leb t s = true.
Proof.
  revert t. induction s as [|a s IH]; intros [|b t]; cbn; auto.
  destruct (zb a <? zb b) eqn:E1; [by left|].
  destruct (zb b <? zb a) eqn:E2; [by right|]. apply IH.
Qed.

Lemma text_leb_antisym s t :
  text_leb s t = true -> text_leb t s = true -> s = t.
Proof.
  revert t. induction s as [|a s IH]; intros [|b t]; cbn; try done.
  destruct (zb a <? zb b) eqn:E1, (zb b <? zb a) eqn:E2; try done; breflect; try lia.
  intros. f_equal; [apply zb_inj; lia | by apply IH].
Qed.

Lemma text_leb_trans s t u :
  text_leb s t = true -> text_leb t u = true -> text_leb s u = true.
Proof.
  revert t u. induction s as [|a s IH]; intros [|b t] [|c u]; cbn; try done.
  destruct (zb a <? zb b) eqn:E1, (zb b <? zb a) eqn:E2,
    (zb b <? zb c) eqn:E3, (zb c <? zb b) eqn:E4,
    (zb a <? zb c) eqn:E5, (zb c <? zb a) eqn:E6; try done;
    breflect; try lia; eauto.
Qed.

(** ** Substring search *)

Lemma find_sub_Some p s i : find_sub p s = Some i ->
  s = take i s ++ p ++ drop (i + length p) s /\ (i + length p <= length s)%nat.
Proof.
  revert i. induction s as [|x s IH]; intros i; cbn [find_sub].
  - destruct (starts_with p []) eqn:E; [|done]. intros [= <-].
    apply starts_with_true in E as [t E]. symmetry in E. apply app_nil in E as [-> ->]. done.
  - destruct (starts_with p (x :: s)) eqn:E.
    + intros [= <-]. apply starts_with_true in E as [t E]. rewrite E.
      cbn [take app Nat.add]. rewrite take_0, drop_app_length, length_app. split; [done|lia].
    + destruct (find_sub p s) as [j|]; [|done]. intros [= <-].
      destruct (IH j eq_refl) as [Hs Hl]. cbn. split; [by f_equal|lia].
Qed.

Lemma find_from_Some c s pos i : find_from c s pos = Some i ->
  s !! i = Some c /\ (pos <= i)%nat /\ c ∉ substr s pos (i - pos).
Proof.
  unfold find_from. destruct (find_char c (drop pos s)) as [j|] eqn:E; [|done].
  intros [= <-]. apply find_char_Some in E as (s1 & s2 & E & <- & Hn).
  split_and!; [|lia|].
  - rewrite <- lookup_drop, E. by rewrite lookup_app_r, Nat.sub_diag by lia.
  - unfold substr. rewrite E. replace (pos + length s1 - pos)%nat with (length s1) by lia.
    by rewrite take_app_length.
Qed.

(** A text cut around position [i]. *)
Lemma cut_at (s : text) pos i c : s !! i = Some c -> (pos <= i)%nat ->
  drop pos s = substr s pos (i - pos) ++ c :: drop (S i) s.
Proof.
  intros Hi Hp. unfold substr.
  rewrite <- (take_drop (i - pos) (drop pos s)) at 1. f_equal.
  rewrite drop_drop. replace (pos + (i - pos))%nat with i by lia. by apply drop_S.
Qed.

Lemma stoull_to_string z rest :
  0 <= z < 2 ^ 64 -> no_digit_head rest -> stoull (to_string z ++ rest) = Some z.
Proof.
  intros Hz Hr. unfold stoull. rewrite scan_integer_to_string by done. cbn.
  rewrite (proj2 (Z.ltb_lt _ _)) by lia. by rewrite u64_small.
Qed.

Lemma stoull_range s z : stoull s = Some z -> 0 <= z < 2 ^ 64.
Proof.
  unfold stoull. destruct (scan_integer s) as [y|]; [|done]. cbn. case_match; [|done].
  intros [= <-]. apply Z.mod_pos_bound. lia.
Qed.

Lemma to_string_digits z : 0 <= z -> Forall (fun c => isdigit c = true) (to_string z) /\ to_string z <> [].
Proof.
  intros Hz. unfold to_string. rewrite (proj2 (Z.ltb_ge _ _)) by done.
  split; [by apply dec_Forall|]. destruct (dec_head z Hz) as (c & s & -> & _). done.
Qed.

Lemma to_string_notin z c : 0 <= z -> isdigit c = false -> c ∉ to_string z.
Proof.
  intros Hz Hc Hin. destruct (to_string_digits z Hz) as [H _].
  rewrite Forall_forall in H. apply H in Hin. congruence.
Qed.
