(* ===== verification/Errors.v ===== *)
(** * Errors and fallible results

    [include/swm/error.hpp]: the error kinds, the failure action of an
    integrity error and [swm::Error].  A fallible function returns a
    [Result]; an exception is either a [swm::Error] or any other
    [std::exception] (a JSON type error, a filesystem error, [std::logic_error]),
    which a [catch (const Error&)] does not catch. *)
From S2P Require Import Prelude StdString.

Inductive ErrorKind :=
  | Configuration | Validation | Network | Timeout | Clock | Protocol
  | Cryptographic | Identity | Unauthorized | Session | DeviceBlocked
  | UnsupportedVersion | UpdateRegionBlocked | FeedbackDisabled | Integrity
  | OperationAuthorization | OfflineBudget | RateLimit | Api.

#[global] Instance ErrorKind_eq_dec : EqDecision ErrorKind.
Proof. solve_decision. Defined.

Inductive IntegrityFailureAction := DenyOperations | ShutdownClient.

#[global] Instance IntegrityFailureAction_eq_dec : EqDecision IntegrityFailureAction.
Proof. solve_decision. Defined.

Record Error := mkError {
  kind : ErrorKind;
  status_code : Z;
  service_code : text;
  message : text;
  response_body : text;
  failure_action : IntegrityFailureAction;
  minimum_supported_version : text
}.

#[global] Instance Error_eq_dec : EqDecision Error.
Proof. solve_decision. Defined.

(** An exception in flight. *)
Inductive Exn :=
  | Swm (e : Error)
  | StdExn (what : text).

#[global] Instance Exn_eq_dec : EqDecision Exn.
Proof. solve_decision. Defined.

(** The constructor of [swm::Error] with its default arguments. *)
Definition error (k : ErrorKind) (status : Z) (code msg : text) : Error :=
  mkError k status code msg [] ShutdownClient [].
Definition err (k : ErrorKind) (status : Z) (code msg : text) : Exn :=
  Swm (error k status code msg).

(** ** Results *)

Inductive Result (A : Type) :=
  | Ok (a : A)
  | Throw (x : Exn).
Arguments Ok {_} _.
Arguments Throw {_} _.

#[global] Instance Result_eq_dec `{EqDecision A} : EqDecision (Result A).
Proof. solve_decision. Defined.

#[global] Instance Result_ret : MRet Result := @Ok.
#[global] Instance Result_bind : MBind Result := fun _ _ f m =>
  match m with Ok a => f a | Throw x => Throw x end.
#[global] Instance Result_fmap : FMap Result := fun _ _ f m =>
  match m with Ok a => Ok (f a) | Throw x => Throw x end.

Definition is_ok {A} (r : Result A) : bool :=
  match r with Ok _ => true | Throw _ => false end.

(** [if (!cond) throw x]. *)
Definition require (cond : bool) (x : Exn) : Result unit :=
  if cond then Ok tt else Throw x.

Definition of_option {A} (o : option A) (x : Exn) : Result A :=
  match o with Some a => Ok a | None => Throw x end.

Lemma bind_Ok {A B} (m : Result A) (f : A -> Result B) b :
  (m ≫= f) = Ok b <-> exists a, m = Ok a /\ f a = Ok b.
Proof.
  destruct m as [a|x]; cbn; split; try done; eauto.
  - intros (a' & [= ->] & H). done.
  - intros (? & ? & _). done.
Qed.

Lemma bind_Throw {A B} (m : Result A) (f : A -> Result B) x :
  (m ≫= f) = Throw x <->
  m = Throw x \/ exists a, m = Ok a /\ f a = Throw x.
Proof.
  destruct m as [a|y]; cbn; split; intros H.
  - right. eauto.
  - destruct H as [?|(a' & [= ->] & H)]; done.
  - left. congruence.
  - destruct H as [[= ->]|(? & ? & _)]; done.
Qed.

Lemma require_Ok c x u : require c x = Ok u <-> c = true.
Proof. unfold require. destruct c, u; done. Qed.

Lemma require_Throw c x y : require c x = Throw y <-> c = false /\ y = x.
Proof. unfold require. destruct c; split; try done; intros; by destruct_and?; simplify_eq. Qed.

Lemma of_option_Ok {A} (o : option A) x a : of_option o x = Ok a <-> o = Some a.
Proof. destruct o; cbn; split; intros; simplify_eq; done. Qed.

Lemma fmap_Ok {A B} (m : Result A) (f : A -> B) b :
  (f <$> m) = Ok b <-> exists a, m = Ok a /\ b = f a.
Proof.
  destruct m as [a|x]; cbn; split; try done.
  - intros [= <-]. eauto.
  - intros (a' & [= ->] & ->). done.
  - intros (? & ? & _). done.
Qed.

(** Inversion of a chain of binds that returned. *)
Ltac inv_ok :=
  repeat match goal with
  | H : (_ ≫= _) = Ok _ |- _ => apply bind_Ok in H as (? & ? & ?)
  | H : (_ <$> _) = Ok _ |- _ => apply fmap_Ok in H as (? & ? & ?)
  | H : require _ _ = Ok _ |- _ => apply require_Ok in H
  | H : of_option _ _ = Ok _ |- _ => apply of_option_Ok in H
  | H : Ok _ = Ok _ |- _ => injection H as H; subst
  | H : Throw _ = Ok _ |- _ => discriminate H
  | H : Ok _ = Throw _ |- _ => discriminate H
  | H : mret _ = Ok _ |- _ => unfold mret, Result_ret in H
  end.

#[export] Hint Rewrite @bind_Ok @require_Ok @of_option_Ok : result.

(** A check, and what follows it. *)
Lemma require_then {A} c x (m : Result A) a :
  (require c x ≫= fun _ => m) = Ok a <-> c = true /\ m = Ok a.
Proof. rewrite bind_Ok. split; [intros (u & Hc%require_Ok & Hm); done|].
  intros [-> Hm]. by exists tt.
Qed.

Lemma bind_unit_Ok {A} (r : Result unit) (m : Result A) a :
  (r ≫= fun _ => m) = Ok a <-> r = Ok tt /\ m = Ok a.
Proof. rewrite bind_Ok. split; [intros ([] & ? & ?)|intros []]; eauto. Qed.
