(* ===== verification/Codec.v ===== *)
(** * Text and key encodings ([src/internal/common.cpp])

    Hexadecimal and base64url, key material, trimming and case folding, UUID
    formatting, URL escaping and the canonical query string. *)
From S2P Require Import Prelude StdString Errors.
From Stdlib Require Import Sorting.Permutation.

(** ** Hexadecimal *)

Definition hex_digit (d : Z) : ascii :=
  if d <? 10 then bz (48 + d) else bz (87 + d).

Definition hex_lower (value : Bytes) : text :=
  flat_map (fun b => [hex_digit (Z.shiftr (zb b) 4); hex_digit (Z.land (zb b) 15)]) value.

(** The digit [std::from_chars] accepts in base 16. *)
Definition hex_val (c : ascii) : option Z :=
  let z := zb c in
  if between 48 57 z then Some (z - 48)
  else if between 97 102 z then Some (z - 87)
  else if between 65 70 z then Some (z - 55)
  else None.

Definition invalid_hex : Exn := err Configuration 0 [] (&"invalid hex value").

(** One byte: [from_chars] must consume both characters. *)
Definition hex_byte (hi lo : ascii) : Result ascii :=
  match hex_val hi, hex_val lo with
  | Some h, Some l => Ok (bz (16 * h + l))
  | _, _ => Throw invalid_hex
  end.

Fixpoint hex_pairs (value : text) : Result Bytes :=
  match value with
  | [] => Ok []
  | hi :: lo :: rest =>
      b ← hex_byte hi lo;
      bs ← hex_pairs rest;
      Ok (b :: bs)
  | [_] => Throw invalid_hex
  end.

Definition hex_decode (value : text) : Result Bytes :=
  _ ← require (zlen value mod 2 =? 0) invalid_hex;
  hex_pairs value.

(** ** Base64url *)

Definition b64_char (d : Z) : ascii :=
  if d <? 26 then bz (65 + d)
  else if d <? 52 then bz (71 + d)
  else if d <? 62 then bz (d - 4)
  else if d =? 62 then "-"%char else "_"%char.

(** The decoding table: [+] and [/] are accepted besides [-] and [_]. *)
Definition b64_val (c : ascii) : option Z :=
  let z := zb c in
  if between 65 90 z then Some (z - 65)
  else if between 97 122 z then Some (z - 71)
  else if between 48 57 z then Some (z + 4)
  else if bool_decide (c = "-"%char) || bool_decide (c = "+"%char) then Some 62
  else if bool_decide (c = "_"%char) || bool_decide (c = "/"%char) then Some 63
  else None.

(** [while (bits >= 6)]: the characters pushed and the bits left. *)
Fixpoint b64_drain (fuel : nat) (accumulator bits : Z) : text * Z :=
  match fuel with
  | O => ([], bits)
  | S f =>
      if 6 <=? bits then
        let bits := bits - 6 in
        let c := b64_char (Z.land (Z.shiftr accumulator bits) 63) in
        let '(out, remaining) := b64_drain f accumulator bits in
        (c :: out, remaining)
      else ([], bits)
  end.

Fixpoint b64_encode_loop (accumulator bits : Z) (value : Bytes) : text :=
  match value with
  | [] =>
      if 0 <? bits then [b64_char (Z.land (u32 (Z.shiftl accumulator (6 - bits))) 63)]
      else []
  | byte :: rest =>
      let accumulator := Z.lor (u32 (Z.shiftl accumulator 8)) (zb byte) in
      let bits := bits + 8 in
      let '(out, bits) := b64_drain (Z.to_nat bits) accumulator bits in
      out ++ b64_encode_loop accumulator bits rest
  end.

Definition base64url_encode (value : Bytes) : text := b64_encode_loop 0 0 value.

Definition invalid_base64 : Exn := err Configuration 0 [] (&"invalid base64url value").

Fixpoint b64_decode_loop (accumulator bits : Z) (value : text) : Result Bytes :=
  match value with
  | [] => Ok []
  | character :: rest =>
      if bool_decide (character = "="%char) then Ok [] else
      match b64_val character with
      | None => Throw invalid_base64
      | Some decoded =>
          let accumulator := Z.lor (u32 (Z.shiftl accumulator 6)) decoded in
          let bits := bits + 6 in
          if 8 <=? bits then
            let bits := bits - 8 in
            out ← b64_decode_loop accumulator bits rest;
            Ok (bz (Z.land (Z.shiftr accumulator bits) 255) :: out)
          else b64_decode_loop accumulator bits rest
      end
  end.

Definition base64url_decode (value : text) : Result Bytes := b64_decode_loop 0 0 value.

(** ** Trimming and case folding *)

Definition trim_space (c : ascii) : bool := (zb c <=? 32) || (zb c =? 127).

Fixpoint drop_while (p : ascii -> bool) (s : text) : text :=
  match s with
  | c :: s' => if p c then drop_while p s' else s
  | [] => []
  end.

(** [++begin] while the front is blank, then [--end] while the back is. *)
Definition trim_ascii (value : text) : text :=
  reverse (drop_while trim_space (reverse (drop_while trim_space value))).

Definition lower_ascii (value : text) : text := tolower <$> value.

(** ** Key material: hexadecimal when it can be, base64url otherwise *)

Definition decode_key_material (value : text) : Result Bytes :=
  let cleaned := trim_ascii value in
  _ ← require (bool_decide (cleaned <> [])) (err Configuration 0 [] (&"empty key material"));
  if (zlen cleaned mod 2 =? 0) && forallb isxdigit cleaned
  then hex_decode cleaned
  else base64url_decode cleaned.

(** ** UUIDs *)

(** The five groups of a GUID's hexadecimal text. *)
Definition uuid_groups (hex : text) : text :=
  substr hex 0 8 ++ &"-" ++ substr hex 8 4 ++ &"-" ++ substr hex 12 4 ++
  &"-" ++ substr hex 16 4 ++ &"-" ++ drop 20 hex.

(** [random_uuid] on the sixteen random bytes it drew. *)
Definition random_uuid (bytes : Bytes) : text :=
  let bytes := alter (fun b => bz (Z.lor (Z.land (zb b) 15) 64)) 6%nat bytes in
  let bytes := alter (fun b => bz (Z.lor (Z.land (zb b) 63) 128)) 8%nat bytes in
  uuid_groups (hex_lower bytes).

(** [valid_uuid] of client.cpp. *)
Definition uuid_dash (index : nat) : bool :=
  bool_decide (index = 8%nat) || bool_decide (index = 13%nat) ||
  bool_decide (index = 18%nat) || bool_decide (index = 23%nat).

Definition valid_uuid (value : text) : bool :=
  if negb (zlen value =? 36) ||
     negb (bool_decide (value !! 8%nat = Some "-"%char)) ||
     negb (bool_decide (value !! 13%nat = Some "-"%char)) ||
     negb (bool_decide (value !! 18%nat = Some "-"%char)) ||
     negb (bool_decide (value !! 23%nat = Some "-"%char))
  then false
  else forallb (fun '(index, c) => uuid_dash index || isxdigit c)
         (imap pair value).

(** ** URL escaping and the canonical query *)

Definition upper_hex_digit (d : Z) : ascii :=
  if d <? 10 then bz (48 + d) else bz (55 + d).

Definition unreserved (c : ascii) : bool :=
  isalnum c || bool_decide (c = "-"%char) || bool_decide (c = "_"%char) ||
  bool_decide (c = "."%char) || bool_decide (c = "~"%char).

Definition escape_char (c : ascii) : text :=
  if unreserved c then [c]
  else ["%"%char; upper_hex_digit (Z.shiftr (zb c) 4); upper_hex_digit (Z.land (zb c) 15)].

Definition url_escape (value : text) : text := flat_map escape_char value.

(** The items between [&]; the loop of [canonical_query]. *)
Fixpoint split_on_fuel (fuel : nat) (sep : ascii) (value : text) : list text :=
  match fuel with
  | O => []
  | S f =>
      match find_char sep value with
      | None => [value]
      | Some e => take e value :: split_on_fuel f sep (drop (S e) value)
      end
  end.
Definition split_on (sep : ascii) (value : text) : list text :=
  split_on_fuel (S (length value)) sep value.

Definition query_pair (item : text) : text * text :=
  match find_char "="%char item with
  | None => (item, [])
  | Some separator => (take separator item, drop (S separator) item)
  end.

(** [std::pair]'s [operator<=] and a sort by it. *)
Definition pair_leb (p q : text * text) : bool :=
  if bool_decide (p.1 = q.1) then text_leb p.2 q.2 else text_leb p.1 q.1.

Fixpoint insert_pair (p : text * text) (l : list (text * text)) : list (text * text) :=
  match l with
  | [] => [p]
  | q :: l' => if pair_leb p q then p :: l else q :: insert_pair p l'
  end.
Fixpoint sort_pairs (l : list (text * text)) : list (text * text) :=
  match l with
  | [] => []
  | p :: l' => insert_pair p (sort_pairs l')
  end.

Definition escape_pair (p : text * text) : text :=
  url_escape p.1 ++ &"=" ++ url_escape p.2.

Fixpoint join (sep : text) (l : list text) : text :=
  match l with
  | [] => []
  | [x] => x
  | x :: l' => x ++ sep ++ join sep l'
  end.

Definition query_items (query : text) : list text :=
  let value := match query with "?"%char :: rest => rest | _ => query end in
  filter (fun item => item <> []) (split_on "&"%char value).

Definition canonical_query (query : text) : text :=
  match query with
  | [] => []
  | _ => join (&"&") (escape_pair <$> sort_pairs (query_pair <$> query_items query))
  end.

Example hex_ex : hex_lower (&"Az") = &"417a". Proof. reflexivity. Qed.
Example b64_ex1 : base64url_encode (&"Hello") = &"SGVsbG8". Proof. reflexivity. Qed.
Example b64_ex2 : base64url_decode (&"SGVsbG8=") = Ok (&"Hello"). Proof. reflexivity. Qed.
Example cq_ex : canonical_query (&"?b=2&a=x y&&a") = &"a=&a=x%20y&b=2".
Proof. vm_compute. reflexivity. Qed.

(** * Lemmas *)

(** ** Hexadecimal *)

Lemma hex_val_digit d : 0 <= d < 16 -> hex_val (hex_digit d) = Some d.
Proof. by apply (range_dec (fun d => hex_val (hex_digit d) = Some d) 16). Qed.

Lemma nibbles b : 16 * Z.shiftr (zb b) 4 + Z.land (zb b) 15 = zb b.
Proof.
  rewrite Z.shiftr_div_pow2 by lia. change 15 with (Z.ones 4).
  rewrite Z.land_ones by lia. pose proof (Z.div_mod (zb b) (2 ^ 4)). lia.
Qed.

Lemma nibble_hi b : 0 <= Z.shiftr (zb b) 4 < 16.
Proof.
  pose proof (zb_range b). rewrite Z.shiftr_div_pow2 by lia.
  split; [apply Z.div_pos; lia | apply Z.div_lt_upper_bound; lia].
Qed.

Lemma nibble_lo b : 0 <= Z.land (zb b) 15 < 16.
Proof. change 15 with (Z.ones 4). rewrite Z.land_ones by lia. apply Z.mod_pos_bound. lia. Qed.

#[export] Hint Resolve nibble_hi nibble_lo : swm.

Lemma hex_lower_cons b bs :
  hex_lower (b :: bs) =
  hex_digit (Z.shiftr (zb b) 4) :: hex_digit (Z.land (zb b) 15) :: hex_lower bs.
Proof. done. Qed.

Lemma hex_lower_length bs : length (hex_lower bs) = (2 * length bs)%nat.
Proof. induction bs as [|b bs IH]; [done|]. rewrite hex_lower_cons. cbn. rewrite IH. lia. Qed.

Lemma hex_pairs_lower bs : hex_pairs (hex_lower bs) = Ok bs.
Proof.
  induction bs as [|b bs IH]; [done|]. rewrite hex_lower_cons. cbn [hex_pairs].
  unfold hex_byte. rewrite !hex_val_digit by auto with swm.
  rewrite nibbles, bz_zb. cbn. by rewrite IH.
Qed.

Definition is_lower_hex (c : ascii) : bool := isdigit c || between 97 102 (zb c).

Lemma is_lower_hex_xdigit c : is_lower_hex c = true -> isxdigit c = true.
Proof. unfold is_lower_hex, isxdigit. by destruct (isdigit c), (between 65 70 _). Qed.

Lemma hex_digit_lower d : 0 <= d < 16 -> is_lower_hex (hex_digit d) = true.
Proof. by apply (range_check (fun d => is_lower_hex (hex_digit d)) 16). Qed.

Lemma hex_lower_Forall bs : Forall (fun c => is_lower_hex c = true) (hex_lower bs).
Proof.
  induction bs as [|b bs IH]; [constructor|]. rewrite hex_lower_cons.
  repeat constructor; try apply hex_digit_lower; auto with swm.
Qed.

(** Hexadecimal decoding inverts hexadecimal encoding. *)
Theorem hex_roundtrip bs : hex_decode (hex_lower bs) = Ok bs.
Proof.
  unfold hex_decode. rewrite hex_pairs_lower. unfold zlen. rewrite hex_lower_length.
  replace (Z.of_nat (2 * length bs) mod 2) with 0; [done|].
  rewrite Nat2Z.inj_mul, Z.mul_comm. symmetry. apply Z.mod_mul. lia.
Qed.

(** ** Base64url *)

(** The reference encoder: three bytes at a time, by arithmetic. *)
Fixpoint b64_ref (value : Bytes) : text :=
  match value with
  | a :: b :: c :: rest =>
      b64_char (zb a / 4) :: b64_char (zb a mod 4 * 16 + zb b / 16) ::
      b64_char (zb b mod 16 * 4 + zb c / 64) :: b64_char (zb c mod 64) :: b64_ref rest
  | [a; b] =>
      [b64_char (zb a / 4); b64_char (zb a mod 4 * 16 + zb b / 16);
       b64_char (zb b mod 16 * 4)]
  | [a] => [b64_char (zb a / 4); b64_char (zb a mod 4 * 16)]
  | [] => []
  end.


Lemma testbit_above d n i : 0 <= d < 2 ^ n -> n <= i -> Z.testbit d i = false.
Proof.
  intros Hd Hi. destruct (Z.eq_dec d 0) as [->|]; [apply Z.bits_0|].
  apply Z.bits_above_log2; [lia|]. eapply Z.lt_le_trans; [|exact Hi].
  apply Z.log2_lt_pow2; lia.
Qed.

Lemma lor_add x n d :
  0 <= n -> 0 <= d < 2 ^ n -> Z.lor (x * 2 ^ n) d = x * 2 ^ n + d.
Proof.
  intros Hn Hd.
  assert (Z.land (x * 2 ^ n) d = 0) as Hland.
  { apply Z.bits_inj'. intros i Hi. rewrite Z.land_spec, Z.bits_0.
    destruct (Z.lt_ge_cases i n).
    - rewrite Z.mul_pow2_bits_low by lia. done.
    - rewrite (testbit_above d n i), andb_false_r by lia. done. }
  by rewrite <- Z.lxor_lor, <- Z.add_nocarry_lxor.
Qed.

Lemma lor_push x n d :
  0 <= n <= 32 -> 0 <= d < 2 ^ n ->
  Z.lor (u32 (Z.shiftl x n)) d = u32 (x * 2 ^ n + d).
Proof.
  intros Hn Hd. unfold u32. rewrite Z.shiftl_mul_pow2 by lia.
  replace (2 ^ 32) with (2 ^ (32 - n) * 2 ^ n)
    by (rewrite <- Z.pow_add_r by lia; f_equal; lia).
  assert (0 < 2 ^ n) by (apply Z.pow_pos_nonneg; lia).
  assert (0 < 2 ^ (32 - n)) by (apply Z.pow_pos_nonneg; lia).
  rewrite Z.mul_mod_distr_r, lor_add by lia.
  rewrite (Z.mul_comm (2 ^ (32 - n)) (2 ^ n)), (Z.rem_mul_r _ (2 ^ n)) by lia.
  rewrite Z.div_add_l, (Z.div_small d), Z.add_0_r by lia.
  rewrite (Z.add_comm (x * 2 ^ n)), Z.mod_add, (Z.mod_small d) by lia. ring.
Qed.

(** The [n] bits of an accumulator above position [k]. *)
Lemma bits_field x k n : 0 <= k -> 0 <= n ->
  Z.land (Z.shiftr x k) (Z.ones n) = (x / 2 ^ k) mod 2 ^ n.
Proof. intros. rewrite Z.land_ones, Z.shiftr_div_pow2 by lia. done. Qed.

Lemma sextet x k : 0 <= k -> Z.land (Z.shiftr x k) 63 = (x / 2 ^ k) mod 64.
Proof. intros. by apply (bits_field x k 6). Qed.
Lemma octet x k : 0 <= k -> Z.land (Z.shiftr x k) 255 = (x / 2 ^ k) mod 256.
Proof. intros. by apply (bits_field x k 8). Qed.

Ltac eval_pow2 :=
  repeat match goal with
  | |- context [2 ^ ?n] =>
      lazymatch n with Zpos _ => idtac | Z0 => idtac end;
      let v := eval vm_compute in (2 ^ n) in change (2 ^ n) with v
  end.
Ltac cons_eq := repeat match goal with
  | |- _ :: _ = _ :: _ => apply (f_equal2 cons)
  | |- ?x = ?x => reflexivity
  end.
Ltac div_lia := eval_pow2; Z.to_euclidean_division_equations; lia.

Lemma b64_push_byte accumulator b :
  Z.lor (u32 (Z.shiftl accumulator 8)) (zb b) = u32 (accumulator * 256 + zb b).
Proof. apply (lor_push _ 8); [lia|]. apply zb_range. Qed.

Lemma b64_tail_char accumulator k : 0 <= k <= 32 ->
  Z.land (u32 (Z.shiftl accumulator k)) 63 = (accumulator * 2 ^ k) mod 64.
Proof.
  intros. change 63 with (Z.ones 6). rewrite Z.land_ones, Z.shiftl_mul_pow2 by lia.
  unfold u32. generalize (accumulator * 2 ^ k) as y. intros. div_lia.
Qed.

Lemma b64_drain_S f x bits :
  b64_drain (S f) x bits =
  if 6 <=? bits then
    let '(out, remaining) := b64_drain f x (bits - 6) in
    (b64_char (Z.land (Z.shiftr x (bits - 6)) 63) :: out, remaining)
  else ([], bits).
Proof. done. Qed.

Lemma drain_8 x : b64_drain (Z.to_nat 8) x 8 = ([b64_char ((x / 4) mod 64)], 2).
Proof.
  change (Z.to_nat 8) with 8%nat. rewrite !b64_drain_S.
  change (6 <=? 8) with true. change (6 <=? 8 - 6) with false. cbv beta iota.
  by rewrite sextet by lia.
Qed.
Lemma drain_10 x : b64_drain (Z.to_nat 10) x 10 = ([b64_char ((x / 16) mod 64)], 4).
Proof.
  change (Z.to_nat 10) with 10%nat. rewrite !b64_drain_S.
  change (6 <=? 10) with true. change (6 <=? 10 - 6) with false. cbv beta iota.
  by rewrite sextet by lia.
Qed.
Lemma drain_12 x :
  b64_drain (Z.to_nat 12) x 12 =
  ([b64_char ((x / 64) mod 64); b64_char (x mod 64)], 0).
Proof.
  change (Z.to_nat 12) with 12%nat. rewrite !b64_drain_S.
  change (6 <=? 12) with true. change (6 <=? 12 - 6) with true.
  change (6 <=? 12 - 6 - 6) with false. cbv beta iota. rewrite !sextet by lia.
  change (12 - 6 - 6) with 0. by rewrite Z.div_1_r.
Qed.

(** The loop from an aligned accumulator is the reference encoder: the bits
    already written never influence the output. *)
Lemma b64_encode_loop_ref value accumulator :
  b64_encode_loop accumulator 0 value = b64_ref value.
Proof.
  revert accumulator. induction value as [value IH] using list_len_ind. intros acc.
  destruct value as [|a [|b [|c rest]]]; [done|..];
    cbn [b64_encode_loop b64_ref]; rewrite ?b64_push_byte, drain_8;
    change (2 + 8) with 10; rewrite ?drain_10;
    change (4 + 8) with 12; rewrite ?drain_12.
  - change (0 <? 2) with true. change (6 - 2) with 4. rewrite b64_tail_char by lia.
    unfold u32. cbn [app]. pose proof (zb_range a). cons_eq; apply (f_equal b64_char); div_lia.
  - change (0 <? 4) with true. change (6 - 4) with 2. rewrite b64_tail_char by lia.
    unfold u32. cbn [app]. pose proof (zb_range a). pose proof (zb_range b).
    cons_eq; apply (f_equal b64_char); div_lia.
  - rewrite IH by (cbn; lia).
    unfold u32. cbn [app]. pose proof (zb_range a). pose proof (zb_range b).
    pose proof (zb_range c). cons_eq; apply (f_equal b64_char); div_lia.
Qed.

Lemma base64url_encode_eq value : base64url_encode value = b64_ref value.
Proof. apply b64_encode_loop_ref. Qed.

(** The accumulator loop of [base64url_encode] computes the reference
    encoding, whatever its 32-bit accumulator overflows with. *)
Theorem base64url_encode_ref value : base64url_encode value = b64_ref value.
Proof. apply b64_encode_loop_ref. Qed.

Lemma b64_val_char d : 0 <= d < 64 -> b64_val (b64_char d) = Some d.
Proof. by apply (range_dec (fun d => b64_val (b64_char d) = Some d) 64). Qed.
Lemma b64_char_not_pad d : 0 <= d < 64 -> b64_char d <> "="%char.
Proof. by apply (range_dec (fun d => b64_char d <> "="%char) 64). Qed.
Lemma b64_char_not_space d : 0 <= d < 64 -> trim_space (b64_char d) = false.
Proof. by apply (range_dec (fun d => trim_space (b64_char d) = false) 64). Qed.

(** One character of the decoder, on a character the encoder wrote. *)
Lemma b64_decode_char acc bits d rest : 0 <= d < 64 ->
  b64_decode_loop acc bits (b64_char d :: rest) =
  if 8 <=? bits + 6 then
    out ← b64_decode_loop (u32 (acc * 64 + d)) (bits - 2) rest;
    Ok (bz (u32 (acc * 64 + d) / 2 ^ (bits - 2)) :: out)
  else b64_decode_loop (u32 (acc * 64 + d)) (bits + 6) rest.
Proof.
  intros Hd. cbn [b64_decode_loop].
  rewrite bool_decide_false by (by apply b64_char_not_pad).
  rewrite b64_val_char by done. rewrite (lor_push acc 6 d) by lia.
  change (2 ^ 6) with 64. replace (bits + 6 - 8) with (bits - 2) by lia.
  destruct (8 <=? bits + 6) eqn:E; [|done]. breflect.
  rewrite octet by lia. destruct (b64_decode_loop _ _ rest); [|done].
  apply (f_equal (fun c => Ok (c :: _))). exact (bz_u8 _).
Qed.

Lemma b64_decode_0 acc d rest : 0 <= d < 64 ->
  b64_decode_loop acc 0 (b64_char d :: rest) = b64_decode_loop (u32 (acc * 64 + d)) 6 rest.
Proof. intros. by rewrite b64_decode_char. Qed.
Lemma b64_decode_6 acc d rest : 0 <= d < 64 ->
  b64_decode_loop acc 6 (b64_char d :: rest) =
  out ← b64_decode_loop (u32 (acc * 64 + d)) 4 rest; Ok (bz (u32 (acc * 64 + d) / 16) :: out).
Proof. intros. by rewrite b64_decode_char. Qed.
Lemma b64_decode_4 acc d rest : 0 <= d < 64 ->
  b64_decode_loop acc 4 (b64_char d :: rest) =
  out ← b64_decode_loop (u32 (acc * 64 + d)) 2 rest; Ok (bz (u32 (acc * 64 + d) / 4) :: out).
Proof. intros. by rewrite b64_decode_char. Qed.
Lemma b64_decode_2 acc d rest : 0 <= d < 64 ->
  b64_decode_loop acc 2 (b64_char d :: rest) =
  out ← b64_decode_loop (u32 (acc * 64 + d)) 0 rest; Ok (bz (u32 (acc * 64 + d) / 1) :: out).
Proof. intros. by rewrite b64_decode_char. Qed.

Lemma bz_eq z a : z mod 256 = zb a -> bz z = a.
Proof. intros H. rewrite <- (bz_zb a), <- H. symmetry. apply bz_u8. Qed.

Lemma b64_decode_ref value acc : b64_decode_loop acc 0 (b64_ref value) = Ok value.
Proof.
  revert acc. induction value as [value IH] using list_len_ind. intros acc.
  destruct value as [|a [|b [|c rest]]]; [done|..]; cbn [b64_ref];
    pose proof (zb_range a); try pose proof (zb_range b); try pose proof (zb_range c);
    rewrite b64_decode_0, b64_decode_6 by div_lia.
  - cbn [b64_decode_loop mbind Result_bind]. apply (f_equal Ok). cons_eq.
    apply bz_eq. unfold u32. div_lia.
  - rewrite b64_decode_4 by div_lia.
    cbn [b64_decode_loop mbind Result_bind]. apply (f_equal Ok). unfold u32.
    cons_eq; apply bz_eq; div_lia.
  - rewrite b64_decode_4, b64_decode_2 by div_lia. rewrite IH by (cbn; lia).
    cbn [mbind Result_bind]. apply (f_equal Ok). unfold u32.
    cons_eq; apply bz_eq; div_lia.
Qed.

(** Decoding inverts the encoding of every byte string. *)
Theorem base64url_roundtrip value :
  base64url_decode (base64url_encode value) = Ok value.
Proof. rewrite base64url_encode_eq. apply b64_decode_ref. Qed.

Lemma b64_ref_Forall (P : ascii -> Prop) value :
  (forall d, 0 <= d < 64 -> P (b64_char d)) -> Forall P (b64_ref value).
Proof.
  intros HP. induction value as [value IH] using list_len_ind.
  destruct value as [|a [|b [|c rest]]]; cbn [b64_ref];
    try pose proof (zb_range a); try pose proof (zb_range b); try pose proof (zb_range c);
    repeat constructor; try (apply HP; div_lia).
  apply IH. cbn. lia.
Qed.

Lemma b64_ref_length value : zlen (b64_ref value) = (4 * zlen value + 2) / 3.
Proof.
  induction value as [value IH] using list_len_ind.
  destruct value as [|a [|b [|c rest]]]; try done.
  cbn [b64_ref]. rewrite !zlen_cons, IH by (cbn; lia).
  pose proof (zlen_nonneg rest). div_lia.
Qed.

(** ** Trimming *)

Lemma drop_while_id p s :
  Forall (fun c => p c = false) s -> drop_while p s = s.
Proof. destruct s as [|c s]; cbn; [done|]. intros H. inversion H. by case_match; simplify_eq. Qed.

Lemma trim_ascii_id s :
  Forall (fun c => trim_space c = false) s -> trim_ascii s = s.
Proof.
  intros H. unfold trim_ascii. rewrite (drop_while_id _ s) by done.
  rewrite drop_while_id by by apply Forall_reverse. apply reverse_involutive.
Qed.

Lemma trim_ascii_ends c m d :
  trim_space c = false -> trim_space d = false -> trim_ascii (c :: m ++ [d]) = c :: m ++ [d].
Proof.
  intros Hc Hd. unfold trim_ascii. cbn [drop_while]. rewrite Hc.
  rewrite app_comm_cons, reverse_snoc. cbn [drop_while]. rewrite Hd.
  by rewrite reverse_cons, reverse_involutive.
Qed.

Lemma drop_while_suffix p s :
  exists a, s = a ++ drop_while p s /\ Forall (fun c => p c = true) a /\
            forall c t, drop_while p s = c :: t -> p c = false.
Proof.
  induction s as [|x s (a & Hs & Ha & Hh)]; cbn.
  - exists []. split_and!; [done | constructor | done].
  - destruct (p x) eqn:E.
    + exists (x :: a). split_and!; [by rewrite Hs at 1 | by constructor | done].
    + exists []. split_and!; [done | constructor |]. intros c t [= <- <-]. done.
Qed.

(** [trim_ascii] removes a blank prefix and a blank suffix, and leaves a
    text that neither starts nor ends with a blank. *)
Theorem trim_ascii_spec s :
  exists a b,
    s = a ++ trim_ascii s ++ b /\
    Forall (fun c => trim_space c = true) (a ++ b) /\
    (forall c t, trim_ascii s = c :: t -> trim_space c = false) /\
    (forall c t, trim_ascii s = t ++ [c] -> trim_space c = false).
Proof.
  unfold trim_ascii.
  destruct (drop_while_suffix trim_space s) as (a & Hs & Ha & Hfront).
  set (m := drop_while trim_space s) in *.
  destruct (drop_while_suffix trim_space (reverse m)) as (b & Hm & Hb & Hback).
  set (k := drop_while trim_space (reverse m)) in *.
  assert (m = reverse k ++ reverse b) as Hmk.
  { rewrite <- reverse_app, <- Hm. symmetry. apply reverse_involutive. }
  exists a, (reverse b). split_and!.
  - by rewrite <- Hmk.
  - apply Forall_app. split; [done|]. by apply Forall_reverse.
  - intros c t Hc. rewrite Hc in Hmk. by eapply Hfront.
  - intros c t Hc. eapply (Hback c (reverse t)).
    rewrite <- (reverse_involutive k), Hc. by rewrite reverse_app.
Qed.

(** ** Key material *)

Lemma isxdigit_not_space c : isxdigit c = true -> trim_space c = false.
Proof.
  intros H. apply not_true_iff_false. intros Hs. revert H Hs.
  apply (byte_dec (fun c => isxdigit c = true -> trim_space c = true -> False)).
  reflexivity.
Qed.

Lemma hex_lower_trim bs : trim_ascii (hex_lower bs) = hex_lower bs.
Proof.
  apply trim_ascii_id. eapply Forall_impl; [apply hex_lower_Forall|].
  intros c Hc. by apply isxdigit_not_space, is_lower_hex_xdigit.
Qed.

Lemma base64url_encode_trim bs : trim_ascii (base64url_encode bs) = base64url_encode bs.
Proof.
  rewrite base64url_encode_eq. apply trim_ascii_id, b64_ref_Forall.
  apply b64_char_not_space.
Qed.

Lemma base64url_encode_nonempty bs : bs <> [] -> base64url_encode bs <> [].
Proof. rewrite base64url_encode_eq. by destruct bs as [|? [|? [|? ?]]]. Qed.

Lemma decode_key_material_base64 bs :
  bs <> [] ->
  (zlen (base64url_encode bs) mod 2 =? 0) && forallb isxdigit (base64url_encode bs) = false ->
  decode_key_material (base64url_encode bs) = Ok bs.
Proof.
  intros Hne Hhex. unfold decode_key_material. rewrite base64url_encode_trim, Hhex.
  rewrite bool_decide_true by by apply base64url_encode_nonempty.
  rewrite base64url_encode_eq. apply b64_decode_ref.
Qed.

(** Key material given in hexadecimal decodes to itself, and so does the
    base64url text of any 32-byte key: its 43 characters are never taken for
    hexadecimal. *)
Theorem decode_key_material_keys bs :
  bs <> [] ->
  decode_key_material (hex_lower bs) = Ok bs /\
  (zlen bs = 32 -> decode_key_material (base64url_encode bs) = Ok bs).
Proof.
  intros Hne. split.
  - unfold decode_key_material. rewrite hex_lower_trim.
    rewrite bool_decide_true by (destruct bs; done).
    assert ((zlen (hex_lower bs) mod 2 =? 0) = true) as ->.
    { unfold zlen. rewrite hex_lower_length, Nat2Z.inj_mul, Z.mul_comm.
      by rewrite Z.mod_mul by lia. }
    assert (forallb isxdigit (hex_lower bs) = true) as ->.
    { apply forallb_Forall. eapply Forall_impl; [apply hex_lower_Forall|].
      apply is_lower_hex_xdigit. }
    unfold hex_decode. rewrite hex_pairs_lower.
    by assert ((zlen (hex_lower bs) mod 2 =? 0) = true) as ->
      by (unfold zlen; rewrite hex_lower_length, Nat2Z.inj_mul, Z.mul_comm, Z.mod_mul by lia; done).
  - intros H32. apply decode_key_material_base64; [done|].
    rewrite base64url_encode_eq, b64_ref_length, H32. done.
Qed.

Lemma decode_key_material_keys_witness :
  &"key material of 32 bytes, for sure" <> [] /\
  decode_key_material (hex_lower (&"key material of 32 bytes, for sure")) =
    Ok (&"key material of 32 bytes, for sure") /\
  (zlen (&"key material of 32 bytes, for sure") = 32 ->
   decode_key_material (base64url_encode (&"key material of 32 bytes, for sure")) =
     Ok (&"key material of 32 bytes, for sure")).
Proof. split; [done|]. apply decode_key_material_keys. done. Defined.

(** The hexadecimal test is ambiguous for 64-byte signatures: the
    base64url text of the all-zero signature has 86 characters that are all
    hexadecimal digits, and decodes to 43 bytes instead of 64. *)
Theorem zero_signature_misread :
  decode_key_material (base64url_encode (replicate 64 nul)) =
  Ok (replicate 43 (bz 170)).
Proof. vm_compute. reflexivity. Qed.

(** ** UUIDs *)

Lemma uuid_groups_length hex : zlen hex = 32 -> zlen (uuid_groups hex) = 36.
Proof.
  unfold zlen, uuid_groups, substr. intros H.
  rewrite !length_app, !length_take, !length_drop.
  change (length (&"-")) with 1%nat. lia.
Qed.

Lemma version_byte b :
  hex_digit (Z.shiftr (zb (bz (Z.lor (Z.land (zb b) 15) 64))) 4) = "4"%char.
Proof. byte_cases b. Qed.

Lemma variant_byte b :
  hex_digit (Z.shiftr (zb (bz (Z.lor (Z.land (zb b) 63) 128))) 4) ∈ &"89ab".
Proof. byte_cases b. Qed.

Lemma hex_digit_xdigit d : 0 <= d < 16 -> isxdigit (hex_digit d) = true.
Proof. intros. by apply is_lower_hex_xdigit, hex_digit_lower. Qed.
#[export] Hint Resolve hex_digit_xdigit : swm.

(** A GUID's text, from any 32 hexadecimal digits. *)
Lemma uuid_groups_valid hex :
  zlen hex = 32 -> Forall (fun c => isxdigit c = true) hex ->
  valid_uuid (uuid_groups hex) = true /\
  uuid_groups hex !! 14%nat = hex !! 12%nat /\ uuid_groups hex !! 19%nat = hex !! 16%nat.
Proof.
  intros Hlen HF. unfold zlen in Hlen.
  do 32 (destruct hex as [|? hex]; [cbn in Hlen; lia|]).
  destruct hex; [|cbn in Hlen; lia]. clear Hlen.
  repeat match goal with H : Forall _ (_ :: _) |- _ => inversion H; clear H; subst end.
  split_and!; [|done..].
  unfold valid_uuid, uuid_groups, substr.
  change (&"-") with ["-"%char]. cbn -[isxdigit].
  repeat match goal with H : isxdigit _ = true |- _ => rewrite H; clear H end.
  reflexivity.
Qed.

Lemma hex_lower_lookup bs i b :
  bs !! i = Some b ->
  forall j, j = (2 * i)%nat -> hex_lower bs !! j = Some (hex_digit (Z.shiftr (zb b) 4)).
Proof.
  intros H j ->. revert i H. induction bs as [|x bs IH]; intros [|i]; try done.
  - by intros [= ->].
  - intros H. rewrite hex_lower_cons. replace (2 * S i)%nat with (S (S (2 * i))) by lia.
    by apply IH.
Qed.

(** C38: [random_uuid] produces a valid UUID of version 4 and of the RFC 4122
    variant from any sixteen random bytes. *)
Theorem random_uuid_valid bytes :
  zlen bytes = 16 ->
  valid_uuid (random_uuid bytes) = true /\
  random_uuid bytes !! 14%nat = Some "4"%char /\
  (exists c, random_uuid bytes !! 19%nat = Some c /\ c ∈ &"89ab").
Proof.
  intros Hlen. unfold random_uuid.
  set (f := fun b => bz (Z.lor (Z.land (zb b) 15) 64)).
  set (g := fun b => bz (Z.lor (Z.land (zb b) 63) 128)).
  set (bs := alter g 8%nat (alter f 6%nat bytes)).
  assert (zlen bs = 16) as Hbs by (unfold zlen, bs; rewrite !length_alter; done).
  assert (zlen (hex_lower bs) = 32) as Hhex by (unfold zlen in *; rewrite hex_lower_length; lia).
  destruct (uuid_groups_valid (hex_lower bs) Hhex) as (Hv & H14 & H19).
  { eapply Forall_impl; [apply hex_lower_Forall | apply is_lower_hex_xdigit]. }
  destruct (lookup_lt_is_Some_2 bytes 6%nat) as [b6 H6]; [unfold zlen in *; lia|].
  destruct (lookup_lt_is_Some_2 bytes 8%nat) as [b8 H8]; [unfold zlen in *; lia|].
  split_and!; [done|..].
  - assert (bs !! 6%nat = Some (f b6)) as H6'.
    { unfold bs. rewrite list_lookup_alter_ne, list_lookup_alter_eq by lia. by rewrite H6. }
    rewrite H14, (hex_lower_lookup bs 6 (f b6) H6') by done.
    unfold f. by rewrite version_byte.
  - assert (bs !! 8%nat = Some (g b8)) as H8'.
    { unfold bs. rewrite list_lookup_alter_eq, list_lookup_alter_ne by lia. by rewrite H8. }
    rewrite H19, (hex_lower_lookup bs 8 (g b8) H8') by done.
    eexists. split; [done|]. apply variant_byte.
Qed.

Lemma random_uuid_valid_witness :
  zlen (&"sixteen bytes ok") = 16 /\
  (valid_uuid (random_uuid (&"sixteen bytes ok")) = true /\
   random_uuid (&"sixteen bytes ok") !! 14%nat = Some "4"%char /\
   (exists c, random_uuid (&"sixteen bytes ok") !! 19%nat = Some c /\ c ∈ &"89ab")).
Proof. split; [reflexivity|]. apply random_uuid_valid. reflexivity. Defined.

(** ** The canonical query *)

Lemma pair_leb_total p q : pair_leb p q = true \/ pair_leb q p = true.
Proof.
  unfold pair_leb. repeat case_bool_decide; try congruence; apply text_leb_total.
Qed.

Lemma pair_leb_antisym p q : pair_leb p q = true -> pair_leb q p = true -> p = q.
Proof.
  unfold pair_leb. destruct p as [a b], q as [c d]. cbn.
  repeat case_bool_decide; simplify_eq; intros.
  - f_equal. by apply text_leb_antisym.
  - destruct (H (text_leb_antisym _ _ H1 H2)).
Qed.

Lemma pair_leb_trans p q r :
  pair_leb p q = true -> pair_leb q r = true -> pair_leb p r = true.
Proof.
  unfold pair_leb. destruct p as [a b], q as [c d], r as [e f]. cbn.
  repeat case_bool_decide; simplify_eq; eauto using text_leb_trans.
  intros H1 H2. destruct H. by apply text_leb_antisym.
Qed.

Lemma insert_pair_perm p l : Permutation (insert_pair p l) (p :: l).
Proof.
  induction l as [|q l IH]; cbn; [done|]. destruct (pair_leb p q); [done|].
  rewrite IH. apply perm_swap.
Qed.

Lemma sort_pairs_perm l : Permutation (sort_pairs l) l.
Proof. induction l as [|p l IH]; cbn; [done|]. by rewrite insert_pair_perm, IH. Qed.

Inductive sorted_pairs : list (text * text) -> Prop :=
  | sorted_nil : sorted_pairs []
  | sorted_cons p l :
      Forall (fun q => pair_leb p q = true) l -> sorted_pairs l -> sorted_pairs (p :: l).

Lemma insert_pair_sorted p l : sorted_pairs l -> sorted_pairs (insert_pair p l).
Proof.
  induction 1 as [|q l Hq Hl IH]; cbn.
  - by repeat constructor.
  - destruct (pair_leb p q) eqn:E.
    + constructor; [|by constructor]. constructor; [done|].
      eapply Forall_impl; [exact Hq|]. intros r Hr. by eapply pair_leb_trans.
    + constructor; [|done]. rewrite insert_pair_perm. constructor; [|done].
      destruct (pair_leb_total p q); congruence.
Qed.

Lemma sort_pairs_sorted l : sorted_pairs (sort_pairs l).
Proof. induction l; cbn; [constructor | by apply insert_pair_sorted]. Qed.

(** A sorted list is determined by its elements: every sort agrees. *)
Lemma sorted_pairs_unique l k :
  sorted_pairs l -> sorted_pairs k -> Permutation l k -> l = k.
Proof.
  intros Hl. revert k. induction Hl as [|p l Hp Hl IH]; intros k Hk Hperm.
  - by apply Permutation_nil_l in Hperm.
  - destruct Hk as [|q k Hq Hk]; [by apply Permutation_nil_r in Hperm|].
    assert (p = q) as ->.
    { apply pair_leb_antisym.
      - assert (q ∈ p :: l) as [->|Hin]%elem_of_cons by (rewrite Hperm; constructor).
        + by destruct (pair_leb_total p p).
        + rewrite Forall_forall in Hp. auto.
      - assert (p ∈ q :: k) as [->|Hin]%elem_of_cons by (rewrite <- Hperm; constructor).
        + by destruct (pair_leb_total q q).
        + rewrite Forall_forall in Hq. auto. }
    f_equal. apply IH; [done|]. by apply Permutation_cons_inv in Hperm.
Qed.

Lemma sort_pairs_perm_eq l k : Permutation l k -> sort_pairs l = sort_pairs k.
Proof.
  intros H. apply sorted_pairs_unique; try apply sort_pairs_sorted.
  by rewrite !sort_pairs_perm.
Qed.

Lemma canonical_query_items query :
  canonical_query query =
  join (&"&") (escape_pair <$> sort_pairs (query_pair <$> query_items query)).
Proof. by destruct query. Qed.

(** The canonical query depends only on the items of the query, not on
    their order, on empty items or on a leading [?]. *)
Theorem canonical_query_perm q1 q2 :
  Permutation (query_items q1) (query_items q2) ->
  canonical_query q1 = canonical_query q2.
Proof.
  intros H. rewrite !canonical_query_items.
  by rewrite (sort_pairs_perm_eq _ _ (fmap_Permutation query_pair _ _ H)).
Qed.

Lemma canonical_query_perm_witness :
  Permutation (query_items (&"?a=2&b=1&&c")) (query_items (&"c&a=2&b=1")) /\
  canonical_query (&"?a=2&b=1&&c") = canonical_query (&"c&a=2&b=1").
Proof.
  assert (Permutation (query_items (&"?a=2&b=1&&c")) (query_items (&"c&a=2&b=1"))) as H.
  { change (Permutation [&"a=2"; &"b=1"; &"c"] [&"c"; &"a=2"; &"b=1"]).
    symmetry. apply (Permutation_cons_append [&"a=2"; &"b=1"] (&"c")). }
  split; [exact H|]. exact (canonical_query_perm _ _ H).
Defined.

(** ** Splitting and joining *)

Lemma split_on_fuel_spec fuel sep value : (length value < fuel)%nat ->
  join [sep] (split_on_fuel fuel sep value) = value /\
  split_on_fuel fuel sep value <> [] /\
  Forall (fun part => sep ∉ part) (split_on_fuel fuel sep value).
Proof.
  revert value. induction fuel as [|f IH]; intros value Hf; [lia|]. cbn [split_on_fuel].
  destruct (find_char sep value) as [e|] eqn:E.
  - apply find_char_Some in E as (s1 & s2 & -> & <- & Hn).
    rewrite take_app_length. rewrite length_app in Hf. cbn in Hf.
    replace (drop (S (length s1)) (s1 ++ sep :: s2)) with s2
      by (rewrite (cons_middle sep s1 s2), app_assoc, drop_app_exact; [done|];
          rewrite length_app; cbn; lia).
    destruct (IH s2) as (Hj & Hne & Hp); [lia|]. split_and!; [|done|by constructor].
    destruct (split_on_fuel f sep s2) as [|x l] eqn:Es; [done|].
    change (join [sep] (s1 :: x :: l)) with (s1 ++ [sep] ++ join [sep] (x :: l)).
    by rewrite Hj.
  - split_and!; [done|done|]. constructor; [|done]. by apply find_char_None.
Qed.

Lemma split_on_spec sep value :
  join [sep] (split_on sep value) = value /\ split_on sep value <> [] /\
  Forall (fun part => sep ∉ part) (split_on sep value).
Proof. apply split_on_fuel_spec. lia. Qed.

Lemma split_on_none sep value : sep ∉ value -> split_on sep value = [value].
Proof.
  intros H. unfold split_on. cbn. by rewrite (proj2 (find_char_None sep value) H).
Qed.

(** A loop over the components of [value] from [offset] splits its suffix. *)
Lemma split_step fuel sep value offset : (offset <= length value)%nat ->
  split_on_fuel (S fuel) sep (drop offset value) =
  substr_to value offset (find_from sep value offset) ::
  match find_from sep value offset with
  | None => []
  | Some e => split_on_fuel fuel sep (drop (S e) value)
  end.
Proof.
  intros Ho. cbn [split_on_fuel]. unfold find_from.
  destruct (find_char sep (drop offset value)) as [e|]; cbn; [|done].
  unfold substr. replace (offset + e - offset)%nat with e by lia.
  by rewrite drop_drop, Nat.add_succ_r.
Qed.
