(* ===== verification/Wide.v ===== *)
(** * Windows strings and statuses ([src/internal/common.cpp])

    [utf8_to_wide] and [wide_to_utf8] over the conversions of Windows, which
    are parameters: each is called with a length and answers with what it
    converted.  A wide string is a list of 16-bit units.  Elsewhere in this
    library a wide string is the text it was made from; the theorem here says
    for which texts that loses nothing. *)
From S2P Require Import Prelude StdString Errors.

Abbreviation wide := (list Z).

(** [MultiByteToWideChar] and [WideCharToMultiByte] for CP_UTF8 with the flags
    that refuse ill-formed input; [None] when they return 0. *)
Class Win32Text := {
  multi_byte_to_wide_char : Bytes -> Z -> option wide;
  wide_char_to_multi_byte : wide -> Z -> option Bytes
}.

(** ** The encodings *)

Definition scalar (c : Z) : bool := ((0 <=? c) && (c <? 55296)) || ((57344 <=? c) && (c <? 1114112)).

Definition utf8_char (c : Z) : list Z :=
  if c <? 128 then [c]
  else if c <? 2048 then [192 + c / 64; 128 + c mod 64]
  else if c <? 65536 then [224 + c / 4096; 128 + c / 64 mod 64; 128 + c mod 64]
  else [240 + c / 262144; 128 + c / 4096 mod 64; 128 + c / 64 mod 64; 128 + c mod 64].

Definition utf16_char (c : Z) : wide :=
  if c <? 65536 then [c] else [55296 + (c - 65536) / 1024; 56320 + (c - 65536) mod 1024].

Definition utf8 (cs : list Z) : Bytes := bz <$> (cs ≫= utf8_char).
Definition utf16 (cs : list Z) : wide := cs ≫= utf16_char.

(** As documented: exactly the well-formed strings of the given length are
    converted, each to the encoding of the same characters. *)
Class Win32TextLaws (W : Win32Text) := {
  to_wide_iff value w : value <> [] ->
    multi_byte_to_wide_char value (zlen value) = Some w <->
    exists cs, Forall (fun c => scalar c = true) cs /\ value = utf8 cs /\ w = utf16 cs;
  to_utf8_iff w value : w <> [] ->
    wide_char_to_multi_byte w (zlen w) = Some value <->
    exists cs, Forall (fun c => scalar c = true) cs /\ w = utf16 cs /\ value = utf8 cs
}.

Section Wide.
Context `{W : Win32Text}.

(** The first call tells the size, the second one fills the output. *)
Definition utf8_to_wide (value : Bytes) : Result wide :=
  if bool_decide (value = []) then Ok []
  else
    let size := match multi_byte_to_wide_char value (i32 (zlen value)) with
                | Some w => zlen w | None => 0 end in
    if size <=? 0 then Throw (err Identity 0 [] (&"UTF-8 to UTF-16 conversion failed"))
    else Ok (default (replicate (Z.to_nat size) 0) (multi_byte_to_wide_char value (i32 (zlen value)))).

Definition wide_to_utf8 (value : wide) : Result Bytes :=
  if bool_decide (value = []) then Ok []
  else
    let size := match wide_char_to_multi_byte value (i32 (zlen value)) with
                | Some b => zlen b | None => 0 end in
    if size <=? 0 then Throw (err Identity 0 [] (&"UTF-16 to UTF-8 conversion failed"))
    else Ok (default (replicate (Z.to_nat size) nul) (wide_char_to_multi_byte value (i32 (zlen value)))).
End Wide.

(** ** Statuses and memory

    [error] is what [GetLastError] says. *)
Definition check_win32 (success : bool) (error : Z) (message : text) : Result unit :=
  if success then Ok tt else Throw (err Network (i32 error) [] (message ++ &": " ++ to_string error)).

Definition check_hresult (status : Z) (message : text) : Result unit :=
  if status <? 0 then Throw (err Api 0 [] message) else Ok tt.

Definition secure_zero (data : Bytes) : Bytes := replicate (length data) nul.

(** ** Decoding *)

Definition between (lo x hi : Z) : bool := (lo <=? x) && (x <=? hi).
Definition continuation (x : Z) : bool := between 128 x 191.

(** A leading byte and the bytes that follow it give a character of the right
    length that is a scalar value. *)
Definition checked_char (lo c : Z) : option Z := if (lo <=? c) && scalar c then Some c else None.

Fixpoint utf8_decode (b : list Z) : option (list Z) :=
  match b with
  | [] => Some []
  | x :: b1 =>
      if between 0 x 127 then (cons x) <$> utf8_decode b1
      else match b1 with
      | y :: b2 =>
          if negb (continuation y) then None
          else if between 192 x 223 then
            c ← checked_char 128 ((x - 192) * 64 + (y - 128)); (cons c) <$> utf8_decode b2
          else match b2 with
          | z :: b3 =>
              if negb (continuation z) then None
              else if between 224 x 239 then
                c ← checked_char 2048 ((x - 224) * 4096 + (y - 128) * 64 + (z - 128));
                (cons c) <$> utf8_decode b3
              else match b3 with
              | t :: b4 =>
                  if negb (continuation t) || negb (between 240 x 247) then None
                  else
                    c ← checked_char 65536
                          ((x - 240) * 262144 + (y - 128) * 4096 + (z - 128) * 64 + (t - 128));
                    (cons c) <$> utf8_decode b4
              | [] => None
              end
          | [] => None
          end
      | [] => None
      end
  end.

Fixpoint utf16_decode (w : wide) : option (list Z) :=
  match w with
  | [] => Some []
  | x :: w1 =>
      if scalar x && (x <? 65536) then (cons x) <$> utf16_decode w1
      else match w1 with
      | y :: w2 =>
          if between 55296 x 56319 && between 56320 y 57343 then
            (cons (65536 + (x - 55296) * 1024 + (y - 56320))) <$> utf16_decode w2
          else None
      | [] => None
      end
  end.

(** ** The encodings are unambiguous *)

Lemma scalar_iff c : scalar c = true <-> 0 <= c < 55296 \/ 57344 <= c < 1114112.
Proof. unfold scalar. split; intros H; breflect; lia. Qed.

(** The comparisons of the context as inequalities. *)
Ltac ranges :=
  unfold continuation, between in *;
  repeat match goal with
  | H : (_ && _) = true |- _ => apply andb_prop in H as [? ?]
  | H : negb _ = true |- _ => apply negb_true_iff in H
  | H : (_ <=? _) = true |- _ => apply Z.leb_le in H
  | H : (_ <? _) = true |- _ => apply Z.ltb_lt in H
  | H : (_ <=? _) = false |- _ => apply Z.leb_gt in H
  | H : (_ <? _) = false |- _ => apply Z.ltb_ge in H
  end.

Ltac divide := Z.to_euclidean_division_equations; lia.

Lemma between_true lo x hi : lo <= x <= hi -> between lo x hi = true.
Proof. intros H. unfold between. rewrite andb_true_iff, !Z.leb_le. lia. Qed.
Lemma between_false lo x hi : x < lo \/ hi < x -> between lo x hi = false.
Proof. intros H. unfold between. rewrite andb_false_iff, !Z.leb_gt. lia. Qed.

Lemma utf16_decode_char c w : scalar c = true ->
  utf16_decode (utf16_char c ++ w) = cons c <$> utf16_decode w.
Proof.
  intros Hc. pose proof Hc as Hr. apply scalar_iff in Hr. unfold utf16_char.
  destruct (c <? 65536) eqn:E; cbn [app utf16_decode].
  - by rewrite Hc, E.
  - apply Z.ltb_ge in E.
    assert (scalar (55296 + (c - 65536) / 1024) = false) as ->.
    { apply not_true_iff_false. rewrite scalar_iff. divide. }
    cbn [andb]. rewrite !between_true by divide. cbn [andb].
    replace (65536 + (55296 + (c - 65536) / 1024 - 55296) * 1024 +
      (56320 + (c - 65536) mod 1024 - 56320)) with c by divide. done.
Qed.

Lemma utf8_decode_char c b : scalar c = true ->
  utf8_decode (utf8_char c ++ b) = cons c <$> utf8_decode b.
Proof.
  intros Hc. pose proof Hc as Hr. apply scalar_iff in Hr. unfold utf8_char.
  destruct (c <? 128) eqn:E1; [|destruct (c <? 2048) eqn:E2; [|destruct (c <? 65536) eqn:E3]];
    ranges; cbn [app utf8_decode].
  - by rewrite between_true by lia.
  - rewrite between_false by divide. unfold continuation.
    rewrite (between_true 128), (between_true 192) by divide. cbn [negb].
    replace ((192 + c / 64 - 192) * 64 + (128 + c mod 64 - 128)) with c by divide.
    unfold checked_char. rewrite Hc, (proj2 (Z.leb_le _ _)) by lia. done.
  - rewrite between_false by divide. unfold continuation.
    rewrite (between_true 128), (between_false 192) by divide. cbn [negb].
    rewrite (between_true 128), (between_true 224) by divide. cbn [negb].
    replace ((224 + c / 4096 - 224) * 4096 + (128 + c / 64 mod 64 - 128) * 64 + (128 + c mod 64 - 128))
      with c by divide.
    unfold checked_char. rewrite Hc, (proj2 (Z.leb_le _ _)) by lia. done.
  - rewrite between_false by divide. unfold continuation.
    rewrite (between_true 128), (between_false 192) by divide. cbn [negb].
    rewrite (between_true 128), (between_false 224) by divide. cbn [negb].
    rewrite (between_true 128), (between_true 240) by divide. cbn [negb orb].
    replace ((240 + c / 262144 - 240) * 262144 + (128 + c / 4096 mod 64 - 128) * 4096 +
      (128 + c / 64 mod 64 - 128) * 64 + (128 + c mod 64 - 128)) with c by divide.
    unfold checked_char. rewrite Hc, (proj2 (Z.leb_le _ _)) by lia. done.
Qed.

Lemma checked_char_Some lo c c' : checked_char lo c = Some c' -> c' = c /\ lo <= c' /\ scalar c' = true.
Proof. unfold checked_char. intros H. destruct (_ && _) eqn:E; [|done]. injection H as <-. by breflect. Qed.

(** What is decoded is the encoding of what was read. *)
Definition decodes (decode : list Z -> option (list Z)) (char : Z -> list Z) : Prop := forall b cs,
  decode b = Some cs -> Forall (fun c => scalar c = true) cs /\ b = cs ≫= char.

Lemma decodes_cons (decode : list Z -> option (list Z)) (char : Z -> list Z) c rest cs (b : list Z) :
  (forall cs', decode rest = Some cs' -> Forall (fun c => scalar c = true) cs' /\ rest = cs' ≫= char) ->
  scalar c = true -> b = char c ++ rest -> cons c <$> decode rest = Some cs ->
  Forall (fun c => scalar c = true) cs /\ b = cs ≫= char.
Proof.
  intros IH Hc -> H. destruct (decode rest) as [cs'|]; [|done]. injection H as <-.
  destruct (IH cs' eq_refl) as [Hf ->]. split; [by constructor|done].
Qed.

Lemma utf16_decode_sound : decodes utf16_decode utf16_char.
Proof.
  intros w. remember (length w) as n eqn:Hn. revert w Hn. induction n as [n IH] using lt_wf_ind.
  intros [|x w1] Hn cs H; cbn [utf16_decode] in H; [by injection H as <-|]. cbn [length] in Hn.
  destruct (scalar x && (x <? 65536)) eqn:Ex.
  - apply andb_prop in Ex as [Hx Ex].
    eapply (decodes_cons utf16_decode utf16_char x w1); [intros cs'; eapply IH; [|done]; lia|done| |exact H].
    unfold utf16_char. by rewrite Ex.
  - destruct w1 as [|y w2]; [done|]. destruct (between 55296 x 56319 && _) eqn:Eb; [|done]. cbn [length] in Hn.
    ranges. set (c := 65536 + (x - 55296) * 1024 + (y - 56320)) in H.
    assert (65536 <= c < 1114112) as Hc by (unfold c; lia).
    eapply (decodes_cons utf16_decode utf16_char c w2); [intros cs'; eapply IH; [|done]; lia| | |exact H].
    + apply scalar_iff. lia.
    + unfold utf16_char. rewrite (proj2 (Z.ltb_ge _ _)) by lia. cbn [app].
      replace (55296 + (c - 65536) / 1024) with x by (unfold c; divide).
      replace (56320 + (c - 65536) mod 1024) with y by (unfold c; divide). done.
Qed.

Lemma utf8_decode_sound : decodes utf8_decode utf8_char.
Proof.
  intros b. remember (length b) as n eqn:Hn. revert b Hn. induction n as [n IH] using lt_wf_ind.
  intros [|x b1] Hn cs H; cbn [utf8_decode] in H; [by injection H as <-|]. cbn [length] in Hn.
  destruct (between 0 x 127) eqn:E1.
  { ranges. eapply (decodes_cons utf8_decode utf8_char x b1);
      [intros cs'; eapply IH; [|done]; lia|apply scalar_iff; lia| |exact H].
    unfold utf8_char. by rewrite (proj2 (Z.ltb_lt _ _)) by lia. }
  destruct b1 as [|y b2]; [done|]. cbn [length] in Hn.
  destruct (continuation y) eqn:Ey; [cbn [negb] in H|done].
  destruct (between 192 x 223) eqn:E2.
  { apply bind_Some in H as (c & Hc & H). apply checked_char_Some in Hc as (Ec & Hlo & Hc). ranges.
    eapply (decodes_cons utf8_decode utf8_char c b2); [intros cs'; eapply IH; [|done]; lia|done| |exact H].
    unfold utf8_char. rewrite (proj2 (Z.ltb_ge c 128)), (proj2 (Z.ltb_lt c 2048)) by lia. cbn [app].
    replace (192 + c / 64) with x by divide. replace (128 + c mod 64) with y by divide. done. }
  destruct b2 as [|z b3]; [done|]. cbn [length] in Hn.
  destruct (continuation z) eqn:Ez; [cbn [negb] in H|done].
  destruct (between 224 x 239) eqn:E3.
  { apply bind_Some in H as (c & Hc & H). apply checked_char_Some in Hc as (Ec & Hlo & Hc). ranges.
    eapply (decodes_cons utf8_decode utf8_char c b3); [intros cs'; eapply IH; [|done]; lia|done| |exact H].
    unfold utf8_char. rewrite (proj2 (Z.ltb_ge c 128)), (proj2 (Z.ltb_ge c 2048)), (proj2 (Z.ltb_lt c 65536)) by lia. cbn [app].
    replace (224 + c / 4096) with x by divide. replace (128 + c / 64 mod 64) with y by divide.
    replace (128 + c mod 64) with z by divide. done. }
  destruct b3 as [|t b4]; [done|]. cbn [length] in Hn.
  destruct (negb (continuation t) || negb (between 240 x 247)) eqn:Et; [done|].
  apply orb_false_iff in Et as [Et E4]. apply negb_false_iff in Et, E4.
  apply bind_Some in H as (c & Hc & H). apply checked_char_Some in Hc as (Ec & Hlo & Hc). ranges.
  eapply (decodes_cons utf8_decode utf8_char c b4); [intros cs'; eapply IH; [|done]; lia|done| |exact H].
  unfold utf8_char.
  rewrite (proj2 (Z.ltb_ge c 128)), (proj2 (Z.ltb_ge c 2048)), (proj2 (Z.ltb_ge c 65536)) by lia. cbn [app].
  replace (240 + c / 262144) with x by divide. replace (128 + c / 4096 mod 64) with y by divide.
  replace (128 + c / 64 mod 64) with z by divide. replace (128 + c mod 64) with t by divide. done.
Qed.

Lemma utf16_decode_encode cs : Forall (fun c => scalar c = true) cs -> utf16_decode (utf16 cs) = Some cs.
Proof.
  induction 1 as [|c l Hc _ IH]; [done|]. unfold utf16. cbn [mbind list_bind].
  rewrite utf16_decode_char by done. unfold utf16 in IH. by rewrite IH.
Qed.

Lemma utf16_unique cs cs' : Forall (fun c => scalar c = true) cs -> Forall (fun c => scalar c = true) cs' ->
  utf16 cs = utf16 cs' -> cs = cs'.
Proof.
  intros H H' E. apply (f_equal utf16_decode) in E. rewrite !utf16_decode_encode in E by done. by injection E.
Qed.

Lemma utf8_char_bytes c : scalar c = true -> Forall (fun x => 0 <= x < 256) (utf8_char c).
Proof.
  intros Hc%scalar_iff. unfold utf8_char.
  destruct (c <? 128) eqn:E1; [|destruct (c <? 2048) eqn:E2; [|destruct (c <? 65536) eqn:E3]];
    ranges; repeat constructor; divide.
Qed.

Lemma utf8_bytes cs : Forall (fun c => scalar c = true) cs -> zb <$> utf8 cs = cs ≫= utf8_char.
Proof.
  intros H. unfold utf8. rewrite <- list_fmap_compose.
  assert (Forall (fun x => 0 <= x < 256) (cs ≫= utf8_char)) as Hb.
  { induction H as [|c l Hc _ IH]; [constructor|]. cbn [mbind list_bind]. apply Forall_app.
    split; [by apply utf8_char_bytes|done]. }
  induction Hb as [|x l Hx _ IH]; [done|]. cbn. by rewrite zb_bz_small, IH.
Qed.

Lemma utf8_decode_bytes cs : Forall (fun c => scalar c = true) cs ->
  utf8_decode (zb <$> utf8 cs) = Some cs.
Proof.
  intros H. rewrite utf8_bytes by done.
  induction H as [|c l Hc _ IH]; [done|]. cbn [mbind list_bind]. rewrite utf8_decode_char by done.
  by rewrite IH.
Qed.

Lemma utf8_unique cs cs' : Forall (fun c => scalar c = true) cs -> Forall (fun c => scalar c = true) cs' ->
  utf8 cs = utf8 cs' -> cs = cs'.
Proof.
  intros H H' E. apply (f_equal (fun b => utf8_decode (zb <$> b))) in E.
  rewrite !utf8_decode_bytes in E by done. by injection E.
Qed.

Lemma utf8_nil cs : utf8 cs = [] -> cs = [].
Proof.
  destruct cs as [|c cs]; [done|]. unfold utf8. cbn [mbind list_bind]. rewrite fmap_app.
  intros [E _]%app_eq_nil. unfold utf8_char in E. by repeat case_match.
Qed.
Lemma utf16_nil cs : utf16 cs = [] -> cs = [].
Proof.
  destruct cs as [|c cs]; [done|]. unfold utf16. cbn [mbind list_bind].
  intros [E _]%app_eq_nil. unfold utf16_char in E. by case_match.
Qed.

(** ** The conversions *)

(** [value] and [w] are encodings of the same characters. *)
Definition same_text (value : Bytes) (w : wide) : Prop :=
  exists cs, Forall (fun c => scalar c = true) cs /\ value = utf8 cs /\ w = utf16 cs.

Lemma same_text_nil w : same_text [] w <-> w = [].
Proof.
  split.
  - intros (cs & _ & E & ->). symmetry in E. by apply utf8_nil in E as ->.
  - intros ->. by exists [].
Qed.

Lemma same_text_wide_nil value : same_text value [] <-> value = [].
Proof.
  split.
  - intros (cs & _ & -> & E). symmetry in E. by apply utf16_nil in E as ->.
  - intros ->. by exists [].
Qed.

Lemma same_text_wide value w w' : same_text value w -> same_text value w' -> w = w'.
Proof. intros (cs & H & -> & ->) (cs' & H' & E & ->). f_equal. by apply utf8_unique. Qed.
Lemma same_text_bytes value value' w : same_text value w -> same_text value' w -> value = value'.
Proof. intros (cs & H & -> & ->) (cs' & H' & -> & E). f_equal. by apply utf16_unique. Qed.

(** No text has more units than bytes. *)
Lemma same_text_length value w : same_text value w -> zlen w <= zlen value.
Proof.
  intros (cs & H & -> & ->). unfold utf8, utf16, zlen. rewrite length_fmap.
  induction H as [|c l Hc _ IH]; cbn [mbind list_bind]; [done|]. rewrite !length_app.
  assert (length (utf16_char c) <= length (utf8_char c))%nat; [|lia].
  unfold utf16_char, utf8_char. repeat case_match; breflect; cbn; lia.
Qed.

Lemma i32_small z : 0 <= z < 2 ^ 31 -> i32 z = z.
Proof. intros H. unfold i32. rewrite Z.mod_small; lia. Qed.

Section Conversions.
Context `{W : Win32Text} `{L : !Win32TextLaws W}.

Definition conversion_failed (what : text) : Exn := err Identity 0 [] what.

Lemma utf8_to_wide_iff value w : zlen value < 2 ^ 31 ->
  utf8_to_wide value = Ok w <-> same_text value w.
Proof using L.
  intros Hs. unfold utf8_to_wide. case_bool_decide as Hv.
  { subst. rewrite same_text_nil. naive_solver. }
  rewrite i32_small by (pose proof (zlen_nonneg value); lia).
  pose proof (to_wide_iff value) as Hi. fold (same_text value) in Hi.
  destruct (multi_byte_to_wide_char value (zlen value)) as [w'|] eqn:Ec.
  - assert (same_text value w') as Hw' by by apply (Hi w').
    destruct (zlen w' <=? 0) eqn:El; cbn [default].
    + breflect. destruct w' as [|u w']; [|rewrite zlen_cons in El; pose proof (zlen_nonneg w'); lia].
      by apply same_text_wide_nil in Hw'.
    + split; [by intros [= ->]|]. intros Hw. f_equal. by eapply same_text_wide.
  - cbn. split; [done|]. intros Hw. by apply (Hi w) in Hw.
Qed.

Lemma wide_to_utf8_iff w value : zlen w < 2 ^ 31 ->
  wide_to_utf8 w = Ok value <-> same_text value w.
Proof using L.
  intros Hs. unfold wide_to_utf8. case_bool_decide as Hv.
  { subst. rewrite same_text_wide_nil. naive_solver. }
  rewrite i32_small by (pose proof (zlen_nonneg w); lia).
  assert (forall b, wide_char_to_multi_byte w (zlen w) = Some b <-> same_text b w) as Hi.
  { intros b. rewrite to_utf8_iff by done. unfold same_text. naive_solver. }
  destruct (wide_char_to_multi_byte w (zlen w)) as [b|] eqn:Ec.
  - assert (same_text b w) as Hb by by apply Hi.
    destruct (zlen b <=? 0) eqn:El; cbn [default].
    + breflect. destruct b as [|x b]; [|rewrite zlen_cons in El; pose proof (zlen_nonneg b); lia].
      by apply same_text_nil in Hb.
    + split; [by intros [= ->]|]. intros Hw. f_equal. by eapply same_text_bytes.
  - cbn. split; [done|]. intros Hw. by apply Hi in Hw.
Qed.

(** The wide strings that Windows is given are the texts of the SDK.
    Below 2^31 units the two conversions are inverse to each other: each
    succeeds exactly on the well-formed strings of its encoding, gives the
    other encoding of the same characters, and refuses every other string with
    an identity error. *)
Theorem conversions_inverse value w : zlen value < 2 ^ 31 -> zlen w < 2 ^ 31 ->
  (utf8_to_wide value = Ok w <-> wide_to_utf8 w = Ok value) /\
  (utf8_to_wide value = Ok w <-> same_text value w) /\
  ((forall w', ~ same_text value w') ->
     utf8_to_wide value = Throw (conversion_failed (&"UTF-8 to UTF-16 conversion failed"))) /\
  ((forall value', ~ same_text value' w) ->
     wide_to_utf8 w = Throw (conversion_failed (&"UTF-16 to UTF-8 conversion failed"))).
Proof using L.
  intros Hv Hw. rewrite utf8_to_wide_iff, wide_to_utf8_iff by done. split_and!; try done; intros H.
  - destruct (utf8_to_wide value) as [w'|x] eqn:E; [by apply utf8_to_wide_iff, H in E|].
    unfold utf8_to_wide in E. repeat case_match; naive_solver.
  - destruct (wide_to_utf8 w) as [v'|x] eqn:E; [by apply wide_to_utf8_iff, H in E|].
    unfold wide_to_utf8 in E. repeat case_match; naive_solver.
Qed.
End Conversions.

(** ** Conversions that obey the laws *)

Definition mini_text : Win32Text := {|
  multi_byte_to_wide_char value n :=
    utf16 <$> utf8_decode (zb <$> take (Z.to_nat n) value);
  wide_char_to_multi_byte w n := utf8 <$> utf16_decode (take (Z.to_nat n) w)
|}.

Lemma utf8_zb b cs : zb <$> b = cs ≫= utf8_char -> b = utf8 cs.
Proof.
  intros H. unfold utf8. rewrite <- H, <- list_fmap_compose, <- (list_fmap_id b) at 1.
  apply list_fmap_ext. intros i a _. cbn. by rewrite bz_zb.
Qed.

#[export] Instance mini_text_laws : Win32TextLaws mini_text.
Proof.
  assert (forall {A} (l : list A), take (Z.to_nat (zlen l)) l = l) as Ht.
  { intros A l. apply take_ge. unfold zlen. lia. }
  split; cbn.
  - intros value w _. rewrite Ht, fmap_Some. split.
    + intros (cs & [Hf Hb%utf8_zb]%utf8_decode_sound & ->). by exists cs.
    + intros (cs & Hf & -> & ->). exists cs. by rewrite utf8_decode_bytes.
  - intros w value _. rewrite Ht, fmap_Some. split.
    + intros (cs & [Hf Hb]%utf16_decode_sound & ->). by exists cs.
    + intros (cs & Hf & -> & ->). exists cs. split; [|done].
      by apply utf16_decode_encode.
Qed.

(** A word with an umlaut, and a byte that no character starts with. *)
Lemma conversions_inverse_witness :
  let value := [bz 195; bz 188] ++ &"ber" in
  utf8_to_wide (W := mini_text) value = Ok [252; 98; 101; 114] /\
  wide_to_utf8 (W := mini_text) [252; 98; 101; 114] = Ok value /\
  utf8_to_wide (W := mini_text) [bz 255] = Throw (conversion_failed (&"UTF-8 to UTF-16 conversion failed")).
Proof.
  intros value. split; [vm_compute; reflexivity|]. split; [|vm_compute; reflexivity].
  apply (proj1 (conversions_inverse (W := mini_text) value [252; 98; 101; 114] eq_refl eq_refl)).
  vm_compute. reflexivity.
Defined.
