(* ===== verification/Scope.v ===== *)
(** * Handles and their scopes

    The SDK wraps the handles of Windows in objects whose destructors close
    them.  A computation here acts on a state, answers with a value or an
    exception and keeps a log of what was opened and closed; a [scoped]
    computation closes what it acquired when its body is left, in whichever
    way. *)
From S2P Require Import Prelude Errors.

Section Scope.
Context {St Res : Type}.

Inductive Event := Opened (r : Res) | Closed (r : Res).

(** The state, and the events in order. *)
Record Scope := mkScope { sc_state : St; sc_log : list Event }.

Definition H (A : Type) : Type := Scope -> Result A * Scope.
#[global] Instance H_ret : MRet H := fun _ a s => (Ok a, s).
#[global] Instance H_bind : MBind H := fun _ _ f m s =>
  match m s with
  | (Ok a, s') => f a s'
  | (Throw x, s') => (Throw x, s')
  end.

Definition raise {A} (x : Exn) : H A := fun s => (Throw x, s).
Definition lift_result {A} (r : Result A) : H A := fun s => (r, s).
(** A computation on the state alone. *)
Definition lift_state {A} (m : St -> Result A * St) : H A := fun s =>
  let '(result, st) := m (sc_state s) in (result, mkScope st (sc_log s)).
Definition emit (e : Event) : H unit := fun s => (Ok tt, mkScope (sc_state s) (sc_log s ++ [e])).

(** The body of an object's lifetime. *)
Definition scoped {A B} (r : Res) (acquire : H A) (body : A -> H B) : H B := fun s =>
  match acquire s with
  | (Throw x, s) => (Throw x, s)
  | (Ok a, s) =>
      let '(result, s) := body a (emit (Opened r) s).2 in (result, (emit (Closed r) s).2)
  end.

(** Everything opened is closed once, after what was opened later. *)
Inductive nested : list Event -> Prop :=
  | nested_nil : nested []
  | nested_scope r inner rest : nested inner -> nested rest ->
      nested (Opened r :: inner ++ Closed r :: rest).

Lemma nested_app l k : nested l -> nested k -> nested (l ++ k).
Proof.
  induction 1 as [|r inner rest Hi IHi Hr IHr]; intros Hk; [done|].
  cbn. rewrite <- app_assoc. cbn. constructor; auto.
Qed.

(** What a computation adds to the log is nested, however it ends. *)
Definition tidy {A} (m : H A) : Prop :=
  forall s, exists added, sc_log (m s).2 = sc_log s ++ added /\ nested added.

Lemma tidy_silent {A} (m : H A) : (forall s, sc_log (m s).2 = sc_log s) -> tidy m.
Proof. intros Hm s. exists []. split; [by rewrite Hm, app_nil_r|constructor]. Qed.

Lemma tidy_ret {A} (a : A) : tidy (mret a : H A).
Proof. by apply tidy_silent. Qed.
Lemma tidy_raise {A} x : tidy (raise x : H A).
Proof. by apply tidy_silent. Qed.
Lemma tidy_lift {A} (r : Result A) : tidy (lift_result r).
Proof. by apply tidy_silent. Qed.
Lemma tidy_state {A} (m : St -> Result A * St) : tidy (lift_state m).
Proof. apply tidy_silent. intros s. unfold lift_state. by destruct (m (sc_state s)). Qed.

Lemma tidy_bind {A B} (m : H A) (f : A -> H B) : tidy m -> (forall a, tidy (f a)) -> tidy (m ≫= f).
Proof.
  intros Hm Hf s. unfold mbind, H_bind. destruct (Hm s) as (l & Hl & Hn).
  destruct (m s) as [[a|x] s']; [|by exists l]. destruct (Hf a s') as (k & Hk & Hkn).
  exists (l ++ k). split; [|by apply nested_app]. cbn in Hl. by rewrite Hk, Hl, app_assoc.
Qed.

Lemma tidy_scoped {A B} r (acquire : H A) (body : A -> H B) :
  tidy acquire -> (forall a, tidy (body a)) -> tidy (scoped r acquire body).
Proof.
  intros Ha Hb s. unfold scoped. destruct (Ha s) as (l & Hl & Hn).
  destruct (acquire s) as [[a|x] s1]; [|by exists l]. cbn in Hl.
  destruct (Hb a (emit (Opened r) s1).2) as (k & Hk & Hkn).
  destruct (body a (emit (Opened r) s1).2) as [result s2]. cbn in Hk |- *.
  exists (l ++ Opened r :: k ++ [Closed r]). split.
  - by rewrite Hk, Hl, <- !app_assoc.
  - apply nested_app; [done|]. constructor; [done|constructor].
Qed.
End Scope.
Arguments Event : clear implicits.
Arguments Scope : clear implicits.
Arguments H : clear implicits.

Create HintDb tidy.
#[export] Hint Resolve tidy_ret tidy_raise tidy_lift tidy_state : tidy.

(** Goals [tidy m] by the structure of [m]. *)
Ltac tidying :=
  repeat first [ solve [eauto 3 with tidy] | apply tidy_scoped; [|intros]
               | apply tidy_bind; [|intros] | case_match ].
