(* ===== verification/Json.v ===== *)
(** * JSON values, typed access and raw member extraction
      ([src/internal/common.cpp])

    [Json] is the value type of the JSON library the code uses.  Parsing and
    serialising are that library's, and are the operations of the class
    [JsonLib]; the typed accessors and the raw scanner are the SDK's own. *)
From S2P Require Import Prelude StdString Errors.

(** A number is stored as the library stores it: signed, unsigned or floating
    ([m * 2^e], which every finite double is).  An object is a map sorted by
    key. *)
Inductive Json :=
  | JNull
  | JBool (b : bool)
  | JInt (z : Z)
  | JUint (z : Z)
  | JFloat (m e : Z)
  | JString (s : text)
  | JArray (l : list Json)
  | JObject (l : list (text * Json)).

(** The library: [parse] with or without comments, giving the exception's
    text when it fails, and [dump], which throws on text that is not UTF-8. *)
Class JsonLib := {
  json_parse : bool -> text -> Json + text;
  json_dump : Json -> Result text
}.

(** ** Objects *)

Fixpoint obj_find (key : text) (l : list (text * Json)) : option Json :=
  match l with
  | [] => None
  | (k, v) :: l' => if decide (k = key) then Some v else obj_find key l'
  end.

(** [value.find(key)]: end for anything but an object. *)
Definition json_find (value : Json) (key : text) : option Json :=
  match value with JObject l => obj_find key l | _ => None end.

Definition json_contains (value : Json) (key : text) : bool :=
  match json_find value key with Some _ => true | None => false end.

(** [object[key] = v] on a map sorted by key. *)
Fixpoint obj_set (key : text) (v : Json) (l : list (text * Json)) : list (text * Json) :=
  match l with
  | [] => [(key, v)]
  | (k, w) :: l' =>
      if decide (k = key) then (key, v) :: l'
      else if text_leb key k then (key, v) :: l
      else (k, w) :: obj_set key v l'
  end.

Definition json_set (value : Json) (key : text) (v : Json) : Json :=
  match value with JObject l => JObject (obj_set key v l) | _ => value end.

(** [Json{{k1, v1}, ...}] with distinct keys. *)
Definition json_object (members : list (text * Json)) : Json :=
  JObject (foldl (fun l '(k, v) => obj_set k v l) [] members).

Definition is_object (v : Json) : bool := match v with JObject _ => true | _ => false end.
Definition is_string (v : Json) : bool := match v with JString _ => true | _ => false end.

(** ** Typed access *)

Definition field_error (msg key : text) : Exn := err Protocol 0 [] (msg ++ key).

(** [iterator == end || iterator->is_null()]. *)
Definition json_field (value : Json) (key : text) : option Json :=
  match json_find value key with
  | None | Some JNull => None
  | Some v => Some v
  end.

Definition json_get_string (value : Json) (key : text) (required : bool) : Result text :=
  match json_field value key with
  | None =>
      if required then Throw (field_error (&"missing JSON field: ") key) else Ok []
  | Some (JString s) => Ok s
  | Some _ => Throw (field_error (&"JSON field is not a string: ") key)
  end.

(** The conversions are the library's [static_cast] from the stored number. *)
Definition json_get_int64 (value : Json) (key : text) (fallback : Z) : Result Z :=
  match json_field value key with
  | None => Ok fallback
  | Some (JInt z) => Ok z
  | Some (JUint z) => Ok (i64 z)
  | Some _ => Throw (field_error (&"JSON field is not an integer: ") key)
  end.

Definition json_get_uint64 (value : Json) (key : text) (fallback : Z) : Result Z :=
  match json_field value key with
  | None => Ok fallback
  | Some (JInt z) => Ok (u64 z)
  | Some (JUint z) => Ok z
  | Some _ => Throw (field_error (&"JSON field is not an unsigned integer: ") key)
  end.

Definition json_get_bool (value : Json) (key : text) (fallback : bool) : Result bool :=
  match json_field value key with
  | None => Ok fallback
  | Some (JBool b) => Ok b
  | Some _ => Throw (field_error (&"JSON field is not a boolean: ") key)
  end.

(** [optional_string] and [optional_int] of client.cpp; [get<int>] converts
    any arithmetic value and throws the library's type error otherwise. *)
Definition optional_string (value : Json) (key : text) : Result text :=
  json_get_string value key false.

Definition optional_int (value : Json) (key : text) : Result (option Z) :=
  match json_field value key with
  | None => Ok None
  | Some (JInt z) | Some (JUint z) => Ok (Some (i32 z))
  | Some (JBool b) => Ok (Some (if b then 1 else 0))
  | Some (JFloat m e) =>
      Ok (Some (i32 (if 0 <=? e then m * 2 ^ e else Z.quot m (2 ^ (- e)))))
  | Some _ => Throw (StdExn (&"type must be number"))
  end.

Definition parse_json `{JsonLib} (value context : text) : Result Json :=
  match json_parse true value with
  | inl v => Ok v
  | inr what => Throw (err Protocol 0 [] (context ++ &": " ++ what))
  end.

Definition json_string `{JsonLib} (value : Json) : Result text := json_dump value.

(** ** Raw scanning: positions in the document *)

Definition json_ws (c : ascii) : bool :=
  bool_decide (c = " "%char) || bool_decide (c = "009"%char) ||
  bool_decide (c = cr) || bool_decide (c = nl).

Fixpoint count_while (p : ascii -> bool) (s : text) : nat :=
  match s with
  | c :: s' => if p c then S (count_while p s') else 0
  | [] => 0
  end.

Definition skip_json_whitespace (value : text) (offset : nat) : nat :=
  (offset + count_while json_ws (drop offset value))%nat.

(** The characters of a string after its opening quote, up to and including
    the closing one. *)
Fixpoint string_tail (escaped : bool) (s : text) : option nat :=
  match s with
  | [] => None
  | character :: s' =>
      if escaped then S <$> string_tail false s'
      else if bool_decide (character = backslash) then S <$> string_tail true s'
      else if bool_decide (character = quote) then Some 1%nat
      else S <$> string_tail false s'
  end.

Definition scan_json_string (value : text) (offset : nat) : option nat :=
  match value !! offset with
  | Some c =>
      if bool_decide (c = quote)
      then Nat.add (S offset) <$> string_tail false (drop (S offset) value)
      else None
  | None => None
  end.

Definition scalar_char (c : ascii) : bool :=
  negb (bool_decide (c = ","%char)) && negb (bool_decide (c = "}"%char)).

Fixpoint rewind_ws (value : text) (offset : nat) : nat :=
  match offset with
  | O => O
  | S o =>
      match value !! o with
      | Some c => if json_ws c then rewind_ws value o else offset
      | None => offset
      end
  end.

Definition is_open (c : ascii) : bool :=
  bool_decide (c = "{"%char) || bool_decide (c = "["%char).
Definition is_close (c : ascii) : bool :=
  bool_decide (c = "}"%char) || bool_decide (c = "]"%char).
Definition closing_of (c : ascii) : ascii :=
  if bool_decide (c = "{"%char) then "}"%char else "]"%char.

(** The bracket-matching loop, with the stack of closing brackets expected. *)
Fixpoint scan_brackets (fuel : nat) (value : text) (offset : nat) (closing : list ascii)
  : option nat :=
  match fuel with
  | O => None
  | S f =>
      match value !! offset with
      | None => None
      | Some character =>
          if bool_decide (character = quote) then
            match scan_json_string value offset with
            | None => None
            | Some e => scan_brackets f value e closing
            end
          else if is_open character then
            scan_brackets f value (S offset) (closing_of character :: closing)
          else if is_close character then
            match closing with
            | [] => None
            | c :: rest =>
                if bool_decide (c <> character) then None
                else match rest with
                     | [] => Some (S offset)
                     | _ => scan_brackets f value (S offset) rest
                     end
            end
          else scan_brackets f value (S offset) closing
      end
  end.

Definition scan_json_value (value : text) (offset : nat) : option nat :=
  match value !! offset with
  | None => None
  | Some c =>
      if bool_decide (c = quote) then scan_json_string value offset
      else if negb (is_open c) then
        Some (rewind_ws value (offset + count_while scalar_char (drop offset value)))
      else scan_brackets (S (length value)) value offset []
  end.

Section Extract.
Context `{JsonLib}.

(** [Json::parse(key).get<std::string>()], any exception giving [nullopt]. *)
Definition parse_key (raw : text) : option text :=
  match json_parse false raw with
  | inl (JString s) => Some s
  | _ => None
  end.

(** One round of the member loop; the outer [None] is fuel exhaustion. *)
Fixpoint extract_loop (fuel : nat) (document member : text) (offset : nat)
  : option (option Bytes) :=
  match fuel with
  | O => None
  | S f =>
      let offset := skip_json_whitespace document offset in
      match document !! offset with
      | None => Some None
      | Some c =>
          if bool_decide (c = "}"%char) then Some None else
          match scan_json_string document offset with
          | None => Some None
          | Some key_end =>
              match parse_key (substr document offset (key_end - offset)) with
              | None => Some None
              | Some key =>
                  let offset := skip_json_whitespace document key_end in
                  if bool_decide (document !! offset <> Some ":"%char) then Some None else
                  let value_begin := skip_json_whitespace document (S offset) in
                  match scan_json_value document value_begin with
                  | None => Some None
                  | Some value_end =>
                      if (value_end <? value_begin)%nat then Some None
                      else if bool_decide (key = member) then
                        Some (Some (substr document value_begin (value_end - value_begin)))
                      else
                        let offset := skip_json_whitespace document value_end in
                        if bool_decide (document !! offset = Some ","%char)
                        then extract_loop f document member (S offset)
                        else Some None
                  end
              end
          end
      end
  end.

Definition extract_json_member_raw (document member : text) : option Bytes :=
  let offset := skip_json_whitespace document 0 in
  if bool_decide (document !! offset = Some "{"%char)
  then match extract_loop (S (length document)) document member (S offset) with
       | Some r => r
       | None => None
       end
  else None.
End Extract.
