(* ===== verification/MiniJson.v ===== *)
(** * A concrete JSON library for the worked examples

    The theorems of the development hold for every [JsonLib].  Their examples
    need one that runs: a parser for JSON without fractions and exponents and
    a compact serialiser, with the two behaviours of the real library the SDK
    depends on: object keys come out sorted, and of two members with the same
    key the last one wins. *)
From S2P Require Import Prelude StdString Errors Codec Json.

Fixpoint skip_line (s : text) : text :=
  match s with
  | c :: s' => if bool_decide (c = nl) then s' else skip_line s'
  | [] => []
  end.
Fixpoint skip_block (s : text) : text :=
  match s with
  | "*"%char :: (("/"%char :: s'') as s') => s''
  | _ :: s' => skip_block s'
  | [] => []
  end.

(** White space, and comments when they are ignored. *)
Fixpoint skip_blank (fuel : nat) (comments : bool) (s : text) : text :=
  match fuel with
  | O => s
  | S f =>
      match s with
      | c :: s' =>
          if json_ws c then skip_blank f comments s'
          else if comments && bool_decide (c = "/"%char) then
            match s' with
            | "/"%char :: s'' => skip_blank f comments (skip_line s'')
            | "*"%char :: s'' => skip_blank f comments (skip_block s'')
            | _ => s
            end
          else s
      | [] => []
      end
  end.

Definition unescape (c : ascii) : option ascii :=
  match c with
  | "n"%char => Some nl
  | "r"%char => Some cr
  | "t"%char => Some "009"%char
  | "b"%char => Some "008"%char
  | "f"%char => Some "012"%char
  | "/"%char => Some "/"%char
  | _ => if bool_decide (c = quote) then Some quote
         else if bool_decide (c = backslash) then Some backslash else None
  end.

(** The characters of a string up to its closing quote. *)
Fixpoint read_string (s acc : text) : option (text * text) :=
  match s with
  | [] => None
  | c :: s1 =>
      if bool_decide (c = quote) then Some (rev acc, s1)
      else if bool_decide (c = backslash) then
        match s1 with
        | "u"%char :: a :: b :: x :: y :: s2 =>
            match hex_byte a b, hex_byte x y with
            | Ok hi, Ok lo => if bool_decide (hi = nul) then read_string s2 (lo :: acc) else None
            | _, _ => None
            end
        | e :: s2 => match unescape e with Some d => read_string s2 (d :: acc) | None => None end
        | [] => None
        end
      else if zb c <? 32 then None
      else read_string s1 (c :: acc)
  end.

Definition read_number (s : text) : option (Json * text) :=
  match s with
  | "-"%char :: ((c :: _) as t) =>
      if isdigit c then
        let '(n, rest) := parse_digits 0 t in Some (JInt (- n), rest)
      else None
  | c :: _ =>
      if isdigit c then
        let '(n, rest) := parse_digits 0 s in Some (JUint n, rest)
      else None
  | [] => None
  end.

Fixpoint read_value (fuel : nat) (cm : bool) (s : text) : option (Json * text) :=
  match fuel with
  | O => None
  | S f =>
      let blank t := skip_blank (S (length t)) cm t in
      let fix members (n : nat) (t : text) (acc : list (text * Json)) :=
        match n with
        | O => None
        | S n' =>
            match blank t with
            | c :: t1 =>
                if bool_decide (c = quote) then
                  '(k, t2) ← read_string t1 [];
                  match blank t2 with
                  | ":"%char :: t3 =>
                      '(v, t4) ← read_value f cm t3;
                      match blank t4 with
                      | ","%char :: t5 => members n' t5 (obj_set k v acc)
                      | "}"%char :: t5 => Some (JObject (obj_set k v acc), t5)
                      | _ => None
                      end
                  | _ => None
                  end
                else None
            | [] => None
            end
        end in
      let fix items (n : nat) (t : text) (acc : list Json) :=
        match n with
        | O => None
        | S n' =>
            '(v, t1) ← read_value f cm t;
            match blank t1 with
            | ","%char :: t2 => items n' t2 (v :: acc)
            | "]"%char :: t2 => Some (JArray (rev (v :: acc)), t2)
            | _ => None
            end
        end in
      match blank s with
      | "{"%char :: t =>
          match blank t with
          | "}"%char :: t' => Some (JObject [], t')
          | _ => members (length t) t []
          end
      | "["%char :: t =>
          match blank t with
          | "]"%char :: t' => Some (JArray [], t')
          | _ => items (length t) t []
          end
      | "t"%char :: "r"%char :: "u"%char :: "e"%char :: t => Some (JBool true, t)
      | "f"%char :: "a"%char :: "l"%char :: "s"%char :: "e"%char :: t => Some (JBool false, t)
      | "n"%char :: "u"%char :: "l"%char :: "l"%char :: t => Some (JNull, t)
      | c :: t =>
          if bool_decide (c = quote) then '(k, t') ← read_string t []; Some (JString k, t')
          else read_number (c :: t)
      | [] => None
      end
  end.

Definition mini_parse (comments : bool) (s : text) : Json + text :=
  match read_value (S (length s)) comments s with
  | Some (v, rest) =>
      match skip_blank (S (length rest)) comments rest with
      | [] => inl v
      | _ => inr (&"unexpected trailing text")
      end
  | None => inr (&"syntax error")
  end.

Definition escape_json (c : ascii) : text :=
  if bool_decide (c = quote) then [backslash; quote]
  else if bool_decide (c = backslash) then [backslash; backslash]
  else if bool_decide (c = nl) then [backslash; "n"%char]
  else if zb c <? 32 then [backslash] ++ &"u00" ++ hex_lower [c]
  else [c].

Definition quoted (s : text) : text := [quote] ++ flat_map escape_json s ++ [quote].

Fixpoint mini_dump (v : Json) : text :=
  match v with
  | JNull => &"null"
  | JBool b => if b then &"true" else &"false"
  | JInt z | JUint z => to_string z
  | JFloat m e => to_string m ++ &"e" ++ to_string e
  | JString s => quoted s
  | JArray l => &"[" ++ join (&",") (mini_dump <$> l) ++ &"]"
  | JObject l =>
      &"{" ++ join (&",") ((fun '(k, w) => quoted k ++ &":" ++ mini_dump w) <$> l) ++ &"}"
  end.

Definition mini_json : JsonLib :=
  {| json_parse := mini_parse; json_dump v := Ok (mini_dump v) |}.

(** [&"a'b"] with the single quotes read as double quotes, for JSON texts. *)
Definition jtext (s : string) : text :=
  (fun c => if bool_decide (c = "'"%char) then quote else c) <$> lit s.

Example mini_parse_ex :
  mini_parse true (jtext "{'b': [1, -2, /* c */ null], 'a':'x', 'a':{}}") =
  inl (JObject [(&"a", JObject []); (&"b", JArray [JUint 1; JInt (-2); JNull])]).
Proof. vm_compute. reflexivity. Qed.
Example mini_dump_ex :
  mini_dump (json_object [(&"b", JArray [JUint 1; JBool true]); (&"a", JString (&"x"))]) =
  jtext "{'a':'x','b':[1,true]}".
Proof. vm_compute. reflexivity. Qed.
