(* ===== verification/JsonScan.v ===== *)
(** * The raw member scanner finds the members of a JSON object text

    A grammar of JSON texts that is coarse where the scanner is (it matches
    strings and brackets and takes the rest as it comes), and the theorem that
    [extract_json_member_raw] returns the exact text of the first member whose
    key it is asked for. *)
From S2P Require Import Prelude StdString Errors Codec Json MiniJson.

(** ** Grammar *)

Inductive string_body : text -> Prop :=
  | body_nil : string_body []
  | body_char c s :
      c <> quote -> c <> backslash -> string_body s -> string_body (c :: s)
  | body_escape c s : string_body s -> string_body (backslash :: c :: s).

Definition string_token (s : text) : Prop :=
  exists body, s = quote :: body ++ [quote] /\ string_body body.

Definition plain_char (c : ascii) : Prop :=
  c <> quote /\ is_open c = false /\ is_close c = false.

(** What stands between two matching brackets. *)
Inductive balanced : text -> Prop :=
  | bal_nil : balanced []
  | bal_char c s : plain_char c -> balanced s -> balanced (c :: s)
  | bal_string str s : string_token str -> balanced s -> balanced (str ++ s)
  | bal_nest o inner s :
      is_open o = true -> balanced inner -> balanced s ->
      balanced (o :: inner ++ closing_of o :: s).

Definition scalar_token (s : text) : Prop :=
  s <> [] /\
  Forall (fun c => scalar_char c = true /\ json_ws c = false /\ c <> quote /\ is_open c = false) s.

Inductive value_token : text -> Prop :=
  | value_string s : string_token s -> value_token s
  | value_scalar s : scalar_token s -> value_token s
  | value_bracket o inner :
      is_open o = true -> balanced inner -> value_token (o :: inner ++ [closing_of o]).

Definition white (w : text) : Prop := Forall (fun c => json_ws c = true) w.

(** One member: white space, raw key, white space, [:], white space, raw
    value, white space; and the key the raw text denotes. *)
Record member_text := Member {
  before_key : text; raw_key : text; after_key : text; before_value : text;
  raw_value : text; after_value : text; key_name : text
}.

Definition print_member (m : member_text) : text :=
  before_key m ++ raw_key m ++ after_key m ++ &":" ++
  before_value m ++ raw_value m ++ after_value m.

Fixpoint print_members (ms : list member_text) : text :=
  match ms with
  | [] => []
  | [m] => print_member m
  | m :: ms' => print_member m ++ &"," ++ print_members ms'
  end.

(** A document: white space, the object, and whatever follows it. *)
Definition print_document (w : text) (ms : list member_text) (rest : text) : text :=
  w ++ &"{" ++ print_members ms ++ &"}" ++ rest.

Definition member_ok `{JsonLib} (m : member_text) : Prop :=
  white (before_key m) /\ white (after_key m) /\ white (before_value m) /\
  white (after_value m) /\ string_token (raw_key m) /\ value_token (raw_value m) /\
  parse_key (raw_key m) = Some (key_name m).

(** The first member with a given key. *)
Fixpoint first_value (member : text) (ms : list member_text) : option text :=
  match ms with
  | [] => None
  | m :: ms' =>
      if decide (key_name m = member) then Some (raw_value m) else first_value member ms'
  end.

#[local] Arguments skip_json_whitespace : simpl never.
#[local] Arguments Nat.ltb : simpl never.

(** ** Lookups in a document cut in three *)


Lemma lookup_cut {A} (pre s : list A) : (pre ++ s) !! length pre = head s.
Proof. rewrite lookup_app_r, Nat.sub_diag by lia. by destruct s. Qed.

Lemma substr_cut (pre s post : text) :
  substr (pre ++ s ++ post) (length pre) (length s) = s.
Proof. unfold substr. by rewrite drop_app_length, take_app_length. Qed.

Lemma count_while_app p s c post :
  Forall (fun c => p c = true) s -> p c = false -> count_while p (s ++ c :: post) = length s.
Proof.
  intros HF Hc. induction HF as [|x s Hx HF IH]; cbn; [by rewrite Hc|].
  by rewrite Hx, IH.
Qed.

Lemma skip_white pre w c post :
  white w -> json_ws c = false ->
  skip_json_whitespace (pre ++ w ++ c :: post) (length pre) = length (pre ++ w).
Proof.
  intros Hw Hc. unfold skip_json_whitespace.
  rewrite drop_app_length, (count_while_app _ w c post), length_app by done. done.
Qed.

(** ** Strings *)

Lemma string_tail_body body post :
  string_body body -> string_tail false (body ++ quote :: post) = Some (S (length body)).
Proof.
  induction 1 as [|c s Hq Hb Hs IH|c s Hs IH]; cbn.
  - done.
  - by rewrite (bool_decide_false _ Hb), (bool_decide_false _ Hq), IH.
  - by rewrite IH.
Qed.

Lemma scan_string_token pre s post :
  string_token s -> scan_json_string (pre ++ s ++ post) (length pre) = Some (length (pre ++ s)).
Proof.
  intros (body & -> & Hb). unfold scan_json_string.
  rewrite lookup_cut. cbn [app head]. rewrite bool_decide_true by done.
  replace (S (length pre)) with (length (pre ++ [quote])) by (rewrite length_app; cbn; lia).
  replace (pre ++ quote :: (body ++ [quote]) ++ post)
    with ((pre ++ [quote]) ++ body ++ quote :: post) by (rewrite <- !app_assoc; done).
  rewrite drop_app_length, string_tail_body by done. cbn. f_equal.
  rewrite !length_app. cbn. rewrite length_app. cbn. lia.
Qed.

Lemma string_token_head s : string_token s -> head s = Some quote.
Proof. by intros (? & -> & _). Qed.

(** ** Brackets: the fuel never runs out *)

Lemma scan_json_string_bound value o e :
  scan_json_string value o = Some e -> (o < e <= length value)%nat.
Proof.
  unfold scan_json_string. destruct (value !! o) eqn:Ho; [|done].
  case_bool_decide; [|done].
  assert (forall b s n, string_tail b s = Some n -> (1 <= n <= length s)%nat) as HT.
  { clear. intros b s. revert b. induction s as [|c s IH]; cbn; intros b n; [done|].
    destruct b; [|repeat case_bool_decide];
      try (destruct (string_tail _ s) as [k|] eqn:E; [|done]; cbn; intros [= <-];
           apply IH in E; lia).
    intros [= <-]. lia. }
  destruct (string_tail _ _) as [n|] eqn:E; [|done]. cbn. intros [= <-].
  apply HT in E. rewrite length_drop in E. lia.
Qed.

Lemma scan_brackets_fuel value f g o closing :
  (length value - o < f)%nat -> (length value - o < g)%nat ->
  scan_brackets f value o closing = scan_brackets g value o closing.
Proof.
  revert g o closing. induction f as [|f IH]; intros [|g] o closing Hf Hg; try lia.
  cbn [scan_brackets]. destruct (value !! o) as [c|] eqn:Ho; [|done].
  apply lookup_lt_Some in Ho.
  case_bool_decide.
  - destruct (scan_json_string value o) as [e|] eqn:E; [|done].
    apply scan_json_string_bound in E. apply IH; lia.
  - destruct (is_open c); [apply IH; lia|]. destruct (is_close c); [|apply IH; lia].
    destruct closing as [|d rest]; [done|]. case_bool_decide; [done|].
    destruct rest; [done|]. apply IH; lia.
Qed.

(** The loop with enough fuel, and its equations along a grammar. *)
Definition brackets (value : text) (o : nat) (closing : list ascii) : option nat :=
  scan_brackets (S (length value)) value o closing.

Lemma brackets_enough f value o closing :
  (length value - o < f)%nat -> scan_brackets f value o closing = brackets value o closing.
Proof. intros. apply scan_brackets_fuel; lia. Qed.

Lemma brackets_step value o closing :
  brackets value o closing =
  match value !! o with
  | None => None
  | Some c =>
      if bool_decide (c = quote) then
        match scan_json_string value o with
        | None => None
        | Some e => brackets value e closing
        end
      else if is_open c then brackets value (S o) (closing_of c :: closing)
      else if is_close c then
        match closing with
        | [] => None
        | d :: rest =>
            if bool_decide (d <> c) then None
            else match rest with [] => Some (S o) | _ => brackets value (S o) rest end
        end
      else brackets value (S o) closing
  end.
Proof.
  unfold brackets at 1. cbn [scan_brackets].
  destruct (value !! o) as [c|] eqn:Ho; [|done]. apply lookup_lt_Some in Ho.
  case_bool_decide.
  { destruct (scan_json_string value o) as [e|] eqn:E; [|done].
    apply scan_json_string_bound in E. apply brackets_enough. lia. }
  destruct (is_open c); [apply brackets_enough; lia|].
  destruct (is_close c); [|apply brackets_enough; lia].
  destruct closing as [|d [|d' rest]]; try done.
  case_bool_decide; [done|]. apply brackets_enough. lia.
Qed.

(** Balanced text is skipped whatever brackets are open around it. *)
Lemma closing_of_close o : is_open o = true -> closing_of o <> quote /\
  is_open (closing_of o) = false /\ is_close (closing_of o) = true.
Proof. intros _. unfold closing_of. by case_bool_decide. Qed.

Lemma is_open_not_quote o : is_open o = true -> o <> quote.
Proof. by intros H ->. Qed.

Lemma length_snoc {A} (l : list A) x : S (length l) = length (l ++ [x]).
Proof. rewrite length_app. cbn. lia. Qed.

Lemma brackets_balanced s pre post d closing :
  balanced s ->
  brackets (pre ++ s ++ post) (length pre) (d :: closing) =
  brackets (pre ++ s ++ post) (length (pre ++ s)) (d :: closing).
Proof.
  intros Hs. revert pre post d closing.
  induction Hs as [|c s (Hq & Ho & Hc) Hs IH|str s Hstr Hs IH|o inner s Ho Hi IHi Hs IHs];
    intros pre post d closing.
  - by rewrite app_nil_r.
  - rewrite brackets_step, lookup_cut. cbn [app head].
    rewrite bool_decide_false, Ho, Hc by done.
    specialize (IH (pre ++ [c]) post d closing).
    rewrite <- !app_assoc in IH. cbn [app] in IH. rewrite (length_snoc pre c). exact IH.
  - rewrite brackets_step, lookup_cut, <- !app_assoc.
    destruct Hstr as (body & Hstr & Hb). rewrite Hstr. cbn [app head].
    rewrite bool_decide_true by done.
    pose proof (scan_string_token pre str (s ++ post) (ex_intro _ body (conj Hstr Hb))) as Hscan.
    rewrite Hstr in Hscan. cbn [app] in Hscan. rewrite Hscan.
    specialize (IH (pre ++ quote :: body ++ [quote]) post d closing).
    rewrite <- !app_assoc in IH. cbn [app] in IH. rewrite <- !app_assoc in IH.
    rewrite <- !app_assoc. exact IH.
  - destruct (closing_of_close o Ho) as (Hcq & Hco & Hcc).
    rewrite brackets_step, lookup_cut. cbn [app head].
    rewrite bool_decide_false, Ho by by apply is_open_not_quote.
    rewrite (length_snoc pre o).
    specialize (IHi (pre ++ [o]) (closing_of o :: s ++ post) (closing_of o) (d :: closing)).
    rewrite <- !app_assoc in IHi. cbn [app] in IHi. rewrite <- !app_assoc. cbn [app].
    rewrite IHi, brackets_step.
    replace (pre ++ o :: inner ++ closing_of o :: s ++ post)
      with ((pre ++ o :: inner) ++ closing_of o :: s ++ post) by (by rewrite <- app_assoc).
    replace (length (pre ++ [o] ++ inner)) with (length (pre ++ o :: inner)) by done.
    rewrite lookup_cut. cbn [head].
    rewrite bool_decide_false, Hco, Hcc by done. rewrite bool_decide_false by auto.
    specialize (IHs (pre ++ o :: inner ++ [closing_of o]) post d closing).
    rewrite <- !app_assoc in IHs. cbn [app] in IHs. rewrite <- !app_assoc in IHs.
    cbn [app] in IHs. rewrite <- !app_assoc. cbn [app].
    replace (S (length (pre ++ o :: inner))) with (length (pre ++ o :: inner ++ [closing_of o]))
      by (rewrite !length_app; cbn; rewrite length_app; cbn; lia).
    exact IHs.
Qed.

(** ** Values *)

Lemma rewind_white pre w c rest :
  white w -> json_ws c = false ->
  rewind_ws (pre ++ c :: w ++ rest) (length pre + S (length w)) = S (length pre).
Proof.
  intros Hw Hc. revert rest. induction w as [|x w IH] using rev_ind; intros rest.
  - cbn [length]. rewrite Nat.add_1_r. cbn [rewind_ws]. rewrite lookup_cut. cbn. by rewrite Hc.
  - apply Forall_app in Hw as [Hw Hx]. inversion Hx; subst.
    rewrite length_app. cbn [length]. replace (length pre + S (length w + 1))%nat
      with (S (length pre + S (length w))) by lia. cbn [rewind_ws].
    replace (pre ++ c :: (w ++ [x]) ++ rest) with ((pre ++ c :: w) ++ x :: rest)
      by (rewrite <- !app_assoc; done).
    replace (length pre + S (length w))%nat with (length (pre ++ c :: w))
      by (rewrite length_app; cbn; lia).
    rewrite lookup_cut. cbn [head]. rewrite H1.
    replace (length (pre ++ c :: w)) with (length pre + S (length w))%nat
      by (rewrite length_app; cbn; lia).
    rewrite <- app_assoc. apply IH. done.
Qed.

(** A value is scanned up to its end when white space and then [,] or [}]
    follow it. *)
Definition stop_char (c : ascii) : Prop := c = ","%char \/ c = "}"%char.

Lemma stop_char_facts c : stop_char c -> scalar_char c = false /\ json_ws c = false.
Proof. by intros [-> | ->]. Qed.

Lemma ws_scalar c : json_ws c = true -> scalar_char c = true.
Proof. byte_cases c. Qed.

Lemma scan_value_token pre v w c post :
  value_token v -> white w -> stop_char c ->
  scan_json_value (pre ++ v ++ w ++ c :: post) (length pre) = Some (length (pre ++ v)).
Proof.
  intros Hv Hw Hstop. destruct (stop_char_facts c Hstop) as [Hsc Hws].
  unfold scan_json_value. rewrite lookup_cut.
  destruct Hv as [s Hs|s [Hne Hs]|o inner Ho Hi].
  - pose proof (scan_string_token pre s (w ++ c :: post) Hs) as Hscan.
    destruct Hs as (body & -> & _). cbn [app head]. rewrite bool_decide_true by done.
    exact Hscan.
  - destruct (exists_last Hne) as (s' & x & ->).
    assert (scalar_char x = true /\ json_ws x = false) as [Hx1 Hx2].
    { apply Forall_app in Hs as [_ Hs]. inversion Hs as [|? ? (?&?&_)]. done. }
    assert (exists y t, s' ++ [x] = y :: t /\ y <> quote /\ is_open y = false)
      as (y & t & Hyt & Hyq & Hyo).
    { destruct (s' ++ [x]) as [|y t] eqn:E; [by destruct s'|].
      inversion Hs as [|? ? (?&?&?&?)]. eauto. }
    rewrite Hyt at 1. cbn [app head]. rewrite bool_decide_false, Hyo by done. cbn [negb].
    rewrite drop_app_length.
    replace ((s' ++ [x]) ++ w ++ c :: post) with (((s' ++ [x]) ++ w) ++ c :: post)
      by (by rewrite <- app_assoc).
    rewrite count_while_app; [| |done].
    + f_equal.
      replace (pre ++ ((s' ++ [x]) ++ w) ++ c :: post)
        with ((pre ++ s') ++ x :: w ++ c :: post) by (rewrite <- !app_assoc; done).
      replace (length pre + length ((s' ++ [x]) ++ w))%nat
        with (length (pre ++ s') + S (length w))%nat by (rewrite !length_app; cbn; lia).
      rewrite rewind_white by done. rewrite !length_app. cbn. lia.
    + apply Forall_app. split.
      * eapply Forall_impl; [exact Hs|]. naive_solver.
      * eapply Forall_impl; [exact Hw|]. intros z. apply ws_scalar.
  - destruct (closing_of_close o Ho) as (Hcq & Hco & Hcc).
    cbn [app head]. rewrite bool_decide_false, Ho by by apply is_open_not_quote. cbn [negb].
    set (value := pre ++ o :: (inner ++ [closing_of o]) ++ w ++ c :: post).
    change (brackets value (length pre) [] = Some (length (pre ++ o :: inner ++ [closing_of o]))).
    rewrite brackets_step. unfold value at 1. rewrite lookup_cut. cbn [head].
    rewrite bool_decide_false, Ho by by apply is_open_not_quote.
    rewrite (length_snoc pre o).
    pose proof (brackets_balanced inner (pre ++ [o]) (closing_of o :: w ++ c :: post)
      (closing_of o) [] Hi) as Hb.
    replace ((pre ++ [o]) ++ inner ++ closing_of o :: w ++ c :: post) with value in Hb
      by (unfold value; rewrite <- !app_assoc; done).
    rewrite Hb, brackets_step. unfold value.
    replace (pre ++ o :: (inner ++ [closing_of o]) ++ w ++ c :: post)
      with (((pre ++ [o]) ++ inner) ++ closing_of o :: w ++ c :: post)
      by (rewrite <- !app_assoc; done).
    rewrite lookup_cut. cbn [head]. rewrite bool_decide_false, Hco, Hcc by done.
    rewrite bool_decide_false by auto. f_equal. rewrite !length_app. cbn.
    rewrite length_app. cbn. lia.
Qed.

(** ** The member loop *)

Lemma value_token_head v : value_token v ->
  exists c t, v = c :: t /\ json_ws c = false.
Proof.
  intros [s (body & -> & _)|s [Hne Hs]|o inner Ho _]; [by eexists _, _| |].
  - destruct s as [|c t]; [done|]. inversion Hs as [|? ? (?&?&_)]. eauto.
  - eexists _, _. split; [done|]. revert Ho. byte_cases o.
Qed.

Section Loop.
Context `{JsonLib}.

(** One round: from the start of a member, the loop reads its key and its
    value, and returns or goes on after the comma. *)
Lemma extract_round f pre m c post member :
  member_ok m -> stop_char c ->
  extract_loop (S f) (pre ++ print_member m ++ c :: post) member (length pre) =
  if decide (key_name m = member) then Some (Some (raw_value m))
  else if decide (c = ","%char)
  then extract_loop f (pre ++ print_member m ++ c :: post) member
         (S (length (pre ++ print_member m)))
  else Some None.
Proof.
  intros (Hw1 & Hw2 & Hw3 & Hw4 & Hk & Hv & Hkey) Hstop.
  destruct m as [w1 k w2 w3 v w4 name]. cbn in *.
  unfold print_member. cbn [before_key raw_key after_key before_value raw_value after_value].
  set (doc := pre ++ (w1 ++ k ++ w2 ++ &":" ++ w3 ++ v ++ w4) ++ c :: post).
  assert (doc = pre ++ w1 ++ k ++ w2 ++ ":"%char :: w3 ++ v ++ w4 ++ c :: post) as Hdoc.
  { unfold doc. rewrite <- !app_assoc. done. }
  destruct (value_token_head v Hv) as (vc & vt & Hvh & Hvc).
  assert (skip_json_whitespace doc (length pre) = length (pre ++ w1)) as S1.
  { rewrite Hdoc. destruct Hk as (b & -> & _). by apply skip_white. }
  assert (doc !! length (pre ++ w1) = Some quote) as L1.
  { rewrite Hdoc, app_assoc, lookup_cut. by destruct Hk as (b & -> & _). }
  assert (scan_json_string doc (length (pre ++ w1)) = Some (length ((pre ++ w1) ++ k))) as K1.
  { rewrite Hdoc, app_assoc. by apply scan_string_token. }
  assert (substr doc (length (pre ++ w1)) (length ((pre ++ w1) ++ k) - length (pre ++ w1)) = k)
    as K2.
  { rewrite Hdoc, app_assoc, (length_app (pre ++ w1)), Nat.add_comm, Nat.add_sub.
    apply substr_cut. }
  set (p2 := (pre ++ w1) ++ k) in *.
  assert (skip_json_whitespace doc (length p2) = length (p2 ++ w2)) as S2.
  { rewrite Hdoc. unfold p2. rewrite (app_assoc pre), (app_assoc (pre ++ w1)).
    by apply skip_white. }
  assert (doc = (p2 ++ w2) ++ ":"%char :: w3 ++ v ++ w4 ++ c :: post) as Hdoc2.
  { rewrite Hdoc. unfold p2. rewrite <- !app_assoc. done. }
  assert (doc !! length (p2 ++ w2) = Some ":"%char) as L2.
  { by rewrite Hdoc2, lookup_cut. }
  set (p3 := (p2 ++ w2) ++ [":"%char]).
  assert (doc = p3 ++ w3 ++ v ++ w4 ++ c :: post) as Hdoc3.
  { rewrite Hdoc2. unfold p3. rewrite <- !app_assoc. done. }
  assert (skip_json_whitespace doc (S (length (p2 ++ w2))) = length (p3 ++ w3)) as S3.
  { rewrite (length_snoc _ ":"%char). fold p3. rewrite Hdoc3, Hvh. by apply skip_white. }
  assert (scan_json_value doc (length (p3 ++ w3)) = Some (length ((p3 ++ w3) ++ v))) as V1.
  { rewrite Hdoc3, app_assoc. by apply scan_value_token. }
  assert (substr doc (length (p3 ++ w3)) (length ((p3 ++ w3) ++ v) - length (p3 ++ w3)) = v)
    as V2.
  { rewrite Hdoc3, app_assoc, (length_app (p3 ++ w3)), Nat.add_comm, Nat.add_sub.
    apply substr_cut. }
  set (p4 := (p3 ++ w3) ++ v) in *.
  assert (doc = p4 ++ w4 ++ c :: post) as Hdoc4.
  { rewrite Hdoc3. unfold p4. rewrite <- !app_assoc. done. }
  assert (skip_json_whitespace doc (length p4) = length (p4 ++ w4)) as S4.
  { rewrite Hdoc4. apply skip_white; [done|]. by apply stop_char_facts. }
  assert (doc !! length (p4 ++ w4) = Some c) as L4.
  { rewrite Hdoc4, app_assoc. by rewrite lookup_cut. }
  cbn [extract_loop]. rewrite S1, L1, K1, K2, Hkey, S2, L2. rewrite S3, V1, V2, S4, L4.
  rewrite bool_decide_false by done. rewrite bool_decide_false by naive_solver.
  assert ((length p4 <? length (p3 ++ w3))%nat = false) as ->.
  { apply Nat.ltb_ge. unfold p4. rewrite (length_app (p3 ++ w3)). lia. }
  replace (pre ++ w1 ++ k ++ w2 ++ &":" ++ w3 ++ v ++ w4) with (p4 ++ w4).
  2: { unfold p4, p3, p2. rewrite <- !app_assoc. done. }
  unfold bool_decide. destruct (decide (name = member)), (decide_rel eq name member); try done.
  destruct (decide (c = ","%char)), (decide_rel _ (Some c) _); naive_solver.
Qed.

Lemma extract_members f pre ms rest member :
  ms <> [] -> Forall member_ok ms -> (length ms <= f)%nat ->
  extract_loop f (pre ++ print_members ms ++ "}"%char :: rest) member (length pre) =
  Some (first_value member ms).
Proof.
  intros Hne HF. revert f pre Hne. induction HF as [|m ms Hm HF IH]; [done|].
  intros [|f] pre _ Hf; [cbn in Hf; lia|].
  destruct ms as [|m' ms].
  - cbn [print_members first_value]. rewrite extract_round; [|done|by right].
    repeat case_decide; done.
  - set (tl := m' :: ms) in *. assert (tl <> []) as Htl by done.
    replace (print_members (m :: tl)) with (print_member m ++ &"," ++ print_members tl) by done.
    rewrite <- !app_assoc. change (&",") with [","%char]. cbn [app].
    rewrite extract_round; [|done|by left]. cbn [first_value].
    case_decide; [done|]. rewrite decide_True by done.
    rewrite (length_snoc _ ","%char).
    replace (pre ++ print_member m ++ ","%char :: print_members tl ++ "}"%char :: rest)
      with (((pre ++ print_member m) ++ [","%char]) ++ print_members tl ++ "}"%char :: rest)
      by (rewrite <- !app_assoc; done).
    apply IH; [done|]. cbn in *. lia.
Qed.

Lemma print_members_length ms : (length ms <= S (length (print_members ms)))%nat.
Proof.
  induction ms as [|m [|m' ms] IH]; [cbn; lia..|].
  replace (print_members (m :: m' :: ms))
    with (print_member m ++ &"," ++ print_members (m' :: ms)) by done.
  rewrite !length_app. change (length (&",")) with 1%nat. cbn [length] in *. lia.
Qed.

(** C34: on the text of a JSON object, with any white space, any nesting and
    any string escapes, [extract_json_member_raw] returns exactly the raw
    text of the first member with the requested key, and nothing when no
    member has it. *)
Theorem extract_first_member w ms rest member :
  white w -> ms <> [] -> Forall member_ok ms ->
  extract_json_member_raw (print_document w ms rest) member = first_value member ms.
Proof.
  intros Hw Hne HF. unfold extract_json_member_raw, print_document.
  set (doc := w ++ &"{" ++ print_members ms ++ &"}" ++ rest).
  assert (skip_json_whitespace doc 0 = length w) as S0.
  { unfold doc. by apply (skip_white [] w "{"%char). }
  rewrite S0. assert (doc !! length w = Some "{"%char) as ->.
  { unfold doc. by rewrite lookup_cut. }
  rewrite bool_decide_true by done.
  rewrite (length_snoc w "{"%char).
  replace doc with ((w ++ ["{"%char]) ++ print_members ms ++ "}"%char :: rest) at 2
    by (unfold doc; rewrite <- !app_assoc; done).
  rewrite extract_members; [done|done|done|].
  unfold doc. rewrite !length_app. pose proof (print_members_length ms). cbn. lia.
Qed.
End Loop.

(** A concrete document: the member asked for comes second, and both values
    hold brackets and quotes that a plain search would trip over. *)
Definition example_members : list member_text :=
  [Member [] (quoted (&"a")) [] (&" ") (&"17") [] (&"a");
   Member (&" ") (quoted (&"data")) (&" ") [] (jtext "{'x':'}'}") (&" ") (&"data")].

Lemma quoted_token s : Forall (fun c => c <> quote /\ c <> backslash /\ 32 <= zb c) s ->
  string_token (quoted s).
Proof.
  intros HF. exists s. unfold quoted. split.
  - f_equal. f_equal. induction HF as [|c s (Hq & Hb & Hc) HF IH]; [done|]. cbn.
    rewrite IH. unfold escape_json. rewrite !bool_decide_false; [|by intros ->|done|done].
    assert ((zb c <? 32) = false) as -> by (apply Z.ltb_ge; lia). done.
  - induction HF as [|c s (Hq & Hb & Hc) HF IH]; by constructor.
Qed.

Lemma example_members_ok : Forall (@member_ok mini_json) example_members.
Proof.
  apply Forall_cons. split; [|apply Forall_cons; split; [|apply Forall_nil; done]];
    (split; [by repeat constructor|]); (split; [by repeat constructor|]);
    (split; [by repeat constructor|]); (split; [by repeat constructor|]);
    (split; [apply quoted_token; by repeat constructor|]);
    (split; [|vm_compute; reflexivity]).
  - apply value_scalar. split; [done|]. by repeat constructor.
  - apply (value_bracket "{"%char (jtext "'x':'}'")); [done|].
    apply (bal_string (jtext "'x'") (jtext ":'}'")).
    { apply (quoted_token (&"x")). by repeat constructor. }
    apply bal_char; [done|].
    apply (bal_string (jtext "'}'") []); [|constructor].
    apply (quoted_token (&"}")). by repeat constructor.
Qed.

Lemma extract_first_member_witness :
  (white (&" ") /\ example_members <> [] /\ Forall (@member_ok mini_json) example_members) /\
  @extract_json_member_raw mini_json (print_document (&" ") example_members []) (&"data") =
    Some (jtext "{'x':'}'}").
Proof.
  split; [split_and!; [by repeat constructor | done | exact example_members_ok]|].
  exact (@extract_first_member mini_json (&" ") example_members [] (&"data")
    ltac:(by repeat constructor) ltac:(done) example_members_ok).
Defined.

(** ** Termination on every document *)

Section Termination.
Context `{JsonLib}.

Lemma skip_ge value o : (o <= skip_json_whitespace value o)%nat.
Proof. unfold skip_json_whitespace. lia. Qed.

Lemma extract_loop_enough f g document member o :
  (length document - o < f)%nat -> (f <= g)%nat ->
  extract_loop f document member o <> None /\
  extract_loop g document member o = extract_loop f document member o.
Proof.
  revert g o. induction f as [|f IH]; intros [|g] o Ho Hfg; try lia. cbn [extract_loop].
  pose proof (skip_ge document o). set (o1 := skip_json_whitespace document o) in *.
  destruct (document !! o1) as [c|] eqn:Ho1; [|done]. apply lookup_lt_Some in Ho1.
  case_bool_decide; [done|].
  destruct (scan_json_string document o1) as [ke|] eqn:Hke; [|done].
  apply scan_json_string_bound in Hke.
  destruct (parse_key _) as [key|]; [|done].
  pose proof (skip_ge document ke). set (o2 := skip_json_whitespace document ke) in *.
  case_bool_decide; [done|].
  pose proof (skip_ge document (S o2)).
  set (vb := skip_json_whitespace document (S o2)) in *.
  destruct (scan_json_value document vb) as [ve|]; [|done].
  destruct (ve <? vb)%nat eqn:Hv; [done|]. breflect.
  case_bool_decide; [done|].
  pose proof (skip_ge document ve). set (o3 := skip_json_whitespace document ve) in *.
  case_bool_decide; [|done]. apply IH; lia.
Qed.

(** The member loop ends on every document, well formed or not: the
    fuel of the model, one more than the document's length, never runs out,
    and any larger amount gives the same answer. *)
Theorem extract_terminates document member o fuel :
  (length document < fuel)%nat ->
  exists r, extract_loop (S (length document)) document member o = Some r /\
            extract_loop fuel document member o = Some r.
Proof.
  intros Hf.
  destruct (extract_loop_enough (S (length document)) fuel document member o)
    as [Hne Heq]; [lia..|].
  rewrite Heq. destruct (extract_loop _ document member o) as [r|]; [|done]. eauto.
Qed.
End Termination.

Lemma extract_terminates_witness :
  (length (jtext "{'a':[1") < 100)%nat /\
  exists r,
    @extract_loop mini_json (S (length (jtext "{'a':[1"))) (jtext "{'a':[1") (&"a") 1 = Some r /\
    @extract_loop mini_json 100 (jtext "{'a':[1") (&"a") 1 = Some r.
Proof.
  assert (length (jtext "{'a':[1") < 100)%nat as H by (apply Nat.ltb_lt; reflexivity).
  split; [exact H|]. exact (@extract_terminates mini_json _ _ 1%nat _ H).
Defined.
