(* ===== verification/Types.v ===== *)
(** * The public data types ([include/swm/types.hpp])

    One record per struct, with the source's field names (prefixed where Rocq
    needs distinct projections).  A [std::optional<int>] is an [option Z], a
    path is its text. *)
From S2P Require Import Prelude StdString Errors Json.

Abbreviation path := text.
Abbreviation StringMap := (gmap text text).

Record HostIntegrityOptions := {
  hio_enabled : bool;
  hio_package_root : path;
  hio_manifest_path : path;
  hio_evidence_provider : option (Json -> Result Json)
}.

Definition no_host_integrity : HostIntegrityOptions :=
  {| hio_enabled := false; hio_package_root := []; hio_manifest_path := [];
     hio_evidence_provider := None |}.

Record ClientOptions := {
  base_url : text;
  web_base_url : text;
  app_id : text;
  release_id : text;
  version : text;
  version_code : option Z;
  root_trust_key_id : text;
  root_trust_public_key : text;
  channel : text;
  platform : text;
  arch : text;
  opt_device_id : text;
  storage_directory : path;
  allow_insecure_http : bool;
  host_integrity : HostIntegrityOptions
}.

Record HardwareEvidence := {
  he_version : Z;
  component_mask : Z;
  aggregate_hash : text
}.

Record IntegrityEvidence := {
  ie_state : text;
  ie_failure_code : text;
  ie_evidence_version : option Z;
  ie_manifest_sha256 : text;
  ie_files : StringMap
}.

Definition no_evidence : IntegrityEvidence :=
  {| ie_state := []; ie_failure_code := []; ie_evidence_version := None;
     ie_manifest_sha256 := []; ie_files := ∅ |}.

Record MaintenanceInfo := {
  mi_enabled : bool;
  mi_start_at : text;
  mi_message : text;
  mi_active : bool
}.

Record UpdateInfo := {
  update_available : bool;
  mandatory : bool;
  heartbeat_interval_seconds : Z;
  open_in_browser : bool;
  delivery_method : text;
  ui_release_id : text;
  ui_version : text;
  ui_version_code : option Z;
  notes : text;
  download_url : text;
  checksum_sha256 : text;
  signature : text;
  manifest_key_id : text;
  manifest_public_key : text;
  ui_root_trust_key_id : text;
  root_trust_signature : text;
  artifact_file_name : text;
  artifact_platform : text;
  artifact_arch : text;
  authz_protocol : text;
  host_integrity_required : bool;
  ui_size : Z;
  rollback_allowed : bool;
  ui_maintenance : option MaintenanceInfo
}.

Record HeartbeatResult := {
  hb_ok : bool;
  hb_server_time : text;
  hb_maintenance : option MaintenanceInfo
}.

Record Event := {
  ev_device_id : text;
  event_name : text;
  event_time : text;
  ev_channel_code : text;
  properties : Json;
  attributes : Json
}.

Record FeedbackRequest := {
  content : text;
  rating : option Z;
  contact : text;
  fb_app_version : text;
  attachments : list path;
  metadata : Json
}.

Record FeedbackResult := { fb_ok : bool; fb_id : text }.

Record EnrollmentTicket := {
  et_ticket : text;
  et_expires_at : Z;
  et_audience : text
}.

Record DeviceKeyRotationResult := {
  rot_registration_id : text;
  rot_install_id : text;
  rot_key_id : text;
  rot_device_id : text
}.

Record OperationAuthorizationRequest := {
  operation : text;
  plan : Bytes;
  step_count : Z;
  total_bytes : Z;
  consumer_module : text;
  consumer_challenge : Bytes;
  host_executable_path : path;
  consumer_module_path : path
}.

Record OperationGrant := {
  og_schema : text;
  og_app_id : text;
  og_release_id : text;
  og_device_id : text;
  og_device_key_id : text;
  og_key_thumbprint : text;
  og_device_public_key : text;
  og_authz_public_key : text;
  og_authz_key_id : text;
  og_authz_root_trust_key_id : text;
  og_authz_root_trust_signature : text;
  og_session : text;
  og_grant_id : text;
  og_operation : text;
  og_plan_sha256 : text;
  og_step_count : Z;
  og_total_bytes : Z;
  og_issued_at : Z;
  og_expires_at : Z;
  og_consumer_challenge : text;
  og_integrity_manifest_sha256 : text;
  og_host_exe_sha256 : text;
  og_consumer_module : text;
  og_consumer_module_sha256 : text
}.

Record OperationConsumptionReceipt := {
  rc_schema : text;
  rc_grant_id : text;
  rc_operation : text;
  rc_plan_sha256 : text;
  rc_step_count : Z;
  rc_total_bytes : Z;
  rc_consumer_challenge : text;
  rc_consumed_at : Z;
  rc_expires_at : Z;
  rc_integrity_manifest_sha256 : text;
  rc_host_exe_sha256 : text;
  rc_consumer_module : text;
  rc_consumer_module_sha256 : text
}.

Record UpdateEvent := {
  ue_id : text;
  ue_event_type : text;
  ue_org_id : text;
  ue_app_id : text;
  ue_device_id : text;
  ue_channel_code : text;
  ue_platform : text;
  ue_arch : text;
  ue_release_id : text;
  ue_published_at : text;
  ue_reason : text;
  ue_message : text;
  ue_maintenance_start_at : text
}.

Record UpdateStreamOptions := {
  current_version : text;
  uso_version_code : option Z;
  reconnect : bool;
  reconnect_backoff : Z;
  reconnect_max_backoff : Z;
  jitter : bool
}.

Record DebugRequestTicket := {
  dr_request_id : text;
  dr_watch_token : text;
  dr_expires_at : Z
}.

Record DebugDecisionEvent := {
  dd_state : text;
  dd_reason : text;
  authorization_expires_at : Z
}.
