(* ===== verification/Operation.v ===== *)
(** * Operation authorization requests and grants ([src/internal/operation.cpp])

    The two validators that guard the authorization of an operation and the
    consumption of its grant. *)
From S2P Require Import Prelude StdString Errors Codec Types.

Definition bad_operation (what : text) : Exn := err Configuration 0 [] what.

(** Returns whether the operation is bound to the host. *)
Definition validate_operation_authorization_request
    (request : OperationAuthorizationRequest) (host_integrity_required : bool) : Result bool :=
  if bool_decide (trim_ascii (operation request) = []) || bool_decide (plan request = []) ||
     (step_count request =? 0) || (100000 <? step_count request) ||
     bool_decide (trim_ascii (consumer_module request) = [])
  then Throw (bad_operation (&"operation authorization request is invalid"))
  else
    let has_host_path := negb (bool_decide (host_executable_path request = [])) in
    let has_module_path := negb (bool_decide (consumer_module_path request = [])) in
    if xorb has_host_path has_module_path
    then Throw (bad_operation
           (&"host_executable_path and consumer_module_path must be provided together"))
    else
      let host_bound := has_host_path || host_integrity_required in
      if host_bound && negb has_host_path
      then Throw (bad_operation
             (&"host-bound operation authorization requires host and consumer module paths"))
      else if negb (bool_decide (consumer_challenge request = [])) &&
              negb (zlen (consumer_challenge request) =? 32)
      then Throw (bad_operation (&"consumer challenge must be 32 bytes"))
      else Ok host_bound.

Definition validate_operation_grant (grant : OperationGrant) : Result unit :=
  if (negb (bool_decide (og_schema grant = &"operation_grant_v3_host")) &&
      negb (bool_decide (og_schema grant = &"operation_grant_v3_unbound"))) ||
     bool_decide (og_grant_id grant = []) || bool_decide (og_operation grant = []) ||
     bool_decide (og_plan_sha256 grant = []) || bool_decide (og_consumer_module grant = []) ||
     bool_decide (og_consumer_challenge grant = []) || (og_step_count grant =? 0) ||
     (og_issued_at grant <=? 0) || (og_expires_at grant <=? og_issued_at grant)
  then Throw (bad_operation (&"operation grant is incomplete or invalid"))
  else Ok tt.

(** What a request must be to be sent, and whether it is then host-bound. *)
Record valid_request (r : OperationAuthorizationRequest) (required bound : bool) : Prop := {
  vr_operation : trim_ascii (operation r) <> [];
  vr_plan : plan r <> [];
  vr_steps : 1 <= step_count r <= 100000;
  vr_module : trim_ascii (consumer_module r) <> [];
  vr_paths : host_executable_path r = [] <-> consumer_module_path r = [];
  vr_bound : bound = true <-> host_executable_path r <> [];
  vr_required : required = true -> host_executable_path r <> [];
  vr_challenge : consumer_challenge r = [] \/ zlen (consumer_challenge r) = 32
}.

(** An authorization request passes exactly when it names an operation, a
    plan, 1 to 100000 steps and a module, gives both paths or neither, gives
    them when host integrity is required, and brings no challenge or one of
    32 bytes; it is host-bound exactly when it gives the paths. *)
Theorem operation_request_iff r required bound : 0 <= step_count r ->
  validate_operation_authorization_request r required = Ok bound <-> valid_request r required bound.
Proof.
  intros Hs. unfold validate_operation_authorization_request. split.
  - destruct (_ || bool_decide (trim_ascii (consumer_module r) = [])) eqn:E; [done|]. breflect.
    destruct (decide (host_executable_path r = [])) as [Eh|Eh];
      destruct (decide (consumer_module_path r = [])) as [Em|Em];
      rewrite ?(bool_decide_true _ Eh), ?(bool_decide_false _ Eh),
        ?(bool_decide_true _ Em), ?(bool_decide_false _ Em); cbn; try done;
      destruct required; cbn; try done;
      (destruct (decide (consumer_challenge r = [])) as [Ec|Ec];
        [rewrite (bool_decide_true _ Ec)|rewrite (bool_decide_false _ Ec)]; cbn;
        [|destruct (zlen (consumer_challenge r) =? 32) eqn:El; cbn; [|done]]);
      intros [= <-]; breflect; constructor; try done; try lia; naive_solver.
  - intros [H1 H2 H3 H4 H5 H6 H7 H8].
    rewrite !bool_decide_false by done.
    rewrite (proj2 (Z.eqb_neq _ _)), (proj2 (Z.ltb_ge _ _)) by lia. cbn [orb].
    assert (negb (bool_decide (consumer_challenge r = [])) &&
            negb (zlen (consumer_challenge r) =? 32) = false) as ->.
    { destruct H8 as [Hc|Hc]; [by rewrite (bool_decide_true _ Hc)|]. rewrite Hc. by rewrite andb_false_r. }
    destruct (decide (host_executable_path r = [])) as [Eh|Eh];
      destruct (decide (consumer_module_path r = [])) as [Em|Em]; try tauto.
    + rewrite !bool_decide_true by done. destruct required; [by destruct H7|].
      cbn. destruct bound; [by destruct (proj1 H6)|done].
    + rewrite !bool_decide_false by done. cbn. by rewrite (proj2 H6).
Qed.

Definition demo_operation : OperationAuthorizationRequest := {|
  operation := &"flash"; plan := &"{}"; step_count := 3; total_bytes := 10;
  consumer_module := &"m.dll"; consumer_challenge := []; host_executable_path := &"C:\a.exe";
  consumer_module_path := &"C:\m.dll" |}.

Lemma operation_request_iff_witness :
  validate_operation_authorization_request demo_operation true = Ok true <->
  valid_request demo_operation true true.
Proof. apply operation_request_iff. cbn. lia. Defined.
