(* ===== verification/Payloads.v ===== *)
(** * What the client writes and reads as JSON ([src/client.cpp])

    The bodies of the client's requests and the structs read from the verified
    data of its responses, field by field. *)
From S2P Require Import Prelude StdString Errors Codec Json Types.

(** ** Responses *)

Definition maintenance_from_json (value : Json) : Result MaintenanceInfo :=
  enabled ← json_get_bool value (&"enabled") false;
  start_at ← optional_string value (&"start_at");
  message ← optional_string value (&"message");
  active ← json_get_bool value (&"active") false;
  Ok {| mi_enabled := enabled; mi_start_at := start_at; mi_message := message; mi_active := active |}.

(** [if (value.contains("maintenance") && value["maintenance"].is_object())]. *)
Definition maintenance_member (value : Json) : Result (option MaintenanceInfo) :=
  match json_find value (&"maintenance") with
  | Some (JObject l) => m ← maintenance_from_json (JObject l); Ok (Some m)
  | _ => Ok None
  end.

Definition update_from_json (value : Json) : Result UpdateInfo :=
  update_available ← json_get_bool value (&"update_available") false;
  mandatory ← json_get_bool value (&"mandatory") false;
  heartbeat ← json_get_int64 value (&"heartbeat_interval_seconds") 0;
  open_in_browser ← json_get_bool value (&"open_in_browser") false;
  delivery_method ← optional_string value (&"delivery_method");
  release_id ← optional_string value (&"release_id");
  version ← optional_string value (&"version");
  version_code ← optional_int value (&"version_code");
  notes ← optional_string value (&"notes");
  download_url ← optional_string value (&"download_url");
  checksum ← optional_string value (&"checksum_sha256");
  signature ← optional_string value (&"signature");
  manifest_key_id ← optional_string value (&"manifest_key_id");
  manifest_public_key ← optional_string value (&"manifest_public_key");
  root_id ← optional_string value (&"root_trust_key_id");
  root_signature ← optional_string value (&"root_trust_signature");
  file_name ← optional_string value (&"artifact_file_name");
  platform ← optional_string value (&"artifact_platform");
  arch ← optional_string value (&"artifact_arch");
  authz_protocol ← optional_string value (&"authz_protocol");
  required ← json_get_bool value (&"host_integrity_required") false;
  size ← json_get_uint64 value (&"size") 0;
  rollback ← json_get_bool value (&"rollback_allowed") false;
  maintenance ← maintenance_member value;
  Ok {| update_available := update_available; mandatory := mandatory;
        heartbeat_interval_seconds := i32 heartbeat; open_in_browser := open_in_browser;
        delivery_method := delivery_method; ui_release_id := release_id; ui_version := version;
        ui_version_code := version_code; notes := notes; download_url := download_url;
        checksum_sha256 := checksum; signature := signature; manifest_key_id := manifest_key_id;
        manifest_public_key := manifest_public_key; ui_root_trust_key_id := root_id;
        root_trust_signature := root_signature; artifact_file_name := file_name;
        artifact_platform := platform; artifact_arch := arch; authz_protocol := authz_protocol;
        host_integrity_required := required; ui_size := i64 size; rollback_allowed := rollback;
        ui_maintenance := maintenance |}.

Definition event_from_json (value : Json) : Result UpdateEvent :=
  id ← optional_string value (&"id");
  event_type ← optional_string value (&"event_type");
  org_id ← optional_string value (&"org_id");
  app_id ← optional_string value (&"app_id");
  device_id ← optional_string value (&"device_id");
  channel_code ← optional_string value (&"channel_code");
  platform ← optional_string value (&"platform");
  arch ← optional_string value (&"arch");
  release_id ← optional_string value (&"release_id");
  published_at ← optional_string value (&"published_at");
  reason ← optional_string value (&"reason");
  message ← optional_string value (&"message");
  maintenance ← optional_string value (&"maintenance_start_at");
  Ok {| ue_id := id; ue_event_type := event_type; ue_org_id := org_id; ue_app_id := app_id;
        ue_device_id := device_id; ue_channel_code := channel_code; ue_platform := platform;
        ue_arch := arch; ue_release_id := release_id; ue_published_at := published_at;
        ue_reason := reason; ue_message := message; ue_maintenance_start_at := maintenance |}.

Definition heartbeat_from_json (data : Json) : Result HeartbeatResult :=
  ok ← json_get_bool data (&"ok") false;
  server_time ← optional_string data (&"server_time");
  maintenance ← maintenance_member data;
  Ok {| hb_ok := ok; hb_server_time := server_time; hb_maintenance := maintenance |}.

Definition feedback_from_json (data : Json) : Result FeedbackResult :=
  ok ← json_get_bool data (&"ok") false;
  id ← json_get_string data (&"id") true;
  if negb ok || negb (valid_uuid id)
  then Throw (err Protocol 0 [] (&"feedback response is incomplete or invalid"))
  else Ok {| fb_ok := true; fb_id := id |}.

Definition ticket_from_json (data : Json) : Result EnrollmentTicket :=
  ticket ← json_get_string data (&"ticket") true;
  expires_at ← json_get_int64 data (&"expires_at") 0;
  audience ← json_get_string data (&"audience") true;
  Ok {| et_ticket := ticket; et_expires_at := expires_at; et_audience := audience |}.

Definition grant_from_json (data : Json) : Result OperationGrant :=
  schema ← json_get_string data (&"schema") true;
  app_id ← json_get_string data (&"app_id") true;
  release_id ← json_get_string data (&"release_id") true;
  device_id ← json_get_string data (&"device_id") true;
  device_key_id ← json_get_string data (&"device_key_id") true;
  key_thumbprint ← json_get_string data (&"key_thumbprint") true;
  device_public_key ← json_get_string data (&"device_public_key") true;
  authz_public_key ← json_get_string data (&"authz_public_key") true;
  authz_key_id ← json_get_string data (&"authz_key_id") true;
  authz_root_id ← json_get_string data (&"authz_root_trust_key_id") true;
  authz_root_signature ← json_get_string data (&"authz_root_trust_signature") true;
  session ← json_get_string data (&"session") true;
  grant_id ← json_get_string data (&"grant_id") true;
  operation ← json_get_string data (&"operation") true;
  plan_sha256 ← json_get_string data (&"plan_sha256") true;
  step_count ← json_get_uint64 data (&"step_count") 0;
  total_bytes ← json_get_uint64 data (&"total_bytes") 0;
  issued_at ← json_get_int64 data (&"issued_at") 0;
  expires_at ← json_get_int64 data (&"expires_at") 0;
  challenge ← json_get_string data (&"consumer_challenge") true;
  manifest ← optional_string data (&"integrity_manifest_sha256");
  host ← optional_string data (&"host_exe_sha256");
  module_ ← json_get_string data (&"consumer_module") true;
  module_hash ← optional_string data (&"consumer_module_sha256");
  Ok {| og_schema := schema; og_app_id := app_id; og_release_id := release_id;
        og_device_id := device_id; og_device_key_id := device_key_id;
        og_key_thumbprint := key_thumbprint; og_device_public_key := device_public_key;
        og_authz_public_key := authz_public_key; og_authz_key_id := authz_key_id;
        og_authz_root_trust_key_id := authz_root_id;
        og_authz_root_trust_signature := authz_root_signature; og_session := session;
        og_grant_id := grant_id; og_operation := operation; og_plan_sha256 := plan_sha256;
        og_step_count := u32 step_count; og_total_bytes := total_bytes; og_issued_at := issued_at;
        og_expires_at := expires_at; og_consumer_challenge := challenge;
        og_integrity_manifest_sha256 := manifest; og_host_exe_sha256 := host;
        og_consumer_module := module_; og_consumer_module_sha256 := module_hash |}.

Definition receipt_from_json (data : Json) : Result OperationConsumptionReceipt :=
  schema ← json_get_string data (&"schema") true;
  grant_id ← json_get_string data (&"grant_id") true;
  operation ← json_get_string data (&"operation") true;
  plan_sha256 ← json_get_string data (&"plan_sha256") true;
  step_count ← json_get_uint64 data (&"step_count") 0;
  total_bytes ← json_get_uint64 data (&"total_bytes") 0;
  challenge ← json_get_string data (&"consumer_challenge") true;
  consumed_at ← json_get_int64 data (&"consumed_at") 0;
  expires_at ← json_get_int64 data (&"expires_at") 0;
  manifest ← optional_string data (&"integrity_manifest_sha256");
  host ← optional_string data (&"host_exe_sha256");
  module_ ← json_get_string data (&"consumer_module") true;
  module_hash ← optional_string data (&"consumer_module_sha256");
  Ok {| rc_schema := schema; rc_grant_id := grant_id; rc_operation := operation;
        rc_plan_sha256 := plan_sha256; rc_step_count := u32 step_count;
        rc_total_bytes := total_bytes; rc_consumer_challenge := challenge;
        rc_consumed_at := consumed_at; rc_expires_at := expires_at;
        rc_integrity_manifest_sha256 := manifest; rc_host_exe_sha256 := host;
        rc_consumer_module := module_; rc_consumer_module_sha256 := module_hash |}.

(** ** Requests *)

(** A [StringMap] as an object. *)
Definition json_of_map (m : StringMap) : Json :=
  json_object ((fun '(k, v) => (k, JString v)) <$> map_to_list m).

Definition json_of_option (o : option Z) : Json :=
  match o with Some z => JInt z | None => JNull end.

(** [if (!value.empty()) payload[key] = value]. *)
Definition set_if (cond : bool) (key : text) (v : Json) (payload : Json) : Json :=
  if cond then json_set payload key v else payload.
Definition set_text (key value : text) (payload : Json) : Json :=
  set_if (negb (bool_decide (value = []))) key (JString value) payload.

Definition object_or_empty (attributes : Json) : Json :=
  if is_object attributes then attributes else JObject [].

(** The members about the integrity of the host; the update check also names
    the state and the failure. *)
Definition set_evidence (e : IntegrityEvidence) (payload : Json) : Json :=
  let payload := match ie_evidence_version e with
                 | Some v => json_set payload (&"integrity_evidence_version") (JUint v)
                 | None => payload
                 end in
  let payload := set_text (&"integrity_manifest_sha256") (ie_manifest_sha256 e) payload in
  set_if (negb (bool_decide (ie_files e = ∅))) (&"integrity_files") (json_of_map (ie_files e)) payload.

Definition set_state (e : IntegrityEvidence) (payload : Json) : Json :=
  set_text (&"integrity_failure_code") (ie_failure_code e)
    (json_set payload (&"integrity_state") (JString (ie_state e))).

(** *** Times as text: [gmtime_s] and [strftime] with [%Y-%m-%dT%H:%M:%SZ]

    for times from 1970 to the year 3000, which [gmtime_s] accepts. *)
Definition is_leap (y : Z) : bool :=
  (y mod 4 =? 0) && (negb (y mod 100 =? 0) || (y mod 400 =? 0)).
Definition year_days (y : Z) : Z := if is_leap y then 366 else 365.
Definition month_days (y m : Z) : Z :=
  if m =? 2 then (if is_leap y then 29 else 28)
  else if bool_decide (m ∈ [4; 6; 9; 11]) then 30 else 31.

(** The year and the day in it, and the month and the day in it. *)
Fixpoint civil_year (fuel : nat) (y d : Z) : Z * Z :=
  match fuel with
  | O => (y, d)
  | S f => if d <? year_days y then (y, d) else civil_year f (y + 1) (d - year_days y)
  end.
Fixpoint civil_month (fuel : nat) (y m d : Z) : Z * Z :=
  match fuel with
  | O => (m, d)
  | S f => if d <? month_days y m then (m, d + 1) else civil_month f y (m + 1) (d - month_days y m)
  end.

Definition padded (width : nat) (z : Z) : text :=
  let t := to_string z in replicate (width - length t) "0"%char ++ t.

Definition utc_text (seconds : Z) : text :=
  let days := seconds / 86400 in
  let rest := seconds mod 86400 in
  let '(y, in_year) := civil_year (Z.to_nat (days / 365 + 1)) 1970 days in
  let '(m, d) := civil_month 12 y 1 in_year in
  padded 4 y ++ &"-" ++ padded 2 m ++ &"-" ++ padded 2 d ++ &"T" ++
  padded 2 (rest / 3600) ++ &":" ++ padded 2 (rest / 60 mod 60) ++ &":" ++
  padded 2 (rest mod 60) ++ &"Z".

Example utc_epoch : utc_text 0 = &"1970-01-01T00:00:00Z".
Proof. reflexivity. Qed.
Example utc_leap : utc_text 951782400 = &"2000-02-29T00:00:00Z".
Proof. vm_compute. reflexivity. Qed.
Example utc_recent : utc_text 1767225599 = &"2025-12-31T23:59:59Z".
Proof. vm_compute. reflexivity. Qed.

Definition or_default (value fallback : text) : text :=
  if bool_decide (value = []) then fallback else value.

(** [event_to_json], given the current time. *)
Definition event_to_json (now : Z) (event : Event) (default_device default_channel : text) : Json :=
  json_object
    [(&"device_id", JString (or_default (ev_device_id event) default_device));
     (&"event_name", JString (event_name event));
     (&"event_time", JString (or_default (event_time event) (utc_text now)));
     (&"channel_code", JString (or_default (ev_channel_code event) default_channel));
     (&"properties", properties event);
     (&"attributes", attributes event)].

Definition consume_payload (grant : OperationGrant) : Json :=
  let payload := json_object
    [(&"schema", JString (&"operation_grant_consume_v2"));
     (&"grant_id", JString (og_grant_id grant));
     (&"operation", JString (og_operation grant));
     (&"plan_sha256", JString (og_plan_sha256 grant));
     (&"step_count", JUint (og_step_count grant));
     (&"total_bytes", JUint (og_total_bytes grant));
     (&"consumer_challenge", JString (og_consumer_challenge grant));
     (&"issued_at", JInt (og_issued_at grant));
     (&"expires_at", JInt (og_expires_at grant));
     (&"consumer_module", JString (og_consumer_module grant))] in
  set_text (&"consumer_module_sha256") (og_consumer_module_sha256 grant)
    (set_text (&"host_exe_sha256") (og_host_exe_sha256 grant)
      (set_text (&"integrity_manifest_sha256") (og_integrity_manifest_sha256 grant) payload)).
