(* ===== verification/Crypto.v ===== *)
(** * Cryptographic operations ([src/internal/crypto.cpp])

    The primitives are those of the operating system (BCrypt) and of
    Monocypher, and are the operations of the class [Crypto].  The SDK's own
    part is modelled: decoding of keys and signatures, length checks, the
    request-body encryption and its associated data. *)
From S2P Require Import Prelude StdString Errors Codec.

Class Crypto := {
  bcrypt_sha256 : Bytes -> Bytes;
  hmac_sha256 : Bytes -> Bytes -> Bytes;
  crypto_ed25519_check : Bytes -> Bytes -> Bytes -> bool;  (* signature, key, message *)
  crypto_eddsa_to_x25519 : Bytes -> Bytes;
  crypto_x25519_public_key : Bytes -> Bytes;
  crypto_x25519 : Bytes -> Bytes -> Bytes;                  (* private, public *)
  bcrypt_aes_gcm : Bytes -> Bytes -> Bytes -> Bytes -> Bytes * Bytes
                                      (* key, nonce, plaintext, aad: ciphertext, tag *)
}.

(** What the documentation of the primitives says about their outputs. *)
Class CryptoLaws (C : Crypto) := {
  bcrypt_sha256_length x : zlen (bcrypt_sha256 x) = 32;
  hmac_length k x : zlen (hmac_sha256 k x) = 32;
  x25519_public_length k : zlen k = 32 -> zlen (crypto_x25519_public_key k) = 32;
  x25519_length k p : zlen k = 32 -> zlen p = 32 -> zlen (crypto_x25519 k p) = 32;
  eddsa_to_x25519_length k : zlen k = 32 -> zlen (crypto_eddsa_to_x25519 k) = 32;
  x25519_agree a b : zlen a = 32 -> zlen b = 32 ->
    crypto_x25519 a (crypto_x25519_public_key b) = crypto_x25519 b (crypto_x25519_public_key a);
  aes_gcm_length k n p a : zlen (bcrypt_aes_gcm k n p a).1 = zlen p;
  aes_gcm_tag_length k n p a : zlen (bcrypt_aes_gcm k n p a).2 = 16
}.

Section Ops.
Context `{C : Crypto}.

(** The bytes that [BCryptHashData] is given: [static_cast<ULONG>(value.size())]
    of them. *)
Definition ulong_prefix (value : Bytes) : Bytes := take (Z.to_nat (u32 (zlen value))) value.

(** What a call that does not fail returns; the failures of its calls are in
    [Cng]. *)
Definition sha256 (value : Bytes) : Bytes := bcrypt_sha256 (ulong_prefix value).

Definition sha256_hex (value : Bytes) : text := hex_lower (sha256 value).

Definition hmac_sha256_hex (key value : text) : text := hex_lower (hmac_sha256 key value).

Definition ed25519_verify (public_key : text) (message : Bytes) (sig : text) : Result bool :=
  key ← decode_key_material public_key;
  signature_bytes ← decode_key_material sig;
  if negb (zlen key =? 32) || negb (zlen signature_bytes =? 64)
  then Throw (err Cryptographic 0 [] (&"Ed25519 key or signature length is invalid"))
  else Ok (crypto_ed25519_check signature_bytes key message).

(** [edwards[31] &= 0x7f]: the sign bit is cleared. *)
Definition ed25519_public_to_x25519 (public_key : Bytes) : Result Bytes :=
  if negb (zlen public_key =? 32)
  then Throw (err Cryptographic 0 [] (&"Ed25519 public key length is invalid"))
  else Ok (crypto_eddsa_to_x25519 (alter (fun b => bz (Z.land (zb b) 127)) 31%nat public_key)).

Definition x25519_shared_secret (private_key public_key : Bytes) : Result Bytes :=
  if negb (zlen private_key =? 32) || negb (zlen public_key =? 32)
  then Throw (err Cryptographic 0 [] (&"X25519 key length is invalid"))
  else
    let output := crypto_x25519 private_key public_key in
    if forallb (fun b => zb b =? 0) output
    then Throw (err Cryptographic 0 [] (&"X25519 shared secret is invalid"))
    else Ok output.

(** The ciphertext followed by the 16-byte tag. *)
Definition aes256_gcm_encrypt (key nonce plaintext aad : Bytes) : Result Bytes :=
  if negb (zlen key =? 32) || negb (zlen nonce =? 12) || (2 ^ 32 - 1 <? zlen aad)
  then Throw (err Cryptographic 0 [] (&"AES-256-GCM parameters are invalid"))
  else let '(ct, tag) := bcrypt_aes_gcm key nonce plaintext aad in Ok (ct ++ tag).

Definition build_body_aad (method path canonical_query_value : text) (timestamp : Z)
    (nonce app_id release_id version version_code online_key_id : text) : text :=
  &"swm-body-x25519-aes-gcm-v1" ++ [nl] ++ method ++ [nl] ++ path ++ [nl] ++
  canonical_query_value ++ [nl; nl] ++ to_string timestamp ++ [nl] ++
  nonce ++ [nl] ++ app_id ++
  [nl] ++ &"client_release_id:" ++ release_id ++
  [nl] ++ &"client_version:" ++ version ++
  [nl] ++ &"client_version_code:" ++ version_code ++
  [nl] ++ &"authz_capability:v3" ++ [nl] ++ &"body_enc:x25519-aes-gcm-v1" ++
  [nl] ++ &"key_id:" ++ online_key_id.

(** The HKDF context, bound to the application, the release and the key. *)
Definition body_context (app_id release_id online_key_id : text) (online_key : Bytes) : text :=
  &"swm-body-x25519-aes-gcm-v1" ++ [nl] ++ &"app_id:" ++ app_id ++
  [nl] ++ &"release_id:" ++ release_id ++
  [nl] ++ &"key_id:" ++ online_key_id ++
  [nl] ++ &"public_key:" ++ hex_lower online_key.

(** HKDF-SHA256, extract then one block of expand. *)
Definition derive_request_key (context : text) (ephemeral_public shared_secret : Bytes) : Bytes :=
  let salt := sha256 context in
  let info_text := context ++ [nl] ++ &"ephemeral_public:" ++ base64url_encode ephemeral_public in
  let pseudo_random_key := hmac_sha256 salt shared_secret in
  hmac_sha256 pseudo_random_key (info_text ++ ["001"%char]).

(** [encrypt_request_body] with the 32 and 12 random bytes it draws. *)
Definition encrypt_request_body (ephemeral_private nonce_bytes : Bytes)
    (method path canonical_query_value : text) (timestamp : Z)
    (nonce app_id release_id version version_code online_key_id online_public_key : text)
    (plaintext : Bytes) : Result Bytes :=
  online_key ← decode_key_material online_public_key;
  server_x25519 ← ed25519_public_to_x25519 online_key;
  let ephemeral_public := crypto_x25519_public_key ephemeral_private in
  shared_secret ← x25519_shared_secret ephemeral_private server_x25519;
  let context := body_context app_id release_id online_key_id online_key in
  let request_key := derive_request_key context ephemeral_public shared_secret in
  let aad_text := build_body_aad method path canonical_query_value timestamp
    nonce app_id release_id version version_code online_key_id in
  ciphertext ← aes256_gcm_encrypt request_key nonce_bytes plaintext aad_text;
  Ok (ephemeral_public ++ nonce_bytes ++ ciphertext).

(** The server's side of the envelope: the receiver holds the X25519 private
    key of its Ed25519 online key and the metadata of the request. *)
Definition open_request_body (aes_gcm_open : Bytes -> Bytes -> Bytes -> Bytes -> Bytes -> option Bytes)
    (server_private : Bytes) (online_key : Bytes) (aad_text app_id release_id online_key_id : text)
    (envelope : Bytes) : option Bytes :=
  let ephemeral_public := take 32 envelope in
  let nonce_bytes := take 12 (drop 32 envelope) in
  let body := drop 44 envelope in
  let ct := take (length body - 16) body in
  let tag := drop (length body - 16) body in
  let shared_secret := crypto_x25519 server_private ephemeral_public in
  let context := body_context app_id release_id online_key_id online_key in
  let request_key := derive_request_key context ephemeral_public shared_secret in
  aes_gcm_open request_key nonce_bytes ct tag aad_text.
End Ops.

(** ** Sizes of 32 bits *)

Lemma ulong_prefix_small value : zlen value < 2 ^ 32 -> ulong_prefix value = value.
Proof.
  intros H. unfold ulong_prefix. pose proof (zlen_nonneg value). rewrite u32_small by lia.
  apply take_ge. unfold zlen. lia.
Qed.

Lemma sha256_small `{C : Crypto} value : zlen value < 2 ^ 32 -> sha256 value = bcrypt_sha256 value.
Proof. intros H. unfold sha256. by rewrite ulong_prefix_small. Qed.

Lemma sha256_length `{C : Crypto} `{!CryptoLaws C} value : zlen (sha256 value) = 32.
Proof. apply bcrypt_sha256_length. Qed.

(** ** The envelope can be opened by the holder of the online key *)

Section Envelope.
Context `{C : Crypto} `{!CryptoLaws C}.

(** AES-GCM decryption as documented: it inverts encryption. *)
Context (aes_gcm_open : Bytes -> Bytes -> Bytes -> Bytes -> Bytes -> option Bytes).
Hypothesis aes_gcm_correct : forall k n p a,
  aes_gcm_open k n (bcrypt_aes_gcm k n p a).1 (bcrypt_aes_gcm k n p a).2 a = Some p.

(** Whatever the request's metadata, an envelope the client produced is
    opened by the server holding the private half of the online key, and
    gives back the plaintext; it is 60 bytes longer than the plaintext. *)
Theorem request_body_roundtrip ephemeral nonce_bytes method path cq timestamp nonce
    app release ver vcode key_id public_key plaintext envelope server_private online_key :
  zlen ephemeral = 32 -> zlen server_private = 32 ->
  decode_key_material public_key = Ok online_key ->
  crypto_eddsa_to_x25519 (alter (fun b => bz (Z.land (zb b) 127)) 31%nat online_key) =
    crypto_x25519_public_key server_private ->
  encrypt_request_body ephemeral nonce_bytes method path cq timestamp nonce
    app release ver vcode key_id public_key plaintext = Ok envelope ->
  open_request_body aes_gcm_open server_private online_key
    (build_body_aad method path cq timestamp nonce app release ver vcode key_id)
    app release key_id envelope = Some plaintext /\
  zlen envelope = zlen plaintext + 60.
Proof using aes_gcm_correct CryptoLaws0.
  intros He Hs Hk Hpair Henc. unfold encrypt_request_body in Henc. rewrite Hk in Henc.
  inv_ok. unfold ed25519_public_to_x25519 in *. case_match; [done|]. inv_ok.
  rewrite Hpair in *. unfold x25519_shared_secret in *.
  case_match; [done|]. case_match; [done|]. inv_ok.
  unfold aes256_gcm_encrypt in *. case_match; [done|].
  destruct (bcrypt_aes_gcm _ _ _ _) as [ct tag] eqn:Eg. inv_ok. breflect.
  set (epk := crypto_x25519_public_key ephemeral) in *.
  assert (zlen epk = 32) as Hepk by by apply x25519_public_length.
  match type of Eg with bcrypt_aes_gcm ?k ?n ?p ?a = _ =>
    pose proof (aes_gcm_length k n p a) as Hct; pose proof (aes_gcm_tag_length k n p a) as Htag;
    pose proof (aes_gcm_correct k n p a) as Hopen end.
  rewrite Eg in Hct, Htag, Hopen. cbn in Hct, Htag, Hopen. unfold zlen in *.
  split; [|rewrite !length_app; lia].
  unfold open_request_body.
  rewrite (take_app_exact epk) by lia. rewrite (drop_app_exact epk) by lia.
  rewrite (take_app_exact nonce_bytes) by lia.
  replace (drop 44 (epk ++ nonce_bytes ++ ct ++ tag)) with (ct ++ tag).
  2: { rewrite app_assoc, drop_app_exact; [done|]. rewrite length_app. lia. }
  rewrite (length_app ct), (take_app_exact ct), (drop_app_exact ct) by lia.
  unfold epk. rewrite (x25519_agree server_private ephemeral) by (unfold zlen; lia). exact Hopen.
Qed.
End Envelope.
