(* ===== verification/MiniCrypto.v ===== *)
(** * Concrete primitives for the worked examples

    The theorems hold for every [Crypto] with the documented laws; their
    examples run on these toy primitives, which have the right lengths and
    the right algebra and no strength at all. *)
From S2P Require Import Prelude StdString Errors Codec Crypto.

Definition checksum (x : Bytes) : Bytes :=
  let step acc b := (acc * 31 + zb b + 7) mod 2 ^ 61 in
  let h := foldl step 1 x in
  (fun i => bz (Z.shiftr h (8 * i))) <$> [0; 1; 2; 3; 4; 5; 6].

(** A 32-byte digest: a checksum, the length and a prefix of the input. *)
Definition mini_sha256 (x : Bytes) : Bytes :=
  take 32 (checksum x ++ [bz (zlen x)] ++ x ++ replicate 32 nul).

Definition mini_sign (key message : Bytes) : Bytes := key ++ mini_sha256 message.

Definition xor_bytes (a b : Bytes) : Bytes :=
  zip_with (fun x y => bz (Z.lxor (zb x) (zb y))) a b.

Definition mini_crypto : Crypto := {|
  bcrypt_sha256 := mini_sha256;
  hmac_sha256 k x := mini_sha256 (k ++ x);
  crypto_ed25519_check sig key message := bool_decide (sig = mini_sign key message);
  crypto_eddsa_to_x25519 k := k;
  crypto_x25519_public_key k := k;
  crypto_x25519 := xor_bytes;
  bcrypt_aes_gcm k n p a := (p, take 16 (mini_sha256 (k ++ n ++ p ++ a)))
|}.

Definition mini_open (k n c t a : Bytes) : option Bytes :=
  if bool_decide (t = take 16 (mini_sha256 (k ++ n ++ c ++ a))) then Some c else None.

Lemma mini_sha256_length x : length (mini_sha256 x) = 32%nat.
Proof.
  unfold mini_sha256. rewrite length_take, !length_app, length_replicate.
  change (length (checksum x)) with 7%nat. change (length [bz (zlen x)]) with 1%nat. lia.
Qed.

Lemma mini_sha256_zlen x : zlen (mini_sha256 x) = 32.
Proof. unfold zlen. by rewrite mini_sha256_length. Qed.

Arguments mini_sha256 : simpl never.
Arguments checksum : simpl never.

#[export] Instance mini_laws : CryptoLaws mini_crypto.
Proof.
  split; cbn; intros; rewrite ?mini_sha256_zlen; try reflexivity; try assumption;
    unfold zlen in *.
  - unfold xor_bytes. rewrite length_zip_with. lia.
  - unfold xor_bytes. clear. revert b. induction a as [|x a IH]; intros [|y b]; cbn; try done.
    by rewrite Z.lxor_comm, IH.
  - by rewrite length_take, mini_sha256_length.
Qed.

Lemma mini_open_correct k n p a :
  mini_open k n (@bcrypt_aes_gcm mini_crypto k n p a).1
    (@bcrypt_aes_gcm mini_crypto k n p a).2 a = Some p.
Proof. cbn. unfold mini_open. by rewrite bool_decide_true. Qed.

(** ** Keys of the examples *)

Definition demo_key : Bytes := bz <$> seqZ 1 32.
Definition demo_ephemeral : Bytes := bz <$> seqZ 100 32.

Lemma request_body_roundtrip_witness :
  exists envelope,
    open_request_body (C := mini_crypto) mini_open demo_key demo_key
      (build_body_aad (&"POST") (&"/v1/x") [] 7 (&"n") (&"app") (&"rel") (&"1.0") (&"1") (&"k1"))
      (&"app") (&"rel") (&"k1") envelope = Some (&"hello") /\
    zlen envelope = 65.
Proof.
  eexists.
  refine (request_body_roundtrip (C := mini_crypto) mini_open mini_open_correct
    demo_ephemeral (&"0123456789ab") (&"POST") (&"/v1/x") [] 7 (&"n") (&"app") (&"rel") (&"1.0") (&"1")
    (&"k1") (hex_lower demo_key) (&"hello") _ demo_key demo_key _ _ _ _ _);
    vm_compute; reflexivity.
Defined.
