(* ===== verification/Rim2.v ===== *)
(** * RIM2 release manifests ([src/internal/rim2.cpp])

    The binary manifest of a release: its reader, the checks of
    [parse_rim2] in source order, the format it accepts and the proof that
    it accepts exactly the well-formed, matching and doubly signed ones. *)
From S2P Require Import Prelude StdString Errors Codec Crypto MiniCrypto.

Definition invalid_manifest (what : text) : Exn :=
  err Integrity 0 (&"host_manifest_invalid") what.

(** ** [class Reader] *)

Module Reader.
Record t := mkReader { data : Bytes; offset : nat }.

(** A method of the reader: it may throw, and moves the offset. *)
Definition M (A : Type) : Type := t -> Result (A * t).

#[global] Instance M_ret : MRet M := fun _ a r => Ok (a, r).
#[global] Instance M_bind : MBind M := fun _ _ f m r =>
  '(a, r') ← m r; f a r'.
Definition fail {A} (x : Exn) : M A := fun _ => Throw x.
Definition step {A} (f : t -> Result (A * t)) : M A := f.

Definition require (size : nat) : M unit := fun r =>
  if (length (data r) <? offset r + size)%nat
  then Throw (invalid_manifest (&"RIM2 manifest is truncated"))
  else Ok (tt, r).

(** [data_[offset_++]]. *)
Definition next : M Z := fun r =>
  Ok (zb (nth (offset r) (data r) nul), mkReader (data r) (S (offset r))).

Definition u8 : M Z := _ ← require 1; next.

Definition u16 : M Z :=
  _ ← require 2; step (fun r =>
    let hi := zb (nth (offset r) (data r) nul) in
    let lo := zb (nth (S (offset r)) (data r) nul) in
    Ok (Prelude.u16 (Z.lor (Z.shiftl hi 8) lo), mkReader (data r) (offset r + 2))).

(** [value = (value << 8) | data_[offset_++]], in a [width]-bit variable. *)
Fixpoint shift_in (count : nat) (width value : Z) : M Z :=
  match count with
  | O => mret value
  | S c => b ← next; shift_in c width (Z.lor (Z.shiftl value 8 mod 2 ^ width) b)
  end.

Definition u32 : M Z := _ ← require 4; shift_in 4 32 0.
Definition u64 : M Z := _ ← require 8; shift_in 8 64 0.

Definition bytes (size : nat) : M Bytes :=
  _ ← require size; step (fun r =>
    Ok (substr (data r) (offset r) size, mkReader (data r) (offset r + size))).

Definition string8 : M text := size ← u8; bytes (Z.to_nat size).
Definition string16 : M text := size ← u16; bytes (Z.to_nat size).

Definition remaining (r : t) : nat := length (data r) - offset r.
End Reader.

(** ** Helpers of the parser *)

(** The loop of [safe_path] over the components; [fuel] bounds their number. *)
Definition safe_part (part : text) : bool :=
  negb (bool_decide (part = [])) && negb (bool_decide (part = &".")) &&
  negb (bool_decide (part = &"..")) &&
  negb (existsb (fun c => (zb c <? 32) || (zb c =? 127)) part).

Fixpoint safe_parts (fuel : nat) (value : text) (offset : nat) : bool :=
  match fuel with
  | O => true
  | S f =>
      if (offset <=? length value)%nat then
        let stop := find_from "/"%char value offset in
        let part := substr_to value offset stop in
        if negb (safe_part part) then false
        else match stop with None => true | Some e => safe_parts f value (S e) end
      else true
  end.

Definition safe_path (value : text) : bool :=
  if bool_decide (value = []) || (255 <? zlen value) ||
     bool_decide (head value = Some "/"%char) || bool_decide (last value = Some "/"%char) ||
     bool_decide (backslash ∈ value) || bool_decide (":"%char ∈ value) ||
     bool_decide (nul ∈ value)
  then false
  else safe_parts (S (length value)) value 0.

Definition guid_text (bytes : Bytes) : text :=
  if negb (zlen bytes =? 16) then [] else uuid_groups (hex_lower bytes).

Definition arch_byte (arch : text) : Z :=
  let value := lower_ascii arch in
  if bool_decide (value = &"x86") || bool_decide (value = &"i386") ||
     bool_decide (value = &"win-x86") then 1
  else if bool_decide (value = &"x64") || bool_decide (value = &"amd64") ||
          bool_decide (value = &"win-x64") then 2
  else 0.

Definition arch_text (value : Z) : text :=
  if value =? 1 then &"x86" else if value =? 2 then &"x64" else [].

Definition append_string8 (output : Bytes) (value : text) : Result Bytes :=
  if 255 <? zlen value
  then Throw (invalid_manifest (&"RIM2 string is too long"))
  else Ok (output ++ [bz (zlen value)] ++ value).

Definition magic : Bytes := &"OPLUSRIM".
Definition manifest_domain : text := &"OPLUS_RELEASE_MANIFEST_V2".
Definition key_domain : text := &"OPLUS_RELEASE_KEY_V2".

(** ** The manifest *)

Record Rim2File := mkFile { path : text; size : Z; file_sha256 : Bytes }.

Record Rim2Manifest := {
  raw : Bytes;
  manifest_sha256 : text;
  rm_app_id : text;
  rm_release_id : text;
  rm_version_code : Z;
  rm_version : text;
  rm_arch : text;
  rm_root_key_id : text;
  rm_signer_key_id : text;
  files : list Rim2File
}.

(** The locals of [parse_rim2] read from the body and from the trailer. *)
Record Body := mkBody {
  b_app : Bytes; b_release : Bytes; b_version_code : Z; b_platform : Z;
  b_architecture : Z; b_version : text; b_files : list Rim2File
}.
Record Trailer := mkTrailer {
  t_root_key_id : text; t_signer_key_id : text; t_signer_public : Bytes;
  t_root_signature : Bytes; t_manifest_signature : Bytes
}.

(** The header: the size of the body that follows. *)
Definition read_header : Reader.M Z :=
  header ← Reader.bytes 8;
  if negb (bool_decide (header = magic))
  then Reader.fail (invalid_manifest (&"RIM2 manifest header is invalid"))
  else
    format ← Reader.u16;
    if negb (format =? 2)
    then Reader.fail (invalid_manifest (&"RIM2 manifest header is invalid"))
    else
      body_size ← Reader.u32;
      Reader.step (fun reader =>
        if (body_size =? 0) || (Z.of_nat (Reader.remaining reader) <? body_size)
        then Throw (invalid_manifest (&"RIM2 body size is invalid"))
        else Ok (body_size, reader)).

Definition bad_file (paths : list text) (file : Rim2File) : bool :=
  negb (safe_path (path file)) || (size file =? 0) ||
  forallb (fun b => zb b =? 0) (file_sha256 file) ||
  bool_decide (lower_ascii (path file) ∈ paths).

(** The file loop; [paths] are the lowered names already inserted. *)
Fixpoint read_files (count : nat) (paths : list text) : Reader.M (list Rim2File) :=
  match count with
  | O => mret []
  | S c =>
      path ← Reader.string16;
      size ← Reader.u64;
      sha256 ← Reader.bytes 32;
      let file := mkFile path size sha256 in
      if bad_file paths file
      then Reader.fail (invalid_manifest (&"RIM2 contains an invalid file entry"))
      else rest ← read_files c (lower_ascii path :: paths); mret (file :: rest)
  end.

Definition read_body : Reader.M Body :=
  app ← Reader.bytes 16;
  release ← Reader.bytes 16;
  version_code ← Reader.u64;
  platform ← Reader.u8;
  architecture ← Reader.u8;
  version ← Reader.string16;
  file_count ← Reader.u16;
  if (file_count =? 0) || (255 <? file_count) || bool_decide (version = []) ||
     (100 <? zlen version)
  then Reader.fail (invalid_manifest (&"RIM2 identity fields are invalid"))
  else
    files ← read_files (Z.to_nat file_count) [];
    Reader.step (fun reader =>
      if negb (Reader.remaining reader =? 0)%nat
      then Throw (invalid_manifest (&"RIM2 body has trailing bytes"))
      else Ok (mkBody app release version_code platform architecture version files, reader)).

Definition read_trailer : Reader.M Trailer :=
  root_key_id ← Reader.string8;
  signer_key_id ← Reader.string8;
  signer_public ← Reader.bytes 32;
  root_signature ← Reader.bytes 64;
  manifest_signature ← Reader.bytes 64;
  Reader.step (fun trailer =>
    if negb (Reader.remaining trailer =? 0)%nat || bool_decide (root_key_id = []) ||
       (64 <? zlen root_key_id) || bool_decide (signer_key_id = []) ||
       (64 <? zlen signer_key_id)
    then Throw (invalid_manifest (&"RIM2 trailer is invalid"))
    else Ok (mkTrailer root_key_id signer_key_id signer_public root_signature
               manifest_signature, trailer)).

(** What the caller expects the manifest to be about. *)
Record Expected := mkExpected {
  expected_app_id : text; expected_release_id : text; expected_version : text;
  expected_version_code : option Z; expected_arch : text; expected_root_key_id : text
}.

Definition matches (e : Expected) (b : Body) (t : Trailer) : bool :=
  bool_decide (guid_text (b_app b) = expected_app_id e) &&
  bool_decide (guid_text (b_release b) = expected_release_id e) &&
  (b_platform b =? 1) && (b_architecture b =? arch_byte (expected_arch e)) &&
  bool_decide (b_version b = expected_version e) &&
  match expected_version_code e with
  | Some c => b_version_code b =? Prelude.u64 c
  | None => true
  end &&
  bool_decide (t_root_key_id t = expected_root_key_id e).

(** The message the root key signs. *)
Definition key_message (b : Body) (t : Trailer) : Result Bytes :=
  m ← append_string8 (key_domain ++ [nul] ++ b_app b) (t_root_key_id t);
  m ← append_string8 m (t_signer_key_id t);
  Ok (m ++ t_signer_public t).

Definition manifest_message (body : Bytes) : Bytes := manifest_domain ++ [nul] ++ body.

Section Parse.
Context `{C : Crypto}.

Definition manifest_view (manifest : Bytes) (b : Body) (t : Trailer) : Rim2Manifest := {|
  raw := manifest; manifest_sha256 := sha256_hex manifest;
  rm_app_id := guid_text (b_app b); rm_release_id := guid_text (b_release b);
  rm_version_code := b_version_code b; rm_version := b_version b;
  rm_arch := arch_text (b_architecture b); rm_root_key_id := t_root_key_id t;
  rm_signer_key_id := t_signer_key_id t; files := b_files b
|}.

Definition parse_rim2 (manifest : Bytes) (e : Expected) (root_trust_public_key : text) :
    Result Rim2Manifest :=
  _ ← require (negb (bool_decide (manifest = []) || (64 * 1024 <? zlen manifest)))
        (invalid_manifest (&"RIM2 manifest size is invalid"));
  '(body_size, reader) ← read_header (Reader.mkReader manifest 0);
  let body_offset := Reader.offset reader in
  let body := substr manifest body_offset (Z.to_nat body_size) in
  '(b, _) ← read_body (Reader.mkReader body 0);
  '(t, _) ← read_trailer
    (Reader.mkReader (drop (body_offset + Z.to_nat body_size) manifest) 0);
  _ ← require (matches e b t)
        (err Integrity 0 (&"host_release_mismatch")
           (&"RIM2 identity does not match this release"));
  key_msg ← key_message b t;
  root_ok ← ed25519_verify root_trust_public_key key_msg (base64url_encode (t_root_signature t));
  _ ← require root_ok
        (err Integrity 0 (&"host_root_signature_invalid")
           (&"RIM2 root certificate signature is invalid"));
  manifest_ok ← ed25519_verify (base64url_encode (t_signer_public t)) (manifest_message body)
                  (base64url_encode (t_manifest_signature t));
  _ ← require manifest_ok
        (err Integrity 0 (&"host_manifest_signature_invalid")
           (&"RIM2 manifest signature is invalid"));
  Ok (manifest_view manifest b t).
End Parse.

(** ** The format *)

(** [v] in [n] bytes, big-endian. *)
Fixpoint be_bytes (n : nat) (v : Z) : Bytes :=
  match n with
  | O => []
  | S m => be_bytes m (v / 256) ++ [bz v]
  end.

Definition be_value (bs : Bytes) : Z := foldl (fun v b => v * 256 + zb b) 0 bs.

Definition encode_string (n : nat) (s : text) : Bytes := be_bytes n (zlen s) ++ s.

Definition encode_file (f : Rim2File) : Bytes :=
  encode_string 2 (path f) ++ be_bytes 8 (size f) ++ file_sha256 f.

Definition encode_files (fs : list Rim2File) : Bytes := concat (encode_file <$> fs).

Definition encode_body (b : Body) : Bytes :=
  b_app b ++ b_release b ++ be_bytes 8 (b_version_code b) ++ be_bytes 1 (b_platform b) ++
  be_bytes 1 (b_architecture b) ++ encode_string 2 (b_version b) ++
  be_bytes 2 (zlen (b_files b)) ++ encode_files (b_files b).

Definition encode_trailer (t : Trailer) : Bytes :=
  encode_string 1 (t_root_key_id t) ++ encode_string 1 (t_signer_key_id t) ++
  t_signer_public t ++ t_root_signature t ++ t_manifest_signature t.

Definition encode_rim2 (b : Body) (t : Trailer) : Bytes :=
  magic ++ be_bytes 2 2 ++ encode_string 4 (encode_body b) ++ encode_trailer t.

Definition wf_file (f : Rim2File) : Prop :=
  safe_path (path f) = true /\ 0 < size f < 2 ^ 64 /\ length (file_sha256 f) = 32%nat /\
  exists b, b ∈ file_sha256 f /\ b <> nul.

Definition wf_body (b : Body) : Prop :=
  length (b_app b) = 16%nat /\ length (b_release b) = 16%nat /\
  0 <= b_version_code b < 2 ^ 64 /\ 0 <= b_platform b < 256 /\ 0 <= b_architecture b < 256 /\
  0 < zlen (b_version b) <= 100 /\ 0 < zlen (b_files b) <= 255 /\
  Forall wf_file (b_files b) /\ NoDup ((fun f => lower_ascii (path f)) <$> b_files b).

Definition wf_trailer (t : Trailer) : Prop :=
  0 < zlen (t_root_key_id t) <= 64 /\ 0 < zlen (t_signer_key_id t) <= 64 /\
  length (t_signer_public t) = 32%nat /\ length (t_root_signature t) = 64%nat /\
  length (t_manifest_signature t) = 64%nat.

(** * Lemmas *)

(** ** Big-endian integers *)

Lemma be_bytes_length n v : length (be_bytes n v) = n.
Proof. revert v. induction n; intros; cbn; rewrite ?length_app, ?IHn; cbn; lia. Qed.

Lemma be_value_snoc bs b : be_value (bs ++ [b]) = be_value bs * 256 + zb b.
Proof. unfold be_value. by rewrite foldl_app. Qed.

Lemma be_value_bytes n v : 0 <= v < 256 ^ Z.of_nat n -> be_value (be_bytes n v) = v.
Proof.
  revert v. induction n as [|n IH]; intros v Hv; [cbn in *; lia|].
  rewrite Nat2Z.inj_succ, Z.pow_succ_r in Hv by lia. cbn [be_bytes].
  rewrite be_value_snoc, IH, zb_bz by (Z.to_euclidean_division_equations; lia).
  unfold Prelude.u8. Z.to_euclidean_division_equations. lia.
Qed.

Lemma be_value_range bs : 0 <= be_value bs < 256 ^ zlen bs.
Proof.
  induction bs as [|b bs IH] using rev_ind; [cbv; done|].
  rewrite be_value_snoc, zlen_app. change (zlen [b]) with 1.
  rewrite Z.pow_add_r by (unfold zlen; lia). pose proof (zb_range b). nia.
Qed.

Lemma be_bytes_value bs : be_bytes (length bs) (be_value bs) = bs.
Proof.
  induction bs as [|b bs IH] using rev_ind; [done|].
  rewrite length_app, Nat.add_comm. cbn [be_bytes Nat.add length]. rewrite be_value_snoc.
  pose proof (zb_range b). f_equal.
  - rewrite Z.div_add_l, Z.div_small, Z.add_0_r by lia. exact IH.
  - f_equal. apply zb_inj. rewrite zb_bz. unfold Prelude.u8.
    rewrite Z.add_comm, Z.mod_add, Z.mod_small by lia. done.
Qed.

(** ** What a method of the reader consumes *)

Definition left (r : Reader.t) : Bytes := drop (Reader.offset r) (Reader.data r).
Definition valid (r : Reader.t) : Prop := (Reader.offset r <= length (Reader.data r))%nat.
Definition adv (r : Reader.t) (n : nat) : Reader.t :=
  Reader.mkReader (Reader.data r) (Reader.offset r + n).

(** From [r] to [r'], exactly the bytes [x] are consumed. *)
Definition reads (r : Reader.t) (x : Bytes) (r' : Reader.t) : Prop :=
  valid r /\ r' = adv r (length x) /\ left r = x ++ left r'.

Lemma left_length r : length (left r) = (length (Reader.data r) - Reader.offset r)%nat.
Proof. apply length_drop. Qed.

Lemma left_adv r n : left (adv r n) = drop n (left r).
Proof. unfold left, adv. cbn. by rewrite drop_drop. Qed.

Lemma reads_valid r x r' : reads r x r' -> valid r'.
Proof.
  intros (Hv & -> & Hl). unfold valid in *. cbn.
  apply (f_equal length) in Hl. rewrite length_app, !left_length in Hl. cbn in Hl. lia.
Qed.

Lemma reads_split r x s : valid r -> left r = x ++ s -> reads r x (adv r (length x)).
Proof. intros Hv E. split_and!; [done..|]. by rewrite left_adv, E, drop_app_exact. Qed.

Lemma reads_nil r r' : reads r [] r' <-> valid r /\ r' = r.
Proof.
  unfold reads, adv. cbn. rewrite Nat.add_0_r. destruct r as [d o]; cbn.
  split; [tauto|]. intros (? & ->). done.
Qed.

Lemma reads_app r x y r' :
  reads r (x ++ y) r' <-> exists r1, reads r x r1 /\ reads r1 y r'.
Proof.
  split.
  - intros (Hv & -> & Hl). rewrite <- app_assoc in Hl.
    pose proof (reads_split _ _ _ Hv Hl) as H1. exists (adv r (length x)). split; [done|].
    split_and!; [by eapply reads_valid| |].
    + unfold adv. cbn. rewrite length_app. f_equal. lia.
    + destruct H1 as (_ & _ & H1). rewrite Hl in H1. by apply app_inv_head in H1.
  - intros (r1 & (Hv & -> & H1) & (Hv' & -> & H2)). split_and!; [done| |].
    + unfold adv. cbn. rewrite length_app. f_equal. lia.
    + rewrite <- app_assoc, H1, H2 at 1. done.
Qed.

Lemma reads_all bs x r' :
  reads (Reader.mkReader bs 0) x r' /\ Reader.remaining r' = 0%nat <->
  x = bs /\ r' = Reader.mkReader bs (length bs).
Proof.
  unfold reads, valid, left, adv, Reader.remaining. cbn. split.
  - intros ((_ & -> & E) & Hr). cbn in *. rewrite (drop_ge bs (length x)), app_nil_r in E by lia.
    by subst.
  - intros (-> & ->). cbn. rewrite drop_all, app_nil_r. split_and!; try done; lia.
Qed.

Lemma reads_compose r x r1 y r' : reads r x r1 -> reads r1 y r' -> reads r (x ++ y) r'.
Proof. intros. apply reads_app. eauto. Qed.

(** ** The primitive reads *)

Lemma bind_M {A B} (m : Reader.M A) (f : A -> Reader.M B) r b r'' :
  (m ≫= f) r = Ok (b, r'') <-> exists a r', m r = Ok (a, r') /\ f a r' = Ok (b, r'').
Proof.
  unfold mbind, Reader.M_bind. rewrite bind_Ok. split.
  - intros ([a r'] & ? & ?). eauto.
  - intros (a & r' & ? & ?). exists (a, r'). done.
Qed.

Lemma ret_M {A} (a b : A) r r' : (mret a : Reader.M A) r = Ok (b, r') <-> b = a /\ r' = r.
Proof. unfold mret, Reader.M_ret. split; [by intros [= -> ->]|by intros (-> & ->)]. Qed.

Lemma require_iff n r r' : valid r ->
  Reader.require n r = Ok (tt, r') <-> r' = r /\ (n <= length (left r))%nat.
Proof.
  intros Hv. unfold Reader.require, valid in *. rewrite left_length.
  destruct (Nat.ltb_spec (length (Reader.data r)) (Reader.offset r + n)).
  - split; [done|]. lia.
  - split; [intros [= ->]; split; [done|lia]|]. by intros (-> & _).
Qed.

Lemma left_nth r b s i : left r = b ++ s -> (i < length b)%nat ->
  nth (Reader.offset r + i) (Reader.data r) nul = nth i b nul.
Proof.
  unfold left. intros E Hi.
  rewrite <- (take_drop (Reader.offset r) (Reader.data r)) at 1.
  destruct (Nat.le_gt_cases (Reader.offset r) (length (Reader.data r))).
  - rewrite app_nth2 by (rewrite length_take; lia). rewrite length_take, E.
    replace (Reader.offset r + i - Reader.offset r `min` length (Reader.data r))%nat with i by lia.
    by rewrite app_nth1.
  - rewrite drop_ge in E by lia. apply (f_equal length) in E. rewrite length_app in E. cbn in E. lia.
Qed.

Lemma bytes_iff n r x r' : valid r ->
  Reader.bytes n r = Ok (x, r') <-> length x = n /\ reads r x r'.
Proof.
  intros Hv. unfold Reader.bytes. rewrite bind_M. split.
  - intros ([] & r1 & H & E). apply require_iff in H as [-> Hn]; [|done].
    unfold Reader.step in E. injection E as <- <-.
    assert (length (substr (Reader.data r) (Reader.offset r) n) = n) as Hl
      by (unfold substr; rewrite length_take; unfold left in Hn; lia).
    split; [done|]. split_and!; [done| |].
    + unfold adv. by rewrite Hl.
    + unfold substr, left. cbn. rewrite <- drop_drop. symmetry. apply take_drop.
  - intros (Hx & (_ & -> & E)). exists tt, r. split.
    + apply require_iff; [done|]. split; [done|]. rewrite E, length_app. lia.
    + unfold Reader.step, substr, adv. fold (left r).
      by rewrite E, take_app_exact, Hx by done.
Qed.

Lemma push_byte width v b : 8 <= width -> 0 <= v -> v * 256 < 2 ^ width ->
  Z.lor (Z.shiftl v 8 mod 2 ^ width) (zb b) = v * 256 + zb b.
Proof.
  intros. rewrite Z.shiftl_mul_pow2, Z.mod_small by lia.
  apply (lor_add v 8); [lia|]. apply zb_range.
Qed.

Lemma shift_in_spec bs width v r s :
  8 <= width -> valid r -> left r = bs ++ s -> 0 <= v ->
  (v + 1) * 256 ^ zlen bs <= 2 ^ width ->
  Reader.shift_in (length bs) width v r =
    Ok (foldl (fun v b => v * 256 + zb b) v bs, adv r (length bs)).
Proof.
  intros Hw. revert v r. induction bs as [|b bs IH]; intros v r Hv E Hv0 Hb; cbn [length Reader.shift_in].
  - unfold mret, Reader.M_ret, adv. rewrite Nat.add_0_r. by destruct r.
  - unfold mbind, Reader.M_bind, Reader.next. cbn.
    pose proof (left_nth r (b :: bs) s 0 E) as Hn. rewrite Nat.add_0_r in Hn.
    rewrite Hn by (cbn; lia). cbn [nth]. rewrite zlen_cons, Z.pow_add_r in Hb by (unfold zlen; lia).
    assert (1 <= 256 ^ zlen bs) by (pose proof (Z.pow_pos_nonneg 256 (zlen bs)); unfold zlen in *; lia).
    pose proof (zb_range b).
    rewrite push_byte by nia.
    change (Reader.mkReader (Reader.data r) (S (Reader.offset r))) with
      (Reader.mkReader (Reader.data r) (1 + Reader.offset r)).
    rewrite (Nat.add_comm 1). fold (adv r 1).
    rewrite (IH _ (adv r 1)); [|..|nia|nia].
    + unfold adv. cbn. do 3 f_equal. lia.
    + apply (reads_valid r [b]), (reads_split r [b] (bs ++ s) Hv E).
    + by rewrite left_adv, E.
Qed.

Lemma integer_iff n (m : Reader.M Z) r v r' :
  (forall bs s, length bs = n -> left r = bs ++ s -> m r = Ok (be_value bs, adv r n)) ->
  (forall x, m r = Ok x -> (n <= length (left r))%nat) ->
  valid r ->
  m r = Ok (v, r') <-> 0 <= v < 256 ^ Z.of_nat n /\ reads r (be_bytes n v) r'.
Proof.
  intros Hm Hlen Hv. split.
  - intros H. pose proof (Hlen _ H) as Hn.
    assert (length (take n (left r)) = n) as Hl by (rewrite length_take; lia).
    rewrite (Hm _ _ Hl (eq_sym (take_drop n _))) in H. injection H as <- <-.
    pose proof (be_value_range (take n (left r))) as Hr. unfold zlen in Hr. rewrite Hl in Hr.
    split; [done|]. rewrite <- Hl at 1. rewrite be_bytes_value. rewrite <- Hl at 2.
    eapply reads_split; [done|]. symmetry. apply take_drop.
  - intros (Hr & (_ & -> & E)). erewrite Hm; [|apply be_bytes_length|exact E].
    by rewrite be_value_bytes, be_bytes_length.
Qed.

Lemma reader_require_then {A} n (k : Reader.M A) r x : valid r ->
  (_ ← Reader.require n; k) r = Ok x -> (n <= length (left r))%nat.
Proof.
  intros Hv H. destruct x as [a r']. apply bind_M in H as ([] & r1 & H & _).
  by apply require_iff in H as [_ ?].
Qed.

Lemma require_pass {A} n (k : Reader.M A) r bs s : valid r ->
  length bs = n -> left r = bs ++ s -> (_ ← Reader.require n; k) r = k r.
Proof.
  intros Hv Hn E. unfold mbind, Reader.M_bind at 1.
  assert (Reader.require n r = Ok (tt, r)) as ->; [|done].
  apply require_iff; [done|]. split; [done|]. rewrite E, length_app. lia.
Qed.

Lemma shift_in_iff n width r v r' : width = 8 * Z.of_nat n -> 8 <= width -> valid r ->
  (_ ← Reader.require n; Reader.shift_in n width 0) r = Ok (v, r') <->
  0 <= v < 256 ^ Z.of_nat n /\ reads r (be_bytes n v) r'.
Proof.
  intros Hw H8 Hv. apply integer_iff; [| |done].
  - intros bs s Hn E. erewrite require_pass by done. rewrite <- Hn.
    eapply shift_in_spec; try done; [].
    unfold zlen. rewrite Hn, Hw, Z.mul_1_l, Z.pow_mul_r by lia. done.
  - intros x. by apply reader_require_then.
Qed.

Lemma u32_iff r v r' : valid r ->
  Reader.u32 r = Ok (v, r') <-> 0 <= v < 2 ^ 32 /\ reads r (be_bytes 4 v) r'.
Proof. intros. by apply (shift_in_iff 4 32). Qed.

Lemma u64_iff r v r' : valid r ->
  Reader.u64 r = Ok (v, r') <-> 0 <= v < 2 ^ 64 /\ reads r (be_bytes 8 v) r'.
Proof. intros. by apply (shift_in_iff 8 64). Qed.

Lemma u8_iff r v r' : valid r ->
  Reader.u8 r = Ok (v, r') <-> 0 <= v < 256 /\ reads r (be_bytes 1 v) r'.
Proof.
  intros Hv. apply (integer_iff 1); [| |done].
  - intros [|b [|]] s Hn E; try done. unfold Reader.u8. erewrite require_pass by done.
    unfold Reader.next, adv. pose proof (left_nth r [b] s 0 E) as Hb.
    rewrite Nat.add_0_r in Hb. rewrite Hb, Nat.add_1_r by (cbn; lia). done.
  - intros x. by apply reader_require_then.
Qed.

Lemma u16_iff r v r' : valid r ->
  Reader.u16 r = Ok (v, r') <-> 0 <= v < 2 ^ 16 /\ reads r (be_bytes 2 v) r'.
Proof.
  intros Hv. apply (integer_iff 2); [| |done].
  - intros [|a [|b [|]]] s Hn E; try done. unfold Reader.u16. erewrite require_pass by done.
    pose proof (left_nth r [a; b] s 0 E) as Ha. pose proof (left_nth r [a; b] s 1 E) as Hb.
    rewrite Nat.add_0_r in Ha. rewrite Nat.add_1_r in Hb.
    unfold Reader.step. rewrite Ha, Hb by (cbn; lia). cbn [nth].
    pose proof (zb_range a). pose proof (zb_range b).
    rewrite Z.shiftl_mul_pow2, (lor_add _ 8) by (try apply zb_range; lia).
    unfold Prelude.u16. rewrite Z.mod_small by lia. done.
  - intros x. by apply reader_require_then.
Qed.

Lemma string_iff n (size : Reader.M Z) r s r' :
  (forall v r1, size r = Ok (v, r1) <-> 0 <= v < 256 ^ Z.of_nat n /\ reads r (be_bytes n v) r1) ->
  (l ← size; Reader.bytes (Z.to_nat l)) r = Ok (s, r') <->
  zlen s < 256 ^ Z.of_nat n /\ reads r (encode_string n s) r'.
Proof.
  intros Hs. rewrite bind_M. unfold encode_string. split.
  - intros (v & r1 & H & H'). apply Hs in H as [Hr H].
    apply bytes_iff in H' as [Hl H']; [|by eapply reads_valid].
    assert (v = zlen s) as -> by (unfold zlen; lia). split; [lia|].
    apply reads_app. eauto.
  - intros (Hr & H). apply reads_app in H as (r1 & H & H'). exists (zlen s), r1. split.
    + apply Hs. pose proof (zlen_nonneg s). done.
    + apply bytes_iff; [by eapply reads_valid|]. split; [unfold zlen; lia|done].
Qed.

Lemma string8_iff r s r' : valid r ->
  Reader.string8 r = Ok (s, r') <-> zlen s < 256 /\ reads r (encode_string 1 s) r'.
Proof. intros Hv. apply (string_iff 1). intros. by apply u8_iff. Qed.

Lemma string16_iff r s r' : valid r ->
  Reader.string16 r = Ok (s, r') <-> zlen s < 2 ^ 16 /\ reads r (encode_string 2 s) r'.
Proof. intros Hv. apply (string_iff 2). intros. by apply u16_iff. Qed.

(** Inversion and composition of reads in a chain. *)
Ltac read_step H r' :=
  let v := fresh "v" in
  apply bind_M in H as (v & r' & ?H & H);
  match goal with
  | H' : _ = Ok (v, r') |- _ =>
      first [ apply bytes_iff in H' as [? H'] | apply u8_iff in H' as [? H']
            | apply u16_iff in H' as [? H'] | apply u32_iff in H' as [? H']
            | apply u64_iff in H' as [? H'] | apply string8_iff in H' as [? H']
            | apply string16_iff in H' as [? H'] ];
      [|solve [done | eapply reads_valid; eassumption]]
  end.

Ltac do_read :=
  match goal with
  | H : reads ?r (?x ++ ?y) _ |- (_ ≫= _) ?r = Ok _ =>
      let r1 := fresh "r" in let H1 := fresh "H" in
      apply reads_app in H as (r1 & H1 & H);
      apply bind_M; eexists _, r1; split;
      [ first [ apply bytes_iff | apply u8_iff | apply u16_iff | apply u32_iff | apply u64_iff
              | apply string8_iff | apply string16_iff ];
        [first [done | by eapply reads_valid] | split; [|exact H1]]
      | assert (valid r1) by (by eapply reads_valid) ]
  end.

Lemma safe_path_length p : safe_path p = true -> zlen p <= 255.
Proof.
  unfold safe_path. intros H. case_match eqn:E; [done|]. breflect. lia.
Qed.

Lemma nonzero_exists (bs : Bytes) :
  forallb (fun b => zb b =? 0) bs = false <-> exists b, b ∈ bs /\ b <> nul.
Proof.
  split.
  - intros H. induction bs as [|b bs IH]; [done|]. cbn in H.
    destruct (zb b =? 0) eqn:E.
    + destruct (IH H) as (c & ? & ?). exists c. split; [by right|done].
    + exists b. split; [left|]. intros ->. done.
  - intros (b & Hb & Hn). apply not_true_is_false. intros Ha. rewrite forallb_forall in Ha.
    apply Hn, zb_inj. apply Z.eqb_eq, Ha, list_elem_of_In, Hb.
Qed.

Lemma bad_file_iff paths f : 0 <= size f < 2 ^ 64 -> length (file_sha256 f) = 32%nat ->
  bad_file paths f = false <-> wf_file f /\ lower_ascii (path f) ∉ paths.
Proof.
  intros Hs Hl. unfold bad_file, wf_file.
  rewrite !orb_false_iff, negb_false_iff, nonzero_exists, bool_decide_eq_false, Z.eqb_neq.
  intuition lia.
Qed.

(** ** The parser accepts exactly the format *)

Arguments be_bytes : simpl never.
Arguments encode_string : simpl never.

Lemma encode_files_cons f fs : encode_files (f :: fs) = encode_file f ++ encode_files fs.
Proof. done. Qed.

Lemma read_files_iff n paths r fs r' : valid r ->
  read_files n paths r = Ok (fs, r') <->
  length fs = n /\ reads r (encode_files fs) r' /\ Forall wf_file fs /\
  NoDup ((fun f => lower_ascii (path f)) <$> fs) /\
  Forall (fun f => lower_ascii (path f) ∉ paths) fs.
Proof.
  revert paths r fs r'. induction n as [|n IH]; intros paths r fs r' Hv; cbn [read_files].
  { rewrite ret_M. split.
    - intros (-> & ->). split_and!; [done|by apply reads_nil|by apply Forall_nil|by apply NoDup_nil|].
      by apply Forall_nil.
    - intros (Hl & H & _). destruct fs; [|done]. by apply reads_nil in H as (_ & ->). }
  split.
  - intros H. read_step H r1. read_step H r2. read_step H r3.
    assert (valid r3) as Hv3 by by eapply reads_valid.
    case_match eqn:Eb; [done|]. apply bad_file_iff in Eb as [Hwf Hp]; [|cbn; lia..].
    apply bind_M in H as (rest & r4 & H & E). apply ret_M in E as [-> ->].
    apply IH in H as (Hl & H & Hwfs & Hnd & Hps); [|done].
    rewrite !Forall_cons. split_and!; try done.
    + cbn. by rewrite Hl.
    + rewrite encode_files_cons.
      unfold encode_file. cbn [path size file_sha256]. rewrite <- !app_assoc.
      repeat (eapply reads_compose; [eassumption|]). exact H.
    + cbn. constructor; [|done]. rewrite list_elem_of_fmap. intros (f & Ef & Hf).
      rewrite Forall_forall in Hps. apply (Hps f Hf). rewrite <- Ef. left.
    + eapply Forall_impl; [exact Hps|]. cbn. intros f Hf Hin. apply Hf. by right.
  - intros (Hl & H & Hwf & Hnd & Hp). destruct fs as [|f fs]; [done|].
    rewrite encode_files_cons in H. unfold encode_file in H. rewrite <- !app_assoc in H.
    apply Forall_cons in Hwf as [Hf Hwf]. apply Forall_cons in Hp as [Hpf Hp].
    cbn in Hnd. apply NoDup_cons in Hnd as [Hni Hnd].
    pose proof Hf as (Hsafe & Hsize & Hsha & _). apply safe_path_length in Hsafe.
    do_read; [lia|]. do_read; [lia|]. do_read; [done|].
    destruct f as [fp fsz fsh]; cbn [path size file_sha256] in *.
    assert (bad_file paths (mkFile fp fsz fsh) = false) as ->
      by (apply bad_file_iff; cbn; try lia; done).
    apply bind_M. exists fs, r'. split; [|done]. apply IH; [done|].
    split_and!; try done; [cbn in Hl; lia|].
    rewrite Forall_forall in Hp |- *. intros g Hg. intros [E|E]%elem_of_cons.
    + apply Hni. rewrite <- E. by apply (list_elem_of_fmap_2 (fun f => lower_ascii (path f))).
    + by apply (Hp g).
Qed.

Lemma read_body_iff bs b r' :
  read_body (Reader.mkReader bs 0) = Ok (b, r') <->
  wf_body b /\ bs = encode_body b /\ r' = Reader.mkReader bs (length bs).
Proof.
  assert (valid (Reader.mkReader bs 0)) as Hv by (unfold valid; cbn; lia).
  unfold read_body. split.
  - intros H. read_step H r1. read_step H r2. read_step H r3. read_step H r4. read_step H r5.
    read_step H r6. read_step H r7. assert (valid r7) by (by eapply reads_valid).
    case_match eqn:Eg; [done|].
    apply bind_M in H as (fs & r8 & Hf & H). apply read_files_iff in Hf as (Hl & Hf & Hwf & Hnd & _);
      [|done].
    unfold Reader.step in H. case_match eqn:Er; [done|]. injection H as <- <-.
    breflect.
    assert (v5 = zlen fs) as -> by (unfold zlen; lia).
    assert (0 < zlen v4) by by apply zlen_pos.
    pose proof (zlen_nonneg fs).
    assert (bs = encode_body (mkBody v v0 v1 v2 v3 v4 fs) /\ r8 = Reader.mkReader bs (length bs))
      as [-> ->].
    { destruct (proj1 (reads_all bs (encode_body (mkBody v v0 v1 v2 v3 v4 fs)) r8)) as [-> ->];
        [|done].
      split; [|done]. unfold encode_body.
      cbn [b_app b_release b_version_code b_platform b_architecture b_version b_files].
      repeat (eapply reads_compose; [eassumption|]). done. }
    unfold wf_body. cbn. split_and!; try done; lia.
  - intros (Hwf & E & ->).
    pose proof (proj2 (reads_all bs (encode_body b) _) (conj (eq_sym E) eq_refl)) as [H Hr].
    destruct b as [app rel vc pl ar ver fs]. unfold wf_body, encode_body in *. cbn in Hwf, H.
    destruct Hwf as (Ha & Hrel & Hvc & Hpl & Har & Hver & Hfs & Hwf & Hnd).
    do_read; [done|]. do_read; [done|]. do_read; [done|]. do_read; [done|]. do_read; [done|].
    do_read; [lia|]. do_read; [lia|].
    rewrite (proj2 (Z.eqb_neq _ 0)), !(proj2 (Z.ltb_ge _ _)), bool_decide_false by (first [lia | apply zlen_pos; lia]).
    cbn [orb]. apply bind_M. eexists fs, _. split.
    + apply read_files_iff; [done|]. split_and!; try done; [unfold zlen; lia|].
      apply Forall_forall. intros ? _. apply not_elem_of_nil.
    + unfold Reader.step. by rewrite Hr.
Qed.

Lemma read_trailer_iff bs t r' :
  read_trailer (Reader.mkReader bs 0) = Ok (t, r') <->
  wf_trailer t /\ bs = encode_trailer t /\ r' = Reader.mkReader bs (length bs).
Proof.
  assert (valid (Reader.mkReader bs 0)) as Hv by (unfold valid; cbn; lia).
  unfold read_trailer. split.
  - intros H. read_step H r1. read_step H r2. read_step H r3. read_step H r4. read_step H r5.
    unfold Reader.step in H. case_match eqn:Er; [done|]. injection H as <- <-.
    breflect.
    destruct (proj1 (reads_all bs (encode_trailer (mkTrailer v v0 v1 v2 v3)) r5)) as [-> ->].
    { split; [|done]. unfold encode_trailer.
      cbn [t_root_key_id t_signer_key_id t_signer_public t_root_signature t_manifest_signature].
      repeat (eapply reads_compose; [eassumption|]). done. }
    unfold wf_trailer. cbn.
    assert (0 < zlen v) by by apply zlen_pos. assert (0 < zlen v0) by by apply zlen_pos.
    split_and!; try done; lia.
  - intros (Hwf & E & ->).
    pose proof (proj2 (reads_all bs (encode_trailer t) _) (conj (eq_sym E) eq_refl)) as [H Hr].
    destruct t as [rk sk sp rs ms]. unfold wf_trailer, encode_trailer in *. cbn in Hwf, H.
    destruct Hwf as (Hrk & Hsk & Hsp & Hrs & Hms).
    do_read; [lia|]. do_read; [lia|]. do_read; [done|]. do_read; [done|].
    rewrite <- (app_nil_r ms) in H. do_read; [done|]. apply reads_nil in H as [_ <-].
    unfold Reader.step. rewrite Hr, !bool_decide_false by (apply zlen_pos; lia).
    by rewrite !(proj2 (Z.ltb_ge _ _)) by lia.
Qed.

Lemma read_header_iff bs v r' :
  read_header (Reader.mkReader bs 0) = Ok (v, r') <->
  0 < v < 2 ^ 32 /\ v <= Z.of_nat (Reader.remaining r') /\
  reads (Reader.mkReader bs 0) (magic ++ be_bytes 2 2 ++ be_bytes 4 v) r'.
Proof.
  assert (valid (Reader.mkReader bs 0)) as Hv by (unfold valid; cbn; lia).
  unfold read_header. split.
  - intros H. read_step H r1. case_match eqn:Em; [done|]. breflect. subst.
    read_step H r2. case_match eqn:Ef; [done|]. breflect. subst. read_step H r3.
    unfold Reader.step in H. case_match eqn:Eb; [done|]. injection H as <- <-. breflect.
    split_and!; try lia. repeat (eapply reads_compose; [eassumption|]). done.
  - intros (Hr & Hrem & H). do_read; [done|]. rewrite bool_decide_true by done. cbn [negb].
    do_read; [done|]. cbn [negb Z.eqb Pos.eqb].
    rewrite <- (app_nil_r (be_bytes 4 v)) in H. do_read; [lia|]. apply reads_nil in H as [_ <-].
    unfold Reader.step. rewrite (proj2 (Z.eqb_neq _ 0)), (proj2 (Z.ltb_ge _ _)) by lia. done.
Qed.

(** The message the root signs, in one piece. *)
Definition signed_key_message (b : Body) (t : Trailer) : Bytes :=
  key_domain ++ [nul] ++ b_app b ++ encode_string 1 (t_root_key_id t) ++
  encode_string 1 (t_signer_key_id t) ++ t_signer_public t.

Lemma key_message_ok b t : wf_trailer t -> key_message b t = Ok (signed_key_message b t).
Proof.
  intros (Hr & Hs & _). unfold key_message, append_string8.
  rewrite (proj2 (Z.ltb_ge _ _)) by lia. cbn [mbind Result_bind].
  rewrite (proj2 (Z.ltb_ge _ _)) by lia. cbn [mbind Result_bind]. f_equal.
  unfold signed_key_message, encode_string. by rewrite <- !app_assoc.
Qed.

Lemma encode_body_nonempty b : wf_body b -> 0 < zlen (encode_body b).
Proof.
  intros (H & _). unfold encode_body. rewrite zlen_app. unfold zlen at 1. rewrite H.
  pose proof (zlen_nonneg (b_release b ++ be_bytes 8 (b_version_code b) ++
    be_bytes 1 (b_platform b) ++ be_bytes 1 (b_architecture b) ++ encode_string 2 (b_version b) ++
    be_bytes 2 (zlen (b_files b)) ++ encode_files (b_files b))). lia.
Qed.

(** The header, the body and the trailer of a manifest, cut by the parser. *)
Lemma header_cut manifest v r : zlen manifest <= 64 * 1024 ->
  read_header (Reader.mkReader manifest 0) = Ok (v, r) <->
  exists body rest, 0 < zlen body /\ v = zlen body /\
    manifest = magic ++ be_bytes 2 2 ++ encode_string 4 body ++ rest /\
    body = substr manifest (Reader.offset r) (Z.to_nat v) /\
    rest = drop (Reader.offset r + Z.to_nat v) manifest /\
    r = Reader.mkReader manifest 14.
Proof.
  intros Hm. rewrite read_header_iff. split.
  - intros (Hv & Hrem & (Hva & -> & E)).
    assert (length (magic ++ be_bytes 2 2 ++ be_bytes 4 v) = 14)%nat as H14
      by by rewrite !length_app, !be_bytes_length.
    rewrite H14 in *. rewrite left_adv in E. unfold left, Reader.remaining, adv in *.
    cbn [Reader.offset Reader.data] in *. rewrite drop_0 in E. cbn [Nat.add] in *.
    set (s := drop 14 manifest) in *.
    exists (take (Z.to_nat v) s), (drop (Z.to_nat v) s).
    assert (zlen (take (Z.to_nat v) s) = v) as Hl.
    { unfold zlen, s. rewrite length_take, length_drop. lia. }
    rewrite Hl. split_and!; try lia; try done.
    + unfold encode_string. rewrite Hl, <- app_assoc, take_drop, E at 1. by rewrite <- !app_assoc.
    + unfold s. by rewrite drop_drop.
  - intros (body & rest & Hp & -> & E & _ & _ & ->).
    assert (zlen body <= 64 * 1024).
    { rewrite E in Hm. unfold encode_string in Hm. rewrite !zlen_app in Hm.
      pose proof (zlen_nonneg rest). pose proof (zlen_nonneg magic).
      pose proof (zlen_nonneg (be_bytes 2 2)). pose proof (zlen_nonneg (be_bytes 4 (zlen body))). lia. }
    assert (left (Reader.mkReader manifest 14) = body ++ rest) as El.
    { unfold left. cbn [Reader.data Reader.offset]. rewrite E. unfold encode_string.
      rewrite <- app_assoc. rewrite !app_assoc. rewrite <- (app_assoc _ body).
      apply drop_app_exact. by rewrite !length_app, !be_bytes_length. }
    split_and!; [lia|lia| |].
    + pose proof (f_equal length El) as Hl. rewrite left_length, length_app in Hl. cbn in Hl.
      unfold Reader.remaining, zlen. cbn. lia.
    + split_and!; [unfold valid; cbn; lia| |].
      * unfold adv. by rewrite !length_app, !be_bytes_length.
      * rewrite El. unfold left. cbn [Reader.data Reader.offset]. rewrite drop_0, E.
        unfold encode_string. by rewrite <- !app_assoc.
Qed.

(** ** Safe names *)

Lemma safe_parts_split fuel value offset : (offset <= length value)%nat ->
  safe_parts fuel value offset =
  forallb safe_part (split_on_fuel fuel "/"%char (drop offset value)).
Proof.
  revert offset. induction fuel as [|f IH]; intros offset Ho; [done|].
  rewrite split_step by done. cbn [safe_parts forallb]. rewrite (proj2 (Nat.leb_le _ _) Ho).
  destruct (find_from "/"%char value offset) as [e|] eqn:E; [|by destruct (safe_part _)].
  apply find_from_Some in E as (He%lookup_lt_Some & _).
  rewrite IH by lia. by destruct (safe_part _).
Qed.

(** Where a relative name leads from a directory, for a file system whose
    separators are both slashes: [..] goes up, [.] and empty components stay. *)
Definition components (name : text) : list text :=
  split_on "/"%char name ≫= split_on backslash.

Fixpoint walk (dir : list text) (name : list text) : list text :=
  match name with
  | [] => dir
  | c :: rest =>
      if bool_decide (c = &"..") then walk (removelast dir) rest
      else if bool_decide (c = []) || bool_decide (c = &".") then walk dir rest
      else walk (dir ++ [c]) rest
  end.

Lemma walk_safe parts dir : Forall (fun p => safe_part p = true) parts ->
  walk dir parts = dir ++ parts.
Proof.
  intros H. revert dir. induction H as [|p ps Hp _ IH]; intros dir; cbn; [by rewrite app_nil_r|].
  unfold safe_part in Hp. breflect. rewrite !bool_decide_false by done. cbn.
  by rewrite IH, <- app_assoc.
Qed.

(** A name accepted by [safe_path] is a non-empty list of plain
    components, and leads strictly below the directory it is resolved from,
    through exactly these components, also when backslashes separate. *)
Theorem safe_path_contained name dir : safe_path name = true ->
  exists parts, name = join (&"/") parts /\ parts <> [] /\
    Forall (fun p => safe_part p = true) parts /\ ":"%char ∉ name /\
    walk dir (components name) = dir ++ parts.
Proof.
  unfold safe_path. intros H. case_match eqn:E; [done|]. breflect.
  rewrite safe_parts_split in H by lia. rewrite drop_0 in H. fold (split_on "/"%char name) in H.
  apply forallb_Forall in H. destruct (split_on_spec "/"%char name) as (Hj & Hne & _).
  exists (split_on "/"%char name). split_and!; try done.
  assert (components name = split_on "/"%char name) as ->; [|by apply walk_safe].
  unfold components.
  assert (Forall (fun p => backslash ∉ p) (split_on "/"%char name)) as Hb.
  { apply Forall_forall. intros p Hp Hin. match goal with Hb : backslash ∉ name |- _ => apply Hb end.
    rewrite <- Hj. clear -Hp Hin. revert Hp. generalize (split_on "/"%char name) as l.
    induction l as [|x l IH]; [by intros ?%elem_of_nil|].
    intros [->|Hl]%elem_of_cons; destruct l as [|y l]; try done.
    - cbn. set_solver.
    - by apply elem_of_nil in Hl.
    - change (join (&"/") (x :: y :: l)) with (x ++ (&"/") ++ join (&"/") (y :: l)).
      apply elem_of_app. right. apply elem_of_app. right. by apply IH. }
  clear -Hb. induction Hb as [|p l Hp _ IH]; [done|]. by rewrite bind_cons, (split_on_none _ _ Hp), IH.
Qed.

Lemma safe_path_contained_witness :
  exists parts, &"bin/app.exe" = join (&"/") parts /\ parts <> [] /\
    Forall (fun p => safe_part p = true) parts /\ ":"%char ∉ &"bin/app.exe" /\
    walk [&"root"] (components (&"bin/app.exe")) = [&"root"] ++ parts.
Proof. apply (safe_path_contained (&"bin/app.exe") [&"root"]). vm_compute. reflexivity. Defined.

Section Correct.
Context `{C : Crypto}.

(** What is accepted matches the expected release. *)
Lemma parse_rim2_matches manifest e root_key m : parse_rim2 manifest e root_key = Ok m ->
  exists b t, matches e b t = true /\ m = manifest_view manifest b t.
Proof.
  unfold parse_rim2. intros H. apply bind_Ok in H as ([] & _ & H).
  apply bind_Ok in H as ([v r] & _ & H). apply bind_Ok in H as ([b rb] & _ & H).
  apply bind_Ok in H as ([t rt] & _ & H). apply bind_Ok in H as ([] & Hm & H).
  apply require_Ok in Hm. exists b, t. split; [done|]. inv_ok. done.
Qed.

(** C10: [parse_rim2] accepts exactly the encodings of well-formed manifests
    (safe, distinct file names, non-zero sizes and digests, exact lengths, no
    trailing byte) of the expected identity, whose signer key is certified
    by the root key and whose body is signed by that signer key; and it
    returns the fields that were encoded. *)
Theorem parse_rim2_iff manifest e root_key m :
  parse_rim2 manifest e root_key = Ok m <->
  exists b t,
    wf_body b /\ wf_trailer t /\ manifest = encode_rim2 b t /\ zlen manifest <= 64 * 1024 /\
    matches e b t = true /\
    ed25519_verify root_key (signed_key_message b t)
      (base64url_encode (t_root_signature t)) = Ok true /\
    ed25519_verify (base64url_encode (t_signer_public t)) (manifest_message (encode_body b))
      (base64url_encode (t_manifest_signature t)) = Ok true /\
    m = manifest_view manifest b t.
Proof.
  unfold parse_rim2. split.
  - intros H. apply bind_Ok in H as ([] & Hsz & H). apply require_Ok in Hsz. breflect.
    apply bind_Ok in H as ([v r] & Hh & H). apply bind_Ok in H as ([b rb] & Hb & H).
    apply bind_Ok in H as ([t rt] & Ht & H).
    apply header_cut in Hh as (body & rest & Hp & -> & E & Ebody & Erest & ->); [|done].
    rewrite <- Ebody in *. rewrite <- Erest in *.
    apply read_body_iff in Hb as (Hwb & -> & _). apply read_trailer_iff in Ht as (Hwt & -> & _).
    rewrite (key_message_ok b t Hwt) in H. inv_ok.
    subst. exists b, t. split_and!; try done.
  - intros (b & t & Hwb & Hwt & E & Hsz & Hm & Hroot & Hsig & ->).
    assert (manifest <> []) by (rewrite E; done).
    rewrite bool_decide_false, (proj2 (Z.ltb_ge _ _)) by done. cbn [require orb negb].
    pose proof (encode_body_nonempty b Hwb) as Hp.
    set (r := Reader.mkReader manifest 14).
    assert (drop 14 manifest = encode_body b ++ encode_trailer t) as Ed.
    { rewrite E. unfold encode_rim2, encode_string. rewrite <- app_assoc.
      rewrite !app_assoc. rewrite <- (app_assoc _ (encode_body b)). apply drop_app_exact.
      by rewrite !length_app, !be_bytes_length. }
    assert (substr manifest 14 (Z.to_nat (zlen (encode_body b))) = encode_body b) as Eb.
    { unfold substr. rewrite Ed. apply take_app_exact. unfold zlen. lia. }
    assert (drop (14 + Z.to_nat (zlen (encode_body b))) manifest = encode_trailer t) as Et.
    { rewrite <- drop_drop, Ed. apply drop_app_exact. unfold zlen. lia. }
    assert (read_header (Reader.mkReader manifest 0) = Ok (zlen (encode_body b), r)) as ->.
    { apply header_cut; [done|]. by exists (encode_body b), (encode_trailer t). }
    cbn [mbind Result_bind Reader.offset r]. rewrite Eb, Et.
    rewrite (proj2 (read_body_iff _ b _)) by done. cbn [mbind Result_bind].
    rewrite (proj2 (read_trailer_iff _ t _)) by done. cbn [mbind Result_bind].
    rewrite Hm, (key_message_ok b t Hwt). cbn [mbind Result_bind require].
    rewrite Hroot. cbn [mbind Result_bind require]. rewrite Hsig. done.
Qed.
End Correct.

(** ** A manifest, worked through *)

Definition demo_app : text := &"00010203-0405-0607-0809-0a0b0c0d0e0f".
Definition demo_release : text := &"10111213-1415-1617-1819-1a1b1c1d1e1f".

Definition demo_body : Body :=
  mkBody (bz <$> seqZ 0 16) (bz <$> seqZ 16 16) 7 1 2 (&"1.2.0")
    [mkFile (&"bin/App.exe") 3 (mini_sha256 (&"abc")); mkFile (&"bin/core.dll") 2 (mini_sha256 (&"xy"))].

Definition demo_root_key : Bytes := bz <$> seqZ 40 32.
Definition demo_signer_key : Bytes := bz <$> seqZ 80 32.

Definition demo_trailer : Trailer :=
  let unsigned := mkTrailer (&"root-1") (&"signer-1") demo_signer_key [] [] in
  mkTrailer (&"root-1") (&"signer-1") demo_signer_key
    (mini_sign demo_root_key (signed_key_message demo_body unsigned))
    (mini_sign demo_signer_key (manifest_message (encode_body demo_body))).

Definition demo_expected : Expected :=
  mkExpected demo_app demo_release (&"1.2.0") (Some 7) (&"AMD64") (&"root-1").

Definition demo_manifest : Bytes := encode_rim2 demo_body demo_trailer.

Example parse_demo :
  parse_rim2 (C := mini_crypto) demo_manifest demo_expected (base64url_encode demo_root_key) =
  Ok (manifest_view (C := mini_crypto) demo_manifest demo_body demo_trailer).
Proof. vm_compute. reflexivity. Qed.

(** One flipped bit in a file digest and the manifest is refused. *)
Example parse_tampered :
  parse_rim2 (C := mini_crypto) (alter (fun b => bz (Z.lxor (zb b) 1)) 100%nat demo_manifest)
    demo_expected (base64url_encode demo_root_key) =
  Throw (err Integrity 0 (&"host_manifest_signature_invalid")
          (&"RIM2 manifest signature is invalid")).
Proof. vm_compute. reflexivity. Qed.
