(* ===== verification/Hardware.v ===== *)
(** * Hardware evidence ([src/internal/hardware_evidence.cpp])

    From what the firmware, the processor, the drives, the network adapters and
    the registry answer, collected in [Machine], to the hash that identifies
    the device. *)
From S2P Require Import Prelude StdString Errors Codec Json Types Crypto.

(** ** What the machine answers *)

(** [STORAGE_DEVICE_DESCRIPTOR] in the bytes returned. *)
Record Drive := mkDrive { bus_type : Z; serial_offset : Z; drive_bytes : Bytes }.

Record Adapter := mkAdapter {
  address_length : Z; if_type : Z; oper_up : bool; description : option text; address : Bytes
}.

Record Machine := mkMachine {
  mc_vendor : text;                    (* cpuid leaf 0 *)
  mc_brand : option Bytes;             (* leaves 0x80000002 to 0x80000004 *)
  mc_firmware : Z * Bytes;             (* size announced, bytes written *)
  mc_drives : nat -> option Drive;
  mc_adapters : option (list Adapter);
  mc_guid : option (Z * text)          (* registry type and value *)
}.

Record Fingerprint := mkFingerprint {
  fp_cpu : text; fp_motherboard : text; fp_bios : text; fp_disk : text; fp_mac : text
}.
Definition no_fingerprint : Fingerprint := mkFingerprint [] [] [] [] [].

Definition set_bios (v : text) (f : Fingerprint) : Fingerprint :=
  mkFingerprint (fp_cpu f) (fp_motherboard f) v (fp_disk f) (fp_mac f).
Definition set_motherboard (v : text) (f : Fingerprint) : Fingerprint :=
  mkFingerprint (fp_cpu f) v (fp_bios f) (fp_disk f) (fp_mac f).

(** ** Usable values *)

Definition placeholders : list text :=
  [&"none"; &"n/a"; &"na"; &"null"; &"0"; &"default string"; &"to be filled by o.e.m.";
   &"to be filled by oem"; &"system serial number"; &"base board serial number";
   &"chassis serial number"; &"not specified"; &"not available"; &"unknown"; &"0000000000";
   &"invalid"; &"filled by oem"].

Definition is_placeholder (value : text) : bool :=
  if bool_decide (value = []) then true
  else
    let lowered := lower_ascii value in
    if forallb (fun c => bool_decide (c = "0"%char) || bool_decide (c = " "%char) ||
                         bool_decide (c = bz 9)) lowered
    then true
    else bool_decide (lowered ∈ placeholders).

Definition assign_if_usable (target value : text) : text :=
  if negb (bool_decide (target = [])) then target
  else
    let value := take 128 (trim_ascii value) in
    if is_placeholder value then target else value.

(** ** SMBIOS *)

(** [strlen], [strnlen] and the scans for a zero byte. *)
Definition until_nul (s : Bytes) : text :=
  match find_char nul s with Some i => take i s | None => s end.

(** [strings] is the text from the string area to its end; the cursor moves
    past [count] strings. *)
Fixpoint skip_strings (count : nat) (strings : Bytes) : option Bytes :=
  match count with
  | O => Some strings
  | S c =>
      match find_char nul strings with
      | None => None
      | Some i =>
          let rest := drop (S i) strings in
          if bool_decide (head rest = Some nul) then None else skip_strings c rest
      end
  end.

Definition read_smbios_string (strings : Bytes) (index : Z) : text :=
  if (index =? 0) || bool_decide (strings = []) then []
  else match skip_strings (Z.to_nat (index - 1)) strings with
       | None => []
       | Some cursor => until_nul cursor
       end.

(** Where two zero bytes end the string area. *)
Fixpoint find_double_nul (s : Bytes) : option nat :=
  match s with
  | a :: (b :: _) as s' =>
      if bool_decide (a = nul) && bool_decide (b = nul) then Some 0%nat else S <$> find_double_nul s'
  | _ => None
  end.

Definition header_bytes : nat := 4.

(** A structure from the cursor: its formatted part, its strings and what
    follows them. *)
Definition split_structure (data : Bytes) : option (Bytes * Bytes * Bytes) :=
  match data with
  | _ :: len :: _ :: _ :: _ =>
      let n := Z.to_nat (zb len) in
      if (n <? header_bytes)%nat || (length data <? n)%nat then None
      else
        let strings := drop n data in
        match find_double_nul strings with
        | Some i => Some (take n data, take (i + 2) strings, drop (i + 2) strings)
        | None => Some (take n data, strings, [])
        end
  | _ => None
  end.

Definition formatted_byte (formatted : Bytes) (offset : nat) : Z :=
  match formatted !! offset with Some b => zb b | None => 0 end.

Definition structure_type (formatted : Bytes) : Z := formatted_byte formatted 0.

Definition take_serial (formatted strings : Bytes) (f : Fingerprint) : Fingerprint :=
  let serial := read_smbios_string strings (formatted_byte formatted 7) in
  if structure_type formatted =? 1 then set_bios (assign_if_usable (fp_bios f) serial) f
  else if structure_type formatted =? 2
       then set_motherboard (assign_if_usable (fp_motherboard f) serial) f
       else f.

Fixpoint parse_smbios_loop (fuel : nat) (data : Bytes) (f : Fingerprint) : Fingerprint :=
  match fuel with
  | O => f
  | S fuel =>
      match split_structure data with
      | None => f
      | Some (formatted, strings, next) =>
          if structure_type formatted =? 127 then f
          else parse_smbios_loop fuel next (take_serial formatted strings f)
      end
  end.

Definition parse_smbios (data : Bytes) (f : Fingerprint) : Fingerprint :=
  parse_smbios_loop (S (length data)) data f.

Definition le32 (b : Bytes) : Z :=
  fold_right (fun c acc => zb c + 256 * acc) 0 (take 4 b).

Definition collect_smbios (m : Machine) (f : Fingerprint) : Fingerprint :=
  let '(required, buffer) := mc_firmware m in
  if (required =? 0) || (1024 * 1024 <? required) then f
  else if (zlen buffer <=? 8) || (required <? zlen buffer) then f
  else
    let length := Z.min (le32 (drop 4 buffer)) (zlen buffer - 8) in
    if 0 <? length then parse_smbios (take (Z.to_nat length) (drop 8 buffer)) f else f.

(** ** Processor, drives and adapters *)

Definition collect_cpu (m : Machine) (f : Fingerprint) : Fingerprint :=
  let brand := match mc_brand m with Some b => until_nul b | None => [] end in
  mkFingerprint
    (assign_if_usable (fp_cpu f) (trim_ascii (mc_vendor m) ++ &"_" ++ trim_ascii brand))
    (fp_motherboard f) (fp_bios f) (fp_disk f) (fp_mac f).

Definition descriptor_size : Z := 40.
Definition removable (bus : Z) : bool := bool_decide (bus ∈ [7; 4; 12; 13]).

Definition query_physical_drive_serial (d : option Drive) : text :=
  match d with
  | None => []
  | Some d =>
      let returned := zlen (drive_bytes d) in
      if (descriptor_size <=? returned) && negb (removable (bus_type d)) &&
         negb (serial_offset d =? 0) && (serial_offset d <? returned)
      then until_nul (drop (Z.to_nat (serial_offset d)) (drive_bytes d))
      else []
  end.

Definition collect_disk (m : Machine) (f : Fingerprint) : Fingerprint :=
  let disk := foldl (fun disk i =>
    if bool_decide (disk = [])
    then assign_if_usable disk (query_physical_drive_serial (mc_drives m i)) else disk)
    (fp_disk f) (seq 0 8) in
  mkFingerprint (fp_cpu f) (fp_motherboard f) (fp_bios f) disk (fp_mac f).

Definition markers : list text :=
  [&"virtual"; &"vmware"; &"vethernet"; &"hyper-v"; &"virtualbox"; &"tap-"; &"tap adapter";
   &"loopback"; &"pseudo"; &"bluetooth"; &"wan miniport"; &"vpn"; &"docker"; &"npcap"].

Definition virtual_adapter (description : text) : bool :=
  existsb (fun marker => bool_decide (is_Some (find_sub marker (lower_ascii description)))) markers.

Definition usable_adapter (a : Adapter) : bool :=
  (address_length a =? 6) && ((if_type a =? 6) || (if_type a =? 71)) && oper_up a &&
  negb (match description a with Some d => virtual_adapter d | None => false end) &&
  negb (forallb (fun b => zb b =? 0) (take 6 (address a))) &&
  (Z.land (default 0 (zb <$> head (address a))) 2 =? 0).

(** The smallest address, the first of equal ones. *)
Definition best_mac (best : option Bytes) (a : Adapter) : option Bytes :=
  let mac := take 6 (address a) in
  if usable_adapter a then
    match best with
    | None => Some mac
    | Some b => if text_leb b mac then Some b else Some mac
    end
  else best.

Definition mac_text (mac : Bytes) : text := join (&":") ((fun b => hex_lower [b]) <$> mac).

Definition collect_mac (m : Machine) (f : Fingerprint) : Fingerprint :=
  match mc_adapters m with
  | None => f
  | Some adapters =>
      match foldl best_mac None adapters with
      | None => f
      | Some mac => mkFingerprint (fp_cpu f) (fp_motherboard f) (fp_bios f) (fp_disk f)
                      (assign_if_usable (fp_mac f) (mac_text mac))
      end
  end.

Definition collect_hardware_fingerprint (m : Machine) : Fingerprint :=
  collect_mac m (collect_disk m (collect_smbios m (collect_cpu m no_fingerprint))).

(** [REG_SZ] is 1. *)
Definition read_machine_guid (m : Machine) : text :=
  match mc_guid m with
  | Some (type, value) => if negb (type =? 1) then [] else until_nul value
  | None => []
  end.

(** ** The evidence *)

(** What is left of a component: no blank, no control character, lower case. *)
Definition normalize (raw : text) : text :=
  tolower <$> filter (fun c => negb ((zb c <=? 32) || (zb c =? 127))) raw.

#[global] Arguments normalize : simpl never.

Definition add_component (acc : Z * text) (c : Z * text * text) : Z * text :=
  let '(bit, name, raw) := c in
  let value := normalize raw in
  if bool_decide (value = []) then acc
  else (Z.lor acc.1 bit, acc.2 ++ name ++ &":" ++ value ++ [nl]).

Definition components (f : Fingerprint) (machine_guid : text) : list (Z * text * text) :=
  [(1, &"cpu", fp_cpu f); (2, &"motherboard", fp_motherboard f); (4, &"smbios", fp_bios f);
   (8, &"disk", fp_disk f); (16, &"mac", fp_mac f); (32, &"machine_guid", machine_guid)].

Section Evidence.
Context `{C : Crypto}.

Definition build_hardware_evidence (app_id : text) (f : Fingerprint) (machine_guid : text) :
    Result HardwareEvidence :=
  let canonical := &"device_hardware_evidence_v2" ++ [nl] ++ &"app_id:" ++ app_id ++ [nl] in
  let '(mask, canonical) := foldl add_component (0, canonical) (components f machine_guid) in
  if mask =? 0
  then Throw (err Identity 0 [] (&"device hardware evidence collection failed"))
  else Ok {| he_version := 2; component_mask := mask; aggregate_hash := sha256_hex canonical |}.

Definition collect_hardware_evidence (app_id : text) (m : Machine) : Result HardwareEvidence :=
  build_hardware_evidence app_id (collect_hardware_fingerprint m) (read_machine_guid m).

End Evidence.

(** * Lemmas *)

(** ** The scan of the table ends *)

Lemma find_double_nul_cons a b s : find_double_nul (a :: b :: s) =
  if bool_decide (a = nul) && bool_decide (b = nul) then Some 0%nat
  else S <$> find_double_nul (b :: s).
Proof. reflexivity. Qed.

Lemma find_double_nul_lt s i : find_double_nul s = Some i -> (i + 2 <= length s)%nat.
Proof.
  revert i. induction s as [|a [|b s] IH]; intros i; [done|done|]. rewrite find_double_nul_cons.
  destruct (_ && _); [intros [= <-]; cbn; lia|].
  destruct (find_double_nul (b :: s)) as [j|]; [|done]. intros [= <-].
  specialize (IH j eq_refl). cbn in *. lia.
Qed.

Lemma split_structure_shrinks data formatted strings next :
  split_structure data = Some (formatted, strings, next) -> (length next + 4 <= length data)%nat.
Proof.
  unfold split_structure, header_bytes. destruct data as [|t [|len [|h1 [|h2 rest]]]]; try done.
  set (data := t :: len :: h1 :: h2 :: rest). destruct (_ || _) eqn:E; [done|].
  apply orb_false_iff in E as [E1 E2]. apply Nat.ltb_ge in E1, E2.
  destruct (find_double_nul _) as [i|] eqn:Ef; intros [= <- <- <-].
  - apply find_double_nul_lt in Ef. rewrite length_drop in Ef. rewrite !length_drop. lia.
  - cbn. lia.
Qed.

Lemma parse_smbios_fuel f1 f2 data fp :
  (length data < f1)%nat -> (length data < f2)%nat ->
  parse_smbios_loop f1 data fp = parse_smbios_loop f2 data fp.
Proof.
  revert f2 data fp. induction f1 as [|f1 IH]; intros [|f2] data fp H1 H2; try lia.
  cbn [parse_smbios_loop]. destruct (split_structure data) as [[[fm st] nx]|] eqn:E; [|done].
  apply split_structure_shrinks in E. case_match; [done|]. apply IH; lia.
Qed.

(** ** A table as the firmware writes it

    A structure is its formatted part, whose second byte is its length, and
    its strings, each ended by a zero byte, with one more at the end (two when
    there is no string). *)
Record Structure := mkStructure { st_formatted : Bytes; st_strings : list Bytes }.

Definition print_strings (strings : list Bytes) : Bytes :=
  match strings with
  | [] => [nul; nul]
  | _ => mjoin ((fun s => s ++ [nul]) <$> strings) ++ [nul]
  end.
Definition print_structure (s : Structure) : Bytes := st_formatted s ++ print_strings (st_strings s).
Definition print_table (l : list Structure) : Bytes := mjoin (print_structure <$> l).

Definition string_ok (s : Bytes) : Prop := s <> [] /\ nul ∉ s.
Definition structure_ok (s : Structure) : Prop :=
  (4 <= length (st_formatted s) <= 255)%nat /\
  st_formatted s !! 1%nat = Some (bz (zlen (st_formatted s))) /\
  Forall string_ok (st_strings s).

(** String number [index], counted from 1, of a structure. *)
Definition nth_string (index : Z) (strings : list Bytes) : text :=
  if index =? 0 then [] else default [] (strings !! Z.to_nat (index - 1)).

Definition structure_serial (s : Structure) : text :=
  nth_string (formatted_byte (st_formatted s) 7) (st_strings s).

(** The fingerprint of a table: the first usable serial of its BIOS (type 1)
    and of its board (type 2) structures, up to the end marker (127). *)
Fixpoint table_fingerprint (l : list Structure) (f : Fingerprint) : Fingerprint :=
  match l with
  | [] => f
  | s :: l' =>
      let type := structure_type (st_formatted s) in
      if type =? 127 then f
      else table_fingerprint l'
        (if type =? 1 then set_bios (assign_if_usable (fp_bios f) (structure_serial s)) f
         else if type =? 2
              then set_motherboard (assign_if_usable (fp_motherboard f) (structure_serial s)) f
              else f)
  end.

Lemma until_nul_app s t : nul ∉ s -> until_nul (s ++ nul :: t) = s.
Proof. intros H. unfold until_nul. rewrite find_char_app by done. by rewrite take_app_length. Qed.

Lemma print_strings_cons s l : l <> [] -> print_strings (s :: l) = s ++ nul :: print_strings l.
Proof. destruct l; [done|]. intros _. cbn. by rewrite <- !app_assoc. Qed.
Lemma print_strings_one s : print_strings [s] = s ++ [nul; nul].
Proof. cbn. by rewrite <- !app_assoc. Qed.

Lemma print_strings_head s l : string_ok s -> head (print_strings (s :: l)) <> Some nul.
Proof.
  intros [Hs Hn] H. destruct s as [|c s]; [done|]. cbn in H. injection H as ->. apply Hn. by left.
Qed.

(** The end of the string area is found. *)
Lemma find_double_nul_plain s c t : string_ok s -> c <> nul ->
  find_double_nul (s ++ nul :: c :: t) = Nat.add (S (length s)) <$> find_double_nul (c :: t).
Proof.
  intros [Hs Hn] Hc. induction s as [|x s IH]; [done|]. apply not_elem_of_cons in Hn as [Hx Hn].
  destruct s as [|y s].
  - cbn [app]. rewrite find_double_nul_cons, bool_decide_false by done. cbn [andb].
    rewrite find_double_nul_cons, (bool_decide_false _ Hc), andb_false_r.
    by destruct (find_double_nul (c :: t)).
  - specialize (IH ltac:(done) Hn). cbn [app] in *.
    rewrite find_double_nul_cons, bool_decide_false by done. cbn [andb]. rewrite IH.
    by destruct (find_double_nul (c :: t)).
Qed.

Lemma find_double_nul_end s t : string_ok s -> find_double_nul (s ++ nul :: nul :: t) = Some (length s).
Proof.
  intros [Hs Hn]. induction s as [|x s IH]; [done|]. apply not_elem_of_cons in Hn as [Hx Hn].
  destruct s as [|y s].
  - cbn [app]. rewrite find_double_nul_cons, bool_decide_false by done. done.
  - specialize (IH ltac:(done) Hn). cbn [app] in *.
    rewrite find_double_nul_cons, bool_decide_false by done. cbn [andb]. by rewrite IH.
Qed.

Lemma find_double_nul_strings l rest : Forall string_ok l ->
  exists i, find_double_nul (print_strings l ++ rest) = Some i /\ (i + 2)%nat = length (print_strings l).
Proof.
  induction 1 as [|s l Hs Hl IH]; [by exists 0%nat|].
  destruct l as [|s' l].
  - rewrite print_strings_one, <- app_assoc. cbn [app].
    exists (length s). rewrite find_double_nul_end by done. split; [done|]. rewrite length_app. cbn. lia.
  - rewrite print_strings_cons by done. destruct IH as (i & Hi & Hlen).
    apply Forall_cons in Hl as [Hs' _]. pose proof (print_strings_head s' l Hs') as Hh.
    destruct (print_strings (s' :: l)) as [|c t] eqn:E; [cbn in Hlen; lia|].
    exists (S (length s) + i)%nat. rewrite <- app_assoc. cbn [app].
    rewrite find_double_nul_plain by (try done; intros ->; done).
    cbn [app] in Hi. rewrite Hi. split; [done|]. rewrite length_app. cbn in *. lia.
Qed.

(** And the numbered string is read from it. *)
Lemma skip_strings_printed n l : Forall string_ok l -> l <> [] ->
  match skip_strings n (print_strings l) with
  | None => l !! n = None
  | Some cursor => until_nul cursor = default [] (l !! n)
  end.
Proof.
  intros Hl. revert n. induction Hl as [|s l Hs Hl IH]; intros n Hne; [done|].
  destruct n as [|n].
  { cbn [skip_strings]. destruct l as [|s' l].
    - rewrite print_strings_one, until_nul_app by apply Hs. done.
    - rewrite print_strings_cons, until_nul_app by (done || apply Hs). done. }
  cbn [skip_strings]. destruct l as [|s' l].
  - rewrite print_strings_one, find_char_app by apply Hs.
    replace (S (length s)) with (length (s ++ [nul])) by (rewrite length_app; cbn; lia).
    replace (s ++ [nul; nul]) with ((s ++ [nul]) ++ [nul]) by by rewrite <- app_assoc.
    rewrite drop_app_length. cbn [head]. by rewrite bool_decide_true.
  - rewrite print_strings_cons, find_char_app by (done || apply Hs).
    replace (S (length s)) with (length (s ++ [nul])) by (rewrite length_app; cbn; lia).
    replace (s ++ nul :: print_strings (s' :: l)) with ((s ++ [nul]) ++ print_strings (s' :: l))
      by by rewrite <- app_assoc.
    rewrite drop_app_length. apply Forall_cons in Hl as [Hs' _].
    rewrite bool_decide_false by by apply print_strings_head. by apply IH.
Qed.

Lemma read_string_printed index l : 0 <= index -> Forall string_ok l ->
  read_smbios_string (print_strings l) index = nth_string index l.
Proof.
  intros Hi Hl. unfold read_smbios_string, nth_string. destruct (index =? 0); [done|]. cbn [orb].
  rewrite bool_decide_false by (destruct l as [|[] []]; done).
  destruct l as [|s l].
  - cbn. destruct (Z.to_nat (index - 1)); done.
  - pose proof (skip_strings_printed (Z.to_nat (index - 1)) (s :: l) Hl ltac:(done)) as H.
    destruct (skip_strings _ _); [done|by rewrite H].
Qed.

Lemma split_formatted formatted tail : (4 <= length formatted <= 255)%nat ->
  formatted !! 1%nat = Some (bz (zlen formatted)) ->
  split_structure (formatted ++ tail) =
  match find_double_nul tail with
  | Some i => Some (formatted, take (i + 2) tail, drop (i + 2) tail)
  | None => Some (formatted, tail, [])
  end.
Proof.
  intros Hlen H1. assert (Z.to_nat (zb (bz (zlen formatted))) = length formatted) as Hn.
  { rewrite zb_bz_small; unfold zlen; lia. }
  assert (exists t h1 h2 fm, formatted = t :: bz (zlen formatted) :: h1 :: h2 :: fm) as
    (t & h1 & h2 & fm & E).
  { destruct formatted as [|t [|len [|h1 [|h2 fm]]]]; try (cbn in Hlen; lia).
    injection H1 as ->. by exists t, h1, h2, fm. }
  unfold split_structure. rewrite E at 1. cbn [app]. rewrite Hn. unfold header_bytes.
  rewrite length_app, (proj2 (Nat.ltb_ge _ _)), (proj2 (Nat.ltb_ge _ _)) by lia. cbn [orb].
  by rewrite drop_app_length, take_app_length.
Qed.

Lemma split_printed s rest : structure_ok s ->
  split_structure (print_structure s ++ rest) = Some (st_formatted s, print_strings (st_strings s), rest).
Proof.
  intros (Hlen & H1 & Hs). unfold print_structure. rewrite <- app_assoc, split_formatted by done.
  destruct (find_double_nul_strings (st_strings s) rest Hs) as (i & -> & Hi).
  by rewrite Hi, take_app_length, drop_app_length.
Qed.

(** C35: a firmware table is read as what it says: the scan of the bytes of
    any well-formed table finds each structure and the end of its strings, and
    gives the fingerprint of the table, the first usable serial numbers of its
    BIOS and board structures before the end marker. *)
Theorem parse_smbios_table l f : Forall structure_ok l ->
  parse_smbios (print_table l) f = table_fingerprint l f.
Proof.
  intros Hl. unfold parse_smbios.
  assert (forall fuel, (length (print_table l) < fuel)%nat ->
    parse_smbios_loop fuel (print_table l) f = table_fingerprint l f) as H; [|apply H; lia].
  revert f. induction Hl as [|s l Hs Hl IH]; intros f [|fuel] Hf; try lia; [done|].
  change (print_table (s :: l)) with (print_structure s ++ print_table l) in *.
  cbn [parse_smbios_loop].
  pose proof (split_printed s (print_table l) Hs) as Hsplit. rewrite Hsplit.
  apply split_structure_shrinks in Hsplit. cbn [table_fingerprint]. case_match; [done|].
  rewrite IH by lia.
  f_equal. unfold take_serial, structure_serial. rewrite read_string_printed; [done| |apply Hs].
  unfold formatted_byte. case_match; [apply zb_range|done].
Qed.

Definition demo_table : list Structure :=
  [mkStructure [bz 0; bz 4; nul; nul] [];
   mkStructure [bz 1; bz 8; nul; nul; nul; nul; nul; bz 2] [&"Maker"; &"To Be Filled By O.E.M."];
   mkStructure [bz 1; bz 8; nul; nul; nul; nul; nul; bz 1] [&"SN-1"];
   mkStructure [bz 2; bz 8; nul; nul; nul; nul; nul; bz 2] [&"Board"; &"BN-2"]].

Lemma parse_smbios_table_witness :
  parse_smbios (print_table demo_table) no_fingerprint =
  set_motherboard (&"BN-2") (set_bios (&"SN-1") no_fingerprint).
Proof.
  rewrite parse_smbios_table; [vm_compute; reflexivity|].
  assert (forall x : Bytes, bool_decide (x <> [] /\ nul ∉ x) = true -> string_ok x) as Hok.
  { intros x Hx. by apply bool_decide_eq_true in Hx. }
  repeat (apply Forall_cons; split); try apply Forall_nil_2;
    (split; [cbn; lia|split; [reflexivity|]]); repeat (apply Forall_cons; split);
    try apply Forall_nil_2; apply Hok; vm_compute; reflexivity.
Defined.

(** ** The evidence of a fingerprint *)

Definition evidence_lines (l : list (Z * text * text)) : text :=
  flat_map (fun '(_, name, raw) =>
    if bool_decide (normalize raw = []) then [] else name ++ &":" ++ normalize raw ++ [nl]) l.

Definition evidence_mask (l : list (Z * text * text)) : Z :=
  fold_right (fun '(bit, _, raw) acc => if bool_decide (normalize raw = []) then acc
                                        else Z.lor bit acc) 0 l.

Lemma add_components l m c : foldl add_component (m, c) l =
  (Z.lor m (evidence_mask l), c ++ evidence_lines l).
Proof.
  revert m c. induction l as [|[[bit name] raw] l IH]; intros m c; cbn.
  { by rewrite Z.lor_0_r, app_nil_r. }
  case_bool_decide; cbn [fst snd]; rewrite IH; [done|].
  by rewrite Z.lor_assoc, <- !app_assoc.
Qed.

Lemma normalize_no_nl raw : nl ∉ normalize raw.
Proof.
  unfold normalize. intros (c & Hc & Hin)%list_elem_of_fmap. apply list_elem_of_filter in Hin as [Hp _].
  revert Hp Hc. byte_cases c.
Qed.

(** The lines tell the components apart: a text never starts with two names. *)
Definition names : list text :=
  [&"cpu"; &"motherboard"; &"smbios"; &"disk"; &"mac"; &"machine_guid"].
Definition name_of (c : Z * text * text) : text := c.1.2.
Definition value_of (c : Z * text * text) : text := normalize c.2.

Lemma starts_with_name_inj a b t : a ∈ names -> b ∈ names ->
  starts_with (a ++ &":") t = true -> starts_with (b ++ &":") t = true -> a = b.
Proof.
  intros Ha Hb H1 H2.
  assert (forall a b : text, starts_with a t = true -> starts_with b t = true ->
    starts_with a b || starts_with b a = true) as Hpre.
  { clear. intros a b. revert b t. induction a as [|x a IH]; intros [|y b] t; try done.
    destruct t as [|z t]; [done|]. cbn. intros H1 H2. breflect. subst.
    rewrite bool_decide_true by done. by eapply IH. }
  specialize (Hpre _ _ H1 H2). clear H1 H2.
  assert (forallb (fun a => forallb (fun b =>
    implb (starts_with (a ++ &":") (b ++ &":") || starts_with (b ++ &":") (a ++ &":"))
      (bool_decide (a = b))) names) names = true) as Hall by (vm_compute; reflexivity).
  rewrite forallb_forall in Hall. specialize (Hall a ltac:(by apply list_elem_of_In)).
  rewrite forallb_forall in Hall. specialize (Hall b ltac:(by apply list_elem_of_In)).
  rewrite Hpre in Hall. by apply bool_decide_eq_true in Hall.
Qed.

Lemma evidence_lines_start l : evidence_lines l = [] \/
  exists c, c ∈ l /\ starts_with (name_of c ++ &":") (evidence_lines l) = true.
Proof.
  induction l as [|[[bit name] raw] l IH]; [by left|]. cbn. case_bool_decide.
  - destruct IH as [?|(c & Hc & Hs)]; [by left|]. right. exists c. split; [by right|done].
  - right. exists (bit, name, raw). split; [by left|]. apply starts_with_true.
    eexists. by rewrite <- !app_assoc.
Qed.

Lemma evidence_lines_inj l1 l2 : name_of <$> l1 = name_of <$> l2 ->
  NoDup (name_of <$> l1) -> Forall (fun c => name_of c ∈ names) l1 ->
  Forall (fun c => name_of c ∈ names) l2 ->
  evidence_lines l1 = evidence_lines l2 -> value_of <$> l1 = value_of <$> l2.
Proof.
  revert l2. induction l1 as [|[[bit name] raw] l1 IH]; intros [|[[bit' name'] raw'] l2] Hn Hd H1 H2 He;
    try done.
  cbn in Hn. injection Hn as Hname Hn. unfold name_of in Hname. cbn in Hname. subst name'.
  cbn in Hd. apply NoDup_cons in Hd as [Hnotin Hd].
  apply Forall_cons in H1 as [H1 H1s]. apply Forall_cons in H2 as [H2 H2s].
  (* no line of the rest starts with this name *)
  assert (forall l t, name_of <$> l = name_of <$> l1 -> Forall (fun c => name_of c ∈ names) l ->
    evidence_lines l <> name ++ &":" ++ t) as Hno.
  { intros l t Hl Hall Ht. destruct (evidence_lines_start l) as [E|(c & Hc & Hs)].
    { rewrite E in Ht. symmetry in Ht. by apply app_eq_nil in Ht as [_ Ht]. }
    rewrite Ht in Hs. assert (name_of c = name) as Hcn.
    { eapply starts_with_name_inj; [|exact H1|exact Hs|].
      - by eapply Forall_forall in Hall.
      - apply starts_with_true. exists t. by rewrite <- app_assoc. }
    apply Hnotin. change (name_of (bit, name, raw)) with name. rewrite <- Hl, <- Hcn.
    by apply list_elem_of_fmap_2. }
  cbn in He. cbn [fmap list_fmap]. unfold value_of at 1 3. cbn [snd].
  do 2 case_bool_decide.
  - f_equal; [congruence|]. by apply IH.
  - exfalso. rewrite <- !app_assoc in He. by eapply (Hno l1).
  - exfalso. rewrite <- !app_assoc in He. symmetry in He. by eapply (Hno l2).
  - rewrite <- !app_assoc in He. apply app_inv_head in He. apply app_inv_head in He.
    assert (normalize raw = normalize raw' /\ evidence_lines l1 = evidence_lines l2) as [-> He2].
    { apply (f_equal getline) in He. cbn [app] in He.
      rewrite !getline_app in He by apply normalize_no_nl. by injection He. }
    f_equal. by apply IH.
Qed.

Lemma evidence_lines_ext l1 l2 : name_of <$> l1 = name_of <$> l2 ->
  value_of <$> l1 = value_of <$> l2 -> evidence_lines l1 = evidence_lines l2.
Proof.
  revert l2. induction l1 as [|[[bit name] raw] l1 IH]; intros [|[[bit' name'] raw'] l2] Hn Hv; try done.
  cbn in Hn, Hv. injection Hn as Hname Hn. injection Hv as Hval Hv.
  unfold name_of, value_of in Hname, Hval. cbn in Hname, Hval. subst name'.
  cbn. rewrite Hval. f_equal. by apply IH.
Qed.

Lemma components_names f g : name_of <$> components f g = names.
Proof. reflexivity. Qed.

Lemma names_nodup : NoDup names.
Proof. apply (bool_decide_eq_true (NoDup names)). vm_compute. reflexivity. Qed.

Lemma components_in f g : Forall (fun c => name_of c ∈ names) (components f g).
Proof.
  assert (Forall (fun n => n ∈ names) (name_of <$> components f g)) as H.
  { rewrite components_names. by apply Forall_forall. }
  by apply Forall_fmap in H.
Qed.

Lemma components_mask f g i c : components f g !! i = Some c ->
  Z.testbit (evidence_mask (components f g)) (Z.of_nat i) = negb (bool_decide (value_of c = [])).
Proof.
  unfold components, evidence_mask, value_of. cbn [fold_right].
  do 6 (destruct i as [|i]; [intros [= <-]; cbn [snd]; repeat case_bool_decide; reflexivity|]).
  done.
Qed.

Lemma components_mask_zero f g :
  (evidence_mask (components f g) =? 0) = forallb (fun c => bool_decide (value_of c = [])) (components f g).
Proof.
  unfold components, evidence_mask, value_of. cbn [fold_right forallb snd].
  repeat case_bool_decide; reflexivity.
Qed.

Section EvidenceSpec.
Context `{C : Crypto}.

(** The text that is hashed. *)
Definition evidence_text (app_id : text) (f : Fingerprint) (guid : text) : text :=
  &"device_hardware_evidence_v2" ++ [nl] ++ &"app_id:" ++ app_id ++ [nl] ++
  evidence_lines (components f guid).

(** C40: hardware evidence fails exactly when no component is left after the
    blanks and control characters are dropped; otherwise bit [i] of the mask
    says whether component [i] is there, and the hash is taken of a text that
    two machines share exactly when their normalized components are the same,
    so that no component can be passed off as another. *)
Theorem hardware_evidence_iff app f guid :
  (is_ok (build_hardware_evidence app f guid) = false <->
     Forall (fun c => value_of c = []) (components f guid)) /\
  (forall e, build_hardware_evidence app f guid = Ok e ->
     he_version e = 2 /\ aggregate_hash e = sha256_hex (evidence_text app f guid) /\
     forall i c, components f guid !! i = Some c ->
       Z.testbit (component_mask e) (Z.of_nat i) = negb (bool_decide (value_of c = []))) /\
  (forall f' guid', evidence_text app f guid = evidence_text app f' guid' <->
     value_of <$> components f guid = value_of <$> components f' guid').
Proof.
  unfold build_hardware_evidence. rewrite add_components, Z.lor_0_l. split_and!.
  - rewrite components_mask_zero. destruct (forallb _ _) eqn:E; cbn; split; try done.
    + intros _. apply Forall_forall. intros c Hc. rewrite forallb_forall in E.
      apply list_elem_of_In in Hc. by specialize (E c Hc); breflect.
    + intros H. rewrite <- E. symmetry. apply forallb_forall. intros c Hc. apply list_elem_of_In in Hc.
      apply bool_decide_eq_true. by eapply Forall_forall in H.
  - intros e He. case_match; [done|]. injection He as <-. cbn. split_and!; [done| |].
    + unfold evidence_text. by rewrite <- !app_assoc.
    + intros i c. apply components_mask.
  - intros f' guid'. unfold evidence_text. split.
    + intros H. do 5 apply app_inv_head in H.
      apply evidence_lines_inj; [done|apply names_nodup|apply components_in|apply components_in|done].
    + intros H. do 5 f_equal. by apply evidence_lines_ext.
Qed.
End EvidenceSpec.
