(* ===== verification/Clock.v ===== *)
(** * The trusted clock ([src/internal/trusted_clock.cpp])

    The process-wide clock anchored by a signed server time and advanced by
    [GetTickCount64].  The state is [ClockState]; a tick is an argument. *)
From S2P Require Import Prelude StdString Errors.

Definition maximum_round_trip_ms : Z := 5000.
Definition minimum_server_time_ms : Z := 1577836800000.
Definition maximum_server_time_ms : Z := 4102444800000.

Record ClockState := mkClock {
  initialized : bool;
  anchor_unix_ms : Z;
  anchor_tick_ms : Z
}.

Definition clock_start : ClockState := mkClock false 0 0.

Definition now_unix_ms (value : ClockState) (tick : Z) : Z :=
  if negb (initialized value) then 0
  else if tick <? anchor_tick_ms value then 0
  else i64 (anchor_unix_ms value + i64 (u64 (tick - anchor_tick_ms value))).

Definition now_unix_seconds (value : ClockState) (tick : Z) : Z :=
  let milliseconds := now_unix_ms value tick in
  if milliseconds <=? 0 then 0 else milliseconds / 1000.

Definition set_authoritative_time (server_time_ms request_started_tick_ms
    response_received_tick_ms : Z) : Result ClockState :=
  if (server_time_ms <? minimum_server_time_ms) || (maximum_server_time_ms <? server_time_ms) ||
     (response_received_tick_ms <? request_started_tick_ms)
  then Throw (err Clock 0 [] (&"signed server time is outside the accepted range"))
  else
    let round_trip := u64 (response_received_tick_ms - request_started_tick_ms) in
    if maximum_round_trip_ms <? round_trip
    then Throw (err Clock 0 [] (&"signed server time round trip is too slow"))
    else Ok (mkClock true (i64 (server_time_ms + i64 (round_trip / 2)))
               response_received_tick_ms).

(** A clock the code can hold: unset, or anchored within the accepted range. *)
Definition clock_wf (c : ClockState) : Prop :=
  initialized c = true ->
  minimum_server_time_ms <= anchor_unix_ms c <= maximum_server_time_ms + 2500 /\
  0 <= anchor_tick_ms c < 2 ^ 64.

(** * Lemmas *)

Lemma set_time_ok server started received c :
  0 <= started < 2 ^ 64 -> 0 <= received < 2 ^ 64 ->
  set_authoritative_time server started received = Ok c <->
  minimum_server_time_ms <= server <= maximum_server_time_ms /\
  0 <= received - started <= maximum_round_trip_ms /\
  c = mkClock true (server + (received - started) / 2) received.
Proof.
  intros Hs Hr. unfold set_authoritative_time, minimum_server_time_ms, maximum_server_time_ms,
    maximum_round_trip_ms.
  destruct (_ || _) eqn:E.
  - split; [done|]. intros (H1 & H2 & _).
    repeat (apply orb_true_iff in E as [E|E]); breflect; lia.
  - breflect. rewrite u64_small by lia.
    destruct (5000 <? received - started) eqn:El; breflect.
    + split; [done|]. lia.
    + assert (0 <= (received - started) / 2 <= 2500)
        by (Z.to_euclidean_division_equations; lia).
      rewrite (i64_small (_ / 2)), i64_small by lia. split.
      * intros [= <-]. split_and!; try lia; done.
      * intros (_ & _ & ->). done.
Qed.

Lemma set_time_wf server started received c :
  0 <= started < 2 ^ 64 -> 0 <= received < 2 ^ 64 ->
  set_authoritative_time server started received = Ok c -> clock_wf c /\ initialized c = true.
Proof.
  intros Hs Hr H. apply set_time_ok in H as (H1 & H2 & ->); [|done..].
  split; [|done]. intros _. cbn. unfold maximum_round_trip_ms in *.
  Z.to_euclidean_division_equations. lia.
Qed.

Lemma now_ms_wf c tick : clock_wf c -> initialized c = true ->
  anchor_tick_ms c <= tick < 2 ^ 62 ->
  now_unix_ms c tick = anchor_unix_ms c + (tick - anchor_tick_ms c).
Proof.
  intros Hw Hi Ht. destruct (Hw Hi) as [H1 H2]. unfold now_unix_ms.
  rewrite Hi, (proj2 (Z.ltb_ge _ _)) by lia. cbn [negb].
  unfold minimum_server_time_ms, maximum_server_time_ms in *.
  rewrite u64_small by lia. rewrite (i64_small (tick - _)), i64_small by lia. done.
Qed.

(** C25: if the server stamped its time while the request was in flight, then
    from the response on the clock differs from the server's by at most
    2500 ms, whatever the tick; the reading never decreases, and the seconds
    are the milliseconds truncated. *)
Theorem clock_accuracy server started received c offset stamped tick :
  0 <= started < 2 ^ 64 ->
  started <= stamped <= received -> server = offset + stamped ->
  set_authoritative_time server started received = Ok c ->
  received <= tick < 2 ^ 62 ->
  Z.abs (now_unix_ms c tick - (offset + tick)) <= 2500 /\
  (forall later, tick <= later < 2 ^ 62 -> now_unix_ms c tick <= now_unix_ms c later) /\
  now_unix_seconds c tick = now_unix_ms c tick / 1000 /\ 0 < now_unix_seconds c tick.
Proof.
  intros Hst Hs Ho H Ht.
  assert (0 <= received < 2 ^ 64) as Hr by lia.
  pose proof (set_time_wf _ _ _ _ Hst Hr H) as [Hw Hi].
  apply set_time_ok in H as (H1 & H2 & ->); [|lia..].
  unfold maximum_round_trip_ms, minimum_server_time_ms in *.
  assert (0 <= (received - started) / 2 <= 2500 /\
          (received - started) - (received - started) / 2 <= 2500)
    by (Z.to_euclidean_division_equations; lia).
  assert (0 <= (received - started) / 2 <= received - started)
    by (Z.to_euclidean_division_equations; lia).
  unfold now_unix_seconds. rewrite (now_ms_wf _ tick) by done. cbn [anchor_unix_ms anchor_tick_ms].
  split_and!.
  - lia.
  - intros later Hl. rewrite now_ms_wf by (try done; cbn; lia). cbn. lia.
  - rewrite (proj2 (Z.leb_gt _ _)) by lia. done.
  - rewrite (proj2 (Z.leb_gt _ _)) by lia. Z.to_euclidean_division_equations. lia.
Qed.

Lemma clock_accuracy_witness :
  let c := mkClock true 1700000000700 51400 in
  Z.abs (now_unix_ms c 60000 - (1699999950000 + 60000)) <= 2500 /\
  (forall later, 60000 <= later < 2 ^ 62 -> now_unix_ms c 60000 <= now_unix_ms c later) /\
  now_unix_seconds c 60000 = now_unix_ms c 60000 / 1000 /\ 0 < now_unix_seconds c 60000.
Proof.
  apply (clock_accuracy 1700000000000 50000 51400 _ 1699999950000 50000 60000);
    try lia; reflexivity.
Defined.
