(* ===== verification/Keyring.v ===== *)
(** * The online keys ([src/internal/request_pipeline.cpp])

    [current_key_] and [previous_keys_] of [RequestPipeline], with
    [install_key], [find_key], [current_key], [has_fresh_key] and
    [can_use_current_key_after_refresh_failure]; the clock is an argument. *)
From S2P Require Import Prelude StdString Errors Clock.

Definition online_key_refresh_lead : Z := 5 * 60.
Definition maximum_previous_keys : nat := 4.

Record ProtocolKey := mkKey {
  key_id : text;
  public_key : text;
  issued_at : Z;
  refresh_after : Z
}.

#[global] Instance ProtocolKey_eq_dec : EqDecision ProtocolKey.
Proof. solve_decision. Defined.

Record Keyring := mkRing {
  current_key_ : option ProtocolKey;
  previous_keys_ : list ProtocolKey
}.

Definition ring_start : Keyring := mkRing None [].

Definition find_if (id : text) (l : list ProtocolKey) : option ProtocolKey :=
  List.find (fun k => bool_decide (key_id k = id)) l.

(** The current key, else the newest previous one with that id. *)
Definition find_key (ring : Keyring) (id : text) : option ProtocolKey :=
  match current_key_ ring with
  | Some k => if bool_decide (key_id k = id) then Some k
              else find_if id (reverse (previous_keys_ ring))
  | None => find_if id (reverse (previous_keys_ ring))
  end.

Definition rebound : Exn :=
  err Integrity 0 (&"online_key_manifest_invalid")
    (&"online key id was rebound to different key material").

(** [previous_keys_.erase(old)]: the first key with that id. *)
Fixpoint erase_key (id : text) (l : list ProtocolKey) : list ProtocolKey :=
  match l with
  | [] => []
  | k :: l' => if bool_decide (key_id k = id) then l' else k :: erase_key id l'
  end.

(** [while (size > maximum_previous_keys) erase(begin)]. *)
Fixpoint trim_keys (l : list ProtocolKey) : list ProtocolKey :=
  match l with
  | [] => []
  | _ :: l' => if (maximum_previous_keys <? length l)%nat then trim_keys l' else l
  end.

Definition push_current (ring : Keyring) (previous : list ProtocolKey) : list ProtocolKey :=
  match current_key_ ring with
  | Some c => trim_keys (previous ++ [c])
  | None => previous
  end.

Definition install_previous (ring : Keyring) (key : ProtocolKey) : Result Keyring :=
  match find_if (key_id key) (previous_keys_ ring) with
  | Some old =>
      if negb (bool_decide (public_key old = public_key key)) then Throw rebound
      else Ok (mkRing (Some key)
                 (push_current ring (erase_key (key_id key) (previous_keys_ ring))))
  | None => Ok (mkRing (Some key) (push_current ring (previous_keys_ ring)))
  end.

Definition install_key (ring : Keyring) (key : ProtocolKey) : Result Keyring :=
  match current_key_ ring with
  | Some c =>
      if bool_decide (key_id c = key_id key) then
        if negb (bool_decide (public_key c = public_key key)) then Throw rebound
        else Ok (mkRing (Some key) (previous_keys_ ring))
      else install_previous ring key
  | None => install_previous ring key
  end.

Definition current_key (ring : Keyring) (clock : ClockState) (tick : Z) : Result ProtocolKey :=
  match current_key_ ring with
  | None => Throw (err Session 401 (&"authz_key_required")
                     (&"online authorization key is unavailable"))
  | Some k =>
      if initialized clock && (refresh_after k <=? now_unix_seconds clock tick)
      then Throw (err Session 401 (&"authz_key_expired") (&"online authorization key has expired"))
      else Ok k
  end.

Definition has_fresh_key (ring : Keyring) (clock : ClockState) (tick : Z) : bool :=
  match current_key_ ring with
  | None => false
  | Some k => initialized clock &&
      (now_unix_seconds clock tick <? refresh_after k - online_key_refresh_lead)
  end.

Definition can_use_current_key_after_refresh_failure (ring : Keyring) (clock : ClockState)
    (tick : Z) : bool :=
  match current_key_ ring with
  | None => false
  | Some k => initialized clock && (now_unix_seconds clock tick <? refresh_after k)
  end.

(** ** The abstract view: the keys held, the most recent first *)

Definition held (ring : Keyring) : list ProtocolKey :=
  match current_key_ ring with Some c => [c] | None => [] end ++ reverse (previous_keys_ ring).

Definition ring_wf (ring : Keyring) : Prop :=
  NoDup (key_id <$> held ring) /\ (length (previous_keys_ ring) <= maximum_previous_keys)%nat /\
  (current_key_ ring = None -> previous_keys_ ring = []).

Definition without (id : text) (l : list ProtocolKey) : list ProtocolKey :=
  filter (fun k => key_id k <> id) l.

(** * Lemmas *)

Lemma find_if_Some id l k : find_if id l = Some k -> k ∈ l /\ key_id k = id.
Proof.
  intros H. apply List.find_some in H as [Hin H]. breflect.
  split; [by apply list_elem_of_In|done].
Qed.

Lemma find_if_None id l : find_if id l = None -> Forall (fun k => key_id k <> id) l.
Proof.
  intros H. apply Forall_forall. intros k Hk E.
  pose proof (List.find_none _ _ H k ltac:(by apply list_elem_of_In)) as Hf. cbn in Hf.
  by breflect.
Qed.

Lemma find_if_held ring id : find_key ring id = find_if id (held ring).
Proof. unfold find_key, held. destruct (current_key_ ring); cbn; [by case_bool_decide|done]. Qed.

Lemma without_cons id k l :
  without id (k :: l) = if decide (key_id k = id) then without id l else k :: without id l.
Proof.
  unfold without. case_decide as E; [by rewrite filter_cons_False by (intros H; by apply H)|].
  by rewrite filter_cons_True.
Qed.

Lemma without_id id l : Forall (fun k => key_id k <> id) l -> without id l = l.
Proof.
  induction 1 as [|k l Hk _ IH]; [done|]. by rewrite without_cons, decide_False, IH.
Qed.

Lemma erase_without id l : NoDup (key_id <$> l) -> erase_key id l = without id l.
Proof.
  induction l as [|k l IH]; [done|]. rewrite fmap_cons. intros Hn. apply NoDup_cons in Hn as [Hk Hn].
  rewrite without_cons. cbn [erase_key]. case_bool_decide as E.
  - rewrite decide_True by done. symmetry. apply without_id, Forall_forall. intros x Hx Ex.
    apply Hk. rewrite E, <- Ex. by apply list_elem_of_fmap_2.
  - by rewrite decide_False, IH.
Qed.

Lemma without_app id l k : without id (l ++ k) = without id l ++ without id k.
Proof. apply filter_app. Qed.

Lemma without_reverse id l : without id (reverse l) = reverse (without id l).
Proof.
  induction l as [|k l IH]; [done|].
  rewrite reverse_cons, without_app, IH, !without_cons. case_decide.
  - by rewrite app_nil_r.
  - by rewrite reverse_cons.
Qed.

Lemma trim_keys_short l : (length l <= 4)%nat -> trim_keys l = l.
Proof.
  destruct l; [done|]. intros H. unfold trim_keys. fold trim_keys.
  rewrite (proj2 (Nat.ltb_ge _ _)) by done. done.
Qed.

Lemma trim_keys_held l c : (length l <= 4)%nat ->
  reverse (trim_keys (l ++ [c])) = take 4 (c :: reverse l).
Proof.
  intros H. destruct (decide (length l = 4%nat)) as [E|E].
  - destruct l as [|a [|b [|d [|e [|]]]]]; try done.
  - rewrite trim_keys_short by (rewrite length_app; cbn; lia).
    rewrite reverse_app. rewrite take_ge; [done|]. cbn. rewrite length_reverse. lia.
Qed.

Lemma held_length ring : ring_wf ring -> (length (held ring) <= 5)%nat.
Proof.
  intros (_ & H & _). unfold held. rewrite length_app, length_reverse.
  unfold maximum_previous_keys in H. destruct (current_key_ ring); cbn; lia.
Qed.

Lemma NoDup_previous ring : ring_wf ring -> NoDup (key_id <$> previous_keys_ ring).
Proof.
  intros (H & _). unfold held in H. rewrite fmap_app in H. apply NoDup_app in H as (_ & _ & H).
  by rewrite reverse_Permutation in H.
Qed.

Lemma NoDup_without id l : NoDup (key_id <$> l) -> NoDup (key_id <$> without id l).
Proof.
  intros H. unfold without. eapply sublist_NoDup; [exact H|]. apply fmap_sublist, sublist_filter.
Qed.

Lemma not_in_without id l : id ∉ key_id <$> without id l.
Proof.
  intros H. apply list_elem_of_fmap in H as (k & -> & H). unfold without in H.
  by apply list_elem_of_filter in H as [H _].
Qed.

Lemma take_without n id l : NoDup (key_id <$> l) ->
  take n (without id (take (S n) l)) = take n (without id l).
Proof.
  revert n. induction l as [|k l IH]; intros n Hn; [done|].
  rewrite fmap_cons in Hn. apply NoDup_cons in Hn as [Hk Hn].
  destruct n as [|n]; [by rewrite !take_0|]. rewrite firstn_cons, !without_cons. case_decide as E.
  - subst. assert (Forall (fun x => key_id x <> key_id k) l) as Ha.
    { apply Forall_forall. intros x Hx Ex. apply Hk. rewrite <- Ex. by apply list_elem_of_fmap_2. }
    rewrite !without_id; [|done|by apply Forall_take]. by rewrite take_take, Nat.min_id.
  - by rewrite !firstn_cons, IH.
Qed.

(** Installing a key puts it in front of the other ids, five keys at most. *)
Lemma install_key_held ring key ring' : ring_wf ring ->
  install_key ring key = Ok ring' ->
  held ring' = take 5 (key :: without (key_id key) (held ring)).
Proof.
  intros Hwf. pose proof (NoDup_previous _ Hwf) as Hnd. destruct Hwf as (Hn & Hl & Hno).
  unfold install_key, held in *. destruct (current_key_ ring) as [c|] eqn:Ec.
  - cbn in Hn. apply NoDup_cons in Hn as [Hc Hn]. case_bool_decide as E.
    + case_match; [done|]. intros [= <-]. cbn [current_key_ previous_keys_ app].
      rewrite without_cons, decide_True, without_reverse, without_id by
        (try done; apply Forall_forall; intros x Hx Ex; apply Hc; rewrite E, <- Ex;
         apply list_elem_of_fmap_2, elem_of_reverse, Hx).
      rewrite take_ge; [done|]. cbn. rewrite length_reverse. unfold maximum_previous_keys in Hl. lia.
    + cbn [app]. rewrite without_cons, decide_False, without_reverse by done.
      unfold install_previous, push_current. rewrite Ec. unfold maximum_previous_keys in Hl.
      destruct (find_if _ _) as [old|] eqn:Ef; [case_match; [done|]|];
        intros [= <-]; cbn [current_key_ previous_keys_ app]; rewrite firstn_cons; f_equal.
      * rewrite erase_without by done. apply trim_keys_held. unfold without.
        etrans; [apply length_filter|done].
      * rewrite without_id by by apply find_if_None. by apply trim_keys_held.
  - unfold install_previous, push_current. rewrite Hno, Ec by done. cbn. intros [= <-]. done.
Qed.

Lemma install_key_wf ring key ring' : ring_wf ring ->
  install_key ring key = Ok ring' -> ring_wf ring'.
Proof.
  intros Hwf H. pose proof (install_key_held _ _ _ Hwf H) as Hh.
  assert (exists k, current_key_ ring' = Some k) as [k Hk].
  { unfold install_key, install_previous in H. repeat case_match; simplify_eq; eauto. }
  split_and!.
  - rewrite Hh. eapply sublist_NoDup; [|apply fmap_sublist, sublist_take].
    rewrite fmap_cons. apply NoDup_cons. split; [apply not_in_without|].
    apply NoDup_without. by destruct Hwf.
  - apply (f_equal length) in Hh. unfold held in Hh. rewrite Hk, length_app, length_reverse in Hh.
    rewrite length_take in Hh. cbn [length app] in Hh. unfold maximum_previous_keys. lia.
  - congruence.
Qed.

Lemma install_key_ok ring key : ring_wf ring ->
  (exists ring', install_key ring key = Ok ring') <->
  (forall k, find_key ring (key_id key) = Some k -> public_key k = public_key key).
Proof.
  intros Hwf. unfold install_key, install_previous, find_key. destruct (current_key_ ring) as [c|] eqn:Ec.
  2: { destruct Hwf as (_ & _ & Hp). rewrite Hp by done. cbn. naive_solver. }
  pose proof (NoDup_previous _ Hwf) as Hnd.
  case_bool_decide as E.
  - case_bool_decide as Ep; naive_solver.
  - destruct (find_if (key_id key) (previous_keys_ ring)) as [old|] eqn:Ef.
    + assert (find_if (key_id key) (reverse (previous_keys_ ring)) = Some old) as ->.
      { apply find_if_Some in Ef as [Hin Hid].
        destruct (find_if _ (reverse _)) as [k|] eqn:Ek.
        - apply find_if_Some in Ek as [Hk Hkid]. rewrite elem_of_reverse in Hk. f_equal.
          apply list_elem_of_lookup in Hin as [i Hi]. apply list_elem_of_lookup in Hk as [j Hj].
          assert (i = j) as ->; [|congruence].
          eapply (NoDup_lookup _ _ _ (key_id key) Hnd); rewrite list_lookup_fmap;
            [rewrite Hi|rewrite Hj]; cbn; congruence.
        - apply find_if_None in Ek. rewrite Forall_forall in Ek.
          exfalso. by apply (Ek old); [apply elem_of_reverse|]. }
      case_bool_decide as Ep; naive_solver.
    + destruct (find_if _ (reverse _)) as [k|] eqn:Ek; [|naive_solver].
      apply find_if_Some in Ek as [Hk Hkid]. rewrite elem_of_reverse in Hk.
      apply find_if_None in Ef. rewrite Forall_forall in Ef. by apply Ef in Hk.
Qed.

(** ** A history of installations *)

Definition install_all (keys : list ProtocolKey) : Result Keyring :=
  foldl (fun r key => ring ← r; install_key ring key) (Ok ring_start) keys.

(** The distinct ids of a history, the most recently installed first, each
    with the last key installed under it. *)
Definition recent (keys : list ProtocolKey) : list ProtocolKey :=
  foldl (fun acc key => key :: without (key_id key) acc) [] keys.

Lemma recent_NoDup keys : NoDup (key_id <$> recent keys).
Proof.
  unfold recent. induction keys as [|k keys IH] using rev_ind; [by apply NoDup_nil|].
  rewrite foldl_app. cbn. apply NoDup_cons. split; [apply not_in_without|by apply NoDup_without].
Qed.

Lemma ring_start_wf : ring_wf ring_start.
Proof. split_and!; [apply NoDup_nil_2|cbn; unfold maximum_previous_keys; lia|done]. Qed.

Lemma install_all_wf keys ring : install_all keys = Ok ring ->
  ring_wf ring /\ held ring = take 5 (recent keys).
Proof.
  unfold install_all, recent. revert ring.
  induction keys as [|k keys IH] using rev_ind; intros ring H.
  { injection H as <-. split; [apply ring_start_wf|done]. }
  rewrite !foldl_app in *. cbn in H |- *. apply bind_Ok in H as (r0 & H0 & H).
  destruct (IH _ H0) as [Hwf Hh]. split; [by eapply install_key_wf|].
  rewrite (install_key_held _ _ _ Hwf H), Hh, !firstn_cons. f_equal.
  apply take_without, recent_NoDup.
Qed.

(** C22: after any sequence of installations, the keyring answers for exactly
    the five most recently installed key ids, each with the last key installed
    under it; an installation fails exactly when its id is still held with
    different key material, so that no held id is ever rebound. *)
Theorem keyring_refines_history keys ring :
  install_all keys = Ok ring ->
  (forall id, find_key ring id = find_if id (take 5 (recent keys))) /\
  current_key_ ring = head (recent keys) /\
  forall key,
    is_ok (install_key ring key) = true <->
    forall k, find_key ring (key_id key) = Some k -> public_key k = public_key key.
Proof.
  intros H. apply install_all_wf in H as [Hwf Hh]. split_and!.
  - intros id. by rewrite find_if_held, Hh.
  - unfold held in Hh. destruct Hwf as (_ & _ & Hp). destruct (current_key_ ring) as [c|].
    + destruct (recent keys) as [|x l]; [done|]. cbn in Hh |- *. by injection Hh as ->.
    + rewrite Hp in Hh by done. by destruct (recent keys).
  - intros key. rewrite <- install_key_ok by done.
    destruct (install_key ring key); cbn; naive_solver.
Qed.

Definition demo_keys : list ProtocolKey :=
  (fun '(id, p) => mkKey id p 1 2) <$>
    [(&"a", &"A"); (&"b", &"B"); (&"c", &"C"); (&"a", &"A"); (&"d", &"D"); (&"e", &"E"); (&"f", &"F")].

Lemma keyring_refines_history_witness :
  exists ring,
    (forall id, find_key ring id = find_if id (take 5 (recent demo_keys))) /\
    current_key_ ring = head (recent demo_keys) /\
    forall key,
      is_ok (install_key ring key) = true <->
      forall k, find_key ring (key_id key) = Some k -> public_key k = public_key key.
Proof. eexists. apply (keyring_refines_history demo_keys). vm_compute. reflexivity. Defined.
