(* ===== verification/Download.v ===== *)
(** * Downloads: URLs, ranges and artifact manifests ([src/client.cpp])

    The pure parts of [Client::download_update] and of the verification of
    an update: [valid_download_url], [resolve_redirect_url],
    [parse_content_range], [verify_artifact_manifest], [verify_download]. *)
From S2P Require Import Prelude StdString Errors Codec Json Types Crypto MiniCrypto.

Definition scheme_separator : text := &"://".

(** ** [valid_download_url] *)

(** The segments after the leading slash; [fuel] bounds their number. *)
Fixpoint path_parts (fuel : nat) (only_path : text) (offset : nat) : list text :=
  match fuel with
  | O => []
  | S f =>
      if (offset <=? length only_path)%nat then
        let stop := find_from "/"%char only_path offset in
        substr_to only_path offset stop ::
        match stop with None => [] | Some e => path_parts f only_path (S e) end
      else []
  end.

Definition valid_download_url (raw base : text) : bool :=
  match find_sub scheme_separator raw, find_sub scheme_separator base with
  | Some marker, Some base_marker =>
      if negb (bool_decide (take marker raw = take base_marker base)) then false
      else
        let raw_host_begin := (marker + 3)%nat in
        let base_host_begin := (base_marker + 3)%nat in
        match find_from "/"%char raw raw_host_begin, find_from "/"%char base base_host_begin with
        | Some raw_slash, Some base_slash =>
            if negb (bool_decide (substr raw raw_host_begin (raw_slash - raw_host_begin) =
                                  substr base base_host_begin (base_slash - base_host_begin)))
            then false
            else
              let path := drop raw_slash raw in
              match find_sub (&"ticket=") path with
              | None => false
              | Some _ =>
                  let only_path := match find_char "?"%char path with
                                   | Some e => take e path | None => path end in
                  let parts := path_parts (S (length only_path)) only_path 1 in
                  (length parts =? 5)%nat && bool_decide (parts !! 0%nat = Some (&"api")) &&
                  bool_decide (parts !! 1%nat = Some (&"client")) &&
                  bool_decide (parts !! 2%nat = Some (&"artifacts")) &&
                  bool_decide (parts !! 4%nat = Some (&"download"))
              end
        | _, _ => false
        end
  | _, _ => false
  end.

(** ** [resolve_redirect_url] *)

Definition resolve_redirect_url (current raw_location : text) : Result text :=
  let location := trim_ascii raw_location in
  if bool_decide (location = [])
  then Throw (err Protocol 0 [] (&"download redirect is missing Location"))
  else if bool_decide (is_Some (find_sub scheme_separator location)) then Ok location
  else
    match find_sub scheme_separator current with
    | None => Throw (err Protocol 0 [] (&"download URL is invalid"))
    | Some scheme_end =>
        let authority_end := find_from "/"%char current (scheme_end + 3) in
        let origin := match authority_end with
                      | None => current | Some e => take e current end in
        if starts_with (&"//") location then Ok (take (scheme_end + 1) current ++ location)
        else if starts_with (&"/") location then Ok (origin ++ location)
        else
          let query := find_pred_from (fun c => bool_decide (c = "?"%char) || bool_decide (c = "#"%char))
                         current (match authority_end with None => length current | Some e => e end) in
          let path_end := match query with None => length current | Some q => q end in
          let directory :=
            match rfind "/"%char current path_end, authority_end with
            | None, _ | _, None => origin ++ &"/"
            | Some slash, Some e =>
                if (slash <? e)%nat then origin ++ &"/" else take (slash + 1) current
            end in
          Ok (directory ++ location)
    end.

(** ** [parse_content_range] *)

Record ContentRange := mkRange { start : Z; range_end : Z; total : Z }.

(** [None] is [std::nullopt], which the code also returns on any exception. *)
Definition parse_content_range (value : text) : option ContentRange :=
  let text := trim_ascii value in
  if negb (starts_with (&"bytes ") text) then None
  else
    let dash := find_from "-"%char text 6 in
    let slash := find_from "/"%char text (match dash with None => 6 | Some d => S d end)%nat in
    match dash, slash with
    | Some d, Some s =>
        start ← stoull (substr text 6 (d - 6));
        range_end ← stoull (substr text (d + 1) (s - d - 1));
        total ← if bool_decide (drop (s + 1) text = &"*") then Some 0
                else stoull (drop (s + 1) text);
        if (range_end <? start) || (negb (total =? 0) && (total <=? range_end)) then None
        else Some (mkRange start range_end total)
    | _, _ => None
    end.

(** ** The artifact manifest *)

Definition version_code_text (c : option Z) : text :=
  match c with Some z => to_string z | None => [] end.

Definition root_canonical (app_id root_trust_key_id : text) (update : UpdateInfo) : text :=
  &"root_trust_manifest_v1" ++ [nl] ++ &"app_id:" ++ app_id ++
  [nl] ++ &"signer_key_id:" ++ root_trust_key_id ++
  [nl] ++ &"key_id:" ++ manifest_key_id update ++
  [nl] ++ &"public_key:" ++ manifest_public_key update.

Definition artifact_canonical (update : UpdateInfo) : text :=
  &"artifact_manifest_v1" ++ [nl] ++ &"release_id:" ++ ui_release_id update ++
  [nl] ++ &"release_version:" ++ ui_version update ++
  [nl] ++ &"version_code:" ++ version_code_text (ui_version_code update) ++
  [nl] ++ &"platform:" ++ lower_ascii (artifact_platform update) ++
  [nl] ++ &"arch:" ++ lower_ascii (artifact_arch update) ++
  [nl] ++ &"size:" ++ to_string (ui_size update) ++
  [nl] ++ &"sha256:" ++ lower_ascii (checksum_sha256 update) ++
  [nl] ++ &"key_id:" ++ manifest_key_id update.

(** The updates [verify_artifact_manifest] does not look at. *)
Definition not_downloaded (update : UpdateInfo) : bool :=
  negb (update_available update) || open_in_browser update ||
  bool_decide (lower_ascii (delivery_method update) = &"external_link").

Definition incomplete_manifest (update : UpdateInfo) : bool :=
  bool_decide (ui_release_id update = []) || bool_decide (ui_version update = []) ||
  bool_decide (download_url update = []) || bool_decide (artifact_file_name update = []) ||
  bool_decide (manifest_key_id update = []) || bool_decide (manifest_public_key update = []) ||
  bool_decide (ui_root_trust_key_id update = []) ||
  bool_decide (root_trust_signature update = []) || bool_decide (signature update = []) ||
  negb (zlen (checksum_sha256 update) =? 64) || (ui_size update <=? 0).

Section Verify.
Context `{C : Crypto}.

Definition verify_artifact_manifest (update : UpdateInfo) (options : ClientOptions) : Result unit :=
  if not_downloaded update then Ok tt
  else
    _ ← require (negb (incomplete_manifest update))
          (err Integrity 0 (&"artifact_manifest_incomplete")
             (&"signed artifact manifest is incomplete"));
    _ ← require (bool_decide (ui_root_trust_key_id update = root_trust_key_id options))
          (err Integrity 0 (&"artifact_root_trust_mismatch")
             (&"artifact root trust key does not match SDK configuration"));
    root_ok ← ed25519_verify (root_trust_public_key options)
                (root_canonical (app_id options) (root_trust_key_id options) update)
                (root_trust_signature update);
    _ ← require root_ok
          (err Integrity 0 (&"artifact_root_trust_invalid")
             (&"artifact online key root trust signature is invalid"));
    ok ← ed25519_verify (manifest_public_key update) (artifact_canonical update)
           (signature update);
    require ok
      (err Integrity 0 (&"artifact_manifest_signature_invalid")
         (&"artifact manifest signature is invalid")).

Definition verify_download (update : UpdateInfo) (actual_sha256 : text) : Result unit :=
  _ ← require (bool_decide (lower_ascii actual_sha256 = lower_ascii (checksum_sha256 update)))
        (err Integrity 0 (&"artifact_checksum_mismatch")
           (&"downloaded artifact SHA-256 does not match"));
  ok ← ed25519_verify (manifest_public_key update) (artifact_canonical update)
         (signature update);
  require ok
    (err Integrity 0 (&"artifact_manifest_signature_invalid")
       (&"artifact manifest signature is invalid")).
End Verify.

(** * Lemmas *)

Lemma path_parts_split fuel value offset : (offset <= length value)%nat ->
  path_parts fuel value offset = split_on_fuel fuel "/"%char (drop offset value).
Proof.
  revert offset. induction fuel as [|f IH]; intros offset Ho; [done|].
  rewrite split_step by done. cbn [path_parts]. rewrite (proj2 (Nat.leb_le _ _) Ho). f_equal.
  destruct (find_from "/"%char value offset) as [e|] eqn:E; [|done].
  apply find_from_Some in E as (He%lookup_lt_Some & _). by rewrite IH by lia.
Qed.

(** The origin of a URL: the scheme, the authority and what follows it. *)
Lemma url_cut url marker slash :
  find_sub scheme_separator url = Some marker ->
  find_from "/"%char url (marker + 3) = Some slash ->
  url = take marker url ++ scheme_separator ++
        substr url (marker + 3) (slash - (marker + 3)) ++ "/"%char :: drop (S slash) url /\
  "/"%char ∉ substr url (marker + 3) (slash - (marker + 3)).
Proof.
  intros Hm Hs. apply find_sub_Some in Hm as [Hm _]. apply find_from_Some in Hs as (Hi & Hp & Hn).
  split; [|done]. rewrite Hm at 1. do 2 f_equal. by apply cut_at.
Qed.

(** A download URL is accepted only when it has the scheme and the
    authority of the configured base URL and its path is the artifact
    endpoint, with one identifier segment and at most a query after it. *)
Theorem valid_download_url_sound raw base : valid_download_url raw base = true ->
  exists scheme authority id query base_path,
    raw = scheme ++ &"://" ++ authority ++ &"/api/client/artifacts/" ++ id ++ &"/download" ++ query /\
    base = scheme ++ &"://" ++ authority ++ &"/" ++ base_path /\
    "/"%char ∉ authority /\ "/"%char ∉ id /\ "?"%char ∉ id /\
    (query = [] \/ head query = Some "?"%char).
Proof.
  unfold valid_download_url. intros H.
  destruct (find_sub scheme_separator raw) as [m|] eqn:Em; [|done].
  destruct (find_sub scheme_separator base) as [bm|] eqn:Ebm; [|done].
  case_bool_decide as Es; [|done]. cbn [negb] in H.
  destruct (find_from _ raw _) as [rs|] eqn:Ers; [|done].
  destruct (find_from _ base _) as [bs|] eqn:Ebs; [|done].
  case_bool_decide as Eh; [|done]. cbn [negb] in H.
  destruct (find_sub (&"ticket=") _) as [t|]; [|done].
  destruct (url_cut _ _ _ Em Ers) as [Hraw Hn]. destruct (url_cut _ _ _ Ebm Ebs) as [Hbase _].
  assert (drop rs raw = "/"%char :: drop (S rs) raw) as Hp.
  { apply find_from_Some in Ers as (Hi & _). by apply drop_S. }
  set (path := drop rs raw) in *.
  set (only := match find_char "?"%char path with Some e => take e path | None => path end) in *.
  assert (exists query, path = only ++ query /\ "?"%char ∉ only /\
          (query = [] \/ head query = Some "?"%char)) as (query & Hq & Hno & Hqh).
  { unfold only. destruct (find_char "?"%char path) as [e|] eqn:Eq.
    - apply find_char_Some in Eq as (s1 & s2 & -> & <- & Hn1). exists ("?"%char :: s2).
      rewrite take_app_length. split_and!; auto.
    - apply find_char_None in Eq. exists []. rewrite app_nil_r. auto. }
  assert (exists body, only = "/"%char :: body) as [body Hb].
  { rewrite Hp in Hq. destruct only as [|c body]; [|exists body; by injection Hq as <- _].
    cbn in Hq. subst query. destruct Hqh as [?|?]; done. }
  rewrite Hb in H. breflect. rewrite path_parts_split in * by (cbn; lia).
  change (drop 1 ("/"%char :: body)) with body in *.
  destruct (split_on_fuel_spec (S (length ("/"%char :: body))) "/"%char body) as (Hj & _ & Hparts);
    [cbn; lia|].
  destruct (split_on_fuel _ _ body) as [|p0 [|p1 [|p2 [|id [|p4 [|]]]]]]; try done.
  cbn in *. simplify_eq. exists (take m raw), (substr raw (m + 3) (rs - (m + 3))), id, query, (drop (S bs) base).
  rewrite !Forall_cons in Hparts. destruct Hparts as (_ & _ & _ & Hid & _).
  split_and!; try done.
  - rewrite Hraw at 1. rewrite <- Hp, Hq, Hb. do 3 f_equal. unfold lit. cbn.
    by rewrite <- !app_assoc.
  - rewrite Hbase at 1. by rewrite Es, Eh.
  - intros Hin. apply Hno. rewrite Hb. set_solver.
Qed.

Definition demo_base : text := &"https://updates.example.com/".
Definition demo_url : text :=
  &"https://updates.example.com/api/client/artifacts/42/download?ticket=abc".

Lemma valid_download_url_sound_witness :
  exists scheme authority id query base_path,
    demo_url = scheme ++ &"://" ++ authority ++ &"/api/client/artifacts/" ++ id ++ &"/download" ++ query /\
    demo_base = scheme ++ &"://" ++ authority ++ &"/" ++ base_path /\
    "/"%char ∉ authority /\ "/"%char ∉ id /\ "?"%char ∉ id /\
    (query = [] \/ head query = Some "?"%char).
Proof. apply (valid_download_url_sound demo_url demo_base). vm_compute. reflexivity. Defined.

(** With a base URL that is a bare origin, such as the one of the SDK's
    own README, no download URL is ever accepted. *)
Theorem bare_base_rejects_downloads scheme authority raw :
  ":"%char ∉ scheme -> "/"%char ∉ authority ->
  valid_download_url raw (scheme ++ &"://" ++ authority) = false.
Proof.
  intros Hs Ha. unfold valid_download_url. destruct (find_sub _ raw) as [m|]; [|done].
  assert (find_sub scheme_separator (scheme ++ &"://" ++ authority) = Some (length scheme)) as ->.
  { clear -Hs. induction scheme as [|c s IH]; [done|]. apply not_elem_of_cons in Hs as [Hc Hs].
    cbn [find_sub app length]. rewrite (IH Hs).
    assert (starts_with scheme_separator (c :: s ++ (&"://" ++ authority)) = false) as ->; [|done].
    unfold scheme_separator, lit. cbn. by rewrite bool_decide_false. }
  assert (find_from "/"%char (scheme ++ &"://" ++ authority) (length scheme + 3) = None) as ->.
  { unfold find_from. rewrite app_assoc, drop_app_exact by (rewrite length_app; done).
    by rewrite (proj2 (find_char_None _ _) Ha). }
  case_match; [done|]. by destruct (find_from _ raw _).
Qed.

Lemma bare_base_rejects_downloads_witness :
  valid_download_url demo_url (&"https" ++ &"://" ++ &"updates.example.com") = false.
Proof. apply bare_base_rejects_downloads; vm_compute; set_solver. Defined.

(** ** Redirects *)

Lemma find_from_None c s pos : find_from c s pos = None -> c ∉ drop pos s.
Proof.
  unfold find_from. destruct (find_char c (drop pos s)) eqn:E; [done|]. intros _.
  by apply find_char_None.
Qed.

Lemma rfind_all_Some c s i : rfind_all c s = Some i -> s !! i = Some c.
Proof.
  revert i. induction s as [|x s IH]; intros i; cbn; [done|].
  destruct (rfind_all c s) as [j|]; [intros [= <-]; by apply IH|].
  case_decide; [|done]. intros [= <-]. by subst.
Qed.

Lemma rfind_Some c s pos i : rfind c s pos = Some i -> s !! i = Some c.
Proof.
  unfold rfind. intros H%rfind_all_Some. by apply lookup_take_Some in H as [? _].
Qed.

(** A redirect with a relative or an absolute-path [Location] stays on the
    origin (scheme and authority) of the URL being downloaded, whatever that
    URL's path and query are; surrounding white space is ignored. *)
Theorem redirect_same_origin scheme authority rest raw_location :
  ":"%char ∉ scheme -> "/"%char ∉ authority ->
  rest = [] \/ head rest = Some "/"%char ->
  let location := trim_ascii raw_location in
  location <> [] -> find_sub scheme_separator location = None ->
  starts_with (&"//") location = false ->
  exists path, resolve_redirect_url (scheme ++ &"://" ++ authority ++ rest) raw_location =
    Ok (scheme ++ &"://" ++ authority ++ &"/" ++ path).
Proof.
  intros Hs Ha Hrest location Hne Hsep Hsl. unfold resolve_redirect_url. fold location.
  rewrite bool_decide_false, bool_decide_false by (try done; rewrite Hsep; by intros [? ?]).
  set (current := scheme ++ &"://" ++ authority ++ rest).
  set (origin := scheme ++ &"://" ++ authority).
  assert (find_sub scheme_separator current = Some (length scheme)) as ->.
  { unfold current. clear -Hs. induction scheme as [|c s IH]; [done|].
    apply not_elem_of_cons in Hs as [Hc Hs]. cbn [find_sub app length]. rewrite (IH Hs).
    assert (starts_with scheme_separator (c :: s ++ (&"://" ++ authority ++ rest)) = false) as ->;
      [|done].
    unfold scheme_separator, lit. cbn. by rewrite bool_decide_false. }
  rewrite Hsl.
  assert (drop (length scheme + 3) current = authority ++ rest) as Hd.
  { unfold current. rewrite app_assoc. apply drop_app_exact. by rewrite length_app. }
  assert (length origin = length scheme + 3 + length authority)%nat as Hlo.
  { unfold origin. rewrite !length_app. change (length (&"://")) with 3%nat. lia. }
  assert (current = origin ++ rest) as Hcur by (unfold current, origin; by rewrite <- !app_assoc).
  assert (forall p, origin ++ &"/" ++ p = scheme ++ &"://" ++ authority ++ &"/" ++ p) as Ho
    by (intros; unfold origin; by rewrite <- !app_assoc).
  destruct Hrest as [->|Hr].
  - assert (find_from "/"%char current (length scheme + 3) = None) as ->.
    { unfold find_from. rewrite Hd, app_nil_r. by rewrite (proj2 (find_char_None _ _) Ha). }
    rewrite app_nil_r in Hcur. rewrite Hcur. destruct (starts_with (&"/") location) eqn:Esl.
    + apply starts_with_true in Esl as [t ->]. exists t. by rewrite <- Ho.
    + exists location. destruct (rfind _ _ _); by rewrite <- app_assoc, Ho.
  - destruct rest as [|c r]; [done|]. injection Hr as ->.
    assert (find_from "/"%char current (length scheme + 3) = Some (length origin)) as ->.
    { unfold find_from. rewrite Hd, find_char_app by done. cbn. f_equal. lia. }
    assert (take (length origin) current = origin) as -> by (rewrite Hcur; apply take_app_length).
    destruct (starts_with (&"/") location) eqn:Esl.
    + apply starts_with_true in Esl as [t ->]. exists t. by rewrite <- Ho.
    + destruct (rfind _ _ _) as [slash|] eqn:Er;
        [|exists location; by rewrite <- app_assoc, Ho].
      destruct (slash <? length origin)%nat eqn:El;
        [exists location; by rewrite <- app_assoc, Ho|]. breflect.
      rewrite Hcur. replace (slash + 1)%nat with (length origin + S (slash - length origin))%nat by lia.
      rewrite take_app_add. cbn. exists (take (slash - length origin) r ++ location).
      rewrite <- Ho. by rewrite <- app_assoc.
Qed.

Lemma redirect_same_origin_witness :
  exists path, resolve_redirect_url (&"https" ++ &"://" ++ &"a.example" ++ &"/x/y?q=/z") (&" w ") =
    Ok (&"https" ++ &"://" ++ &"a.example" ++ &"/" ++ path).
Proof.
  apply (redirect_same_origin (&"https") (&"a.example") (&"/x/y?q=/z") (&" w "));
    vm_compute; first [done | set_solver | by right | idtac].
Defined.

Example redirect_ex :
  resolve_redirect_url (&"https://a.example/x/y?q=/z") (&" w ") = Ok (&"https://a.example/x/w").
Proof. reflexivity. Qed.

(** ** Content ranges *)

Definition range_wf (r : ContentRange) : Prop :=
  0 <= start r <= range_end r /\ range_end r < 2 ^ 64 /\
  (total r = 0 \/ range_end r < total r < 2 ^ 64).

(** The header a server sends; an unknown total is [*]. *)
Definition print_range (r : ContentRange) : text :=
  &"bytes " ++ to_string (start r) ++ &"-" ++ to_string (range_end r) ++ &"/" ++
  (if total r =? 0 then &"*" else to_string (total r)).

Lemma range_tail_end r : range_wf r -> exists m d,
  print_range r = "b"%char :: m ++ [d] /\ trim_space d = false.
Proof.
  intros (Hs & He & Ht). unfold print_range.
  set (pre := &"ytes " ++ to_string (start r) ++ &"-" ++ to_string (range_end r) ++ &"/").
  destruct (total r =? 0) eqn:E; breflect.
  - exists pre, "*"%char. split; [|done]. unfold pre. by rewrite <- !app_assoc.
  - destruct (to_string_digits (total r)) as [Hd Hn]; [lia|].
    destruct (to_string (total r)) as [|c l _] using rev_ind; [done|].
    exists (pre ++ l), c. split; [unfold pre; by rewrite <- !app_assoc|].
    apply Forall_app in Hd as [_ Hd]. apply Forall_inv in Hd.
    clear -Hd. revert Hd. apply (byte_dec (fun c => isdigit c = true -> trim_space c = false)).
    vm_compute. reflexivity.
Qed.

Lemma parse_range_wf value r : parse_content_range value = Some r -> range_wf r.
Proof.
  unfold parse_content_range.
  case_match; [done|]. case_match; [|done]. case_match; [|done]. intros Hr.
  apply bind_Some in Hr as (a & Ea & Hr). apply bind_Some in Hr as (b & Eb & Hr).
  apply bind_Some in Hr as (t & Et & Hr).
  destruct ((b <? a) || _) eqn:E; [done|]. injection Hr as <-. unfold range_wf.
  cbn [start range_end total].
  apply stoull_range in Ea, Eb. apply orb_false_iff in E as [E1 E2]. breflect.
  split_and!; try lia.
  case_bool_decide; simplify_eq; [by left|]. apply stoull_range in Et.
  apply andb_false_iff in E2 as [?|?]; breflect; [by left|right; lia].
Qed.

Lemma parse_print_range r : range_wf r -> parse_content_range (print_range r) = Some r.
Proof.
  intros Hwf. destruct (range_tail_end r Hwf) as (m & d & E & Hd).
  unfold parse_content_range. rewrite E, trim_ascii_ends, <- E by done. clear E Hd m d.
  destruct Hwf as (Hs & He & Ht). destruct r as [a b t]. cbn in *.
  unfold print_range. cbn [start range_end total].
  set (tail := if t =? 0 then &"*" else to_string t).
  rewrite starts_with_app. cbn [negb]. set (txt := &"bytes " ++ _).
  assert (drop 6 txt = to_string a ++ "-"%char :: (to_string b ++ &"/" ++ tail)) as H6 by done.
  assert (find_from "-"%char txt 6 = Some (6 + length (to_string a))%nat) as ->.
  { unfold find_from. rewrite H6, find_char_app; [done|]. apply to_string_notin; [lia|done]. }
  assert (drop (S (6 + length (to_string a))) txt = to_string b ++ "/"%char :: tail) as H7.
  { replace (S (6 + length (to_string a))) with (6 + (length (to_string a) + 1))%nat by lia.
    rewrite <- drop_drop, H6, drop_app_add. done. }
  assert (find_from "/"%char txt (S (6 + length (to_string a))) =
    Some (S (6 + length (to_string a)) + length (to_string b))%nat) as ->.
  { unfold find_from. rewrite H7, find_char_app; [done|]. apply to_string_notin; [lia|done]. }
  unfold substr. rewrite H6.
  replace (6 + length (to_string a) + 1)%nat with (S (6 + length (to_string a))) by lia.
  rewrite H7. rewrite (take_app_exact (to_string a)) by lia. rewrite (take_app_exact (to_string b)) by lia.
  replace (S (6 + length (to_string a)) + length (to_string b) + 1)%nat with
    (S (6 + length (to_string a)) + (length (to_string b) + 1))%nat by lia.
  rewrite <- drop_drop, H7, drop_app_add. cbn [drop].
  pose proof (stoull_to_string a [] ltac:(lia) I) as Ha. rewrite app_nil_r in Ha.
  pose proof (stoull_to_string b [] ltac:(lia) I) as Hb. rewrite app_nil_r in Hb.
  rewrite Ha, Hb. cbn [mbind option_bind]. unfold tail.
  destruct (t =? 0) eqn:E0; breflect.
  + subst. rewrite bool_decide_true by done. cbn. by rewrite (proj2 (Z.ltb_ge _ _)) by lia.
  + pose proof (stoull_to_string t [] ltac:(lia) I) as Ht'. rewrite app_nil_r in Ht'.
    rewrite drop_0, bool_decide_false, Ht'.
    2: { intros Hx. apply (to_string_notin t "*"%char ltac:(lia) eq_refl). rewrite Hx. left. }
    cbn. rewrite (proj2 (Z.ltb_ge b a)), (proj2 (Z.leb_gt t b)) by lia.
    by rewrite andb_false_r.
Qed.

(** A parsed range is well-formed (64-bit bounds in order, below the total
    when it is known), and every well-formed range is read back from the
    header that announces it. *)
Theorem content_range_roundtrip :
  (forall value r, parse_content_range value = Some r -> range_wf r) /\
  (forall r, range_wf r -> parse_content_range (print_range r) = Some r).
Proof. split; [apply parse_range_wf | apply parse_print_range]. Qed.

(** ** The chain of trust of an artifact *)

Lemma tolower_hex c : is_lower_hex c = true -> tolower c = c.
Proof.
  revert c. apply (byte_dec (fun c => is_lower_hex c = true -> tolower c = c)).
  vm_compute. reflexivity.
Qed.

Lemma lower_hex bs : lower_ascii (hex_lower bs) = hex_lower bs.
Proof.
  unfold lower_ascii. induction (hex_lower_Forall bs) as [|c l Hc _ IH]; [done|].
  rewrite fmap_cons, IH. f_equal. by apply tolower_hex.
Qed.

Section Trust.
Context `{C : Crypto}.

(** When an update that is downloaded passes [verify_artifact_manifest]
    and the file passes [verify_download], the file's digest is the one in a
    manifest signed by a key that the configured root key certified for
    this application, together with the release, version, platform,
    architecture and size of the update. *)
Theorem artifact_chain_of_trust update options data :
  not_downloaded update = false ->
  verify_artifact_manifest update options = Ok tt ->
  verify_download update (sha256_hex data) = Ok tt ->
  ed25519_verify (root_trust_public_key options)
    (root_canonical (app_id options) (root_trust_key_id options) update)
    (root_trust_signature update) = Ok true /\
  ed25519_verify (manifest_public_key update) (artifact_canonical update)
    (signature update) = Ok true /\
  ui_root_trust_key_id update = root_trust_key_id options /\ 0 < ui_size update /\
  lower_ascii (checksum_sha256 update) = sha256_hex data.
Proof.
  intros Hn. unfold verify_artifact_manifest, verify_download. rewrite Hn.
  intros H1 H2. inv_ok. subst. breflect.
  unfold incomplete_manifest in *. breflect. split_and!; try done.
  unfold sha256_hex in *. rewrite lower_hex in *. congruence.
Qed.
End Trust.

(** ** Worked updates *)

Definition demo_manifest_key : Bytes := bz <$> seqZ 60 32.

Definition demo_options : ClientOptions := {|
  base_url := demo_base; web_base_url := []; app_id := &"app"; release_id := &"rel";
  version := &"1.0"; version_code := Some 1; root_trust_key_id := &"root";
  root_trust_public_key := hex_lower demo_key; channel := &"stable"; platform := &"windows";
  arch := &"x64"; opt_device_id := []; storage_directory := []; allow_insecure_http := false;
  host_integrity := no_host_integrity
|}.

(** An update whose manifest is signed by [key], certified by [root_signature]. *)
Definition demo_update_with (method : text) (sig root_sig : text) : UpdateInfo := {|
  update_available := true; mandatory := false; heartbeat_interval_seconds := 60;
  open_in_browser := false; delivery_method := method; ui_release_id := &"r2";
  ui_version := &"2.0"; ui_version_code := Some 2; notes := []; download_url := demo_url;
  checksum_sha256 := sha256_hex (C := mini_crypto) (&"payload"); signature := sig;
  manifest_key_id := &"mk"; manifest_public_key := hex_lower demo_manifest_key;
  ui_root_trust_key_id := &"root"; root_trust_signature := root_sig;
  artifact_file_name := &"setup.exe"; artifact_platform := &"windows"; artifact_arch := &"x64";
  authz_protocol := []; Types.host_integrity_required := false; ui_size := 7;
  rollback_allowed := false; ui_maintenance := None
|}.

Definition demo_update (method : text) : UpdateInfo :=
  let unsigned := demo_update_with method [] [] in
  demo_update_with method
    (hex_lower (mini_sign demo_manifest_key (artifact_canonical unsigned)))
    (hex_lower (mini_sign demo_key (root_canonical (&"app") (&"root") unsigned))).

Lemma artifact_chain_of_trust_witness :
  let update := demo_update (&"file") in
  ed25519_verify (C := mini_crypto) (root_trust_public_key demo_options)
    (root_canonical (app_id demo_options) (root_trust_key_id demo_options) update)
    (root_trust_signature update) = Ok true /\
  ed25519_verify (C := mini_crypto) (manifest_public_key update) (artifact_canonical update)
    (signature update) = Ok true /\
  ui_root_trust_key_id update = root_trust_key_id demo_options /\ 0 < ui_size update /\
  lower_ascii (checksum_sha256 update) = sha256_hex (C := mini_crypto) (&"payload").
Proof.
  apply (artifact_chain_of_trust (C := mini_crypto) (demo_update (&"file")) demo_options (&"payload"));
    vm_compute; reflexivity.
Defined.

(** An [external_link] update with a manifest key that the root never
    certified: nothing in the two checks refuses it, and its download URL is
    accepted by [download_update]. *)
Definition uncertified_update : UpdateInfo :=
  let unsigned := demo_update_with (&"External_Link") [] [] in
  demo_update_with (&"External_Link")
    (hex_lower (mini_sign demo_manifest_key (artifact_canonical unsigned))) [].

(** An update delivered by [external_link] is downloaded and accepted
    although its manifest key carries no certificate of the root key. *)
Theorem external_link_skips_root_trust :
  verify_artifact_manifest (C := mini_crypto) uncertified_update demo_options = Ok tt /\
  valid_download_url (download_url uncertified_update) (base_url demo_options) = true /\
  open_in_browser uncertified_update = false /\
  verify_download (C := mini_crypto) uncertified_update (sha256_hex (C := mini_crypto) (&"payload")) = Ok tt /\
  ed25519_verify (C := mini_crypto) (root_trust_public_key demo_options)
    (root_canonical (app_id demo_options) (root_trust_key_id demo_options) uncertified_update)
    (root_trust_signature uncertified_update) <> Ok true.
Proof. split_and!; vm_compute; done. Qed.
