(* ===== verification/Sse.v ===== *)
(** * Server-sent events ([SseReader] and [next_sse] of src/client.cpp)

    The reader keeps a pending buffer in front of a response stream.  The
    stream is the list of the reads to come: bytes, or the exception that
    [ResponseStream::read] throws; an exhausted list reads zero bytes, and so
    does an empty chunk. *)
From S2P Require Import Prelude StdString Errors Codec.

Definition sse_limit : Z := 256 * 1024.

Record SseReader := mkReader { pending_ : text; chunks : list (Result Bytes) }.

(** A trailing carriage return is dropped. *)
Definition strip_cr (line : text) : text :=
  match last line with
  | Some c => if bool_decide (c = cr) then removelast line else line
  | None => line
  end.

(** What [read_line] returns when the stream has ended; [rest] is what a
    later read would find. *)
Definition at_end (pending : text) (rest : list (Result Bytes)) :
    Result (option text * SseReader) :=
  if bool_decide (pending = []) then Ok (None, mkReader [] rest)
  else Ok (Some pending, mkReader [] rest).

Fixpoint read_line_from (pending : text) (cs : list (Result Bytes)) :
    Result (option text * SseReader) :=
  match find_char nl pending with
  | Some e => Ok (Some (strip_cr (take e pending)), mkReader (drop (S e) pending) cs)
  | None =>
      match cs with
      | [] => at_end pending []
      | Throw x :: _ => Throw x
      | Ok [] :: rest => at_end pending rest
      | Ok buffer :: rest =>
          let pending := pending ++ buffer in
          if sse_limit <? zlen pending
          then Throw (err Protocol 0 [] (&"SSE event exceeds size limit"))
          else read_line_from pending rest
      end
  end.

Definition read_line (r : SseReader) : Result (option text * SseReader) :=
  read_line_from (pending_ r) (chunks r).

Record ParsedSseEvent := mkEvent { name : text; id : text; data : text }.

(** The state of the loop of [next_sse]. *)
Definition empty_event : ParsedSseEvent := mkEvent [] [] [].

(** One line of the stream: the accumulated event, or [None] when the event
    is complete. *)
Definition sse_line (acc : ParsedSseEvent) (line : text) : option ParsedSseEvent :=
  if bool_decide (line = []) then
    if negb (bool_decide (data acc = [])) then None else Some empty_event
  else if starts_with (&":") line then Some acc
  else if starts_with (&"event:") line then
    Some (mkEvent (trim_ascii (drop 6 line)) (id acc) (data acc))
  else if starts_with (&"id:") line then
    Some (mkEvent (name acc) (trim_ascii (drop 3 line)) (data acc))
  else if starts_with (&"data:") line then
    Some (mkEvent (name acc) (id acc)
      ((if bool_decide (data acc = []) then [] else data acc ++ [nl]) ++ trim_ascii (drop 5 line)))
  else Some acc.

Definition end_event (acc : ParsedSseEvent) : option ParsedSseEvent :=
  if bool_decide (data acc = []) then None else Some acc.

(** The loop; [None] when the fuel runs out. *)
Fixpoint sse_loop (fuel : nat) (acc : ParsedSseEvent) (r : SseReader) :
    option (Result (option ParsedSseEvent * SseReader)) :=
  match fuel with
  | O => None
  | S f =>
      match read_line r with
      | Throw x => Some (Throw x)
      | Ok (None, r') => Some (Ok (end_event acc, r'))
      | Ok (Some line, r') =>
          match sse_line acc line with
          | None => Some (Ok (Some acc, r'))
          | Some acc' => sse_loop f acc' r'
          end
      end
  end.

Definition chunk_length (c : Result Bytes) : nat :=
  match c with Ok b => length b | Throw _ => 0 end.
Definition reader_size (r : SseReader) : nat :=
  length (pending_ r) + sum_list (chunk_length <$> chunks r).

(** Every line takes a byte at least, so this fuel is enough. *)
Definition next_sse (r : SseReader) : Result (option ParsedSseEvent * SseReader) :=
  match sse_loop (S (reader_size r)) empty_event r with
  | Some result => result
  | None => Throw (StdExn (&"unreachable"))
  end.

(** ** The same, on the whole text *)

Definition next_line (t : text) : option (text * text) :=
  match find_char nl t with
  | Some e => Some (strip_cr (take e t), drop (S e) t)
  | None => if bool_decide (t = []) then None else Some (t, [])
  end.

Fixpoint event_loop (fuel : nat) (acc : ParsedSseEvent) (t : text) :
    option (option ParsedSseEvent * text) :=
  match fuel with
  | O => None
  | S f =>
      match next_line t with
      | None => Some (end_event acc, [])
      | Some (line, rest) =>
          match sse_line acc line with
          | None => Some (Some acc, rest)
          | Some acc' => event_loop f acc' rest
          end
      end
  end.

Definition next_event (t : text) : option ParsedSseEvent * text :=
  default (None, []) (event_loop (S (length t)) empty_event t).

(** The bytes of a stream that does not fail, and the limits under which the
    size check cannot trigger. *)
Definition stream_of (cs : list Bytes) : list (Result Bytes) := Ok <$> cs.
Definition good_chunks (cs : list Bytes) : Prop :=
  Forall (fun c => 0 < zlen c <= 32 * 1024) cs.
Definition short_lines (t : text) : Prop :=
  forall pre line post, t = pre ++ line ++ post -> nl ∉ line -> zlen line <= 224 * 1024.

Definition left_text (r : SseReader) (cs : list Bytes) : text := pending_ r ++ concat cs.

(** * Lemmas *)

Lemma find_char_app_l c s t i : find_char c s = Some i -> find_char c (s ++ t) = Some i.
Proof.
  intros (s1 & s2 & -> & <- & Hn)%find_char_Some. rewrite <- app_assoc. by apply find_char_app.
Qed.

Lemma short_lines_suffix a b : short_lines (a ++ b) -> short_lines b.
Proof.
  intros H pre line post -> Hn. eapply (H (a ++ pre) line post); [|done]. by rewrite <- app_assoc.
Qed.

Lemma next_line_short t line rest : short_lines t -> next_line t = Some (line, rest) -> short_lines rest.
Proof.
  unfold next_line. intros Hs. destruct (find_char nl t) as [e|] eqn:E.
  - intros [= <- <-]. rewrite <- (take_drop (S e) t) in Hs. by eapply short_lines_suffix.
  - case_bool_decide; [done|]. intros [= <- <-] pre l post Hp _.
    symmetry in Hp. apply app_nil in Hp as [_ [-> _]%app_nil]. done.
Qed.

(** Reading a line from any chunking of a text reads it from the text. *)
Lemma read_line_text pending cs : good_chunks cs -> short_lines (pending ++ concat cs) ->
  match next_line (pending ++ concat cs) with
  | None => read_line_from pending (stream_of cs) = Ok (None, mkReader [] [])
  | Some (line, rest) => exists p' cs',
      read_line_from pending (stream_of cs) = Ok (Some line, mkReader p' (stream_of cs')) /\
      p' ++ concat cs' = rest /\ good_chunks cs'
  end.
Proof.
  intros Hg. revert pending. induction Hg as [|c cs Hc Hg IH]; intros pending Hs; cbn [concat stream_of fmap list_fmap].
  - rewrite app_nil_r. unfold next_line. cbn [read_line_from].
    destruct (find_char nl pending) as [e|].
    + exists (drop (S e) pending), []. cbn. rewrite app_nil_r. split_and!; [done..|constructor].
    + unfold at_end. case_bool_decide; [done|]. exists [], []. split_and!; [done..|constructor].
  - cbn [read_line_from]. destruct (find_char nl pending) as [e|] eqn:E.
    + unfold next_line. rewrite (find_char_app_l _ _ _ _ E).
      assert (S e <= length pending)%nat.
      { apply find_char_Some in E as (s1 & s2 & -> & <- & _). rewrite length_app. cbn. lia. }
      rewrite take_app_le, drop_app_le by lia.
      exists (drop (S e) pending), (c :: cs). split_and!; [done..|by constructor].
    + destruct c as [|x c]; [by destruct Hc|].
      assert (zlen pending <= 224 * 1024) as Hp.
      { apply (Hs [] pending (concat ((x :: c) :: cs))); [done|]. by apply find_char_None. }
      rewrite (proj2 (Z.ltb_ge _ _)) by (unfold sse_limit; rewrite zlen_app; lia).
      rewrite app_assoc. apply IH. by rewrite <- app_assoc.
Qed.

Lemma next_line_shrinks t line rest : next_line t = Some (line, rest) ->
  (length rest < length t)%nat.
Proof.
  unfold next_line. destruct (find_char nl t) as [e|] eqn:E.
  - apply find_char_Some in E as (s1 & s2 & -> & <- & _). intros [= _ <-].
    rewrite length_drop, length_app. cbn. lia.
  - case_bool_decide as Hn; [done|]. intros [= _ <-]. destruct t; [done|]. cbn. lia.
Qed.

Lemma event_loop_enough fuel acc t : (length t < fuel)%nat ->
  exists r, event_loop fuel acc t = Some r.
Proof.
  revert acc t. induction fuel as [|f IH]; intros acc t Hf; [lia|]. cbn.
  destruct (next_line t) as [[line rest]|] eqn:E; [|eauto].
  apply next_line_shrinks in E. destruct (sse_line acc line) as [acc'|]; [|eauto].
  apply IH. lia.
Qed.

Lemma sse_loop_text fuel acc pending cs : good_chunks cs -> short_lines (pending ++ concat cs) ->
  match event_loop fuel acc (pending ++ concat cs) with
  | None => sse_loop fuel acc (mkReader pending (stream_of cs)) = None
  | Some (ev, rest) => exists p' cs',
      sse_loop fuel acc (mkReader pending (stream_of cs)) = Some (Ok (ev, mkReader p' (stream_of cs'))) /\
      p' ++ concat cs' = rest /\ good_chunks cs'
  end.
Proof.
  revert acc pending cs. induction fuel as [|f IH]; intros acc pending cs Hg Hs; [done|].
  cbn [event_loop sse_loop]. unfold read_line. cbn [pending_ chunks].
  pose proof (read_line_text pending cs Hg Hs) as Hr.
  destruct (next_line (pending ++ concat cs)) as [[line rest]|] eqn:En.
  - destruct Hr as (p' & cs' & -> & <- & Hg'). destruct (sse_line acc line) as [acc'|].
    + apply IH; [done|]. by eapply next_line_short.
    + exists p', cs'. done.
  - rewrite Hr. exists [], []. split_and!; [done..|constructor].
Qed.

Lemma reader_size_text pending cs :
  reader_size (mkReader pending (stream_of cs)) = length (pending ++ concat cs).
Proof.
  unfold reader_size, stream_of. cbn [pending_ chunks]. rewrite length_app. f_equal.
  induction cs as [|c cs IH]; [done|]. cbn. rewrite length_app. by rewrite <- IH.
Qed.

(** C33: on a stream that does not fail and has no over-long line, [next_sse]
    terminates with the next event of the text received, and leaves the rest
    of that text, however the transport cuts it into reads. *)
Theorem next_sse_chunk_independent pending cs :
  good_chunks cs -> short_lines (pending ++ concat cs) ->
  exists p' cs',
    next_sse (mkReader pending (stream_of cs)) =
      Ok ((next_event (pending ++ concat cs)).1, mkReader p' (stream_of cs')) /\
    p' ++ concat cs' = (next_event (pending ++ concat cs)).2 /\ good_chunks cs'.
Proof.
  intros Hg Hs. unfold next_sse, next_event. rewrite reader_size_text.
  pose proof (sse_loop_text (S (length (pending ++ concat cs))) empty_event pending cs Hg Hs) as H.
  destruct (event_loop_enough (S (length (pending ++ concat cs))) empty_event (pending ++ concat cs))
    as [[ev rest] E]; [lia|]. rewrite E in H |- *.
  destruct H as (p' & cs' & -> & <- & Hg'). exists p', cs'. done.
Qed.

Lemma next_sse_chunk_independent_witness :
  let cs := [&"event: upd"; &"ate" ++ [nl] ++ &"data: {"; &"}" ++ [nl; nl]] in
  exists p' cs',
    next_sse (mkReader [] (stream_of cs)) =
      Ok ((next_event ([] ++ concat cs)).1, mkReader p' (stream_of cs')) /\
    p' ++ concat cs' = (next_event ([] ++ concat cs)).2 /\ good_chunks cs'.
Proof.
  apply (next_sse_chunk_independent []).
  - repeat constructor; vm_compute; done.
  - intros pre line post E _. transitivity (zlen (pre ++ line ++ post)).
    + rewrite !zlen_app. pose proof (zlen_nonneg pre). pose proof (zlen_nonneg post). lia.
    + rewrite <- E. vm_compute. done.
Defined.

(** ** An event on the wire *)

Definition sse_field (key value : text) : text := key ++ &": " ++ value ++ [nl].

(** The event as a server sends it, one [data] field per line of data. *)
Definition print_event (e : ParsedSseEvent) (lines : list text) : text :=
  sse_field (&"event") (name e) ++ sse_field (&"id") (id e) ++
  concat (sse_field (&"data") <$> lines) ++ [nl].

(** A value that survives the trimming and the line splitting. *)
Definition plain_value (v : text) : Prop := trim_ascii v = v /\ nl ∉ v /\ v <> [].

Lemma drop_while_skip p s t : Forall (fun c => p c = true) s -> drop_while p (s ++ t) = drop_while p t.
Proof. induction 1 as [|c s Hc _ IH]; [done|]. cbn. by rewrite Hc. Qed.

Lemma drop_while_blank p s : Forall (fun c => p c = true) s -> drop_while p s = [].
Proof. intros H. rewrite <- (app_nil_r s). by rewrite drop_while_skip. Qed.

Lemma trim_blank_prefix s v : Forall (fun c => trim_space c = true) s ->
  trim_ascii (s ++ v) = trim_ascii v.
Proof. intros H. unfold trim_ascii. by rewrite drop_while_skip. Qed.

Lemma plain_value_cr v : plain_value v -> last v <> Some cr.
Proof.
  intros (Ht & _ & Hn) Hl. destruct v as [|c l _] using rev_ind; [done|].
  rewrite last_snoc in Hl. injection Hl as ->.
  destruct (drop_while_suffix trim_space (l ++ [cr])) as (a & Ha & Hb & _).
  unfold trim_ascii in Ht.
  destruct (drop_while trim_space (l ++ [cr])) as [|x m _] using rev_ind.
  { cbn in Ht. by destruct l. }
  assert (x = cr) as -> by (rewrite app_assoc in Ha; by apply app_inj_tail in Ha as [_ <-]).
  rewrite reverse_snoc in Ht. cbn [drop_while] in Ht. change (trim_space cr) with true in Ht.
  apply (f_equal length) in Ht, Ha. rewrite length_reverse in Ht.
  assert (length (drop_while trim_space (reverse m)) <= length m)%nat.
  { destruct (drop_while_suffix trim_space (reverse m)) as (y & Hy & _).
    apply (f_equal length) in Hy. rewrite length_app, length_reverse in Hy. lia. }
  rewrite !length_app in Ht. rewrite !length_app in Ha. cbn [length] in *. lia.
Qed.

Lemma next_line_field key v rest : nl ∉ key -> plain_value v ->
  next_line (sse_field key v ++ rest) = Some (key ++ &": " ++ v, rest).
Proof.
  intros Hk Hv. pose proof Hv as (_ & Hnl & Hne). unfold sse_field, next_line.
  set (line := key ++ &": " ++ v).
  replace ((key ++ &": " ++ v ++ [nl]) ++ rest) with (line ++ nl :: rest)
    by (unfold line; by rewrite <- !app_assoc).
  assert (nl ∉ line) as Hl.
  { unfold line. rewrite !not_elem_of_app. split_and!; try done. vm_compute. set_solver. }
  rewrite find_char_app by done. rewrite take_app_length.
  rewrite (cons_middle nl line rest), app_assoc, drop_app_exact by (rewrite length_app; cbn; lia).
  do 2 f_equal. unfold strip_cr, line.
  rewrite app_assoc, last_app. destruct (last v) as [c|] eqn:Ec; [|by apply last_None in Ec].
  rewrite bool_decide_false; [done|]. intros ->. by apply (plain_value_cr v Hv).
Qed.

Lemma next_line_blank rest : next_line (nl :: rest) = Some ([], rest).
Proof. done. Qed.

Lemma trim_value v : plain_value v -> trim_ascii (" "%char :: v) = v.
Proof.
  intros (Ht & _). rewrite <- Ht at 2. apply (trim_blank_prefix [" "%char]). repeat constructor.
Qed.

Lemma sse_line_event acc v : plain_value v ->
  sse_line acc (&"event" ++ &": " ++ v) = Some (mkEvent v (id acc) (data acc)).
Proof. intros Hv. rewrite <- (trim_value v Hv) at 2. done. Qed.

Lemma sse_line_id acc v : plain_value v ->
  sse_line acc (&"id" ++ &": " ++ v) = Some (mkEvent (name acc) v (data acc)).
Proof. intros Hv. rewrite <- (trim_value v Hv) at 2. done. Qed.

Lemma sse_line_data acc v : plain_value v ->
  sse_line acc (&"data" ++ &": " ++ v) =
  Some (mkEvent (name acc) (id acc)
    ((if bool_decide (data acc = []) then [] else data acc ++ [nl]) ++ v)).
Proof. intros Hv. rewrite <- (trim_value v Hv) at 2. done. Qed.

Lemma sse_line_blank acc : data acc <> [] -> sse_line acc [] = None.
Proof. intros H. unfold sse_line. cbn. by rewrite bool_decide_false. Qed.

Definition data_fields (lines : list text) : text := concat (sse_field (&"data") <$> lines).

Lemma data_fields_cons l lines : data_fields (l :: lines) = sse_field (&"data") l ++ data_fields lines.
Proof. done. Qed.

Lemma data_fields_length lines : (length lines <= length (data_fields lines))%nat.
Proof.
  induction lines as [|l ls IH]; [done|]. rewrite data_fields_cons, length_app.
  unfold sse_field. rewrite length_app. change (length (&"data")) with 4%nat. cbn [length]. lia.
Qed.

Lemma not_in_lit (s : string) : forallb (fun c => negb (bool_decide (c = nl))) (lit s) = true -> nl ∉ lit s.
Proof.
  intros H Hin. rewrite forallb_forall in H. apply list_elem_of_In, H in Hin. by breflect.
Qed.

(** The data lines of an event are appended to the data it already has. *)
Lemma more_data_lines fuel acc lines rest : Forall plain_value lines -> data acc <> [] ->
  (length lines < fuel)%nat ->
  event_loop fuel acc (data_fields lines ++ nl :: rest) =
  Some (Some (mkEvent (name acc) (id acc) (join [nl] (data acc :: lines))), rest).
Proof.
  revert acc fuel. induction lines as [|l lines IH]; intros acc fuel Hl Hd Hf;
    (destruct fuel as [|fuel]; [cbn in Hf; lia|]); cbn [event_loop].
  - change (data_fields [] ++ nl :: rest) with (nl :: rest). rewrite next_line_blank, sse_line_blank by done.
    by destruct acc.
  - apply Forall_cons in Hl as [Hl Hls].
    rewrite data_fields_cons, <- app_assoc, next_line_field, sse_line_data, bool_decide_false
      by (try done; by apply not_in_lit).
    rewrite IH; [|done| |cbn in Hf; lia].
    + cbn [name id data]. do 3 f_equal.
      change (join [nl] (data acc :: l :: lines)) with (data acc ++ [nl] ++ join [nl] (l :: lines)).
      destruct lines as [|x lines]; [cbn; by rewrite <- app_assoc|].
      change (join [nl] (((data acc ++ [nl]) ++ l) :: x :: lines)) with
        (((data acc ++ [nl]) ++ l) ++ [nl] ++ join [nl] (x :: lines)).
      change (join [nl] (l :: x :: lines)) with (l ++ [nl] ++ join [nl] (x :: lines)).
      by rewrite <- !app_assoc.
    + cbn. by destruct (data acc).
Qed.

Lemma data_lines fuel acc lines rest : Forall plain_value lines -> lines <> [] -> data acc = [] ->
  (length lines < fuel)%nat ->
  event_loop fuel acc (data_fields lines ++ nl :: rest) =
  Some (Some (mkEvent (name acc) (id acc) (join [nl] lines)), rest).
Proof.
  intros Hl Hne Hd Hf. destruct lines as [|l lines]; [done|]. apply Forall_cons in Hl as [Hl Hls].
  destruct fuel as [|fuel]; [lia|]. cbn [event_loop].
  rewrite data_fields_cons, <- app_assoc, next_line_field, sse_line_data, bool_decide_true
    by (try done; by apply not_in_lit).
  rewrite more_data_lines; [done|done| |cbn in Hf; lia]. by destruct Hl as (_ & _ & ?).
Qed.

(** An event with plain name, id and data lines is read back from the text
    a server sends for it, with its data lines joined, and what follows it is
    left for the next call. *)
Theorem sse_event_roundtrip n i lines rest :
  plain_value n -> plain_value i -> Forall plain_value lines -> lines <> [] ->
  next_event (print_event (mkEvent n i (join [nl] lines)) lines ++ rest) =
    (Some (mkEvent n i (join [nl] lines)), rest).
Proof.
  intros Hn Hi Hl Hne. unfold next_event, print_event. cbn [name id]. fold (data_fields lines).
  replace ((sse_field (&"event") n ++ sse_field (&"id") i ++ data_fields lines ++ [nl]) ++ rest)
    with (sse_field (&"event") n ++ sse_field (&"id") i ++ data_fields lines ++ nl :: rest)
    by by rewrite <- !app_assoc.
  rewrite !length_app. set (fuel := S _).
  assert (length lines + 2 < fuel)%nat as Hf.
  { unfold fuel, sse_field. rewrite !length_app. pose proof (data_fields_length lines).
    change (length (&"event")) with 5%nat. change (length (&"id")) with 2%nat. lia. }
  destruct fuel as [|[|fuel]]; [lia..|]. cbn [event_loop].
  rewrite next_line_field, sse_line_event by (try done; by apply not_in_lit).
  rewrite next_line_field, sse_line_id by (try done; by apply not_in_lit).
  rewrite data_lines; [done..|]. lia.
Qed.

Lemma plain_check v : bool_decide (trim_ascii v = v) && negb (bool_decide (nl ∈ v)) &&
  negb (bool_decide (v = [])) = true -> plain_value v.
Proof. intros H. breflect. done. Qed.

Lemma sse_event_roundtrip_witness :
  next_event (print_event (mkEvent (&"update") (&"7") (join [nl] [&"{"; &"}"])) [&"{"; &"}"] ++ &"x") =
    (Some (mkEvent (&"update") (&"7") (join [nl] [&"{"; &"}"])), &"x").
Proof.
  apply sse_event_roundtrip; [| |repeat constructor|done]; apply plain_check; vm_compute; reflexivity.
Defined.
