(* ===== verification/World.v ===== *)
(** * The outside world

    The SDK's stateful code runs against Windows: a tick counter, a stop
    token, a random generator, WinHTTP, files protected by DPAPI and a key
    store.  What these answer is the class [Env], indexed by the number of the
    call; every theorem is for every [Env], hence for every interleaving of
    outside events with the calls of one thread of the SDK.  The part of the
    world that the SDK's calls change is the record [World], and a stateful
    function of the code is an [M A]. *)
From S2P Require Import Prelude StdString Errors Codec Hardware Rim2 Clock Keyring Types.

(** ** HTTP messages ([src/internal/http_client.hpp]) *)

(** [HttpHeaders]: a multimap from lower-case names; equal names keep their
    order of insertion. *)
Definition HttpHeaders : Type := list (text * text).

Fixpoint header_insert (n v : text) (h : HttpHeaders) : HttpHeaders :=
  match h with
  | [] => [(n, v)]
  | (m, u) :: h' =>
      if text_leb m n then (m, u) :: header_insert n v h' else (n, v) :: h
  end.

Definition header_add (n v : text) (h : HttpHeaders) : HttpHeaders :=
  header_insert (lower_ascii n) v h.

(** [multimap::find] may return any of several equal keys; this is the first. *)
Fixpoint header_get_exact (n : text) (h : HttpHeaders) : option text :=
  match h with
  | [] => None
  | (m, u) :: h' => if bool_decide (m = n) then Some u else header_get_exact n h'
  end.
Definition header_get (n : text) (h : HttpHeaders) : option text :=
  header_get_exact (lower_ascii n) h.

Record HttpRequest := mkHttpRequest {
  rq_method : text;
  rq_url : text;
  rq_headers : HttpHeaders;
  rq_body : Bytes;
  rq_timeout_ms : Z;
  rq_maximum_response_bytes : Z
}.

(** What [WINHTTP_OPTION_REDIRECT_POLICY] says of a request: that WinHTTP
    follows no redirect, or its default, which follows those that do not lead
    from HTTPS to HTTP. *)
Inductive RedirectPolicy := RedirectNever | RedirectDefault.

(** A request handle of WinHTTP before it is sent: the timeouts of its session
    ([None] for the defaults), the server of its connection, its object, and
    whether it was opened with [WINHTTP_FLAG_SECURE]. *)
Record RequestHandle := mkHandle {
  rh_timeouts : option Z;
  rh_host : text;
  rh_port : Z;
  rh_path : text;
  rh_secure : bool;
  rh_redirects : RedirectPolicy
}.

(** A request as WinHTTP sends it: what the SDK asked for, on which handle. *)
Record SentRequest := mkSent { sent_input :> HttpRequest; sent_on : RequestHandle }.

Record HttpResponse := mkHttpResponse {
  rs_status_code : Z;
  rs_headers : HttpHeaders;
  rs_body : Bytes
}.

(** ** What the operating system answers *)

(** A call of WinHTTP: its result, or the value of [GetLastError]. *)
Inductive Win (A : Type) := WinOk (a : A) | WinError (code : Z).
Arguments WinOk {_} _.
Arguments WinError {_} _.

(** [WinHttpCrackUrl]. *)
Record Cracked := mkCracked { ck_scheme : text; ck_host : text; ck_path : text; ck_port : Z }.

(** Where opening a request can fail. *)
Inductive OpenStage := StageOpen | StageConnect | StageRequest | StageHeader.

(** Writing a file through a stream: all of it, some bytes and an error that
    the stream reports, or some bytes and an error at the flush on closing,
    which the destructor of a stream does not report. *)
Inductive WriteOutcome := Written | WriteFailed (k : nat) | FlushLost (k : nat).

(** Creating, configuring and finalizing a persisted key. *)
Inductive KeyOutcome := KeyMade (blob : Bytes) | KeyFailed (what : text) (status : Z).

Inductive MutexOutcome := MutexHeld | MutexUnavailable | MutexTimeout.

Class Env := {
  (** Milliseconds that pass during call [n], and whether another thread
      requests the stop during it. *)
  env_delay : nat -> Z;
  env_stop : nat -> bool;
  (** [BCryptGenRandom]. *)
  env_random : nat -> nat -> option Bytes;
  (** [std::chrono::system_clock], in seconds. *)
  env_system_time : nat -> Z;
  (** WinHTTP: cracking a URL, opening, setting the timeouts of a session and
      the redirect policy of a request (whether they are set), sending and
      receiving, the status, the raw headers and the successive reads of the
      body (a read past the list returns no byte). *)
  env_crack_url : text -> option Cracked;
  env_open : nat -> HttpRequest -> option (OpenStage * Z);
  env_set_timeouts : nat -> bool;
  env_set_redirects : nat -> bool;
  env_send : nat -> HttpRequest -> Win unit;
  env_receive : nat -> HttpRequest -> Win unit;
  env_status : nat -> HttpRequest -> Win Z;
  env_raw_headers : nat -> HttpRequest -> option text;
  env_reads : nat -> HttpRequest -> list (Win Bytes);
  (** DPAPI with an entropy. *)
  env_protect : nat -> Bytes -> Bytes -> option Bytes;
  env_unprotect : Bytes -> Bytes -> option Bytes;
  (** Files: the local application data folder, absolute paths, creating a
      directory, reading, writing and replacing a file. *)
  env_local_app_data : option text;
  env_absolute : text -> text;
  env_create_directories : nat -> text -> bool;
  env_read_ok : nat -> bool;
  env_write : nat -> WriteOutcome;
  env_move_ok : nat -> bool;
  (** Any other file operation that reports its failure: probing a file,
      opening it for writing, removing it. *)
  env_file_ok : nat -> bool;
  (** Reading a file through stream iterators ends silently at an error: the
      number of bytes after which it does. *)
  env_read_cut : nat -> option nat;
  (** The NCrypt key storage provider: the status of a call (negative when it
      fails), a created key with the blob of its public half, a signature;
      and the named mutex that serializes the loading of the identity. *)
  env_ncrypt : nat -> Z;
  (** Hashing by BCrypt: the call that fails, with its status. *)
  env_hash : nat -> option (text * Z);
  env_create_key : nat -> text -> KeyOutcome;
  env_sign : nat -> text -> Bytes -> Z * Bytes;
  env_mutex : nat -> MutexOutcome;
  (** Another thread holds [refresh_mutex_]. *)
  env_lock_busy : nat -> bool;
  (** Files that are not the SDK's: the working directory, whether a path
      exists ([None] when that cannot be told), the size of a file that opens,
      and the bytes that reading it delivers. *)
  env_current_path : nat -> text;
  env_exists : nat -> text -> option bool;
  env_file_size : nat -> text -> option Z;
  env_read_file : nat -> text -> option Bytes;
  (** What the hardware answers. *)
  env_machine : nat -> Machine
}.

(** ** The world *)

(** The mutable members of [DeviceIdentity] and [RequestPipeline]. *)
Record DeviceIdentity := mkIdentity {
  id_app_id : text;
  id_install_id : text;
  id_key_name : text;
  id_key_id : text;
  id_key_thumbprint : text;
  id_public_key_sec1 : text;
  id_device_id : text;
  id_has_key : bool
}.

Record Pipe := mkPipe {
  p_ring : Keyring;
  p_session : option text;
  p_session_expires_at : Z;
  p_offline_latched : bool;
  p_host_integrity_required : bool;
  p_identity : option DeviceIdentity;
  p_hardware : option HardwareEvidence;
  p_manifest : option Rim2Manifest
}.

Record World := mkWorld {
  w_step : nat;                   (* number of outside calls so far *)
  w_tick : Z;                     (* GetTickCount64 *)
  w_stopped : bool;               (* stop_token::stop_requested *)
  w_files : gmap text Bytes;      (* what the SDK writes: protected state, downloads *)
  w_keys : gmap text Bytes;       (* the key store: name and public blob *)
  w_clock : ClockState;           (* the static ClockState *)
  w_pipe : Pipe;
  w_sent : list SentRequest       (* requests handed to WinHTTP, newest first *)
}.

Definition M (A : Type) : Type := World -> Result A * World.

#[global] Instance M_ret : MRet M := fun _ a w => (Ok a, w).
#[global] Instance M_bind : MBind M := fun _ _ f m w =>
  match m w with
  | (Ok a, w') => f a w'
  | (Throw x, w') => (Throw x, w')
  end.

Definition throw {A} (x : Exn) : M A := fun w => (Throw x, w).
Definition lift {A} (r : Result A) : M A := fun w => (r, w).
Definition ensure (cond : bool) (x : Exn) : M unit := lift (require cond x).

(** [try { m } catch (...) { h }]. *)
Definition try_catch {A} (m : M A) (h : Exn -> M A) : M A := fun w =>
  match m w with
  | (Ok a, w') => (Ok a, w')
  | (Throw x, w') => h x w'
  end.

(** A run that reports its exception as a value. *)
Definition attempt {A} (m : M A) : M (A + Exn) := try_catch (a ← m; mret (inl a)) (fun x => mret (inr x)).

(** ** Reading and writing the state *)

Definition get_world : M World := fun w => (Ok w, w).
Definition modify (f : World -> World) : M unit := fun w => (Ok tt, f w).

Definition set_clock (c : ClockState) (w : World) : World :=
  mkWorld (w_step w) (w_tick w) (w_stopped w) (w_files w) (w_keys w) c (w_pipe w) (w_sent w).
Definition set_files (f : gmap text Bytes) (w : World) : World :=
  mkWorld (w_step w) (w_tick w) (w_stopped w) f (w_keys w) (w_clock w) (w_pipe w) (w_sent w).
Definition set_keys (k : gmap text Bytes) (w : World) : World :=
  mkWorld (w_step w) (w_tick w) (w_stopped w) (w_files w) k (w_clock w) (w_pipe w) (w_sent w).
Definition set_pipe (p : Pipe) (w : World) : World :=
  mkWorld (w_step w) (w_tick w) (w_stopped w) (w_files w) (w_keys w) (w_clock w) p (w_sent w).
Definition log_sent (r : SentRequest) (w : World) : World :=
  mkWorld (w_step w) (w_tick w) (w_stopped w) (w_files w) (w_keys w) (w_clock w) (w_pipe w)
    (r :: w_sent w).

Definition request_stop (w : World) : World :=
  mkWorld (w_step w) (w_tick w) true (w_files w) (w_keys w) (w_clock w) (w_pipe w) (w_sent w).

(** The stop token of whoever runs. *)
Definition set_stopped (b : bool) (w : World) : World :=
  mkWorld (w_step w) (w_tick w) b (w_files w) (w_keys w) (w_clock w) (w_pipe w) (w_sent w).

Lemma set_stopped_same w : set_stopped (w_stopped w) w = w.
Proof. by destruct w. Qed.

Definition with_ring (r : Keyring) (p : Pipe) : Pipe :=
  mkPipe r (p_session p) (p_session_expires_at p) (p_offline_latched p)
    (p_host_integrity_required p) (p_identity p) (p_hardware p) (p_manifest p).
Definition with_session (s : option text) (e : Z) (p : Pipe) : Pipe :=
  mkPipe (p_ring p) s e (p_offline_latched p) (p_host_integrity_required p) (p_identity p)
    (p_hardware p) (p_manifest p).
Definition with_latched (b : bool) (p : Pipe) : Pipe :=
  mkPipe (p_ring p) (p_session p) (p_session_expires_at p) b (p_host_integrity_required p)
    (p_identity p) (p_hardware p) (p_manifest p).
Definition with_required (b : bool) (p : Pipe) : Pipe :=
  mkPipe (p_ring p) (p_session p) (p_session_expires_at p) (p_offline_latched p) b (p_identity p)
    (p_hardware p) (p_manifest p).
Definition with_identity (i : option DeviceIdentity) (p : Pipe) : Pipe :=
  mkPipe (p_ring p) (p_session p) (p_session_expires_at p) (p_offline_latched p)
    (p_host_integrity_required p) i (p_hardware p) (p_manifest p).
Definition with_hardware (h : option HardwareEvidence) (p : Pipe) : Pipe :=
  mkPipe (p_ring p) (p_session p) (p_session_expires_at p) (p_offline_latched p)
    (p_host_integrity_required p) (p_identity p) h (p_manifest p).
Definition with_manifest (m : option Rim2Manifest) (p : Pipe) : Pipe :=
  mkPipe (p_ring p) (p_session p) (p_session_expires_at p) (p_offline_latched p)
    (p_host_integrity_required p) (p_identity p) (p_hardware p) m.

Definition get_pipe : M Pipe := fun w => (Ok (w_pipe w), w).
Definition put_pipe (f : Pipe -> Pipe) : M unit := modify (fun w => set_pipe (f (w_pipe w)) w).

(** ** Calls to the outside *)

Section Calls.
Context `{E : Env}.

(** Time passes, and the stop may be requested. *)
Definition advance (extra : Z) (w : World) : World :=
  mkWorld (S (w_step w)) (w_tick w + Z.max 0 (env_delay (w_step w)) + Z.max 0 extra)
    (w_stopped w || env_stop (w_step w)) (w_files w) (w_keys w) (w_clock w) (w_pipe w) (w_sent w).

(** A call whose answer depends on its number. *)
Definition call {A} (answer : nat -> World -> A) : M A := fun w =>
  (Ok (answer (w_step w) w), advance 0 w).

Definition tick_ms : M Z := call (fun _ w => w_tick w).
Definition stop_requested : M bool := call (fun n w => w_stopped w || env_stop n).
Definition sleep_for (ms : Z) : M unit := fun w => (Ok tt, advance ms w).
Definition system_time : M Z := call (fun n _ => env_system_time n).

Definition throw_if_stopped : M unit :=
  stop ← stop_requested;
  if (stop : bool) then throw (err Timeout 0 (&"cancelled") (&"operation cancelled")) else mret tt.

(** [check_ntstatus], with the bytes of the status in memory order. *)
Definition check_ntstatus (status : Z) (what : text) : Result unit :=
  if status <? 0
  then Throw (err Cryptographic 0 []
         (what ++ &": 0x" ++
          hex_lower ((fun i => bz (Z.shiftr (u32 status) (8 * i))) <$> [0; 1; 2; 3])))
  else Ok tt.

(** [random_bytes]: the buffer has the size asked for. *)
Definition fit (size : nat) (b : Bytes) : Bytes := take size (b ++ replicate size nul).

Definition random_bytes (size : nat) : M Bytes :=
  if bool_decide (size = 0%nat) then mret []
  else
    r ← call (fun n _ => env_random n size);
    match r with
    | Some b => mret (fit size b)
    | None => throw (err Cryptographic 0 [] (&"random generation failed"))
    end.

Definition random_uuid_m : M text := b ← random_bytes 16; mret (random_uuid b).

(** The clock at the current tick. *)
Definition now_ms_m : M Z :=
  tick ← tick_ms; w ← get_world; mret (now_unix_ms (w_clock w) tick).
Definition now_seconds_m : M Z :=
  tick ← tick_ms; w ← get_world; mret (now_unix_seconds (w_clock w) tick).
Definition clock_initialized : M bool := w ← get_world; mret (initialized (w_clock w)).

End Calls.

(** * Lemmas *)

(** ** Runs *)

Lemma run_bind {A B} (m : M A) (f : A -> M B) w :
  (m ≫= f) w = match m w with (Ok a, w') => f a w' | (Throw x, w') => (Throw x, w') end.
Proof. reflexivity. Qed.

Lemma run_bind_Ok {A B} (m : M A) (f : A -> M B) w b w'' :
  (m ≫= f) w = (Ok b, w'') <-> exists a w', m w = (Ok a, w') /\ f a w' = (Ok b, w'').
Proof.
  rewrite run_bind. destruct (m w) as [[a|x] w']; split; try naive_solver.
Qed.

Lemma run_ret {A} (a : A) w : (mret a : M A) w = (Ok a, w).
Proof. reflexivity. Qed.

Lemma run_lift_Ok {A} (r : Result A) w a w' : lift r w = (Ok a, w') <-> r = Ok a /\ w' = w.
Proof. unfold lift. naive_solver. Qed.

Lemma run_ensure_Ok c x w u w' : ensure c x w = (Ok u, w') <-> c = true /\ w' = w.
Proof. unfold ensure. rewrite run_lift_Ok, require_Ok. done. Qed.

Lemma run_attempt {A} (m : M A) w : attempt m w =
  match m w with (Ok a, w') => (Ok (inl a), w') | (Throw x, w') => (Ok (inr x), w') end.
Proof. unfold attempt, try_catch. rewrite run_bind. by destruct (m w) as [[a|x] w']. Qed.

Lemma attempt_inl {A} (m : M A) a w w' : attempt m w = (Ok (inl a), w') -> m w = (Ok a, w').
Proof.
  rewrite run_attempt. destruct (m w) as [[b|x] w1]; intros H; by inversion H.
Qed.

(** Inversion of a run that returned. *)
Ltac run_ok :=
  repeat match goal with
  | H : (_ ≫= _) _ = (Ok _, _) |- _ => apply run_bind_Ok in H as (? & ? & ? & H)
  | H : ensure _ _ _ = (Ok _, _) |- _ => apply run_ensure_Ok in H as [? ->]
  | H : lift _ _ = (Ok _, _) |- _ => apply run_lift_Ok in H as [? ->]
  | H : mret _ _ = (Ok _, _) |- _ => rewrite run_ret in H
  | H : (Ok _, _) = (Ok _, _) |- _ => injection H as H; subst
  | H : throw _ _ = (Ok _, _) |- _ => discriminate H
  | H : (Throw _, _) = (Ok _, _) |- _ => discriminate H
  end.

(** ** What a computation may change

    [steps R m]: from any world, [m] leads to a world related by [R], whether
    it returns or throws.  [R] is a [Frame] when it is a preorder that lets
    time pass. *)
Definition steps (R : relation World) {A} (m : M A) : Prop := forall w, R w (m w).2.

Class Frame `{E : Env} (R : relation World) := {
  frame_preorder :: PreOrder R;
  frame_advance extra w : R w (advance extra w)
}.

Create HintDb world.

Section Steps.
Context `{E : Env} (R : relation World) `{!Frame R}.

Lemma steps_ret {A} (a : A) : steps R (mret a : M A).
Proof using Frame0. intros w. cbn. reflexivity. Qed.
Lemma steps_throw {A} x : steps R (throw x : M A).
Proof using Frame0. intros w. cbn. reflexivity. Qed.
Lemma steps_lift {A} (r : Result A) : steps R (lift r).
Proof using Frame0. intros w. cbn. reflexivity. Qed.
Lemma steps_get : steps R get_world.
Proof using Frame0. intros w. cbn. reflexivity. Qed.
Lemma steps_get_pipe : steps R get_pipe.
Proof using Frame0. intros w. cbn. reflexivity. Qed.

Lemma steps_bind {A B} (m : M A) (f : A -> M B) :
  steps R m -> (forall a, steps R (f a)) -> steps R (m ≫= f).
Proof using Frame0.
  intros Hm Hf w. rewrite run_bind. specialize (Hm w).
  destruct (m w) as [[a|x] w']; cbn in *; [|done]. etrans; [exact Hm|apply Hf].
Qed.
Lemma steps_try {A} (m : M A) h :
  steps R m -> (forall x, steps R (h x)) -> steps R (try_catch m h).
Proof using Frame0.
  intros Hm Hh w. unfold try_catch. specialize (Hm w).
  destruct (m w) as [[a|x] w']; cbn in *; [done|]. etrans; [exact Hm|apply Hh].
Qed.
Lemma steps_modify f : (forall w, R w (f w)) -> steps R (modify f).
Proof using. intros H w. apply H. Qed.

Lemma steps_call {A} (f : nat -> World -> A) : steps R (call f).
Proof using Frame0. intros w. apply frame_advance. Qed.
Lemma steps_sleep ms : steps R (sleep_for ms).
Proof using Frame0. intros w. apply frame_advance. Qed.
Lemma steps_tick : steps R tick_ms.
Proof using Frame0. apply steps_call. Qed.
End Steps.

Section Runs.
Context `{E : Env}.

(** Steps that follow from what was returned before. *)
Lemma run_steps {A B} (R : relation World) `{!Frame R} (m : M A) (f : A -> M B) w :
  steps R m -> (forall a w', m w = (Ok a, w') -> R w' (f a w').2) -> R w ((m ≫= f) w).2.
Proof.
  intros Hm Hf. rewrite run_bind. specialize (Hm w).
  destruct (m w) as [[a|x] w'] eqn:Em; [|exact Hm]. etrans; [exact Hm|by apply Hf].
Qed.

Lemma lift_steps {A B} (R : relation World) `{!Frame R} (r : Result A) (f : A -> M B) w :
  (forall a, r = Ok a -> R w (f a w).2) -> R w ((lift r ≫= f) w).2.
Proof. intros Hf. rewrite run_bind. unfold lift. destruct r; [by apply Hf|cbn; reflexivity]. Qed.

Lemma ensure_steps {B} (R : relation World) `{!Frame R} c x (f : unit -> M B) w :
  (c = true -> R w (f tt w).2) -> R w ((ensure c x ≫= f) w).2.
Proof.
  intros Hf. unfold ensure. apply lift_steps; [done|]. intros [] H. apply Hf. by apply require_Ok in H.
Qed.

(** A step that was taken. *)
Lemma ran {A} (R : relation World) (m : M A) w r w' : steps R m -> m w = (r, w') -> R w w'.
Proof. intros Hs H. specialize (Hs w). by rewrite H in Hs. Qed.

(** A run along the returning branch. *)
Lemma run_lift_bind {A B} (r : Result A) a (f : A -> M B) w : r = Ok a -> (lift r ≫= f) w = f a w.
Proof. by intros ->. Qed.
Lemma run_ensure_bind {B} c x (f : unit -> M B) w : c = true -> (ensure c x ≫= f) w = f tt w.
Proof. by intros ->. Qed.
Lemma run_ok_bind {A B} (m : M A) (f : A -> M B) w a w' : m w = (Ok a, w') -> (m ≫= f) w = f a w'.
Proof. intros H. by rewrite run_bind, H. Qed.
End Runs.

#[export] Hint Resolve steps_ret steps_throw steps_lift steps_get steps_get_pipe steps_call
  steps_sleep steps_tick : world.

#[export] Hint Extern 0 (Frame _) => typeclasses eauto : world.

(** Goals [steps R m] by the structure of [m]. *)
Ltac walk_step :=
  first [ solve [eauto 3 with world]
        | apply steps_bind; [apply _| |intros]
        | apply steps_try; [apply _| |intros]
        | progress (unfold ensure)
        | case_match ].
Ltac walk := repeat walk_step.

Section StepsOps.
Context `{E : Env} (R : relation World) `{!Frame R}.

Lemma steps_stop : steps R throw_if_stopped.
Proof using Frame0. unfold throw_if_stopped, stop_requested. walk. Qed.
Lemma steps_random n : steps R (random_bytes n).
Proof using Frame0. unfold random_bytes. walk. Qed.
Lemma steps_uuid : steps R random_uuid_m.
Proof using Frame0. pose proof steps_random. unfold random_uuid_m. walk. Qed.
Lemma steps_now_ms : steps R now_ms_m.
Proof using Frame0. unfold now_ms_m. walk. Qed.
Lemma steps_now_seconds : steps R now_seconds_m.
Proof using Frame0. unfold now_seconds_m. walk. Qed.
Lemma steps_initialized : steps R clock_initialized.
Proof using Frame0. unfold clock_initialized. walk. Qed.
End StepsOps.

#[export] Hint Resolve steps_stop steps_random steps_uuid steps_now_ms steps_now_seconds
  steps_initialized : world.

Section AttemptSteps.
Context `{E : Env} (R : relation World) `{!Frame R}.
Lemma steps_attempt {A} (m : M A) : steps R m -> steps R (attempt m).
Proof using Frame0. intros Hm. unfold attempt. walk. Qed.
End AttemptSteps.
#[export] Hint Extern 1 (steps _ (attempt _)) => apply steps_attempt; [apply _|] : world.

(** ** Computations that throw nothing *)

(** A computation that throws nothing. *)
Definition returns {A} (m : M A) : Prop := forall w, exists a w', m w = (Ok a, w').

Create HintDb returns.

Section Returns.
Context `{E : Env}.

Lemma returns_ret {A} (a : A) : returns (mret a : M A).
Proof. intros w. by eexists _, _. Qed.
Lemma returns_call {A} (f : nat -> World -> A) : returns (call f).
Proof. intros w. by eexists _, _. Qed.
Lemma returns_get : returns get_world.
Proof. intros w. by eexists _, _. Qed.
Lemma returns_attempt {A} (m : M A) : returns (attempt m).
Proof. intros w. rewrite run_attempt. destruct (m w) as [[a|x] w']; by eexists _, _. Qed.
Lemma returns_bind {A B} (m : M A) (f : A -> M B) :
  returns m -> (forall a, returns (f a)) -> returns (m ≫= f).
Proof.
  intros Hm Hf w. destruct (Hm w) as (a & w1 & H). rewrite (run_ok_bind _ _ _ _ _ H). apply Hf.
Qed.
End Returns.
#[export] Hint Resolve returns_ret returns_call returns_get returns_attempt : returns.

Ltac returning :=
  repeat first [solve [eauto 2 with returns] | apply returns_bind; [|intros] | case_match].

(** ** Headers *)

Lemma header_get_insert n m v h : n <> m ->
  header_get_exact n (header_insert m v h) = header_get_exact n h.
Proof.
  intros Hne. induction h as [|[k u] h IH]; cbn; [by rewrite bool_decide_false|].
  destruct (text_leb k m); cbn; [by rewrite IH|by rewrite bool_decide_false].
Qed.

Lemma header_get_insert_new n v h :
  header_get_exact n h = None -> header_get_exact n (header_insert n v h) = Some v.
Proof.
  induction h as [|[m u] h IH]; cbn; [intros _; by rewrite bool_decide_true|].
  case_bool_decide; [done|]. intros Hn. destruct (text_leb m n); cbn.
  - rewrite bool_decide_false by done. by apply IH.
  - by rewrite bool_decide_true.
Qed.

Lemma header_get_add_other n m v h :
  lower_ascii n <> lower_ascii m -> header_get n (header_add m v h) = header_get n h.
Proof. apply header_get_insert. Qed.
Lemma header_get_add n v h : header_get n h = None -> header_get n (header_add n v h) = Some v.
Proof. apply header_get_insert_new. Qed.

(** Finds a header among those that were added. *)
Ltac find_header :=
  repeat (rewrite header_get_add_other by (vm_compute; discriminate));
  first [reflexivity | apply header_get_add; find_header].

(** ** Two frames

    [grows_to]: calls are counted, time passes, a requested stop stays
    requested and a request that was sent stays sent.  [same_state]: the state
    of the SDK is untouched. *)
Record grows_to (w w' : World) : Prop := {
  gt_step : (w_step w <= w_step w')%nat;
  gt_tick : w_tick w <= w_tick w';
  gt_stopped : w_stopped w = true -> w_stopped w' = true;
  gt_sent : w_sent w `suffix_of` w_sent w'
}.

Record same_state (w w' : World) : Prop := {
  ss_files : w_files w' = w_files w;
  ss_keys : w_keys w' = w_keys w;
  ss_clock : w_clock w' = w_clock w;
  ss_pipe : w_pipe w' = w_pipe w;
  ss_sent : w_sent w' = w_sent w
}.

Section Frames.
Context `{E : Env}.

#[global] Instance grows_to_frame : Frame grows_to.
Proof.
  split; [split|].
  - intros w. split; first [lia | done | auto].
  - intros w1 w2 w3 [] []. split; [lia|lia|auto|by etrans].
  - intros extra w. split; cbn; [lia|lia| |done]. by intros ->.
Qed.

#[global] Instance same_state_frame : Frame same_state.
Proof.
  split; [split|].
  - intros w. by split.
  - intros w1 w2 w3 [] []. split; congruence.
  - intros extra w. by split.
Qed.

Lemma grows_put_pipe f : steps grows_to (put_pipe f).
Proof. intros w. split; cbn; first [lia | done | auto]. Qed.

Lemma sleep_waits ms w : w_tick w + ms <= w_tick (sleep_for ms w).2.
Proof. cbn. lia. Qed.

Lemma stop_requested_run w :
  stop_requested w = (Ok (w_stopped w || env_stop (w_step w)), advance 0 w).
Proof. done. Qed.

(** Once the stop is requested, the next check throws. *)
Lemma stopped_throws w : w_stopped w = true ->
  throw_if_stopped w = (Throw (err Timeout 0 (&"cancelled") (&"operation cancelled")), advance 0 w).
Proof. intros H. unfold throw_if_stopped, stop_requested, call. rewrite run_bind. by rewrite H. Qed.

Lemma throw_if_stopped_run w : throw_if_stopped w =
  (if w_stopped w || env_stop (w_step w)
   then Throw (err Timeout 0 (&"cancelled") (&"operation cancelled")) else Ok tt, advance 0 w).
Proof.
  unfold throw_if_stopped, stop_requested, call. rewrite run_bind.
  by destruct (w_stopped w || env_stop (w_step w)).
Qed.

Lemma fit_length n b : length (fit n b) = n.
Proof. unfold fit. rewrite length_take, length_app, length_replicate. lia. Qed.

Lemma random_bytes_length n w b w' : random_bytes n w = (Ok b, w') -> length b = n.
Proof.
  unfold random_bytes. case_bool_decide; intros Hr; [by run_ok|].
  run_ok. case_match; run_ok. apply fit_length.
Qed.
End Frames.
#[export] Hint Resolve grows_put_pipe : world.
