(* ===== verification/Http.v ===== *)
(** * The HTTP client ([src/internal/http_client.cpp])

    [HttpClient::request] and [HttpClient::stream] over WinHTTP: the URL
    check, the order of the calls and of the stop checks, the response
    headers, the size limit.  Wide strings are their UTF-8 texts. *)
From S2P Require Import Prelude StdString Errors Codec Clock Keyring Types World.

Definition crlf : text := [cr; nl].

(** ** Response headers *)

Definition header_line (line : text) (h : HttpHeaders) : HttpHeaders :=
  match find_char ":"%char line with
  | None => h
  | Some s => header_add (lower_ascii (take s line)) (trim_ascii (drop (S s) line)) h
  end.

(** The loop over the lines of the raw headers; the offset only grows, so
    the length of the text is enough fuel. *)
Fixpoint header_lines (fuel : nat) (raw : text) (h : HttpHeaders) : HttpHeaders :=
  match fuel with
  | O => h
  | S f =>
      match find_sub crlf raw with
      | None => h
      | Some e =>
          let line := take e raw in
          if bool_decide (line = []) then h
          else header_lines f (drop (e + 2) raw) (header_line line h)
      end
  end.

Definition parse_response_headers (raw : option text) : HttpHeaders :=
  match raw with
  | None => []
  | Some raw => header_lines (length raw) raw []
  end.

Definition network_error (code : Z) (what : text) : Exn := err Network code [] what.

Definition open_failed (stage : OpenStage) (code : Z) : Exn :=
  network_error code match stage with
    | StageOpen => &"WinHttpOpen failed"
    | StageConnect => &"WinHttpConnect failed"
    | StageRequest => &"WinHttpOpenRequest failed"
    | StageHeader => &"cannot add HTTP request header"
    end.

Section Http.
Context `{E : Env}.
Context (allow_insecure_http : bool).

(** [ParsedUrl]: what was cracked, and [secure]. *)
Record ParsedUrl := mkParsed { pu_cracked :> Cracked; pu_secure : bool }.

(** [parse_url]: the scheme is compared case-insensitively. *)
Definition parse_url (url : text) : Result ParsedUrl :=
  match env_crack_url url with
  | None => Throw (err Configuration 0 [] (&"URL is invalid"))
  | Some c =>
      let secure := bool_decide (lower_ascii (ck_scheme c) = &"https") in
      if negb secure &&
         negb (allow_insecure_http && bool_decide (lower_ascii (ck_scheme c) = &"http"))
      then Throw (err Configuration 0 [] (&"HTTPS is required"))
      else Ok (mkParsed c secure)
  end.

(** [set_timeouts] and the redirect policy: the code looks at neither result. *)
Definition session_timeouts (set : bool) (timeout_ms : Z) : option Z :=
  if set then Some (Z.max timeout_ms 1000) else None.
Definition redirect_policy (set : bool) : RedirectPolicy :=
  if set then RedirectNever else RedirectDefault.

(** The handle made by the calls of [open_request] when none of those that are
    checked fails. *)
Definition opened_handle (parsed : ParsedUrl) (input : HttpRequest) (n : nat) : RequestHandle :=
  mkHandle (session_timeouts (env_set_timeouts n) (rq_timeout_ms input))
    (ck_host parsed) (ck_port parsed) (ck_path parsed)
    (pu_secure parsed)  (* parsed.secure ? WINHTTP_FLAG_SECURE : 0 *)
    (redirect_policy (env_set_redirects n)).

Definition open_request (input : HttpRequest) : M RequestHandle :=
  parsed ← lift (parse_url (rq_url input));
  opened ← call (fun n _ => (env_open n input, opened_handle parsed input n));
  match opened with
  | (Some (stage, code), _) => throw (open_failed stage code)
  | (None, handle) => mret handle
  end.

Definition win {A} (answer : nat -> Win A) (what : text) : M A :=
  r ← call (fun n _ => answer n);
  match r with
  | WinOk a => mret a
  | WinError code => throw (network_error code what)
  end.

Definition send_request (handle : RequestHandle) (input : HttpRequest) : M unit :=
  _ ← throw_if_stopped;
  _ ← modify (log_sent (mkSent input handle));
  _ ← win (fun n => env_send n input) (&"WinHttpSendRequest failed");
  _ ← throw_if_stopped;
  win (fun n => env_receive n input) (&"WinHttpReceiveResponse failed").

(** The reading loop of [read_response]; an empty read ends it. *)
Fixpoint read_body (maximum_bytes : Z) (body : Bytes) (reads : list (Win Bytes)) : M Bytes :=
  match reads with
  | [] => _ ← throw_if_stopped; _ ← tick_ms; mret body
  | r :: rest =>
      _ ← throw_if_stopped;
      read ← win (fun _ => r) (&"HTTP response read failed");
      if bool_decide (read = []) then mret body
      else if maximum_bytes <? zlen body + zlen read
      then throw (err Protocol 0 [] (&"HTTP response exceeds size limit"))
      else read_body maximum_bytes (body ++ read) rest
  end.

Definition read_response (input : HttpRequest) : M HttpResponse :=
  status ← win (fun n => env_status n input) (&"cannot query HTTP status");
  raw ← call (fun n _ => env_raw_headers n input);
  reads ← call (fun n _ => env_reads n input);
  body ← read_body (rq_maximum_response_bytes input) [] reads;
  mret (mkHttpResponse status (parse_response_headers raw) body).

Definition request (input : HttpRequest) : M HttpResponse :=
  opened ← open_request input;
  _ ← send_request opened input;
  read_response input.

(** ** Streams *)

Record ResponseStream := mkStream {
  st_status_code : Z;
  st_headers : HttpHeaders;
  st_reads : list (Win Bytes);
  st_closed : bool
}.

Definition stream (input : HttpRequest) : M ResponseStream :=
  opened ← open_request input;
  _ ← send_request opened input;
  status ← win (fun n => env_status n input) (&"cannot query stream status");
  raw ← call (fun n _ => env_raw_headers n input);
  reads ← call (fun n _ => env_reads n input);
  mret (mkStream status (parse_response_headers raw) reads false).

(** [read]: the bytes read, none at the end, after which it is closed. *)
Definition stream_read (s : ResponseStream) : M (Bytes * ResponseStream) :=
  if st_closed s then mret ([], s)
  else
    _ ← throw_if_stopped;
    match st_reads s with
    | [] => _ ← tick_ms; mret ([], mkStream (st_status_code s) (st_headers s) [] true)
    | r :: rest =>
        read ← win (fun _ => r) (&"HTTP stream read failed");
        mret (read, mkStream (st_status_code s) (st_headers s) rest (bool_decide (read = [])))
    end.

End Http.

(** * Lemmas *)

(** The state may change in nothing but the requests sent. *)
Record same_but_sent (w w' : World) : Prop := {
  sb_files : w_files w' = w_files w;
  sb_keys : w_keys w' = w_keys w;
  sb_clock : w_clock w' = w_clock w;
  sb_pipe : w_pipe w' = w_pipe w
}.

#[global] Instance same_but_sent_frame `{E : Env} : Frame same_but_sent.
Proof.
  split; [split|].
  - intros w. by split.
  - intros w1 w2 w3 [] []. split; congruence.
  - intros extra w. by split.
Qed.

(** How a request that was sent had been opened: on a connection to the server
    that its URL names, with TLS exactly when the URL says HTTPS, and without
    it only for HTTP and where that is allowed; with its timeouts, and so that
    WinHTTP follows no redirect of it, unless setting them failed. *)
Record opened_for `{E : Env} (allow : bool) (r : SentRequest) : Prop := {
  of_server : exists c, env_crack_url (rq_url r) = Some c /\
    rh_host (sent_on r) = ck_host c /\ rh_port (sent_on r) = ck_port c /\
    rh_path (sent_on r) = ck_path c /\
    (lower_ascii (ck_scheme c) = &"https" /\ rh_secure (sent_on r) = true \/
     lower_ascii (ck_scheme c) = &"http" /\ rh_secure (sent_on r) = false /\ allow = true);
  of_timeouts : rh_timeouts (sent_on r) = Some (Z.max (rq_timeout_ms r) 1000) \/
    exists n, env_set_timeouts n = false;
  of_redirects : rh_redirects (sent_on r) = RedirectNever \/ exists n, env_set_redirects n = false
}.

Lemma open_request_handle `{E : Env} allow input w handle w' :
  open_request allow input w = (Ok handle, w') -> opened_for allow (mkSent input handle).
Proof.
  unfold open_request. intros H. apply run_bind_Ok in H as (parsed & w1 & Hp & H).
  apply run_lift_Ok in Hp as [Hp ->]. apply run_bind_Ok in H as (opened & w1 & Ho & H).
  injection Ho as <- <-. destruct (env_open (w_step w) input) as [[stage code]|]; [done|].
  rewrite run_ret in H. injection H as <- _. unfold parse_url in Hp.
  destruct (env_crack_url (rq_url input)) as [c|] eqn:Ec; [|done].
  destruct (negb _ && _) eqn:Es; [done|]. injection Hp as <-.
  split; cbn [sent_input sent_on rh_host rh_port rh_path rh_secure rh_timeouts rh_redirects opened_handle
    pu_cracked pu_secure session_timeouts redirect_policy].
  - exists c. split_and!; [done..|]. apply andb_false_iff in Es as [Es|Es]; breflect.
    + left. split; [done|]. by apply bool_decide_eq_true.
    + case_bool_decide; [left|right]; by split_and!.
  - unfold session_timeouts. destruct (env_set_timeouts (w_step w)) eqn:Et; [by left|right; eauto].
  - unfold redirect_policy. destruct (env_set_redirects (w_step w)) eqn:Et; [by left|right; eauto].
Qed.

Section HttpSteps.
Context `{E : Env} (R : relation World) `{!Frame R} (allow : bool).

Lemma steps_win {A} (f : nat -> Win A) what : steps R (win f what).
Proof using Frame0. unfold win. walk. Qed.
Hint Resolve steps_win : world.

Lemma steps_open input : steps R (open_request allow input).
Proof using Frame0. unfold open_request. walk. Qed.

Lemma steps_read_body max body reads : steps R (read_body max body reads).
Proof using Frame0. revert body. induction reads; intros body; cbn [read_body]; walk. Qed.
Hint Resolve steps_open steps_read_body : world.

Lemma steps_read_response input : steps R (read_response input).
Proof using Frame0. unfold read_response. walk. Qed.

Lemma steps_stream_read s : steps R (stream_read s).
Proof using Frame0. unfold stream_read. walk. Qed.

(** With a frame that lets the request be sent, on a handle that was opened
    for it. *)
Context (input : HttpRequest).
Context (log_R : forall handle w, opened_for allow (mkSent input handle) ->
  R w (log_sent (mkSent input handle) w)).

Lemma steps_send handle : opened_for allow (mkSent input handle) -> steps R (send_request handle input).
Proof using Frame0 log_R.
  intros Hh. pose proof (steps_modify R (log_sent (mkSent input handle)) (fun w => log_R handle w Hh)).
  unfold send_request. walk.
Qed.
Hint Resolve steps_send steps_read_response : world.

Lemma steps_request : steps R (request allow input).
Proof using Frame0 log_R.
  intros w. unfold request. apply run_steps; [apply _|walk|]. intros handle w1 Hh.
  apply open_request_handle in Hh. revert w1. change (steps R (_ ← send_request handle input; read_response input)).
  walk.
Qed.

Lemma steps_stream : steps R (stream allow input).
Proof using Frame0 log_R.
  intros w. unfold stream. apply run_steps; [apply _|walk|]. intros handle w1 Hh.
  apply open_request_handle in Hh. revert w1.
  match goal with |- forall w1, R w1 (?m w1).2 => change (steps R m) end. walk.
Qed.
End HttpSteps.
#[export] Hint Resolve steps_win steps_read_response steps_stream_read steps_open steps_read_body : world.

Lemma grows_log r w : grows_to w (log_sent r w).
Proof. split; cbn; [lia|lia|done|]. by exists [r]. Qed.
Lemma same_log r w : same_but_sent w (log_sent r w).
Proof. by split. Qed.

Section HttpFacts.
Context `{E : Env} (allow : bool).

Lemma grows_request input : steps grows_to (request allow input).
Proof. apply steps_request; [apply _|]. intros h w _. apply grows_log. Qed.
Lemma same_request input : steps same_but_sent (request allow input).
Proof. apply steps_request; [apply _|]. intros h w _. apply same_log. Qed.
Lemma grows_stream input : steps grows_to (stream allow input).
Proof. apply steps_stream; [apply _|]. intros h w _. apply grows_log. Qed.
Lemma same_stream input : steps same_but_sent (stream allow input).
Proof. apply steps_stream; [apply _|]. intros h w _. apply same_log. Qed.

Lemma read_body_bound max body reads w r w' :
  read_body max body reads w = (Ok r, w') -> zlen body <= max -> zlen r <= max.
Proof.
  revert body w. induction reads as [|x reads IH]; intros body w; cbn [read_body]; intros H Hb;
    run_ok; [done|].
  case_bool_decide; run_ok; [done|]. case_match; run_ok.
  eapply IH; [eassumption|]. breflect. by rewrite zlen_app.
Qed.

(** What sending does to the log: nothing before the send, one request after. *)
Lemma send_request_log handle input w :
  (w_sent (send_request handle input w).2 = w_sent w /\ is_ok (send_request handle input w).1 = false) \/
  w_stopped w = false /\ w_sent (send_request handle input w).2 = mkSent input handle :: w_sent w.
Proof.
  unfold send_request. rewrite run_bind. destruct (w_stopped w) eqn:Est.
  { left. rewrite stopped_throws by done. by split. }
  pose proof (steps_stop same_state w) as [_ _ _ _ Hs].
  destruct (throw_if_stopped w) as [[[]|x] w1]; cbn in *; [|by left]. right. split; [done|].
  rewrite run_bind. cbn [modify]. set (w2 := log_sent (mkSent input handle) w1).
  transitivity (w_sent w2); [|unfold w2; cbn; by rewrite Hs].
  refine (ss_sent _ _ (steps_bind same_state _ _ _ _ w2)); intros; walk.
Qed.

(** What a request does to the log, and to nothing else. *)
Lemma request_log input w :
  (w_sent (request allow input w).2 = w_sent w /\ is_ok (request allow input w).1 = false) \/
  w_stopped w = false /\ exists handle, opened_for allow (mkSent input handle) /\
    w_sent (request allow input w).2 = mkSent input handle :: w_sent w.
Proof.
  unfold request. rewrite run_bind. pose proof (steps_open same_state allow input w) as [_ _ _ _ H0].
  destruct (open_request allow input w) as [[handle|x] w1] eqn:Eo; cbn in H0; [|by left].
  apply open_request_handle in Eo as Hh.
  assert (w_stopped w1 = false -> w_stopped w = false) as Hst.
  { pose proof (steps_open grows_to allow input w) as Hg. rewrite Eo in Hg.
    destruct (w_stopped w) eqn:Ew; [|done]. intros Hf. cbn in Hg. rewrite (gt_stopped _ _ Hg Ew) in Hf. done. }
  rewrite run_bind. destruct (send_request_log handle input w1) as [[Hl Hk]|[Hw Hl]];
    destruct (send_request handle input w1) as [[[]|x] w2]; cbn in *; try done.
  - left. by rewrite Hl.
  - right. split; [by apply Hst|]. exists handle. split; [done|].
    pose proof (steps_read_response same_state input w2) as [_ _ _ _ Hs]. congruence.
  - right. split; [by apply Hst|]. exists handle. split; [done|]. congruence.
Qed.

(** The bytes that successive reads deliver, up to the first of none. *)
Fixpoint delivered (reads : list (Win Bytes)) : option Bytes :=
  match reads with
  | [] => Some []
  | WinError _ :: _ => None
  | WinOk read :: rest => if bool_decide (read = []) then Some [] else app read <$> delivered rest
  end.

(** What the network answered to [input] in the calls from [n] to [n']. *)
Definition received (n n' : nat) (input : HttpRequest) (status : Z) (body : Bytes) : Prop :=
  exists i j, (n <= i < n')%nat /\ (n <= j < n')%nat /\
    env_status i input = WinOk status /\ delivered (env_reads j input) = Some body.

Lemma read_body_delivered max reads : forall body w r w',
  read_body max body reads w = (Ok r, w') -> exists b, delivered reads = Some b /\ r = body ++ b.
Proof.
  induction reads as [|x reads IH]; intros body w r w' H; cbn [read_body] in H.
  { run_ok. exists []. by rewrite app_nil_r. }
  apply run_bind_Ok in H as ([] & w1 & _ & H). apply run_bind_Ok in H as (read & w2 & Hx & H).
  unfold win in Hx. apply run_bind_Ok in Hx as (y & w3 & Hy & Hx). injection Hy as <- <-.
  destruct x as [b|code]; [|done]. rewrite run_ret in Hx. injection Hx as <- _. cbn [delivered].
  case_bool_decide as Hb.
  - rewrite run_ret in H. injection H as <- _. exists []. by rewrite app_nil_r.
  - case_match; [done|]. apply IH in H as (b' & -> & ->). exists (b ++ b'). by rewrite (assoc_L app).
Qed.

Lemma win_ok {A} (f : nat -> Win A) what w a w' : win f what w = (Ok a, w') ->
  f (w_step w) = WinOk a /\ w_step w' = S (w_step w).
Proof.
  unfold win. intros H. apply run_bind_Ok in H as (y & w1 & Hy & H). injection Hy as <- <-.
  destruct (f (w_step w)); [|done]. rewrite run_ret in H. by injection H as <- <-.
Qed.

Lemma request_received input w response w' : request allow input w = (Ok response, w') ->
  received (w_step w) (w_step w') input (rs_status_code response) (rs_body response).
Proof.
  unfold request. intros H. apply run_bind_Ok in H as (handle & w1 & H1 & H).
  pose proof (steps_open grows_to allow input w) as G1. rewrite H1 in G1.
  apply run_bind_Ok in H as ([] & w2 & H2 & H).
  assert (steps grows_to (send_request handle input)) as G2.
  { assert (steps grows_to (modify (log_sent (mkSent input handle))))
      by (apply steps_modify; intros; apply grows_log).
    unfold send_request. walk. }
  specialize (G2 w1). rewrite H2 in G2. apply gt_step in G1, G2. cbn in G1, G2.
  unfold read_response in H. apply run_bind_Ok in H as (status & w3 & H3 & H).
  apply win_ok in H3 as [H3 S3]. apply run_bind_Ok in H as (raw & w4 & H4 & H). injection H4 as _ <-.
  apply run_bind_Ok in H as (reads & w5 & H5 & H). injection H5 as Hreads <-.
  apply run_bind_Ok in H as (body & w6 & H6 & H). rewrite run_ret in H. injection H as <- <-.
  pose proof (steps_read_body grows_to (rq_maximum_response_bytes input) [] reads (advance 0 (advance 0 w3))) as G6.
  rewrite H6 in G6. apply gt_step in G6. cbn in G6. apply read_body_delivered in H6 as (b & Hb & ->).
  cbn [rs_status_code rs_body app].
  exists (w_step w2), (S (w_step w3)). split_and!; [lia..|done|]. by rewrite <- Hb, <- Hreads.
Qed.

(** A stream that is open was asked for by the last request sent. *)
Lemma stream_log input w s w' : stream allow input w = (Ok s, w') ->
  exists handle, opened_for allow (mkSent input handle) /\ w_sent w' = mkSent input handle :: w_sent w.
Proof.
  unfold stream. intros H. apply run_bind_Ok in H as (handle & w1 & Ho & H).
  pose proof (steps_open same_state allow input w) as [_ _ _ _ H0]. rewrite Ho in H0. cbn in H0.
  apply open_request_handle in Ho. exists handle. split; [done|].
  apply run_bind_Ok in H as ([] & w2 & Hs & H). pose proof (send_request_log handle input w1) as Hl.
  rewrite Hs in Hl. destruct Hl as [[_ ?]|[_ Hl]]; [done|]. cbn in Hl. rewrite <- H0, <- Hl.
  match type of H with ?m w2 = _ => assert (steps same_state m) as Hst by walk end.
  specialize (Hst w2). rewrite H in Hst. apply Hst.
Qed.

(** A request is logged once at most. *)
Lemma http_sends input w r w' : request allow input w = (r, w') ->
  (length (w_sent w') <= S (length (w_sent w)))%nat.
Proof.
  intros H. pose proof (request_log input w) as Hl. rewrite H in Hl. cbn [fst snd] in Hl.
  destruct Hl as [[-> _]|(_ & handle & _ & ->)]; cbn; lia.
Qed.

(** C36: [HttpClient::request] hands WinHTTP at most one request, and none once
    a stop has been requested; it is sent to the server that its URL names,
    over TLS when the URL's scheme is HTTPS and in the clear only for HTTP and
    where the options allow it, and WinHTTP follows no redirect of it unless
    setting that policy failed; [request] returns a body within the limit, and
    changes nothing else of the SDK's state. *)
Theorem http_request_discipline input w r w' :
  request allow input w = (r, w') ->
  same_but_sent w w' /\
  (w_sent w' = w_sent w \/
   w_stopped w = false /\ exists handle, opened_for allow (mkSent input handle) /\
     w_sent w' = mkSent input handle :: w_sent w) /\
  (forall response, r = Ok response ->
     w_sent w' <> w_sent w /\
     (0 <= rq_maximum_response_bytes input ->
      zlen (rs_body response) <= rq_maximum_response_bytes input)).
Proof.
  intros H. pose proof (same_request input w) as Hsame. rewrite H in Hsame. split; [done|].
  pose proof (request_log input w) as Hl. rewrite H in Hl. cbn in Hl. split.
  { destruct Hl as [[Hl _]|Hl]; [by left|by right]. }
  intros response ->. destruct Hl as [[_ ?]|(_ & handle & _ & Hl)]; [done|]. split.
  { rewrite Hl. intros Heq. apply (f_equal length) in Heq. cbn in Heq. lia. }
  intros Hmax. unfold request in H. apply run_bind_Ok in H as (h & w1 & _ & H).
  apply run_bind_Ok in H as ([] & w2 & _ & H).
  unfold read_response in H. run_ok. cbn. by eapply read_body_bound.
Qed.

End HttpFacts.
#[export] Hint Resolve grows_request same_request grows_stream same_stream : world.
