(* ===== verification/Handles.v ===== *)
(** * Handles that outlive a scope

    The handles of WinHTTP and of the key storage provider live in objects that
    are moved, returned and closed.  Computations on the world get a log of
    what they open and close; a triple says which handles one takes and which
    it leaves open, and [erases] that without its handles it is a computation
    of the model. *)
From stdpp Require Import gmultiset.
From S2P Require Import Prelude Errors Scope World.

(** A handle is the position of its opening in the log. *)
Abbreviation Handles := (H World nat).
Abbreviation Owned := (gmultiset nat).

Definition open_handle : Handles nat := fun s =>
  let h := length (sc_log s) in (Ok h, (emit (Opened h) s).2).

Definition close_handle (h : nat) : Handles unit := emit (Closed h).

(** The destructor of an object with a handle that may be null. *)
Definition destroy (h : option nat) : Handles unit :=
  match h with None => mret tt | Some h => close_handle h end.

(** What happens when an exception passes the object. *)
Definition unwinding {A} (destructor : Handles unit) (m : Handles A) : Handles A := fun s =>
  match m s with
  | (Ok a, s) => (Ok a, s)
  | (Throw x, s) => (Throw x, (destructor s).2)
  end.

(** The object is destroyed at the end of the block, however it is left. *)
Definition destroying {A} (destructor : Handles unit) (m : Handles A) : Handles A := fun s =>
  let '(result, s) := m s in (result, (destructor s).2).

(** ** What is open *)

(** The open handles after some events; [None] when one is closed that is not
    open. *)
Fixpoint replay (open : Owned) (log : list (Event nat)) : option Owned :=
  match log with
  | [] => Some open
  | Opened h :: log => replay ({[+ h +]} ⊎ open) log
  | Closed h :: log => if bool_decide (h ∈ open) then replay (open ∖ {[+ h +]}) log else None
  end.

(** [triple P m Q X]: with the handles [P], [m] closes only what it owns; it
    leaves the handles [Q a] when it returns [a], and [X] when it throws. *)
Definition triple_from {A} (s : Scope World nat) (P : Owned) (m : Handles A) (Q : A -> Owned)
    (X : Owned) : Prop :=
  exists added, sc_log (m s).2 = sc_log s ++ added /\
    forall others, replay (P ⊎ others) added =
      Some (match (m s).1 with Ok a => Q a | Throw _ => X end ⊎ others).

Definition triple {A} (P : Owned) (m : Handles A) (Q : A -> Owned) (X : Owned) : Prop :=
  forall s, triple_from s P m Q X.

(** The operation without its handles. *)
Definition erases {A B} (f : A -> B) (h : Handles A) (m : M B) : Prop := forall s,
  m (sc_state s) = (match (h s).1 with Ok a => Ok (f a) | Throw x => Throw x end, sc_state (h s).2).

(** * Lemmas *)

Lemma replay_app open l k : replay open (l ++ k) = replay open l ≫= fun open => replay open k.
Proof.
  revert open. induction l as [|[h|h] l IH]; intros open; cbn [replay app]; [done|apply IH|].
  case_bool_decide; [apply IH|done].
Qed.

Section Triples.

Lemma triple_silent {A} P (m : Handles A) Q X :
  (forall s, sc_log (m s).2 = sc_log s) ->
  (forall s, match (m s).1 with Ok a => Q a | Throw _ => X end = P) -> triple P m Q X.
Proof. intros Hl Hr s. exists []. rewrite Hl, app_nil_r. split; [done|]. intros others. by rewrite Hr. Qed.

Lemma triple_ret {A} (a : A) Q X : triple (Q a) (mret a) Q X.
Proof. by apply triple_silent. Qed.

Lemma triple_return {A} P (a : A) Q X : P = Q a -> triple P (mret a) Q X.
Proof. intros ->. apply triple_ret. Qed.

Lemma triple_raise {A} x (Q : A -> Owned) X : triple X (raise x) Q X.
Proof. by apply triple_silent. Qed.

Lemma triple_state {A} (m : M A) P : triple P (lift_state m) (fun _ => P) P.
Proof.
  apply triple_silent; intros s; unfold lift_state; destruct (m (sc_state s)) as [[a|x] w]; done.
Qed.

Lemma triple_returns {A} (m : M A) P X : returns m -> triple P (lift_state m) (fun _ => P) X.
Proof.
  intros Hm. apply triple_silent; intros s; unfold lift_state;
    destruct (Hm (sc_state s)) as (a & w & ->); done.
Qed.

Lemma triple_lift {A} (r : Result A) P : triple P (lift_result r) (fun _ => P) P.
Proof. by apply triple_silent; intros s; destruct r. Qed.

Lemma triple_open P X : triple P open_handle (fun h => {[+ h +]} ⊎ P) X.
Proof.
  intros s. exists [Opened (length (sc_log s))]. split; [done|]. intros others.
  cbn [replay open_handle fst]. apply (f_equal Some). multiset_solver.
Qed.

Lemma triple_close h P X : triple ({[+ h +]} ⊎ P) (close_handle h) (fun _ => P) X.
Proof.
  intros s. exists [Closed h]. split; [done|]. intros others. cbn [replay].
  rewrite bool_decide_true by multiset_solver. apply (f_equal Some). multiset_solver.
Qed.

Lemma triple_from_bind {A B} s P (m : Handles A) (f : A -> Handles B) Q R X :
  triple_from s P m Q X -> (forall a s1, m s = (Ok a, s1) -> triple_from s1 (Q a) (f a) R X) ->
  triple_from s P (m ≫= f) R X.
Proof.
  intros (l & Hl & Hn) Hf. unfold triple_from, mbind, H_bind.
  destruct (m s) as [[a|x] s1]; [|by exists l]. cbn [fst snd] in *.
  destruct (Hf a s1 eq_refl) as (k & Hk & Hkn). exists (l ++ k). split; [by rewrite Hk, Hl, app_assoc|].
  intros others. rewrite replay_app, Hn. cbn [mbind option_bind]. apply Hkn.
Qed.

Lemma triple_bind {A B} P (m : Handles A) (f : A -> Handles B) Q R X :
  triple P m Q X -> (forall a, triple (Q a) (f a) R X) -> triple P (m ≫= f) R X.
Proof. intros Hm Hf s. eapply triple_from_bind; [apply Hm|]. intros a s1 _. apply Hf. Qed.

(** What a run that returned did. *)
Lemma lift_state_Ok {A} (m : M A) (s : Scope World nat) a s' : lift_state m s = (Ok a, s') ->
  m (sc_state s) = (Ok a, sc_state s') /\ sc_log s' = sc_log s.
Proof. unfold lift_state. destruct (m (sc_state s)) as [r w]. by intros [= -> <-]. Qed.

Lemma handles_bind_Ok {A B} (m : Handles A) (f : A -> Handles B) s b s' :
  (m ≫= f) s = (Ok b, s') -> exists a s1, m s = (Ok a, s1) /\ f a s1 = (Ok b, s').
Proof. unfold mbind, H_bind. destruct (m s) as [[a|x] s1]; [eauto|done]. Qed.

Lemma unwinding_Ok {A} d (m : Handles A) s a s' : unwinding d m s = (Ok a, s') -> m s = (Ok a, s').
Proof. unfold unwinding. by destruct (m s) as [[a'|x] s1]. Qed.

Lemma open_handle_Ok s h s' : open_handle s = (Ok h, s') ->
  sc_state s' = sc_state s /\ sc_log s' = sc_log s ++ [Opened h].
Proof. by intros [= <- <-]. Qed.

Lemma triple_eq {A} P P' (m : Handles A) Q Q' X X' :
  triple P m Q X -> P = P' -> (forall a, Q a = Q' a) -> X = X' -> triple P' m Q' X'.
Proof.
  intros Hm <- HQ <- s. destruct (Hm s) as (l & Hl & Hn). exists l. split; [done|]. intros others.
  rewrite Hn. destruct (m s).1; [by rewrite HQ|done].
Qed.

Lemma triple_frame {A} F P (m : Handles A) Q X :
  triple P m Q X -> triple (P ⊎ F) m (fun a => Q a ⊎ F) (X ⊎ F).
Proof.
  intros Hm s. destruct (Hm s) as (l & Hl & Hn). exists l. split; [done|]. intros others.
  rewrite <- gmultiset_disj_union_assoc, Hn. destruct (m s).1; by rewrite gmultiset_disj_union_assoc.
Qed.

(** A destructor ends with nothing and throws nothing. *)
Definition destructs (P : Owned) (d : Handles unit) : Prop := forall F X, triple (P ⊎ F) d (fun _ => F) X /\
  forall s, (d s).1 = Ok tt.

Lemma destructs_null : destructs ∅ (destroy None).
Proof.
  intros F X. split; [|done]. eapply triple_eq; [apply (triple_ret tt (fun _ => F) X)|multiset_solver|done..].
Qed.

Lemma destructs_handle h : destructs {[+ h +]} (destroy (Some h)).
Proof. intros F X. split; [apply triple_close|done]. Qed.

Lemma destructs_then P Q d e : destructs P d -> destructs Q e -> destructs (P ⊎ Q) (_ ← d; e).
Proof.
  intros Hd He F X. split.
  - eapply triple_bind with (Q := fun _ => Q ⊎ F); [|intros []; apply (He F X)].
    eapply triple_eq; [apply (Hd (Q ⊎ F) X)|multiset_solver|done..].
  - intros s. unfold mbind, H_bind. pose proof (proj2 (Hd ∅ ∅) s) as H1.
    destruct (d s) as [r s1]. cbn [fst] in H1. subst r. apply (He ∅ ∅).
Qed.

Lemma triple_from_unwinding {A} s P D d (m : Handles A) Q X :
  destructs D d -> triple_from s P m Q (D ⊎ X) -> triple_from s P (unwinding d m) Q X.
Proof.
  intros Hd (l & Hl & Hn). unfold triple_from, unwinding.
  destruct (m s) as [[a|x] s1]; [by exists l|]. cbn [fst snd] in *.
  destruct (proj1 (Hd X X) s1) as (k & Hk & Hkn). exists (l ++ k).
  split; [by rewrite Hk, Hl, app_assoc|]. intros others. rewrite replay_app, Hn. cbn [mbind option_bind fst]. rewrite Hkn.
    by destruct (d s1).1.
Qed.

Lemma triple_unwinding {A} P D d (m : Handles A) Q X :
  destructs D d -> triple P m Q (D ⊎ X) -> triple P (unwinding d m) Q X.
Proof. intros Hd Hm s. by eapply triple_from_unwinding. Qed.

Lemma triple_destroying {A} P D d (m : Handles A) Q X :
  destructs D d -> triple P m (fun a => D ⊎ Q a) (D ⊎ X) -> triple P (destroying d m) Q X.
Proof.
  intros Hd Hm s. unfold triple_from, destroying. destruct (Hm s) as (l & Hl & Hn).
  destruct (m s) as [r s1]. cbn [fst snd] in *.   set (F' := match r with Ok a => Q a | Throw _ => X end).
  destruct (proj1 (Hd F' F') s1) as (k & Hk & Hkn). exists (l ++ k).
  split; [by rewrite Hk, Hl, app_assoc|]. intros others. rewrite replay_app, Hn.
  unfold F' in *. destruct r; cbn [mbind option_bind]; rewrite Hkn; by destruct (d s1).1.
Qed.
End Triples.

Section Erasure.

(** A computation on handles alone. *)
Definition quiet {A} (m : Handles A) : Prop :=
  forall s, sc_state (m s).2 = sc_state s /\ exists a, (m s).1 = Ok a.

Lemma quiet_destroy h : quiet (destroy h).
Proof. intros s. destruct h; cbn; eauto. Qed.
Lemma quiet_open : quiet open_handle.
Proof. intros s. cbn. eauto. Qed.
Lemma quiet_ret {A} (a : A) : quiet (mret a).
Proof. intros s. cbn. eauto. Qed.
Lemma quiet_bind {A B} (m : Handles A) (f : A -> Handles B) :
  quiet m -> (forall a, quiet (f a)) -> quiet (m ≫= f).
Proof.
  intros Hm Hf s. unfold mbind, H_bind. destruct (Hm s) as [Hs [a Ha]].
  destruct (m s) as [r s1]. cbn in *. subst r. rewrite <- Hs. apply Hf.
Qed.

Lemma erases_state {A} (m : M A) : erases id (lift_state m) m.
Proof. intros s. unfold lift_state. destruct (m (sc_state s)) as [[a|x] w]; done. Qed.
Lemma erases_lift {A} (r : Result A) : erases id (lift_result r) (lift r).
Proof. intros s. by destruct r. Qed.
Lemma erases_ret {A B} (f : A -> B) a b : f a = b -> erases f (mret a) (mret b).
Proof. by intros <-. Qed.
Lemma erases_raise {A B} (f : A -> B) x : erases f (raise x) (throw x).
Proof. done. Qed.

Lemma erases_bind {A A' B B'} (f : A -> A') (g : B -> B') (m : Handles A) k m' k' :
  erases f m m' -> (forall a, erases g (k a) (k' (f a))) -> erases g (m ≫= k) (m' ≫= k').
Proof.
  intros Hm Hk s. rewrite run_bind, (Hm s). unfold mbind, H_bind.
  destruct (m s) as [[a|x] s1]; cbn; [apply Hk|done].
Qed.

Lemma erases_quiet {A B B'} (g : B -> B') (m : Handles A) k m' :
  quiet m -> (forall a, erases g (k a) m') -> erases g (m ≫= k) m'.
Proof.
  intros Hm Hk s. unfold mbind, H_bind. destruct (Hm s) as [Hs [a Ha]].
  destruct (m s) as [r s1]. cbn in *. subst r. rewrite <- Hs. apply Hk.
Qed.

Lemma erases_unwinding {A B} (f : A -> B) d (m : Handles A) m' :
  quiet d -> erases f m m' -> erases f (unwinding d m) m'.
Proof.
  intros Hd Hm s. rewrite (Hm s). unfold unwinding. destruct (m s) as [[a|x] s1]; cbn; [done|].
  by rewrite (proj1 (Hd s1)).
Qed.

Lemma erases_destroying {A B} (f : A -> B) d (m : Handles A) m' :
  quiet d -> erases f m m' -> erases f (destroying d m) m'.
Proof.
  intros Hd Hm s. rewrite (Hm s). unfold destroying. destruct (m s) as [r s1]; cbn.
  by rewrite (proj1 (Hd s1)).
Qed.
End Erasure.

Create HintDb quiet.
#[export] Hint Resolve quiet_destroy quiet_open quiet_ret : quiet.
#[export] Hint Extern 2 (quiet (_ ≫= _)) => apply quiet_bind; [|intros] : quiet.

Definition owned (h : option nat) : Owned := match h with None => ∅ | Some h => {[+ h +]} end.

Lemma destructs_owned h : destructs (owned h) (destroy h).
Proof. destruct h; [apply destructs_handle|apply destructs_null]. Qed.

Create HintDb owned.
(** Equations between the handles owned. *)
Ltac owning := try done; intros; autounfold with owned in *;
  cbn [owned]; multiset_solver.
(** The next statement of a block, by a triple for it. *)
Tactic Notation "step" uconstr(lemma) "as" simple_intropattern(a) :=
  eapply triple_bind; [eapply triple_eq; [apply lemma|owning|intros; reflexivity|owning]|intros a].
