(* ===== verification/HttpHandles.v ===== *)
(** * The handles of WinHTTP ([src/internal/http_client.cpp])

    [HttpClient::request] and [HttpClient::stream] with the sessions,
    connections and requests they open, in objects with move semantics. *)
From stdpp Require Import gmultiset.
From S2P Require Import Prelude Errors Clock Keyring Types Scope Handles World Http.

(** [InternetHandle::operator=]: the old handle is closed, the source is left
    null. *)
Definition move_assign (target source : option nat) : Handles (option nat * option nat) :=
  _ ← destroy target; mret (source, None).

Record OpenRequest := mkOpenRequest {
  or_session : option nat; or_connection : option nat; or_request : option nat
}.

Definition all_null : OpenRequest := mkOpenRequest None None None.

(** Members are destroyed in reverse order. *)
Definition destroy_open (o : OpenRequest) : Handles unit :=
  _ ← destroy (or_request o); _ ← destroy (or_connection o); destroy (or_session o).

Definition owned_open (o : OpenRequest) : Owned :=
  owned (or_request o) ⊎ (owned (or_connection o) ⊎ owned (or_session o)).

#[export] Hint Unfold owned_open : owned.

Lemma destructs_open o : destructs (owned_open o) (destroy_open o).
Proof. repeat (apply destructs_then; [apply destructs_owned|]). apply destructs_owned. Qed.

(** [ResponseStream] with its [Impl]. *)
Record LiveStream := mkLive { ls_stream : ResponseStream; ls_impl : option OpenRequest }.

Definition owned_live (s : LiveStream) : Owned :=
  match ls_impl s with None => ∅ | Some impl => owned_open impl end.

(** [ResponseStream::close]; without its [Impl] a stream has status 0 and no
    headers. *)
Definition close_stream (s : LiveStream) : Handles LiveStream :=
  match ls_impl s with
  | None => mret s
  | Some impl => _ ← destroy_open impl; mret (mkLive (mkStream 0 [] [] true) None)
  end.

Section WinHttp.
Context `{E : Env} (allow_insecure_http : bool).

(** A call that opens a handle, unless it is where the opening fails. *)
Definition fails_at (stage : OpenStage) (failure : option (OpenStage * Z)) : option Z :=
  match stage, failure with
  | StageOpen, Some (StageOpen, code) | StageConnect, Some (StageConnect, code)
  | StageRequest, Some (StageRequest, code) | StageHeader, Some (StageHeader, code) => Some code
  | _, _ => None
  end.

Definition win_open (stage : OpenStage) (failure : option (OpenStage * Z)) : Handles (option nat) :=
  match fails_at stage failure with
  | Some code => raise (open_failed stage code)
  | None => h ← open_handle; moved ← move_assign None (Some h); mret moved.1
  end.

Definition add_request_headers (failure : option (OpenStage * Z)) : Handles unit :=
  match fails_at StageHeader failure with
  | Some code => raise (open_failed StageHeader code)
  | None => mret tt
  end.

(** With the handles, what they were configured to. *)
Definition open_handles (input : HttpRequest) : Handles (OpenRequest * RequestHandle) :=
  parsed ← lift_result (parse_url allow_insecure_http (rq_url input));
  opened ← lift_state (call (fun n _ => (env_open n input, opened_handle parsed input n)));
  let failure := opened.1 in
  session ← unwinding (destroy_open all_null) (win_open StageOpen failure);
  let result := mkOpenRequest session None None in
  connection ← unwinding (destroy_open result) (win_open StageConnect failure);
  let result := mkOpenRequest session connection None in
  request ← unwinding (destroy_open result) (win_open StageRequest failure);
  let result := mkOpenRequest session connection request in
  _ ← unwinding (destroy_open result) (add_request_headers failure);
  mret (result, opened.2).

Definition request_handles (input : HttpRequest) : Handles HttpResponse :=
  opened ← open_handles input;
  destroying (destroy_open opened.1)
    (_ ← lift_state (send_request opened.2 input); lift_state (read_response input)).

Definition stream_handles (input : HttpRequest) : Handles LiveStream :=
  opened ← open_handles input;
  _ ← unwinding (destroy_open opened.1) (lift_state (send_request opened.2 input));
  let impl := opened.1 in
  let opened := all_null in
  destroying (destroy_open opened) (unwinding (destroy_open impl)
    (status ← lift_state (win (fun n => env_status n input) (&"cannot query stream status"));
     raw ← lift_state (call (fun n _ => env_raw_headers n input));
     reads ← lift_state (call (fun n _ => env_reads n input));
     mret (mkLive (mkStream status (parse_response_headers raw) reads false) (Some impl)))).

(** ** What they leave open *)

Lemma triple_win_open stage failure P :
  triple P (win_open stage failure) (fun h => owned h ⊎ P) P.
Proof.
  unfold win_open. destruct (fails_at stage failure); [apply triple_raise|].
  eapply triple_bind; [apply triple_open|]. intros h.
  exact (triple_ret (Some h) (fun h => owned h ⊎ P) P).
Qed.

Lemma triple_stage o stage failure :
  triple (owned_open o) (unwinding (destroy_open o) (win_open stage failure))
    (fun h => owned h ⊎ owned_open o) ∅.
Proof.
  eapply triple_unwinding; [apply destructs_open|].
  eapply triple_eq; [apply triple_win_open|done|done|multiset_solver].
Qed.

Lemma triple_open_handles input : triple ∅ (open_handles input) (fun o => owned_open o.1) ∅.
Proof.
  unfold open_handles. step (triple_lift (parse_url allow_insecure_http (rq_url input)) ∅) as x.
  step (triple_state (call (fun n _ => (env_open n input, opened_handle x input n))) ∅) as opened.
  set (failure := opened.1).
  step (triple_stage all_null StageOpen failure) as session.
  step (triple_stage (mkOpenRequest session None None) StageConnect failure) as connection.
  step (triple_stage (mkOpenRequest session connection None) StageRequest failure) as request.
  set (o := mkOpenRequest session connection request).
  eapply (triple_bind _ _ _ (fun _ => owned_open o)).
  - eapply (triple_unwinding _ (owned_open o)); [apply destructs_open|].
    unfold add_request_headers. destruct (fails_at StageHeader failure).
    + eapply triple_eq; [apply (triple_raise _ (fun _ => owned_open o))|owning..].
    + eapply triple_eq; [apply (triple_ret tt (fun _ => owned_open o) (owned_open o))|owning..].
  - intros _. exact (triple_ret (o, opened.2) (fun r => owned_open r.1) ∅).
Qed.

(** The handles of a request are closed before it returns or throws. *)
Lemma triple_request input : triple ∅ (request_handles input) (fun _ => ∅) ∅.
Proof.
  unfold request_handles. eapply triple_bind; [apply triple_open_handles|intros [o handle]].
  eapply (triple_destroying _ (owned_open o)); [apply destructs_open|].
  step (triple_state (send_request handle input) (owned_open o)) as ?.
  eapply triple_eq; [apply (triple_state _ (owned_open o))|owning..].
Qed.

(** Those of a stream belong to the stream. *)
Lemma triple_stream input : triple ∅ (stream_handles input) owned_live ∅.
Proof.
  unfold stream_handles. eapply triple_bind; [apply triple_open_handles|intros [o handle]].
  eapply (triple_bind _ _ _ (fun _ => owned_open o)).
  { eapply (triple_unwinding _ (owned_open o)); [apply destructs_open|].
    eapply triple_eq; [apply (triple_state _ (owned_open o))|owning..]. }
  intros _. eapply (triple_destroying _ (owned_open all_null)); [apply destructs_open|].
  eapply triple_eq; [eapply (triple_unwinding (owned_open o) (owned_open o) _ _ owned_live ∅);
    [apply destructs_open|]|owning..].
  step (triple_state (win (fun n => env_status n input) (&"cannot query stream status")) (owned_open o)) as ?.
  step (triple_state (call (fun n _ => env_raw_headers n input)) (owned_open o)) as ?.
  step (triple_state (call (fun n _ => env_reads n input)) (owned_open o)) as ?.
  exact (triple_ret _ owned_live (owned_open o ⊎ ∅)).
Qed.

Lemma triple_close_stream s (Q : LiveStream -> Owned) X : (forall r, Q (mkLive r None) = ∅) ->
  triple (owned_live s) (close_stream s) Q X.
Proof.
  intros HQ. unfold close_stream. destruct s as [r [o|]]; cbn [ls_impl].
  - eapply triple_bind.
    + eapply triple_eq; [apply (destructs_open o ∅ X)|owning|intros; reflexivity|done].
    + intros []. rewrite <- (HQ (mkStream 0 [] [] true)). apply triple_ret.
  - change (owned_live (mkLive r None)) with (∅ : Owned). rewrite <- (HQ r). apply triple_ret.
Qed.

Lemma quiet_destroy_open o : quiet (destroy_open o).
Proof. unfold destroy_open. auto with quiet. Qed.
#[local] Hint Resolve quiet_destroy_open : quiet.

Lemma open_handles_erase input : erases snd (open_handles input) (open_request allow_insecure_http input).
Proof.
  unfold open_handles, open_request. eapply erases_bind; [apply erases_lift|intros parsed].
  eapply erases_bind; [apply erases_state|intros [failure handle]]. unfold id.
  by destruct failure as [[[] code]|].
Qed.

Lemma request_handles_erase input : erases id (request_handles input) (request allow_insecure_http input).
Proof.
  unfold request_handles, request. eapply erases_bind; [apply open_handles_erase|intros [o handle]].
  apply erases_destroying; [auto with quiet|].
  eapply erases_bind; [apply erases_state|intros u]. apply erases_state.
Qed.

Lemma stream_handles_erase input :
  erases ls_stream (stream_handles input) (stream allow_insecure_http input).
Proof.
  unfold stream_handles, stream. eapply erases_bind; [apply open_handles_erase|intros [o handle]].
  eapply erases_bind; [apply erases_unwinding; [auto with quiet|apply erases_state]|intros u].
  apply erases_destroying; [auto with quiet|]. apply erases_unwinding; [auto with quiet|].
  do 3 (eapply erases_bind; [apply erases_state|intros ?]). by apply erases_ret.
Qed.

(** C21: WinHTTP handles neither leak nor are closed twice.  With its handles,
    a request or the opening of a stream does what it does without them; on
    every path, wherever it fails, what was opened is closed before the
    exception leaves, a request leaves nothing open, and an open stream owns
    exactly its session, connection and request, which closing it closes, and
    closing it again does not. *)
Theorem http_handles_owned input :
  (erases id (request_handles input) (request allow_insecure_http input) /\
   triple ∅ (request_handles input) (fun _ => ∅) ∅) /\
  (erases ls_stream (stream_handles input) (stream allow_insecure_http input) /\
   triple ∅ (stream_handles input) owned_live ∅) /\
  (forall s, triple (owned_live s) (s ← close_stream s; close_stream s) (fun _ => ∅) ∅).
Proof.
  split_and!.
  - apply request_handles_erase.
  - apply triple_request.
  - apply stream_handles_erase.
  - apply triple_stream.
  - intros s. eapply triple_bind; [by apply (triple_close_stream _ owned_live)|].
    intros s'. by apply triple_close_stream.
Qed.
End WinHttp.
