(* ===== verification/SseStream.v ===== *)
(** * Events from a response stream

    [SseReader] and [next_sse] of [src/client.cpp] on a stream of the HTTP
    client, with its stop checks and errors.  They refine the functions of
    [Sse]: every run is the run of those on some chunks that the stream can
    deliver. *)
From S2P Require Import Prelude StdString Errors Codec Sse Clock Keyring Types World Http.

Record StreamReader := mkStreamReader { sr_pending : text; sr_stream : ResponseStream }.

Section SseStream.
Context `{E : Env}.

(** [read_line]; each turn of its loop takes one read of the stream. *)
Fixpoint stream_line (fuel : nat) (pending : text) (s : ResponseStream) :
    M (option text * StreamReader) :=
  match find_char nl pending with
  | Some e => mret (Some (strip_cr (take e pending)), mkStreamReader (drop (S e) pending) s)
  | None =>
      match fuel with
      | O => throw (StdExn (&"unreachable"))
      | S f =>
          answer ← stream_read s;
          let '(read, s) := answer in
          if bool_decide (read = []) then
            mret (if bool_decide (pending = []) then None else Some pending, mkStreamReader [] s)
          else if sse_limit <? zlen (pending ++ read)
          then throw (err Protocol 0 [] (&"SSE event exceeds size limit"))
          else stream_line f (pending ++ read) s
      end
  end.

Definition read_stream_line (r : StreamReader) : M (option text * StreamReader) :=
  stream_line (S (length (st_reads (sr_stream r)))) (sr_pending r) (sr_stream r).

Definition win_length (c : Win Bytes) : nat := match c with WinOk b => length b | WinError _ => 0 end.
Definition stream_size (r : StreamReader) : nat :=
  length (sr_pending r) + sum_list (win_length <$> st_reads (sr_stream r)).

Fixpoint stream_loop (fuel : nat) (acc : ParsedSseEvent) (r : StreamReader) :
    M (option ParsedSseEvent * StreamReader) :=
  match fuel with
  | O => throw (StdExn (&"unreachable"))
  | S f =>
      answer ← read_stream_line r;
      let '(line, r) := answer in
      match line with
      | None => mret (end_event acc, r)
      | Some line =>
          match sse_line acc line with
          | None => mret (Some acc, r)
          | Some acc => stream_loop f acc r
          end
      end
  end.

Definition next_stream_event (r : StreamReader) : M (option ParsedSseEvent * StreamReader) :=
  stream_loop (S (stream_size r)) empty_event r.

(** ** What a stream can deliver

    The reads it has, up to its end, an error, or the moment the stop is
    noticed. *)
Definition stop_exn : Exn := err Timeout 0 (&"cancelled") (&"operation cancelled").
Definition read_failed (code : Z) : Exn := network_error code (&"HTTP stream read failed").

Inductive delivers : bool -> list (Win Bytes) -> list (Result Bytes) -> Prop :=
  | dl_closed reads : delivers true reads []
  | dl_end : delivers false [] []
  | dl_read b rest cs : delivers (bool_decide (b = [])) rest cs ->
      delivers false (WinOk b :: rest) (Ok b :: cs)
  | dl_error c rest : delivers false (WinError c :: rest) [Throw (read_failed c)]
  | dl_stopped reads : delivers false reads [Throw stop_exn].

Definition stream_delivers (s : ResponseStream) (cs : list (Result Bytes)) : Prop :=
  delivers (st_closed s) (st_reads s) cs.

Lemma delivers_some s : exists cs, stream_delivers s cs.
Proof. unfold stream_delivers. destruct (st_closed s); eexists; [apply dl_closed|apply dl_stopped]. Qed.

(** One read, as one chunk of what the rest delivers. *)
Lemma stream_read_run s w :
  match stream_read s w with
  | (Ok (read, s'), w') => same_state w w' /\
      (st_reads s = WinOk read :: st_reads s' \/ read = [] /\ st_reads s' = st_reads s) /\
      forall cs', stream_delivers s' cs' ->
        (read = [] /\ cs' = [] /\ stream_delivers s []) \/ stream_delivers s (Ok read :: cs')
  | (Throw x, w') => same_state w w' /\ stream_delivers s [Throw x]
  end.
Proof.
  pose proof (steps_stream_read same_state s w) as Hs. revert Hs.
  unfold stream_read, stream_delivers. destruct (st_closed s) eqn:Ec.
  { rewrite run_ret. intros Hs. split_and!; [exact Hs|by right|]. intros cs' Hd. rewrite Ec in Hd.
    inversion Hd. left. split_and!; [done|done|constructor]. }
  rewrite run_bind, throw_if_stopped_run. destruct (w_stopped w || env_stop (w_step w)).
  { intros Hs. split; [exact Hs|constructor]. }
  destruct (st_reads s) as [|[b|c] rest]; intros Hs.
  - split_and!; [exact Hs|by right|]. intros cs' Hd. inversion Hd. left.
    split_and!; [done|done|constructor].
  - split_and!; [exact Hs|by left|]. intros cs' Hd. right. by constructor.
  - split; [exact Hs|constructor].
Qed.

(** A line of a run is a line of the chunks delivered, whatever the stream
    delivers afterwards. *)
Lemma stream_line_run fuel : forall pending s w, (length (st_reads s) < fuel)%nat ->
  match stream_line fuel pending s w with
  | (Ok (line, r'), w') => same_state w w' /\
      (line <> None -> (stream_size r' < stream_size (mkStreamReader pending s))%nat) /\
      forall cs', stream_delivers (sr_stream r') cs' -> exists cs, stream_delivers s cs /\
        read_line_from pending cs = Ok (line, mkReader (sr_pending r') cs')
  | (Throw x, w') => same_state w w' /\ exists cs, stream_delivers s cs /\
      read_line_from pending cs = Throw x
  end.
Proof.
  induction fuel as [|f IH]; intros pending s w Hf; [lia|]. cbn [stream_line].
  destruct (find_char nl pending) as [e|] eqn:En.
  { rewrite run_ret. apply find_char_Some in En as Hn. destruct Hn as (s1 & s2 & Hp & Hl & _).
    split_and!; [done| |].
    - intros _; unfold stream_size; cbn. rewrite length_drop, Hp, length_app. cbn. lia.
    - intros cs' Hd. exists cs'. split; [done|]. destruct cs'; cbn [read_line_from]; by rewrite En. }
  rewrite run_bind. pose proof (stream_read_run s w) as Hr.
  destruct (stream_read s w) as [[[read s']|x] w1]; last first.
  { destruct Hr as [Hs Hd]. split; [done|]. eexists. split; [exact Hd|]. cbn. by rewrite En. }
  destruct Hr as (Hs & Hreads & Hd). case_bool_decide as Hread.
  - subst read. rewrite run_ret. split_and!; [done| |].
    + intros Hl. case_bool_decide as Hp; [done|]. unfold stream_size. cbn.
      destruct Hreads as [->|[_ ->]]; cbn; destruct pending; cbn; try done; lia.
    + intros cs' Hcs. destruct (Hd cs' Hcs) as [(_ & -> & Hc)|Hc]; eexists; (split; [exact Hc|]);
        cbn [read_line_from sr_pending]; rewrite En; unfold at_end; by case_bool_decide.
  - destruct Hreads as [Hreads|[? _]]; [|done].
    assert (exists b bs, read = b :: bs) as (b & bs & Eb) by (destruct read; naive_solver).
    destruct (sse_limit <? zlen (pending ++ read)) eqn:Elim.
    { destruct (delivers_some s') as [cs' Hcs].
      destruct (Hd cs' Hcs) as [(? & _ & _)|Hc]; [done|]. split; [done|]. eexists. split; [exact Hc|].
      cbn [read_line_from]. rewrite En, Eb. by rewrite <- Eb, Elim. }
    specialize (IH (pending ++ read) s' w1). rewrite Hreads in Hf. cbn in Hf. specialize (IH ltac:(lia)).
    destruct (stream_line f (pending ++ read) s' w1) as [[[line r']|x] w2].
    + destruct IH as (Hs2 & Hsz & Hcs2). split_and!; [by etrans| |].
      * intros Hl. specialize (Hsz Hl). unfold stream_size in *. cbn in *.
        rewrite Hreads, length_app in *. cbn. lia.
      * intros cs' Hcs. destruct (Hcs2 cs' Hcs) as (cs & Hc & Hline).
        destruct (Hd cs Hc) as [(? & _ & _)|Hc']; [done|]. eexists. split; [exact Hc'|].
        cbn [read_line_from]. rewrite En, Eb. by rewrite <- Eb, Elim.
    + destruct IH as (Hs2 & cs & Hc & Hline). split; [by etrans|].
      destruct (Hd cs Hc) as [(? & _ & _)|Hc']; [done|]. eexists. split; [exact Hc'|].
      cbn [read_line_from]. rewrite En, Eb. by rewrite <- Eb, Elim.
Qed.

Lemma read_stream_line_run r w :
  match read_stream_line r w with
  | (Ok (line, r'), w') => same_state w w' /\
      (line <> None -> (stream_size r' < stream_size r)%nat) /\
      forall cs', stream_delivers (sr_stream r') cs' -> exists cs, stream_delivers (sr_stream r) cs /\
        read_line (mkReader (sr_pending r) cs) = Ok (line, mkReader (sr_pending r') cs')
  | (Throw x, w') => same_state w w' /\ exists cs, stream_delivers (sr_stream r) cs /\
      read_line (mkReader (sr_pending r) cs) = Throw x
  end.
Proof. destruct r as [pending s]. apply stream_line_run. lia. Qed.

Lemma stream_loop_run fuel : forall acc r w, (stream_size r < fuel)%nat ->
  match stream_loop fuel acc r w with
  | (Ok (ev, r'), w') => same_state w w' /\
      forall cs', stream_delivers (sr_stream r') cs' -> exists cs, stream_delivers (sr_stream r) cs /\
        exists n, sse_loop n acc (mkReader (sr_pending r) cs) = Some (Ok (ev, mkReader (sr_pending r') cs'))
  | (Throw x, w') => same_state w w' /\ exists cs, stream_delivers (sr_stream r) cs /\
      exists n, sse_loop n acc (mkReader (sr_pending r) cs) = Some (Throw x)
  end.
Proof.
  induction fuel as [|f IH]; intros acc r w Hf; [lia|]. cbn [stream_loop]. rewrite run_bind.
  pose proof (read_stream_line_run r w) as Hr.
  destruct (read_stream_line r w) as [[[line r']|x] w1]; last first.
  { destruct Hr as (Hs & cs & Hc & Hl). split; [done|]. exists cs. split; [done|]. exists 1%nat.
    cbn [sse_loop]. by rewrite Hl. }
  destruct Hr as (Hs & Hsz & Hcs). destruct line as [line|]; last first.
  { rewrite run_ret. split; [done|]. intros cs' Hd. destruct (Hcs cs' Hd) as (cs & Hc & Hl).
    exists cs. split; [done|]. exists 1%nat. cbn [sse_loop]. by rewrite Hl. }
  specialize (Hsz ltac:(done)). destruct (sse_line acc line) as [acc'|] eqn:El; last first.
  { rewrite run_ret. split; [done|]. intros cs' Hd. destruct (Hcs cs' Hd) as (cs & Hc & Hl).
    exists cs. split; [done|]. exists 1%nat. cbn [sse_loop]. by rewrite Hl, El. }
  specialize (IH acc' r' w1 ltac:(lia)). destruct (stream_loop f acc' r' w1) as [[[ev r'']|x] w2].
  - destruct IH as (Hs2 & Hcs2). split; [by etrans|]. intros cs' Hd.
    destruct (Hcs2 cs' Hd) as (cs1 & Hc1 & n & Hn). destruct (Hcs cs1 Hc1) as (cs & Hc & Hl).
    exists cs. split; [done|]. exists (S n). cbn [sse_loop]. by rewrite Hl, El.
  - destruct IH as (Hs2 & cs1 & Hc1 & n & Hn). split; [by etrans|].
    destruct (Hcs cs1 Hc1) as (cs & Hc & Hl). exists cs. split; [done|]. exists (S n). cbn [sse_loop]. by rewrite Hl, El.
Qed.

(** The fuel of [next_sse] is enough on any chunks. *)
Lemma read_line_shrinks cs : forall pending line r',
  read_line_from pending cs = Ok (Some line, r') ->
  (reader_size r' < reader_size (mkReader pending cs))%nat.
Proof.
  unfold reader_size. induction cs as [|c cs IH]; intros pending line r'; cbn [read_line_from];
    destruct (find_char nl pending) as [e|] eqn:En.
  1, 3: apply find_char_Some in En as (s1 & s2 & Hp & Hl & _); intros [= _ <-]; cbn;
    rewrite length_drop, Hp, length_app; cbn; lia.
  - unfold at_end. case_bool_decide as Hp; [done|]. intros [= _ <-]. cbn. destruct pending; cbn; [done|lia].
  - destruct c as [b|x]; [|done]. destruct b as [|c b].
    + unfold at_end. case_bool_decide as Hp; [done|]. intros [= _ <-]. cbn.
      destruct pending; cbn; [done|lia].
    + destruct (sse_limit <? _); [done|]. intros H%IH. cbn in *. rewrite length_app in H. cbn in H. lia.
Qed.

Lemma sse_loop_enough n : forall acc r out fuel, sse_loop n acc r = Some out ->
  (reader_size r < fuel)%nat -> sse_loop fuel acc r = Some out.
Proof.
  induction n as [|n IH]; intros acc r out fuel H Hf; [done|].
  destruct fuel as [|fuel]; [lia|]. cbn [sse_loop] in *.
  destruct (read_line r) as [[[line|] r']|x] eqn:Er; [|done|done].
  destruct (sse_line acc line) as [acc'|]; [|done]. destruct r as [pending cs].
  apply read_line_shrinks in Er. cbn [pending_ chunks] in Er. eapply IH; [done|]. lia.
Qed.

Lemma sse_loop_next r n out : sse_loop n empty_event r = Some out -> next_sse r = out.
Proof. intros H. unfold next_sse. by rewrite (sse_loop_enough _ _ _ _ _ H) by lia. Qed.


(** Every event takes something from the stream. *)
Lemma stream_read_size s w read s' w' : stream_read s w = (Ok (read, s'), w') ->
  (length read + sum_list (win_length <$> st_reads s') <= sum_list (win_length <$> st_reads s))%nat.
Proof.
  intros H. pose proof (stream_read_run s w) as Hr. rewrite H in Hr.
  destruct Hr as (_ & [->|[-> ->]] & _); cbn; lia.
Qed.

Lemma stream_line_size fuel : forall pending s w line r' w',
  stream_line fuel pending s w = (Ok (line, r'), w') ->
  (stream_size r' <= stream_size (mkStreamReader pending s))%nat.
Proof.
  induction fuel as [|f IH]; intros pending s w line r' w'; cbn [stream_line];
    (destruct (find_char nl pending) as [e|] eqn:En;
      [rewrite run_ret; intros H; injection H as <- <- <-; unfold stream_size; cbn;
       rewrite length_drop; lia|]); [done|].
  intros H. apply run_bind_Ok in H as ([read s'] & w1 & Hr & H). apply stream_read_size in Hr.
  case_bool_decide.
  - rewrite run_ret in H. injection H as <- <- <-. unfold stream_size. cbn. lia.
  - case_match; [done|]. apply IH in H. unfold stream_size in *. cbn in *. rewrite length_app in H. lia.
Qed.

Lemma stream_loop_shrinks fuel : forall acc r w ev r' w',
  stream_loop fuel acc r w = (Ok (Some ev, r'), w') ->
  (stream_size r' < stream_size r)%nat \/ (stream_size r' <= stream_size r)%nat /\ data acc <> [].
Proof.
  induction fuel as [|f IH]; intros acc r w ev r' w' H; [done|]. cbn [stream_loop] in H.
  apply run_bind_Ok in H as ([line r1] & w1 & Hl & H).
  pose proof (read_stream_line_run r w) as Hr. rewrite Hl in Hr. destruct Hr as (_ & Hsz & _).
  destruct line as [line|].
  - specialize (Hsz ltac:(done)). left. destruct (sse_line acc line) as [acc'|].
    + apply IH in H as [?|[? _]]; lia.
    + rewrite run_ret in H. injection H as _ <- _. exact Hsz.
  - destruct r as [pending s]. apply stream_line_size in Hl. rewrite run_ret in H.
    injection H as H <- _. right. split; [exact Hl|]. unfold end_event in H. by case_bool_decide.
Qed.

Lemma next_stream_event_shrinks r w ev r' w' :
  next_stream_event r w = (Ok (Some ev, r'), w') -> (stream_size r' < stream_size r)%nat.
Proof. intros H. apply stream_loop_shrinks in H as [?|[_ ?]]; done. Qed.

Lemma steps_next_event R `{!Frame R} r : steps R (next_stream_event r).
Proof.
  assert (forall fuel pending s, steps R (stream_line fuel pending s)).
  { induction fuel as [|f IH]; intros pending s; cbn [stream_line]; walk. }
  assert (forall fuel acc r, steps R (stream_loop fuel acc r)).
  { induction fuel as [|f IH]; intros acc r'; cbn [stream_loop]; unfold read_stream_line; walk. }
  unfold next_stream_event. auto.
Qed.

(** What reading an event may throw. *)
Lemma read_line_throws pending cs x : read_line_from pending cs = Throw x ->
  Throw x ∈ cs \/ x = err Protocol 0 [] (&"SSE event exceeds size limit").
Proof.
  revert pending. induction cs as [|c cs IH]; intros pending; cbn [read_line_from];
    destruct (find_char nl pending); try done.
  - unfold at_end. by case_bool_decide.
  - destruct c as [[|c b]|y]; [unfold at_end; by case_bool_decide| |intros [= ->]; left; left].
    destruct (sse_limit <? _); [intros [= <-]; by right|]. intros [?|?]%IH; [left; by right|by right].
Qed.
End SseStream.
#[export] Hint Resolve steps_next_event : world.
