(* ===== verification/Cng.v ===== *)
(** * The calls of BCrypt ([src/internal/crypto.cpp])

    [Crypto] takes the primitives as functions.  Here the SDK's use of the CNG
    interface behind them is modelled call by call: any call may fail, handles
    are closed by their scopes, and data is hashed in pieces whose sizes are
    32 bits wide.  The theorems say when this computes the functions, and that
    no path leaks a handle or closes one twice. *)
From S2P Require Import Prelude StdString Errors Codec Scope Crypto World.

(** The resources: a provider, a hash object, a key, and the buffer in which
    CNG keeps the object. *)
Inductive Resource := Algorithm | HashObject | KeyObject | Buffer.

(** ** CNG

    The status of each call, and what its objects compute.  A hash object is
    created with a secret for an HMAC, is fed data, and is finished. *)
Class Cng := {
  cng_status : nat -> Z;
  cng_hash_state : Type;
  cng_create : option Bytes -> cng_hash_state;
  cng_hash_data : cng_hash_state -> Bytes -> cng_hash_state;
  cng_finish : cng_hash_state -> Bytes;
  cng_encrypt : Bytes -> Bytes -> Bytes -> Bytes -> Bytes * Bytes
                                            (* key, nonce, plaintext, aad: ciphertext, tag *)
}.

(** As documented: what was fed counts, not in which pieces. *)
Class CngLaws `{C : Crypto} (N : Cng) := {
  cng_sha256 pieces :
    cng_finish (foldl cng_hash_data (cng_create None) pieces) = bcrypt_sha256 (concat pieces);
  cng_hmac secret pieces :
    cng_finish (foldl cng_hash_data (cng_create (Some secret)) pieces) = hmac_sha256 secret (concat pieces);
  cng_gcm key nonce plaintext aad : cng_encrypt key nonce plaintext aad = bcrypt_aes_gcm key nonce plaintext aad
}.

Section Cng.
Context `{N : Cng}.

Abbreviation H := (H nat Resource).

(** One more call; its number selects the answer. *)
Definition next_call : H nat := lift_state (fun n => (Ok n, S n)).

(** [check_ntstatus(call, what)]. *)
Definition checked (what : text) : H unit :=
  n ← next_call; lift_result (check_ntstatus (cng_status n) what).

Definition with_algorithm {B} (what : text) (body : H B) : H B :=
  scoped Algorithm (checked what) (fun _ => body).

(** The size of the object is asked for, and a buffer of that size made. *)
Definition with_buffer {B} (what : text) (body : H B) : H B :=
  _ ← checked what; scoped Buffer (mret tt) (fun _ => body).

Definition with_hash {B} (secret : option Bytes) (what : text) (body : cng_hash_state -> H B) : H B :=
  scoped HashObject (_ ← checked what; mret (cng_create secret)) body.

Definition feed (h : cng_hash_state) (value : Bytes) (what : text) : H cng_hash_state :=
  _ ← checked what; mret (cng_hash_data h (ulong_prefix value)).

Definition feed_value (h : cng_hash_state) (value : Bytes) (what : text) : H cng_hash_state :=
  if bool_decide (value = []) then mret h else feed h value what.

Definition finish (h : cng_hash_state) (what : text) : H Bytes :=
  _ ← checked what; mret (cng_finish h).

Definition sha256_calls (value : Bytes) : H Bytes :=
  with_algorithm (&"BCryptOpenAlgorithmProvider(SHA256)")
    (with_buffer (&"BCryptGetProperty(SHA256 object)")
      (with_hash None (&"BCryptCreateHash(SHA256)") (fun h =>
         h ← feed_value h value (&"BCryptHashData(SHA256)");
         finish h (&"BCryptFinishHash(SHA256)")))).

Definition hmac_sha256_calls (key value : Bytes) : H Bytes :=
  with_algorithm (&"BCryptOpenAlgorithmProvider(HMAC-SHA256)")
    (with_buffer (&"BCryptGetProperty(HMAC object)")
      (with_hash (Some (ulong_prefix key)) (&"BCryptCreateHash(HMAC)") (fun h =>
         h ← feed_value h value (&"BCryptHashData(HMAC)");
         finish h (&"BCryptFinishHash(HMAC)")))).

(** *** A file in pieces

    [std::ifstream::read] of a buffer delivers what is left, up to the size of
    the buffer; a short read sets the state that ends the loop. *)
Definition buffer_size : nat := Pos.to_nat (128 * 1024).

(** [None] is a run out of fuel, which [computes_pieces] excludes. *)
Fixpoint hash_pieces (fuel : nat) (h : cng_hash_state) (rest : Bytes) : H (option cng_hash_state) :=
  match fuel with
  | O => mret None
  | S f =>
      let piece := take buffer_size rest in
      h ← (if bool_decide (piece = []) then mret h else feed h piece (&"BCryptHashData(SHA256 file)"));
      if (length piece <? buffer_size)%nat then mret (Some h)
      else hash_pieces f h (drop buffer_size rest)
  end.

(** [content]: what the stream delivers, when the file could be opened. *)
Definition sha256_file_calls (content : option Bytes) : H Bytes :=
  match content with
  | None => raise (err Integrity 0 (&"host_file_io_failed") (&"protected file read failed"))
  | Some content =>
      with_algorithm (&"BCryptOpenAlgorithmProvider(SHA256 file)")
        (with_buffer (&"BCryptGetProperty(SHA256 file)")
          (with_hash None (&"BCryptCreateHash(SHA256 file)") (fun h =>
             hashed ← hash_pieces (S (length content)) h content;
             h ← lift_result (of_option hashed (StdExn (&"unreachable")));
             finish h (&"BCryptFinishHash(SHA256 file)"))))
  end.

(** *** AES-256-GCM

    The output has room for the whole plaintext and the tag; the tag is put
    after the bytes that were written. *)
Definition gcm_output (plaintext : Bytes) (result : Bytes * Bytes) : Bytes :=
  let '(ciphertext, tag) := result in
  ciphertext ++ tag ++ replicate (length plaintext - length ciphertext) nul.

Definition aes256_gcm_calls (key nonce plaintext aad : Bytes) : H Bytes :=
  if negb (zlen key =? 32) || negb (zlen nonce =? 12) || (2 ^ 32 - 1 <? zlen aad)
  then raise (err Cryptographic 0 [] (&"AES-256-GCM parameters are invalid"))
  else
    with_algorithm (&"BCryptOpenAlgorithmProvider(AES)")
      (_ ← checked (&"BCryptSetProperty(AES-GCM)");
       with_buffer (&"BCryptGetProperty(AES object)")
         (scoped KeyObject (checked (&"BCryptGenerateSymmetricKey")) (fun _ =>
            _ ← checked (&"BCryptEncrypt(AES-GCM)");
            mret (gcm_output plaintext (cng_encrypt key nonce (ulong_prefix plaintext) aad))))).

(** * Lemmas *)

(** ** Tidiness *)

Lemma tidy_checked what : tidy (checked what).
Proof. unfold checked, next_call. tidying. Qed.
Hint Resolve tidy_checked : tidy.
Lemma tidy_feed h value what : tidy (feed h value what).
Proof. unfold feed. tidying. Qed.
Hint Resolve tidy_feed : tidy.
Lemma tidy_feed_value h value what : tidy (feed_value h value what).
Proof. unfold feed_value. tidying. Qed.
Lemma tidy_finish h what : tidy (finish h what).
Proof. unfold finish. tidying. Qed.
Lemma tidy_pieces fuel h rest : tidy (hash_pieces fuel h rest).
Proof. revert h rest. induction fuel as [|f IH]; intros h rest; cbn [hash_pieces]; tidying. Qed.
Hint Resolve tidy_feed_value tidy_finish tidy_pieces : tidy.

(** No handle leaks and none is closed twice: on every path of the
    hashes, the file hash and the encryption, whichever call fails, what was
    opened is closed exactly once and after everything that was opened later:
    the hash object or the key before the buffer that holds it, the buffer
    before the provider. *)
Theorem handles_are_scoped :
  (forall value, tidy (sha256_calls value)) /\ (forall key value, tidy (hmac_sha256_calls key value)) /\
  (forall content, tidy (sha256_file_calls content)) /\
  (forall key nonce plaintext aad, tidy (aes256_gcm_calls key nonce plaintext aad)).
Proof.
  split_and!; intros; unfold sha256_calls, hmac_sha256_calls, sha256_file_calls, aes256_gcm_calls,
    with_algorithm, with_buffer, with_hash; tidying.
Qed.

(** ** What the calls compute *)

(** [m] returns [a], or throws the status of a call that failed. *)
Definition computes {A} (m : H A) (a : A) : Prop := forall s,
  (m s).1 = Ok a \/
  exists n what x, cng_status n < 0 /\ check_ntstatus (cng_status n) what = Throw x /\ (m s).1 = Throw x.

Lemma computes_ret {A} (a : A) : computes (mret a) a.
Proof. intros s. by left. Qed.

Lemma computes_checked what : computes (checked what) tt.
Proof.
  intros s. unfold checked, next_call, lift_state, lift_result, mbind, H_bind. cbn.
  destruct (check_ntstatus (cng_status (sc_state s)) what) as [[]|x] eqn:Hc; [by left|right].
  exists (sc_state s), what, x. split_and!; [|done|done].
  unfold check_ntstatus in Hc. destruct (_ <? 0) eqn:E; [|done]. by breflect.
Qed.

Lemma computes_bind {A B} (m : H A) (f : A -> H B) a b :
  computes m a -> computes (f a) b -> computes (m ≫= f) b.
Proof.
  intros Hm Hf s. unfold mbind, H_bind. specialize (Hm s).
  destruct (m s) as [[a'|x] s']; cbn in Hm.
  - destruct Hm as [[= ->]|(n & what & x & _ & _ & ?)]; [apply Hf|done].
  - destruct Hm as [?|(n & what & y & Hn & Hc & [= ->])]; [done|right; by exists n, what, y].
Qed.

Lemma computes_scoped {A B} r (acquire : H A) (body : A -> H B) a b :
  computes acquire a -> computes (body a) b -> computes (scoped r acquire body) b.
Proof.
  intros Ha Hb s. unfold scoped. specialize (Ha s). destruct (acquire s) as [[a'|x] s1]; cbn in Ha.
  - destruct Ha as [[= ->]|(n & what & x & _ & _ & ?)]; [|done].
    specialize (Hb (emit (Opened r) s1).2). by destruct (body a (emit (Opened r) s1).2) as [result s2].
  - destruct Ha as [?|(n & what & y & Hn & Hc & [= ->])]; [done|right; by exists n, what, y].
Qed.

Lemma computes_feed h value what : computes (feed h value what) (cng_hash_data h (ulong_prefix value)).
Proof. unfold feed. eapply computes_bind; [apply computes_checked|apply computes_ret]. Qed.

Lemma computes_finish h what : computes (finish h what) (cng_finish h).
Proof. unfold finish. eapply computes_bind; [apply computes_checked|apply computes_ret]. Qed.

Lemma computes_hash secret open get create (body : cng_hash_state -> H Bytes) digest :
  computes (body (cng_create secret)) digest ->
  computes (with_algorithm open (with_buffer get (with_hash secret create body))) digest.
Proof.
  intros Hb. unfold with_algorithm, with_buffer, with_hash.
  eapply computes_scoped; [apply computes_checked|].
  eapply computes_bind; [apply computes_checked|]. eapply computes_scoped; [apply computes_ret|].
  eapply computes_scoped; [|exact Hb]. eapply computes_bind; [apply computes_checked|apply computes_ret].
Qed.

Lemma ulong_prefix_nil : ulong_prefix [] = [].
Proof. done. Qed.

Lemma zlen_ulong_prefix value : zlen (ulong_prefix value) = u32 (zlen value).
Proof.
  unfold ulong_prefix, zlen. rewrite length_take. unfold u32.
  pose proof (Z.mod_pos_bound (Z.of_nat (length value)) (2 ^ 32)).
  pose proof (Z.mod_le (Z.of_nat (length value)) (2 ^ 32)). lia.
Qed.

Lemma length_piece (rest : Bytes) : (length (take buffer_size rest) <= buffer_size)%nat.
Proof. rewrite length_take. lia. Qed.

Lemma buffer_small : Z.of_nat buffer_size < 2 ^ 32.
Proof. unfold buffer_size. lia. Qed.

Lemma computes_pieces fuel : forall h (rest : Bytes), (length rest < fuel)%nat -> exists pieces,
  concat pieces = rest /\ computes (hash_pieces fuel h rest) (Some (foldl cng_hash_data h pieces)).
Proof.
  induction fuel as [|f IH]; intros h rest Hf; [lia|]. cbn [hash_pieces].
  set (piece := take buffer_size rest).
  assert (zlen piece < 2 ^ 32) as Hsmall.
  { pose proof (length_piece rest). pose proof buffer_small. unfold zlen, piece. lia. }
  assert (exists first, concat first = piece /\
    computes (if bool_decide (piece = []) then mret h else feed h piece (&"BCryptHashData(SHA256 file)"))
      (foldl cng_hash_data h first)) as (first & Hfirst & Hc).
  { case_bool_decide as Hp; [exists []; split; [done|apply computes_ret]|].
    exists [piece]. split; [cbn; by rewrite app_nil_r|]. pose proof (computes_feed h piece (&"BCryptHashData(SHA256 file)")) as Hc.
    by rewrite ulong_prefix_small in Hc. }
  destruct (length piece <? buffer_size)%nat eqn:El.
  - apply Nat.ltb_lt in El. exists first. split; [|eapply computes_bind; [exact Hc|apply computes_ret]].
    rewrite Hfirst. apply take_ge. unfold piece in El. rewrite length_take in El. lia.
  - apply Nat.ltb_ge in El. assert (0 < buffer_size)%nat by (unfold buffer_size; lia).
    destruct (IH (foldl cng_hash_data h first) (drop buffer_size rest)) as (pieces & Hps & Hcs).
    { unfold piece in El. rewrite length_take in El. rewrite length_drop. lia. }
    exists (first ++ pieces). split.
    + rewrite concat_app, Hfirst, Hps. apply take_drop.
    + eapply computes_bind; [exact Hc|]. by rewrite foldl_app.
Qed.
End Cng.

Section Refinement.
Context `{C : Crypto} `{!CryptoLaws C} `{N : Cng} `{L : !CngLaws N}.

(** A value is hashed up to the length that 32 bits give. *)
Lemma sha256_calls_prefix value : computes (sha256_calls value) (sha256 value).
Proof using L.
  unfold sha256. apply computes_hash. unfold feed_value. case_bool_decide as Hv.
  - eapply computes_bind; [apply computes_ret|]. subst value. rewrite ulong_prefix_nil.
    rewrite <- (cng_sha256 []). apply computes_finish.
  - eapply computes_bind; [apply computes_feed|].
    pose proof (cng_sha256 [ulong_prefix value]) as Hs. cbn in Hs. rewrite app_nil_r in Hs.
    rewrite <- Hs. apply computes_finish.
Qed.

Lemma hmac_calls_small key value : zlen key < 2 ^ 32 -> zlen value < 2 ^ 32 ->
  computes (hmac_sha256_calls key value) (hmac_sha256 key value).
Proof using L.
  intros Hk Hv. unfold hmac_sha256_calls. rewrite (ulong_prefix_small key) by done.
  apply computes_hash. unfold feed_value. case_bool_decide as Hn.
  - eapply computes_bind; [apply computes_ret|]. subst value. rewrite <- (cng_hmac key []). apply computes_finish.
  - eapply computes_bind; [apply computes_feed|]. rewrite ulong_prefix_small by done.
    pose proof (cng_hmac key [value]) as Hs. cbn in Hs. rewrite app_nil_r in Hs.
    rewrite <- Hs. apply computes_finish.
Qed.

Lemma file_calls_digest content : computes (sha256_file_calls (Some content)) (bcrypt_sha256 content).
Proof using L.
  apply computes_hash.
  destruct (computes_pieces (S (length content)) (cng_create None) content) as (pieces & Hps & Hc); [lia|].
  eapply computes_bind; [exact Hc|]. eapply (computes_bind _ _ (foldl cng_hash_data (cng_create None) pieces)).
  - intros s. by left.
  - pose proof (cng_sha256 pieces) as Hs. rewrite Hps in Hs. rewrite <- Hs. apply computes_finish.
Qed.

Lemma gcm_calls_small key nonce plaintext aad output :
  zlen plaintext < 2 ^ 32 -> aes256_gcm_encrypt key nonce plaintext aad = Ok output ->
  computes (aes256_gcm_calls key nonce plaintext aad) output.
Proof using L CryptoLaws0.
  intros Hp H. unfold aes256_gcm_encrypt in H. unfold aes256_gcm_calls.
  destruct (_ || _); [done|]. unfold with_algorithm, with_buffer.
  rewrite ulong_prefix_small, cng_gcm by done.
  assert (gcm_output plaintext (bcrypt_aes_gcm key nonce plaintext aad) = output) as <-.
  { pose proof (aes_gcm_length key nonce plaintext aad) as Hl. unfold gcm_output.
    destruct (bcrypt_aes_gcm _ _ _ _) as [ct tag]. injection H as <-. unfold zlen in Hl. cbn in Hl.
    rewrite (Nat2Z.inj _ _ Hl), Nat.sub_diag. by rewrite app_nil_r. }
  eapply computes_scoped; [apply computes_checked|].
  eapply computes_bind; [apply computes_checked|]. eapply computes_bind; [apply computes_checked|].
  eapply computes_scoped; [apply computes_ret|]. eapply computes_scoped; [apply computes_checked|].
  eapply computes_bind; [apply computes_checked|apply computes_ret].
Qed.

(** C19: call by call, the SDK computes the functions that the rest of it
    relies on.  Whichever statuses CNG answers with, a hash, a keyed hash or
    an encryption of less than 4 GiB, and the hash of a file of any length
    read in pieces of 128 KiB, is that of [Crypto] on the whole input, or the
    error of a call that failed; a hash of any length is that of the size
    modulo 2^32 first bytes. *)
Theorem calls_refine_crypto :
  (forall value, zlen value < 2 ^ 32 -> computes (sha256_calls value) (bcrypt_sha256 value)) /\
  (forall value, computes (sha256_calls value) (sha256 value)) /\
  (forall key value, zlen key < 2 ^ 32 -> zlen value < 2 ^ 32 ->
     computes (hmac_sha256_calls key value) (hmac_sha256 key value)) /\
  (forall content, computes (sha256_file_calls (Some content)) (bcrypt_sha256 content)) /\
  (forall key nonce plaintext aad output, zlen plaintext < 2 ^ 32 ->
     aes256_gcm_encrypt key nonce plaintext aad = Ok output ->
     computes (aes256_gcm_calls key nonce plaintext aad) output).
Proof using L CryptoLaws0.
  split; [intros value Hv; rewrite <- (sha256_small value Hv); apply sha256_calls_prefix|].
  split; [exact sha256_calls_prefix|].
  split; [exact hmac_calls_small|split; [exact file_calls_digest|exact gcm_calls_small]].
Qed.

(** Beyond 4 GiB the size wraps: a value of 2^32 bytes more hashes as its
    beginning alone, so that the rest can be changed at will. *)
Theorem long_values_collide start rest : zlen rest = 2 ^ 32 -> zlen start < 2 ^ 32 ->
  computes (sha256_calls (start ++ rest)) (bcrypt_sha256 start).
Proof using L.
  intros Hr Hs. pose proof (sha256_calls_prefix (start ++ rest)) as H. unfold sha256 in H.
  assert (ulong_prefix (start ++ rest) = start) as Hp; [|by rewrite Hp in H].
  unfold ulong_prefix, u32. rewrite zlen_app, Hr. pose proof (zlen_nonneg start).
  replace (zlen start + 2 ^ 32) with (zlen start + 1 * 2 ^ 32) by lia.
  rewrite Z_mod_plus_full, Z.mod_small by lia. apply take_app_exact. unfold zlen. lia.
Qed.
End Refinement.
