(* ===== verification/StateStore.v ===== *)
(** * The protected state files ([src/internal/state_store.cpp]) *)
From S2P Require Import Prelude StdString Errors Codec Clock Keyring Types World Crypto.

Record StateStore := mkStore {
  app_id_ : text;
  directory_ : text;
  entropy_ : Bytes
}.

(** [directory / name]. *)
Definition slash_join (directory name : text) : text := directory ++ [backslash] ++ name.

Definition store_path (s : StateStore) (name : text) : text := slash_join (directory_ s) name.

Section Store.
Context `{C : Crypto} `{E : Env}.

(** The constructor. *)
Definition make_store (app_id override_directory : text) : M StateStore :=
  _ ← ensure (bool_decide (app_id <> [])) (err Configuration 0 [] (&"AppId is required"));
  let app_hash_hex := hex_lower (sha256 app_id) in
  directory ←
    (if bool_decide (override_directory = []) then
       match env_local_app_data with
       | None => throw (err Identity 0 [] (&"cannot resolve LocalAppData"))
       | Some root =>
           mret (slash_join (slash_join root (&"SwmSdk")) (substr app_hash_hex 0 12))
       end
     else mret (env_absolute override_directory));
  created ← call (fun n _ => env_create_directories n directory);
  _ ← ensure created (err Identity 0 [] (&"cannot create SDK state directory"));
  mret (mkStore app_id directory (sha256 (&"SwmSdkStateV2" ++ [nl] ++ app_id))).

(** The file, when it can be read and its size is accepted, decrypted. *)
Definition read_protected (s : StateStore) (name : text) : M (option Bytes) :=
  call (fun n w =>
    match w_files w !! store_path s name with
    | None => None
    | Some ciphertext =>
        if (zlen ciphertext <=? 0) || (1024 * 1024 <? zlen ciphertext) || negb (env_read_ok n)
        then None
        else env_unprotect (entropy_ s) ciphertext
    end).

Definition put_file (path : text) (content : Bytes) : M unit :=
  modify (fun w => set_files (<[path := content]> (w_files w)) w).
Definition remove_file (path : text) : M unit :=
  modify (fun w => set_files (delete path (w_files w)) w).

(** Encrypt, write beside the target, and replace the target.  When the target
    cannot be replaced, [std::filesystem::remove] of the temporary may throw
    instead, and leave it. *)
Definition write_protected (s : StateStore) (name : text) (plaintext : Bytes) : M unit :=
  protected ← call (fun n _ => env_protect n (entropy_ s) plaintext);
  match protected with
  | None => throw (err Identity 0 [] (&"DPAPI protection failed"))
  | Some ciphertext =>
      let target := store_path s name in
      let temporary := target ++ &".tmp" in
      outcome ← call (fun n _ => env_write n);
      landed ←
        match outcome with
        | Written => mret ciphertext
        | FlushLost k => mret (take k ciphertext)
        | WriteFailed k =>
            _ ← put_file temporary (take k ciphertext);
            throw (err Identity 0 [] (&"cannot write SDK state"))
        end;
      _ ← put_file temporary landed;
      moved ← call (fun n _ => env_move_ok n);
      if (moved : bool) then
        modify (fun w => set_files (<[target := landed]> (delete temporary (w_files w))) w)
      else
        removed ← call (fun n _ => env_file_ok n);
        if (removed : bool) then
          _ ← remove_file temporary;
          throw (err Identity 0 [] (&"cannot commit SDK state"))
        else throw (StdExn (&"remove"))
  end.

Definition erase (s : StateStore) (name : text) : M unit := remove_file (store_path s name).

End Store.

(** * Lemmas *)

(** DPAPI as documented: what was protected under an entropy is recovered
    under it. *)
Class Dpapi `{E : Env} := {
  unprotect_protect n e p c : env_protect n e p = Some c -> env_unprotect e c = Some p
}.

(** The state may change in the files below one path and its temporary. *)
Definition only_file (target : text) (w w' : World) : Prop :=
  w_keys w' = w_keys w /\ w_clock w' = w_clock w /\ w_pipe w' = w_pipe w /\ w_sent w' = w_sent w /\
  forall path, path <> target -> path <> target ++ &".tmp" -> w_files w' !! path = w_files w !! path.

#[global] Instance only_file_frame `{E : Env} target : Frame (only_file target).
Proof.
  split; [split|].
  - intros w. done.
  - intros w1 w2 w3 (? & ? & ? & ? & H) (? & ? & ? & ? & H'). split_and!; try congruence.
    intros path Hp Ht. by rewrite H', H.
  - intros extra w. done.
Qed.

Section StoreLemmas.
Context `{C : Crypto} `{E : Env}.

Lemma put_file_only target path content :
  path = target \/ path = target ++ &".tmp" -> steps (only_file target) (put_file path content).
Proof.
  intros Hp w. split_and!; try done. intros q H1 H2. cbn. apply lookup_insert_ne. naive_solver.
Qed.

Lemma remove_file_only target path :
  path = target \/ path = target ++ &".tmp" -> steps (only_file target) (remove_file path).
Proof.
  intros Hp w. split_and!; try done. intros q H1 H2. cbn. apply lookup_delete_ne. naive_solver.
Qed.

Lemma write_protected_only s name plaintext :
  steps (only_file (store_path s name)) (write_protected s name plaintext).
Proof.
  pose proof put_file_only. pose proof remove_file_only. unfold write_protected. walk.
  - apply steps_modify. intros w. split_and!; try done. intros q Hq1 Hq2. cbn.
    rewrite lookup_insert_ne, lookup_delete_ne by done. done.
Qed.

Lemma tmp_ne (target : text) : target <> target ++ &".tmp".
Proof.
  intros H. apply (f_equal length) in H. rewrite length_app in H.
  change (length (&".tmp")) with 4%nat in H. lia.
Qed.

(** A file of the store that a write returned for although the closing flush
    had failed: a beginning of the ciphertext that was meant. *)
Definition cut_by_flush (s : StateStore) (name plaintext : text) (w : World) : Prop :=
  exists n k ciphertext,
    env_protect n (entropy_ s) plaintext = Some ciphertext /\ env_write (S n) = FlushLost k /\
    w_files w !! store_path s name = Some (take k ciphertext).

(** The outcomes of a write on its target: untouched when it throws, and what
    landed on disk when it returns. *)
Lemma write_protected_target s name plaintext w :
  match write_protected s name plaintext w with
  | (Throw x, w') => w_files w' !! store_path s name = w_files w !! store_path s name
  | (Ok _, w') => exists ciphertext,
      env_protect (w_step w) (entropy_ s) plaintext = Some ciphertext /\
      match env_write (S (w_step w)) with
      | Written => w_files w' !! store_path s name = Some ciphertext
      | FlushLost k => w_files w' !! store_path s name = Some (take k ciphertext)
      | WriteFailed _ => False
      end
  end.
Proof.
  pose proof (tmp_ne (store_path s name)) as Hne.
  unfold write_protected, call. rewrite run_bind. cbn [fst snd].
  destruct (env_protect _ _ _) as [ciphertext|]; [|done].
  rewrite run_bind. cbn [fst snd]. change (w_step (advance 0 w)) with (S (w_step w)).
  destruct (env_write (S (w_step w))) as [|k|k] eqn:Eo; repeat (rewrite run_bind; cbn).
  - destruct (env_move_ok _); cbn; [exists ciphertext; by simplify_map_eq|].
    rewrite run_bind. cbn. destruct (env_file_ok _); cbn; by simplify_map_eq.
  - by simplify_map_eq.
  - destruct (env_move_ok _); cbn; [exists ciphertext; by simplify_map_eq|].
    rewrite run_bind. cbn. destruct (env_file_ok _); cbn; by simplify_map_eq.
Qed.

(** A write that returned has replaced the file by the whole ciphertext, or the
    file is cut. *)
Lemma write_protected_landed s name plaintext w u w' :
  write_protected s name plaintext w = (Ok u, w') -> exists ciphertext,
    env_protect (w_step w) (entropy_ s) plaintext = Some ciphertext /\
    (w_files w' !! store_path s name = Some ciphertext \/ cut_by_flush s name plaintext w').
Proof.
  intros H. pose proof (write_protected_target s name plaintext w) as Ht. rewrite H in Ht.
  destruct Ht as (c & Hc & Hw). exists c. split; [done|].
  destruct (env_write _) as [|k|k] eqn:Eo; [by left|done|right]. by exists (w_step w), k, c.
Qed.

Lemma no_cut_file s name plaintext w :
  (forall n k, env_write n <> FlushLost k) -> ~ cut_by_flush s name plaintext w.
Proof. intros Hd (n & k & c & _ & Hk & _). by apply Hd in Hk. Qed.

Lemma read_protected_run s name w :
  exists r, read_protected s name w = (Ok r, advance 0 w).
Proof. eexists. reflexivity. Qed.

(** C37: what a write of the state can do to the disk.  No other file of the
    store changes.  When the disk takes the bytes, the write returns with the
    whole new ciphertext in place of the file, and the new plaintext is read
    back, or it throws and the previous file is still in place; when the
    stream reports an error it throws and the previous file is in place; and
    only when the error comes at the closing flush, which the code does not
    see, may it return and leave a beginning of the ciphertext. *)
Theorem write_protected_outcomes `{!Dpapi} s name plaintext w :
  let run := write_protected s name plaintext w in
  only_file (store_path s name) w run.2 /\
  match run.1 with
  | Throw _ => w_files run.2 !! store_path s name = w_files w !! store_path s name
  | Ok _ => exists ciphertext,
      env_protect (w_step w) (entropy_ s) plaintext = Some ciphertext /\
      match env_write (S (w_step w)) with
      | Written => w_files run.2 !! store_path s name = Some ciphertext /\
          (0 < zlen ciphertext <= 1024 * 1024 -> env_read_ok (w_step run.2) = true ->
           (read_protected s name run.2).1 = Ok (Some plaintext))
      | WriteFailed _ => False
      | FlushLost k => w_files run.2 !! store_path s name = Some (take k ciphertext)
      end
  end.
Proof.
  intros run. split; [apply write_protected_only|].
  pose proof (write_protected_target s name plaintext w) as Ht. fold run in Ht.
  destruct run as [[u|x] w']; cbn [fst snd]; [|done].
  destruct Ht as (c & Hc & Hw). exists c. split; [done|].
  destruct (env_write _) as [|k|k]; [|done..]. split; [done|]. intros Hsz Hok.
  unfold read_protected, call. cbn. rewrite Hw.
  rewrite (proj2 (Z.leb_gt _ _)), (proj2 (Z.ltb_ge _ _)), Hok by lia. cbn.
  by rewrite (unprotect_protect _ _ _ _ Hc).
Qed.

End StoreLemmas.
