(* ===== verification/HostIntegrity.v ===== *)
(** * Host integrity ([src/internal/host_integrity.cpp])

    The evidence about the files of the package, from a signed RIM2 manifest
    or from the application's own provider, and the cached policy that says
    whether the evidence is required. *)
From S2P Require Import Prelude StdString Errors Codec Json Rim2 Types Crypto Clock Keyring.
From S2P Require Import World Http StateStore.

Definition policy_file : text := &"integrity-policy.bin".
Definition policy_header : text := &"SwmSdkIntegrityPolicyV1".

Definition join_lines (lines : list text) : text := flat_map (fun line => line ++ [nl]) lines.

(** The first [n] lines of a text, when it has them. *)
Fixpoint read_lines (n : nat) (txt : text) : option (list text) :=
  match n with
  | O => Some []
  | S n => '(line, rest) ← getline txt; lines ← read_lines n rest; Some (line :: lines)
  end.

(** [root / relative]: a separator unless the root ends with one. *)
Definition path_join (root relative : text) : text :=
  match last root with
  | None => relative
  | Some c => if bool_decide (c ∈ ["/"%char; backslash; ":"%char]) then root ++ relative
              else slash_join root relative
  end.

Definition unsafe_path (what : text) : Exn := err Integrity 0 (&"host_unsafe_path") what.
Definition manifest_error (code what : text) : Exn := err Integrity 0 code what.

Definition forward_slash_to_back (c : ascii) : ascii :=
  if bool_decide (c = "/"%char) then backslash else c.

Definition evidence_failed (code : text) : IntegrityEvidence :=
  {| ie_state := &"failed"; ie_failure_code := code; ie_evidence_version := None;
     ie_manifest_sha256 := []; ie_files := ∅ |}.

Definition internal_error : text := &"host_integrity_internal_error".

(** The map of [result["integrity_files"]], members that are not strings left out. *)
Definition string_members (l : list (text * Json)) : StringMap :=
  foldl (fun m '(k, v) => match v with JString s => <[k := s]> m | _ => m end) ∅ l.

(** The answer of an evidence provider. *)
Definition provided_evidence (result : Json) : Result IntegrityEvidence :=
  state ← json_get_string result (&"integrity_state") false;
  failure ← json_get_string result (&"integrity_failure_code") false;
  let evidence_version := match json_find result (&"integrity_evidence_version") with
                          | Some (JUint z) => Some (u32 z)
                          | _ => None
                          end in
  manifest ← json_get_string result (&"integrity_manifest_sha256") false;
  let files := match json_find result (&"integrity_files") with
               | Some (JObject l) => string_members l
               | _ => ∅
               end in
  Ok {| ie_state := state; ie_failure_code := failure; ie_evidence_version := evidence_version;
        ie_manifest_sha256 := manifest; ie_files := files |}.

Section HostIntegrity.
Context `{C : Crypto} `{E : Env}.
Context (options : ClientOptions) (store : StateStore).

(** ** Paths and files *)

Definition package_root : M text :=
  if negb (bool_decide (hio_package_root (host_integrity options) = []))
  then mret (env_absolute (hio_package_root (host_integrity options)))
  else call (fun n _ => env_current_path n).

Definition safe_join (root relative : text) : Result text :=
  _ ← require (negb (bool_decide (relative = []) || bool_decide (head relative = Some "/"%char) ||
                     bool_decide (head relative = Some backslash) ||
                     bool_decide (":"%char ∈ relative) ||
                     bool_decide (is_Some (find_sub (&"..") relative))))
        (unsafe_path (&"integrity path is unsafe"));
  let path := env_absolute (path_join root (forward_slash_to_back <$> relative)) in
  let root_text := env_absolute root in
  _ ← require (negb ((zlen path <=? zlen root_text) ||
                     negb (starts_with (lower_ascii root_text) (lower_ascii path))))
        (unsafe_path (&"integrity path escapes package root"));
  Ok path.

(** [sha256_file]: the digest of the bytes that the stream delivers. *)
Definition hash_file (path : text) : M Bytes :=
  content ← call (fun n _ => env_read_file n path);
  match content with
  | None => throw (manifest_error (&"host_file_io_failed") (&"protected file read failed"))
  | Some b => mret (bcrypt_sha256 b)
  end.

(** ** The manifest, loaded once *)

Definition expected_release : Expected :=
  mkExpected (app_id options) (release_id options) (version options) (version_code options)
    (arch options) (root_trust_key_id options).

Definition load_manifest : M Rim2Manifest :=
  p ← get_pipe;
  match p_manifest p with
  | Some m => mret m
  | None =>
      root ← package_root;
      path ← lift (safe_join root (hio_manifest_path (host_integrity options)));
      size ← call (fun n _ => env_file_size n path);
      match size with
      | None => throw (manifest_error (&"host_manifest_missing") (&"RIM2 manifest is missing"))
      | Some size =>
          if (size <=? 0) || (64 * 1024 <? size)
          then throw (manifest_error (&"host_manifest_invalid") (&"RIM2 manifest size is invalid"))
          else
            content ← call (fun n _ => env_read_file n path);
            let raw := take (Z.to_nat size) (default [] content) in
            if zlen raw <? size
            then throw (manifest_error (&"host_file_io_failed") (&"RIM2 manifest read failed"))
            else
              m ← lift (parse_rim2 raw expected_release (root_trust_public_key options));
              _ ← put_pipe (with_manifest (Some m));
              mret m
      end
  end.

(** ** Evidence *)

(** The files of the manifest; [None] when the file system cannot tell. *)
Fixpoint hash_files (files : list Rim2File) (hashes : StringMap) : M (option StringMap) :=
  match files with
  | [] => mret (Some hashes)
  | file :: rest =>
      root ← package_root;
      path ← lift (safe_join root (Rim2.path file));
      exists_ ← call (fun n _ => env_exists n path);
      match exists_ with
      | None => mret None
      | Some false => hash_files rest hashes
      | Some true =>
          digest ← hash_file path;
          hash_files rest (<[Rim2.path file := hex_lower digest]> hashes)
      end
  end.

Definition built_in_evidence : M IntegrityEvidence :=
  manifest ← load_manifest;
  hashes ← hash_files (files manifest) ∅;
  mret (match hashes with
        | None => evidence_failed (&"host_file_io_failed")
        | Some hashes =>
            {| ie_state := &"verified"; ie_failure_code := []; ie_evidence_version := Some 2;
               ie_manifest_sha256 := manifest_sha256 manifest; ie_files := hashes |}
        end).

Definition provider_context (root : text) : Json :=
  json_object
    [(&"app_id", JString (app_id options)); (&"release_id", JString (release_id options));
     (&"version", JString (version options)); (&"version_code", JInt (default 0 (version_code options)));
     (&"arch", JString (arch options)); (&"package_root", JString root);
     (&"manifest_path", JString (hio_manifest_path (host_integrity options)))].

Definition evidence : M (option IntegrityEvidence) :=
  match hio_evidence_provider (host_integrity options) with
  | Some provider =>
      try_catch
        (root ← package_root;
         result ← lift (provider (provider_context root));
         output ← lift (provided_evidence result);
         mret (Some output))
        (fun _ => mret (Some (evidence_failed internal_error)))
  | None =>
      if negb (hio_enabled (host_integrity options)) then mret None
      else
        try_catch (e ← built_in_evidence; mret (Some e))
          (fun x => match x with
                    | Swm e => mret (Some (evidence_failed
                        (if bool_decide (service_code e = []) then internal_error
                         else service_code e)))
                    | StdExn _ => throw x
                    end)
  end.

Definition required_evidence : M IntegrityEvidence :=
  result ← evidence;
  match result with
  | Some e =>
      if bool_decide (ie_state e = &"failed")
      then throw (err Integrity 0 (ie_failure_code e) (&"host integrity validation failed"))
      else mret e
  | None => mret no_evidence
  end.

Definition resolve_operation_hashes (request : OperationAuthorizationRequest) : M (text * text) :=
  if bool_decide (host_executable_path request = []) ||
     bool_decide (consumer_module_path request = [])
  then throw (err Configuration 0 [] (&"host and consumer paths are required"))
  else
    host ← hash_file (host_executable_path request);
    consumer ← hash_file (consumer_module_path request);
    mret (hex_lower host, hex_lower consumer).

(** ** The cached policy *)

Definition policy_version : text := to_string (default 0 (version_code options)).

Definition policy_lines (required : bool) (tick : Z) : list text :=
  [policy_header; if required then &"1" else &"0"; app_id options; release_id options;
   policy_version; to_string tick].

Definition parse_policy (txt : text) : option bool :=
  match read_lines 5 txt with
  | Some [header; required; app; release; version_code] =>
      if bool_decide (header = policy_header) && bool_decide (app = app_id options) &&
         bool_decide (release = release_id options) && bool_decide (version_code = policy_version)
      then if bool_decide (required = &"1") then Some true
           else if bool_decide (required = &"0") then Some false else None
      else None
  | _ => None
  end.

Definition read_cached_policy : M (option bool) :=
  plaintext ← read_protected store policy_file;
  mret (plaintext ≫= parse_policy).

Definition store_policy (required : bool) : M unit :=
  tick ← tick_ms;
  write_protected store policy_file (join_lines (policy_lines required tick)).

(** [RequestPipeline::set_host_integrity_required] and the policy part of its
    constructor. *)
Definition set_host_integrity_required (required : bool) : M unit :=
  _ ← put_pipe (with_required required);
  store_policy required.

Definition load_policy : M unit :=
  cached ← read_cached_policy;
  match cached with Some required => put_pipe (with_required required) | None => mret tt end.

End HostIntegrity.

(** * Lemmas *)

Lemma read_lines_join lines rest : Forall (fun l => nl ∉ l) lines ->
  read_lines (length lines) (join_lines lines ++ rest) = Some lines.
Proof.
  induction 1 as [|l lines Hl Hls IH]; [done|]. cbn [length read_lines].
  change (join_lines (l :: lines)) with ((l ++ [nl]) ++ join_lines lines).
  rewrite <- !app_assoc. cbn [app]. rewrite getline_app by done. cbn [mbind option_bind].
  by rewrite IH.
Qed.

Lemma policy_version_no_nl options : nl ∉ policy_version options.
Proof. unfold policy_version. auto with swm. Qed.

Section Policy.
Context `{C : Crypto} `{E : Env} (options : ClientOptions) (store : StateStore).
Context (app_line : nl ∉ app_id options) (release_line : nl ∉ release_id options).

Lemma parse_policy_lines options' required tick :
  parse_policy options' (join_lines (policy_lines options required tick)) =
  if bool_decide (app_id options = app_id options') &&
     bool_decide (release_id options = release_id options') &&
     bool_decide (policy_version options = policy_version options') then Some required else None.
Proof using app_line release_line.
  unfold parse_policy, policy_lines, join_lines.
  set (lines := [policy_header; if required then &"1" else &"0"; app_id options; release_id options;
                 policy_version options]).
  change (flat_map _ _) with (flat_map (fun line => line ++ [nl]) (lines ++ [to_string tick])).
  rewrite flat_map_app. change 5%nat with (length lines).
  change (flat_map (fun line => line ++ [nl]) lines) with (join_lines lines).
  rewrite read_lines_join.
  - unfold lines. rewrite bool_decide_true by done. cbn [andb]. case_match; [|done].
    by destruct required.
  - unfold lines. repeat (apply Forall_cons; split); try apply Forall_nil_2; try done.
    + apply (bool_decide_eq_false (_ ∈ _)). vm_compute. reflexivity.
    + apply (bool_decide_eq_false (_ ∈ _)). destruct required; vm_compute; reflexivity.
    + apply policy_version_no_nl.
Qed.

(** The stored policy is read back by a client of the same application,
    release and version code as it was stored, and a client of any other reads
    no policy at all; the time of the write does not matter. *)
Theorem policy_roundtrip `{!Dpapi} options' required w w1 w2 :
  (forall n k, env_write n <> FlushLost k) ->
  store_policy options store required w = (Ok tt, w1) ->
  (forall c, w_files w1 !! store_path store policy_file = Some c -> 0 < zlen c <= 1024 * 1024) ->
  w_files w2 !! store_path store policy_file = w_files w1 !! store_path store policy_file ->
  env_read_ok (w_step w2) = true ->
  read_cached_policy options' store w2 =
    (Ok (if bool_decide (app_id options = app_id options') &&
            bool_decide (release_id options = release_id options') &&
            bool_decide (policy_version options = policy_version options')
         then Some required else None), advance 0 w2).
Proof using app_line release_line.
  intros Hflush Hrun Hsize Hfile Hok. unfold store_policy in Hrun.
  apply run_bind_Ok in Hrun as (tick & w0 & _ & Hrun).
  destruct (write_protected_landed _ _ _ _ _ _ Hrun) as (c & Hc & [Hf|Hcut]);
    [|by apply no_cut_file in Hcut].
  unfold read_cached_policy. rewrite run_bind. unfold read_protected at 1, call.
  apply Hsize in Hf as Hs. rewrite Hfile, Hf.
  rewrite (proj2 (Z.leb_gt _ _)), (proj2 (Z.ltb_ge _ _)), Hok by lia. cbn [orb negb].
  rewrite (unprotect_protect _ _ _ _ Hc), run_ret. cbn [mbind option_bind].
  by rewrite parse_policy_lines.
Qed.
End Policy.

Section Evidence.
Context `{C : Crypto} `{E : Env} (options : ClientOptions).

(** The configured package root, or the current directory when none is
    configured. *)
Definition is_root (root : text) : Prop :=
  if bool_decide (hio_package_root (host_integrity options) = [])
  then exists n, root = env_current_path n
  else root = env_absolute (hio_package_root (host_integrity options)).

(** Where the file with a relative name is looked for. *)
Definition package_path (relative full : text) : Prop :=
  exists root, is_root root /\ safe_join root relative = Ok full.

Lemma package_root_is w root w' : package_root options w = (Ok root, w') -> is_root root.
Proof. unfold package_root, is_root. case_bool_decide; cbn [negb]; intros [= <- _]; eauto. Qed.

Lemma hash_file_run path w d w' : hash_file path w = (Ok d, w') ->
  exists n content, env_read_file n path = Some content /\ d = bcrypt_sha256 content.
Proof.
  unfold hash_file. intros H. apply run_bind_Ok in H as (content & w1 & Hc & H).
  injection Hc as Hc _. destruct content as [b|]; [|done]. rewrite run_ret in H. injection H as <- _.
  by exists (w_step w), b.
Qed.

(** What [hash_files] adds for a list of files. *)
Record hashed (files : list Rim2File) (h0 h : StringMap) : Prop := {
  ha_found path d : h !! path = Some d -> h0 !! path = Some d \/
    exists file full n content, file ∈ files /\ Rim2.path file = path /\ package_path path full /\
      env_read_file n full = Some content /\ d = hex_lower (bcrypt_sha256 content);
  ha_kept path : is_Some (h0 !! path) -> is_Some (h !! path);
  ha_missing file : file ∈ files -> is_Some (h !! Rim2.path file) \/
    exists full n, package_path (Rim2.path file) full /\ env_exists n full = Some false
}.

Lemma hash_files_run l h0 w h w' : hash_files options l h0 w = (Ok (Some h), w') -> hashed l h0 h.
Proof.
  revert h0 w. induction l as [|file l IH]; intros h0 w H; cbn [hash_files] in H.
  { rewrite run_ret in H. injection H as -> ->.
    split; [by left|done|by intros ? ?%elem_of_nil]. }
  apply run_bind_Ok in H as (root & w1 & Hroot & H). apply package_root_is in Hroot.
  apply run_bind_Ok in H as (full & w2 & Hfull & H). apply run_lift_Ok in Hfull as [Hfull ->].
  assert (package_path (Rim2.path file) full) as Hpath by (by exists root).
  apply run_bind_Ok in H as (ex & w3 & Hex & H). injection Hex as Hex _.
  destruct ex as [[|]|]; [| |done].
  - apply run_bind_Ok in H as (d & w4 & Hd & H). apply hash_file_run in Hd as (n & content & Hc & ->).
    apply IH in H as [Hf Hk Hm]. split.
    + intros path d [Hi|(f' & ? & ? & ? & ? & ?)]%Hf; [|right; exists f'; set_solver].
      apply lookup_insert_Some in Hi as [[<- <-]|[_ Hi]]; [|by left].
      right. exists file, full, n, content. split; [by left|done].
    + intros path Hp. apply Hk. destruct (decide (path = Rim2.path file)) as [->|Hne].
      * rewrite lookup_insert_eq. eauto.
      * by rewrite lookup_insert_ne.
    + intros f' [->|Hin]%elem_of_cons; [|by apply Hm]. left. apply Hk. rewrite lookup_insert_eq. eauto.
  - apply IH in H as [Hf Hk Hm]. split; [|done|].
    + intros path d [Hi|(f' & ? & ? & ? & ? & ?)]%Hf; [by left|right; exists f'; set_solver].
    + intros f' [->|Hin]%elem_of_cons; [|by apply Hm]. right. exists full. eexists. by split.
Qed.

(** The cached manifest was parsed for this release. *)
Definition manifest_cached (w : World) : Prop :=
  forall m, p_manifest (w_pipe w) = Some m ->
  exists raw, parse_rim2 raw (expected_release options) (root_trust_public_key options) = Ok m.

Lemma load_manifest_run w m w' : manifest_cached w -> load_manifest options w = (Ok m, w') ->
  manifest_cached w' /\
  exists raw, parse_rim2 raw (expected_release options) (root_trust_public_key options) = Ok m.
Proof.
  intros Hc H. unfold load_manifest in H. rewrite run_bind in H. cbn [get_pipe] in H.
  destruct (p_manifest (w_pipe w)) as [m0|] eqn:Em.
  { rewrite run_ret in H. injection H as -> ->. split; [done|by apply Hc]. }
  apply run_bind_Ok in H as (root & w1 & _ & H). apply run_bind_Ok in H as (path & w2 & _ & H).
  apply run_bind_Ok in H as (size & w3 & _ & H). destruct size as [size|]; [|done].
  case_match; [done|]. apply run_bind_Ok in H as (content & w4 & _ & H). case_match; [done|].
  apply run_bind_Ok in H as (m1 & w5 & Hm & H). apply run_lift_Ok in Hm as [Hm ->].
  apply run_bind_Ok in H as ([] & w6 & Hput & H). rewrite run_ret in H. injection H as -> ->.
  injection Hput as <-. split; [|eauto]. intros m' Hm'. cbn in Hm'. injection Hm' as <-. eauto.
Qed.

Lemma evidence_manifest w r w' : manifest_cached w -> 
  hio_evidence_provider (host_integrity options) = None ->
  evidence options w = (Ok (Some r), w') -> ie_state r = &"verified" ->
  exists raw m, parse_rim2 raw (expected_release options) (root_trust_public_key options) = Ok m /\
    ie_manifest_sha256 r = manifest_sha256 m /\ hashed (files m) ∅ (ie_files r).
Proof.
  intros Hc Hp H Hv. unfold evidence in H. rewrite Hp in H. case_match; [done|].
  unfold try_catch in H. rewrite run_bind in H.
  destruct (built_in_evidence options w) as [[e|x] w1] eqn:Eb; last first.
  { destruct x as [x|]; [|done]. rewrite run_ret in H. injection H as <- _. by vm_compute in Hv. }
  rewrite run_ret in H. injection H as <- _. unfold built_in_evidence in Eb.
  apply run_bind_Ok in Eb as (m & w2 & Hm & Eb). apply load_manifest_run in Hm as [_ [raw Hraw]]; [|done].
  apply run_bind_Ok in Eb as (hashes & w3 & Hh & Eb). rewrite run_ret in Eb. injection Eb as <- _.
  destruct hashes as [h|]; last first.
  { by vm_compute in Hv. }
  exists raw, m. split_and!; [done|done|]. cbn. by eapply hash_files_run.
Qed.

(** C26: evidence that says "verified" is about an authentic manifest of this
    release (one that [parse_rim2] accepts) and gives its digest; every hash in
    it is the SHA-256 of the bytes read from the package path of a file of that
    manifest, and a file of the manifest is left out only when it was missing. *)
Theorem verified_evidence w r w' : manifest_cached w ->
  hio_evidence_provider (host_integrity options) = None ->
  evidence options w = (Ok (Some r), w') -> ie_state r = &"verified" ->
  exists raw m, parse_rim2 raw (expected_release options) (root_trust_public_key options) = Ok m /\
    ie_manifest_sha256 r = sha256_hex raw /\
    (forall path d, ie_files r !! path = Some d -> exists file full n content,
       file ∈ files m /\ Rim2.path file = path /\ package_path path full /\
       env_read_file n full = Some content /\ d = hex_lower (bcrypt_sha256 content)) /\
    (forall file, file ∈ files m -> is_Some (ie_files r !! Rim2.path file) \/
       exists full n, package_path (Rim2.path file) full /\ env_exists n full = Some false).
Proof.
  intros Hc Hp H Hv. destruct (evidence_manifest _ _ _ Hc Hp H Hv) as (raw & m & Hm & Hd & [Hf _ Hmiss]).
  exists raw, m. destruct (parse_rim2_matches _ _ _ _ Hm) as (b & t & _ & Hview).
  split_and!; [done|by rewrite Hd, Hview| |done].
  intros path d [Hi|Hi]%Hf; [done|]. done.
Qed.

(** The pipeline keeps its own copy of the options, made before [Client]
    fills in a missing [arch].  With [arch] left empty every manifest for x86
    or x64 is refused, and no evidence is ever "verified" by one, although the
    server is told the filled-in architecture. *)
Theorem empty_arch_never_verifies : arch options = [] ->
  (forall raw m, parse_rim2 raw (expected_release options) (root_trust_public_key options) = Ok m ->
     rm_arch m <> &"x86" /\ rm_arch m <> &"x64") /\
  (forall w r w', manifest_cached w -> hio_evidence_provider (host_integrity options) = None ->
     evidence options w = (Ok (Some r), w') -> ie_state r = &"verified" ->
     exists raw m, ie_manifest_sha256 r = sha256_hex raw /\
       parse_rim2 raw (expected_release options) (root_trust_public_key options) = Ok m /\
       rm_arch m = []).
Proof.
  intros Ha.
  assert (forall raw m, parse_rim2 raw (expected_release options) (root_trust_public_key options) = Ok m ->
    rm_arch m = [] /\ manifest_sha256 m = sha256_hex raw) as Hno.
  { intros raw m Hm. destruct (parse_rim2_matches _ _ _ _ Hm) as (b & t & Hmatch & ->).
    unfold matches, expected_release in Hmatch. cbn in Hmatch. rewrite Ha in Hmatch. breflect.
    split; [|done]. cbn. match goal with H : b_architecture b = _ |- _ => rewrite H end. done. }
  split.
  - intros raw m [-> _]%Hno. done.
  - intros w r w' Hc Hp H Hv. destruct (evidence_manifest _ _ _ Hc Hp H Hv) as (raw & m & Hm & Hd & _).
    exists raw, m. destruct (Hno _ _ Hm) as [? Hs]. rewrite Hd. done.
Qed.

(** What is joined to the package root stays below it: a path that
    [safe_join] returns is longer than the root, begins with it up to the case
    of letters, and comes from a name without a drive or a parent step. *)
Theorem safe_join_below root relative path : safe_join root relative = Ok path ->
  zlen (env_absolute root) < zlen path /\
  (exists rest, lower_ascii path = lower_ascii (env_absolute root) ++ rest) /\
  path = env_absolute (path_join root (forward_slash_to_back <$> relative)) /\
  ":"%char ∉ relative /\ find_sub (&"..") relative = None.
Proof.
  unfold safe_join. intros H. inv_ok.
  repeat match goal with H : negb (_ || _) = true |- _ =>
    apply negb_true_iff in H; repeat apply orb_false_iff in H as [H ?] end. breflect.
  split_and!; try done.
  - by apply starts_with_true.
  - destruct (find_sub _ _); [|done]. exfalso. eauto.
Qed.
End Evidence.
