(* ===== verification/Multipart.v ===== *)
(** * Feedback as multipart form data ([src/internal/multipart.cpp])

    The payload of [submit_feedback], and a reader of multipart bodies that
    gets back every field as it was meant. *)
From S2P Require Import Prelude StdString Errors Codec Json Types Crypto Clock Keyring World Http.

Record MultipartPayload := mkPayload { mp_body : Bytes; mp_content_type : text }.

Definition quote_text : text := [quote].
Definition crlf2 : text := crlf ++ crlf.

Definition escape_multipart_name (value : text) : text :=
  flat_map (fun c =>
    if bool_decide (c = quote) then &"%22"
    else if bool_decide (c = cr) || bool_decide (c = nl) then [] else [c]) value.

Definition configuration_error (what : text) : Exn := err Configuration 0 [] what.

(** [path.filename()]: what follows the last separator or drive colon. *)
Definition is_separator (c : ascii) : bool := bool_decide (c ∈ ["/"%char; backslash; ":"%char]).
Fixpoint filename (p : text) : text :=
  match p with
  | [] => []
  | c :: rest => if existsb is_separator p then filename rest else p
  end.

Definition boundary_dashes : text := replicate 28 "-"%char.

Definition boundary_line (boundary : text) : text := &"--" ++ boundary ++ crlf.

(** The headers of a field and of an attachment. *)
Definition disposition (name : text) : text :=
  &"Content-Disposition: form-data; name=" ++ quote_text ++ escape_multipart_name name ++ quote_text.
Definition file_disposition (name : text) : text :=
  &"Content-Disposition: form-data; name=" ++ quote_text ++ &"attachments" ++ quote_text ++
  &"; filename=" ++ quote_text ++ escape_multipart_name name ++ quote_text ++ crlf ++
  &"Content-Type: application/octet-stream".

Definition field (boundary name value : text) : Bytes :=
  boundary_line boundary ++ disposition name ++ crlf2 ++ value ++ crlf.

Definition optional_field (boundary name value : text) : Bytes :=
  if bool_decide (value = []) then [] else field boundary name value.

(** [metadata.dump()] of an object that is not empty. *)
Definition metadata_field `{J : JsonLib} (boundary : text) (metadata : Json) : Result Bytes :=
  match metadata with
  | JObject (_ :: _) => txt ← json_dump metadata; Ok (field boundary (&"metadata") txt)
  | _ => Ok []
  end.

Section Multipart.
Context `{J : JsonLib} `{E : Env}.

(** [std::filesystem] throws when it cannot tell; a stream that does not open
    delivers nothing. *)
Definition attachment (boundary path : text) : M Bytes :=
  found ← call (fun n _ => env_exists n path);
  match found with
  | None => throw (StdExn (&"exists"))
  | Some false => throw (configuration_error (&"feedback attachment was not found"))
  | Some true =>
      size ← call (fun n _ => env_file_size n path);
      match size with
      | None => throw (StdExn (&"file_size"))
      | Some size =>
          if 5 * 1024 * 1024 <? size
          then throw (configuration_error (&"feedback attachment exceeds 5 MiB"))
          else
            content ← call (fun n _ => env_read_file n path);
            mret (boundary_line boundary ++ file_disposition (filename path) ++ crlf2 ++
                  default [] content ++ crlf)
      end
  end.

Fixpoint add_attachments (boundary : text) (paths : list path) (body : Bytes) : M Bytes :=
  match paths with
  | [] => mret body
  | path :: rest =>
      if bool_decide (path = []) then add_attachments boundary rest body
      else part ← attachment boundary path; add_attachments boundary rest (body ++ part)
  end.

Definition build_feedback_payload (device_id channel default_version : text)
    (request : FeedbackRequest) : M MultipartPayload :=
  _ ← ensure (negb (bool_decide (content request = [])))
        (configuration_error (&"feedback content is required"));
  _ ← ensure (match rating request with Some r => (1 <=? r) && (r <=? 5) | None => true end)
        (configuration_error (&"feedback rating must be between 1 and 5"));
  _ ← ensure (length (filter (fun p => p <> []) (attachments request)) <=? 3)%nat
        (configuration_error (&"feedback supports at most 3 attachments"));
  _ ← ensure (is_object (metadata request))
        (configuration_error (&"feedback metadata must be a JSON object"));
  random ← random_bytes 12;
  let boundary := boundary_dashes ++ hex_lower random in
  let version := if bool_decide (fb_app_version request = []) then default_version
                 else fb_app_version request in
  metadata ← lift (metadata_field boundary (metadata request));
  let body := field boundary (&"device_id") device_id ++
    optional_field boundary (&"channel_code") channel ++
    field boundary (&"content") (content request) ++
    match rating request with Some r => field boundary (&"rating") (to_string r) | None => [] end ++
    optional_field boundary (&"contact") (contact request) ++
    optional_field boundary (&"app_version") version ++ metadata in
  body ← add_attachments boundary (attachments request) body;
  let body := body ++ &"--" ++ boundary ++ &"--" ++ crlf in
  _ ← ensure (zlen body <=? 32 * 1024 * 1024)
        (configuration_error (&"feedback payload exceeds 32 MiB"));
  mret (mkPayload body (&"multipart/form-data; boundary=" ++ boundary)).

End Multipart.

(** ** Reading a body back

    A body is cut at each line break that starts a boundary line (the first
    line of the body counts as one); a part is its headers, up to the first
    empty line, and its content. *)
Definition delimiter (boundary : text) : text := crlf ++ &"--" ++ boundary.

Fixpoint cut_all (fuel : nat) (d s : text) : list text :=
  match fuel with
  | O => [s]
  | S fuel =>
      match find_sub d s with
      | None => [s]
      | Some i => take i s :: cut_all fuel d (drop (i + length d) s)
      end
  end.

Definition read_part (piece : text) : option (text * text) :=
  if starts_with crlf piece then
    let piece := drop 2 piece in
    i ← find_sub crlf2 piece;
    Some (take i piece, drop (i + 4) piece)
  else None.

(** The pieces between the first delimiter and the closing one. *)
Fixpoint read_pieces (pieces : list text) : option (list (text * text)) :=
  match pieces with
  | [] => None
  | [closing] => if bool_decide (closing = &"--" ++ crlf) then Some [] else None
  | piece :: rest => part ← read_part piece; parts ← read_pieces rest; Some (part :: parts)
  end.

Definition read_multipart (boundary body : text) : option (list (text * text)) :=
  match cut_all (S (length body)) (delimiter boundary) (crlf ++ body) with
  | [] :: pieces => read_pieces pieces
  | _ => None
  end.

(** The value between quotes after [key=]. *)
Definition quoted_value (key headers : text) : option text :=
  i ← find_sub (key ++ &"=" ++ quote_text) headers;
  let rest := drop (i + length key + 2) headers in
  j ← find_char quote rest;
  Some (take j rest).

(** ** What a body is meant to say

    The parts, as headers and content: the fields that are set, then the
    attachments with the bytes that were read. *)
Definition meant_field (name value : text) : text * text := (disposition name, value).
Definition meant_optional (name value : text) : list (text * text) :=
  if bool_decide (value = []) then [] else [meant_field name value].
Definition meant_metadata `{J : JsonLib} (metadata : Json) : list (text * text) :=
  match metadata with
  | JObject (_ :: _) => match json_dump metadata with Ok txt => [meant_field (&"metadata") txt] | _ => [] end
  | _ => []
  end.
Definition meant_fields `{J : JsonLib} (device_id channel default_version : text)
    (request : FeedbackRequest) : list (text * text) :=
  [meant_field (&"device_id") device_id] ++ meant_optional (&"channel_code") channel ++
  [meant_field (&"content") (content request)] ++
  match rating request with Some r => [meant_field (&"rating") (to_string r)] | None => [] end ++
  meant_optional (&"contact") (contact request) ++
  meant_optional (&"app_version")
    (if bool_decide (fb_app_version request = []) then default_version else fb_app_version request) ++
  meant_metadata (metadata request).
Definition meant_file (file : text * Bytes) : text * text := (file_disposition (filename file.1), file.2).

(** The body of a list of parts. *)
Definition part_bytes (boundary : text) (part : text * text) : Bytes :=
  boundary_line boundary ++ part.1 ++ crlf2 ++ part.2 ++ crlf.
Definition parts_bytes (boundary : text) (parts : list (text * text)) : Bytes :=
  concat (part_bytes boundary <$> parts).

(** * Lemmas *)

Lemma find_sub_None_cons p a s : find_sub p (a :: s) = None ->
  starts_with p (a :: s) = false /\ find_sub p s = None.
Proof.
  cbn [find_sub]. destruct (starts_with p (a :: s)); [done|]. by destruct (find_sub p s).
Qed.

Lemma find_sub_start p t : find_sub p (p ++ t) = Some 0%nat.
Proof. destruct (p ++ t) eqn:E; cbn [find_sub]; by rewrite <- E, starts_with_app. Qed.

(** A delimiter whose first character does not occur again in it is found
    where it was put. *)
Lemma find_sub_here c d x t : c ∉ d -> find_sub (c :: d) x = None ->
  find_sub (c :: d) (x ++ (c :: d) ++ t) = Some (length x).
Proof.
  intros Hc. induction x as [|a x IH]; intros Hx; [exact (find_sub_start (c :: d) t)|].
  apply find_sub_None_cons in Hx as [Hs Hx]. rewrite <- app_comm_cons. cbn [find_sub length].
  destruct (starts_with (c :: d) (a :: x ++ (c :: d) ++ t)) eqn:Et; [|by rewrite (IH Hx)].
  exfalso. apply starts_with_true in Et as [u Eu]. injection Eu as -> Eu.
  destruct (decide (length d <= length x)%nat) as [Hl|Hl].
  - apply (f_equal (take (length d))) in Eu.
    rewrite take_app_length, take_app_le in Eu by done.
    assert (starts_with (c :: d) (c :: x) = true) as H; [|congruence].
    apply starts_with_true. exists (drop (length d) x).
    rewrite <- (take_drop (length d) x) at 1. by rewrite Eu.
  - apply Hc. apply (f_equal (fun l => l !! length x)) in Eu.
    rewrite lookup_app_r, Nat.sub_diag in Eu by done. rewrite lookup_app_l in Eu by lia.
    cbn in Eu. by eapply list_elem_of_lookup_2.
Qed.

(** What cannot start the text looked for is passed over. *)
Lemma find_sub_skip c d x y : c ∉ x ->
  find_sub (c :: d) (x ++ y) = Nat.add (length x) <$> find_sub (c :: d) y.
Proof.
  induction x as [|a x IH]; intros Hx; [cbn; by destruct (find_sub (c :: d) y)|].
  apply not_elem_of_cons in Hx as [Ha Hx]. rewrite <- app_comm_cons. cbn [find_sub starts_with length].
  rewrite bool_decide_false by done. cbn [andb]. rewrite IH by done. by destruct (find_sub _ y).
Qed.

Lemma escape_clean name c : c ∈ escape_multipart_name name -> c <> quote /\ c <> cr /\ c <> nl.
Proof.
  unfold escape_multipart_name. intros Hin. apply list_elem_of_In, in_flat_map in Hin as (x & _ & Hin).
  apply list_elem_of_In in Hin. repeat case_bool_decide; cbn in Hin; set_unfold; naive_solver.
Qed.

Lemma escape_no_quote name : quote ∉ escape_multipart_name name.
Proof. by intros [H _]%escape_clean. Qed.
Lemma escape_no_cr name : cr ∉ escape_multipart_name name.
Proof. by intros (_ & H & _)%escape_clean. Qed.

Ltac not_in := apply (bool_decide_eq_false (_ ∈ _)); vm_compute; reflexivity.

(** Headers end where the first empty line is. *)
Definition well_headed (h : text) : Prop :=
  forall t, find_sub crlf2 (h ++ crlf2 ++ t) = Some (length h).

(** Headers on one line, and headers of which the first line has no line
    break and the second is the content type. *)
Lemma one_line_headed h : cr ∉ h -> well_headed h.
Proof.
  intros Hh t. change crlf2 with (cr :: [nl; cr; nl]). rewrite find_sub_skip by done.
  rewrite find_sub_start. cbn. by rewrite Nat.add_0_r.
Qed.

Lemma disposition_headed name : well_headed (disposition name).
Proof.
  apply one_line_headed. unfold disposition. rewrite !not_elem_of_app.
  split_and!; [not_in|not_in|apply escape_no_cr|not_in].
Qed.

Lemma file_disposition_headed name : well_headed (file_disposition name).
Proof.
  intros t. unfold file_disposition.
  set (line := &"; filename=" ++ quote_text ++ escape_multipart_name name ++ quote_text).
  set (start := &"Content-Disposition: form-data; name=" ++ quote_text ++ &"attachments" ++ quote_text).
  replace (_ ++ crlf2 ++ t) with ((start ++ line) ++ (crlf ++ &"Content-Type: application/octet-stream") ++ crlf2 ++ t)
    by (unfold start, line; by rewrite <- !app_assoc).
  assert (cr ∉ start ++ line) as Hs.
  { unfold start, line. rewrite !not_elem_of_app. pose proof (escape_no_cr name).
    split_and!; first [done|not_in]. }
  change crlf2 with (cr :: [nl; cr; nl]) at 1. rewrite find_sub_skip by done.
  change (cr :: [nl; cr; nl]) with crlf2.
  assert (forall u, find_sub crlf2 ((crlf ++ &"Content-Type: application/octet-stream") ++ crlf2 ++ u) =
    Some (length (crlf ++ &"Content-Type: application/octet-stream"))) as -> by (intros u; reflexivity).
  unfold start, line. rewrite !length_app. cbn [fmap option_fmap option_map]. f_equal. lia.
Qed.

Definition piece_of (part : text * text) : text := crlf ++ part.1 ++ crlf2 ++ part.2.

Lemma read_part_piece part : well_headed part.1 -> read_part (piece_of part) = Some part.
Proof.
  intros Hh. destruct part as [h v]. unfold read_part, piece_of. rewrite starts_with_app.
  change (drop 2 (crlf ++ ?x)) with x. cbn [fst snd] in *. rewrite Hh. cbn [mbind option_bind].
  rewrite take_app_exact by done. f_equal. f_equal.
  replace (length h + 4)%nat with (length (h ++ crlf2)) by (rewrite length_app; done).
  rewrite app_assoc. by rewrite drop_app_exact.
Qed.

Lemma read_pieces_all parts : Forall (fun p => well_headed p.1) parts ->
  read_pieces ((piece_of <$> parts) ++ [&"--" ++ crlf]) = Some parts.
Proof.
  induction 1 as [|part parts Hp _ IH]; [reflexivity|]. cbn [fmap list_fmap app].
  assert (forall p l, read_pieces (p :: (l ++ [&"--" ++ crlf])) =
    (part ← read_part p; parts ← read_pieces (l ++ [&"--" ++ crlf]); Some (part :: parts))) as ->.
  { intros p l. by destruct l. }
  rewrite read_part_piece by done. cbn [mbind option_bind]. by rewrite IH.
Qed.

Lemma cut_pieces c d pieces : c ∉ d -> forall p0 fuel, (length pieces < fuel)%nat ->
  Forall (fun p => find_sub (c :: d) p = None) (p0 :: pieces) ->
  cut_all fuel (c :: d) (p0 ++ concat (app (c :: d) <$> pieces)) = p0 :: pieces.
Proof.
  intros Hc. induction pieces as [|p pieces IH]; intros p0 [|fuel] Hf Hall; cbn [length] in Hf; try lia.
  - apply Forall_cons in Hall as [H0 _]. cbn. rewrite app_nil_r. by rewrite H0.
  - apply Forall_cons in Hall as [H0 Hall]. cbn [fmap list_fmap concat cut_all].
    rewrite <- (app_assoc (c :: d) p). rewrite find_sub_here by done.
    rewrite take_app_exact by done. f_equal.
    rewrite <- length_app, (app_assoc p0), drop_app_exact by done. apply IH; [lia|done].
Qed.

Lemma render boundary parts tail : crlf ++ parts_bytes boundary parts ++ &"--" ++ boundary ++ tail =
  concat (app (delimiter boundary) <$> ((piece_of <$> parts) ++ [tail])).
Proof.
  unfold parts_bytes, delimiter. induction parts as [|part parts IH]; cbn [fmap list_fmap concat app].
  - cbn. by rewrite app_nil_r, <- app_assoc.
  - rewrite <- IH. unfold part_bytes, boundary_line, piece_of. by rewrite <- !app_assoc.
Qed.

Lemma find_sub_too_long p s : (length s < length p)%nat -> find_sub p s = None.
Proof.
  intros Hl. destruct (find_sub p s) as [i|] eqn:Ef; [|done]. exfalso. revert i Ef Hl.
  assert (forall s, starts_with p s = true -> (length p <= length s)%nat) as Hs.
  { intros u [t ->]%starts_with_true. rewrite length_app. lia. }
  induction s as [|a s IH]; intros i; cbn [find_sub]; destruct (starts_with p _) eqn:Es;
    try (apply Hs in Es; lia); [done|].
  destruct (find_sub p s) as [j|]; [|done]. intros _ Hl. apply (IH j); [done|]. cbn in Hl. lia.
Qed.

(** Reading a body of well-headed parts, none of which has the delimiter
    inside. *)
Lemma read_rendered boundary parts : cr ∉ boundary -> (1 < length boundary)%nat ->
  Forall (fun p => well_headed p.1) parts ->
  Forall (fun p => find_sub (delimiter boundary) (piece_of p) = None) parts ->
  read_multipart boundary (parts_bytes boundary parts ++ &"--" ++ boundary ++ &"--" ++ crlf) = Some parts.
Proof.
  intros Hb Hlen Hw Hd. unfold read_multipart. rewrite render.
  assert (forall l fuel, (length l < fuel)%nat ->
    Forall (fun p => find_sub (delimiter boundary) p = None) l ->
    cut_all fuel (delimiter boundary) (concat (app (delimiter boundary) <$> l)) = [] :: l) as Hcut.
  { intros l fuel Hl Hf. refine (cut_pieces cr (nl :: &"--" ++ boundary) l _ [] fuel Hl _).
    - apply not_elem_of_cons. split; [done|]. apply not_elem_of_app. split; [not_in|done].
    - apply Forall_cons. split; [reflexivity|done]. }
  rewrite Hcut.
  - by apply read_pieces_all.
  - assert (length parts <= length (parts_bytes boundary parts))%nat.
    { unfold parts_bytes. clear. induction parts as [|p parts IH]; [done|]. cbn [fmap list_fmap concat length].
      assert (2 <= length (part_bytes boundary p))%nat.
      { unfold part_bytes. rewrite !length_app. change (length crlf) with 2%nat. lia. }
      rewrite length_app. lia. }
    rewrite !length_app, length_fmap. change (length [_]) with 1%nat. lia.
  - apply Forall_app. split; [by apply Forall_fmap|]. apply Forall_singleton, find_sub_too_long.
    unfold delimiter. rewrite !length_app. cbn. lia.
Qed.

Lemma quoted_filename name :
  quoted_value (&"filename") (file_disposition name) = Some (escape_multipart_name name).
Proof.
  unfold quoted_value, file_disposition.
  set (start := &"Content-Disposition: form-data; name=" ++ quote_text ++ &"attachments" ++ quote_text ++ &"; ").
  set (rest := quote_text ++ crlf ++ &"Content-Type: application/octet-stream").
  replace (_ ++ quote_text ++ &"attachments" ++ _) with
    (start ++ (&"filename" ++ &"=" ++ quote_text) ++ escape_multipart_name name ++ rest)
    by (unfold start, rest; by rewrite <- !app_assoc).
  assert (forall u, find_sub (&"filename" ++ &"=" ++ quote_text) (start ++ (&"filename" ++ &"=" ++ quote_text) ++ u)
    = Some (length start)) as -> by (intros u; reflexivity).
  cbn [mbind option_bind].
  replace (length start + _ + 2)%nat with (length (start ++ &"filename" ++ &"=" ++ quote_text))
    by (rewrite !length_app; change (length (&"=")) with 1%nat; change (length quote_text) with 1%nat; lia).
  rewrite (app_assoc start (&"filename" ++ &"=" ++ quote_text)), drop_app_exact by done. unfold rest, quote_text. cbn [app].
  rewrite find_char_app by apply escape_no_quote. cbn [mbind option_bind app].
  by rewrite take_app_exact.
Qed.

Lemma field_part boundary name value : field boundary name value = part_bytes boundary (meant_field name value).
Proof. reflexivity. Qed.

Lemma parts_bytes_app boundary l k :
  parts_bytes boundary (l ++ k) = parts_bytes boundary l ++ parts_bytes boundary k.
Proof. unfold parts_bytes. by rewrite fmap_app, concat_app. Qed.
Lemma parts_bytes_one boundary p : parts_bytes boundary [p] = part_bytes boundary p.
Proof. unfold parts_bytes. cbn. apply app_nil_r. Qed.

Lemma optional_parts boundary name value :
  optional_field boundary name value = parts_bytes boundary (meant_optional name value).
Proof.
  unfold optional_field, meant_optional. case_bool_decide; [done|]. by rewrite parts_bytes_one.
Qed.

Section Payload.
Context `{J : JsonLib} `{E : Env}.

Lemma metadata_parts boundary m b : metadata_field boundary m = Ok b ->
  b = parts_bytes boundary (meant_metadata m).
Proof.
  unfold metadata_field, meant_metadata. destruct m as [| | | | | | |[|x l]]; intros H; try (by injection H as <-).
  inv_ok. match goal with H : json_dump _ = Ok _ |- _ => rewrite H end. by rewrite parts_bytes_one.
Qed.

(** The attachments that were read: the paths that are set, in order, each of
    at most 5 MiB when it was looked at, with what the file system delivered. *)
Definition attached (paths : list path) (files : list (path * Bytes)) : Prop :=
  files.*1 = filter (fun p => p <> []) paths /\
  Forall (fun f => exists m n size, env_file_size m f.1 = Some size /\ size <= 5 * 1024 * 1024 /\
                     f.2 = default [] (env_read_file n f.1)) files.

Lemma attachment_run boundary p w b w' : attachment boundary p w = (Ok b, w') ->
  exists m n size, env_file_size m p = Some size /\ size <= 5 * 1024 * 1024 /\
    b = part_bytes boundary (meant_file (p, default [] (env_read_file n p))).
Proof.
  unfold attachment. intros H. apply run_bind_Ok in H as (found & w1 & _ & H).
  destruct found as [[]|]; [|done|done]. apply run_bind_Ok in H as (size & w2 & Hs & H).
  injection Hs as Hs _. destruct size as [size|]; [|done].
  destruct (5 * 1024 * 1024 <? size) eqn:El; [done|]. apply Z.ltb_ge in El.
  apply run_bind_Ok in H as (b' & w3 & Hb & H). injection Hb as Hb _. rewrite run_ret in H.
  exists (w_step w1), (w_step w2), size. split_and!; [done|done|]. subst b'. injection H as <- _. reflexivity.
Qed.

Lemma attachments_run boundary paths : forall body w b w',
  add_attachments boundary paths body w = (Ok b, w') ->
  exists files, attached paths files /\ b = body ++ parts_bytes boundary (meant_file <$> files).
Proof.
  induction paths as [|p paths IH]; intros body w b w' H; cbn [add_attachments] in H.
  - rewrite run_ret in H. injection H as <- _. exists []. split; [split; [done|constructor]|].
    by rewrite app_nil_r.
  - case_bool_decide as Hp.
    + destruct (IH _ _ _ _ H) as (files & [Hf Hall] & Hb). exists files. split; [split; [|done]|done].
      rewrite filter_cons_False by (by intros []). done.
    + apply run_bind_Ok in H as (part & w1 & Ha & H).
      apply attachment_run in Ha as (m & n & size & Hsize & Hle & ->).
      destruct (IH _ _ _ _ H) as (files & [Hf Hall] & Hb).
      exists ((p, default [] (env_read_file n p)) :: files). split; [split|].
      * rewrite filter_cons_True by done. cbn. by rewrite Hf.
      * constructor; [|done]. by exists m, n, size.
      * rewrite Hb, <- app_assoc. f_equal.
Qed.

Lemma boundary_clean r : cr ∉ boundary_dashes ++ hex_lower r.
Proof.
  rewrite not_elem_of_app. split; [not_in|]. intros Hin.
  pose proof (hex_lower_Forall r) as Hf. rewrite Forall_forall in Hf. by apply Hf in Hin.
Qed.

Lemma fields_headed device_id channel default_version request files :
  Forall (fun p => well_headed p.1)
    (meant_fields device_id channel default_version request ++ (meant_file <$> files)).
Proof.
  apply Forall_app. split.
  - assert (forall name value, Forall (fun p => well_headed p.1) (meant_optional name value)) as Ho.
    { intros name value. unfold meant_optional. case_bool_decide; [constructor|].
      apply Forall_singleton, disposition_headed. }
    unfold meant_fields. rewrite !Forall_app, !Forall_singleton. cbn [fst meant_field].
    split_and!; auto using disposition_headed.
    + destruct (rating request); [|constructor]. apply Forall_singleton, disposition_headed.
    + unfold meant_metadata. repeat case_match; try constructor;
      try constructor; apply disposition_headed.
  - apply Forall_fmap, Forall_forall. intros f _. apply file_disposition_headed.
Qed.

(** C32: the body of [submit_feedback] says what was meant: read back with the
    boundary of the content type, its parts are the device, channel, content,
    rating, contact, version and metadata fields that are set, in that order,
    then one part for each attachment with the bytes that were read and a file
    name that cannot break out of its quotes, provided no value holds the
    delimiter; the body and the attachments keep the limits. *)
Theorem multipart_roundtrip device_id channel default_version request w p w' :
  build_feedback_payload device_id channel default_version request w = (Ok p, w') ->
  exists boundary files,
    mp_content_type p = &"multipart/form-data; boundary=" ++ boundary /\
    attached (attachments request) files /\ (length files <= 3)%nat /\
    zlen (mp_body p) <= 32 * 1024 * 1024 /\
    Forall (fun f => quoted_value (&"filename") (meant_file f).1 =
                     Some (escape_multipart_name (filename f.1))) files /\
    let parts := meant_fields device_id channel default_version request ++ (meant_file <$> files) in
    (Forall (fun part => find_sub (delimiter boundary) (piece_of part) = None) parts ->
     read_multipart boundary (mp_body p) = Some parts).
Proof.
  unfold build_feedback_payload. intros H. run_ok.
  match goal with H : random_bytes 12 _ = (Ok ?r, _) |- _ =>
    pose proof (random_bytes_length _ _ _ _ H); set (b := boundary_dashes ++ hex_lower r) in * end.
  match goal with H : metadata_field _ _ = Ok _ |- _ => apply metadata_parts in H; subst end.
  match goal with H : add_attachments _ _ _ _ = _ |- _ =>
    apply attachments_run in H as (files & Hf & ->) end.
  exists b, files. breflect. split_and!; try done.
  - destruct Hf as [Hf _]. rewrite <- (length_fmap fst), Hf. done.
  - apply Forall_forall. intros f _. apply quoted_filename.
  - intros Hd. cbn [mp_body]. rewrite <- (read_rendered b).
    + f_equal. unfold meant_fields. rewrite !parts_bytes_app, !optional_parts.
      rewrite !parts_bytes_one, <- !app_assoc. unfold boundary_line.
      destruct (rating request); rewrite ?parts_bytes_one; by rewrite <- ?app_assoc.
    + apply boundary_clean.
    + unfold b. rewrite length_app. cbn. lia.
    + apply fields_headed.
    + done.
Qed.
End Payload.
