(* ===== verification/MiniEnv.v ===== *)
(** * A concrete outside world for the worked examples

    Ten milliseconds pass at each call, nobody requests a stop, the random
    generator counts, and a function of the request plays the server. *)
From S2P Require Import Prelude StdString Errors Codec Hardware Clock Keyring Types Crypto.
From S2P Require Import MiniCrypto Scope World Http Cng StateStore.

(** What the server of an example answers: status, raw headers and body. *)
Definition Server : Type := nat -> HttpRequest -> Z * text * Bytes.

Definition mini_crack (url : text) : option Cracked :=
  match find_sub (&"://") url with
  | None => None
  | Some i => Some (mkCracked (take i url) [] (drop (i + 3) url) 443)
  end.

(** A P-256 public key blob: the magic, the key length and 64 bytes. *)
Definition mini_blob (seed : Bytes) : Bytes :=
  &"ECS1" ++ [bz 32; nul; nul; nul] ++ mini_sha256 seed ++ mini_sha256 (&"y" ++ seed).

Definition mini_machine : Machine :=
  mkMachine (&"GenuineIntel") (Some (&"Example CPU" ++ [nul])) (0, []) (fun _ => None) None
    (Some (1, &"6F9619FF-8B86-D011-B42D-00CF4FC964FF")).

(** [package] is the rest of the disk. *)
Definition mini_env_with (package : text -> option Bytes) (server : Server)
    (writes : nat -> WriteOutcome) : Env := {|
  env_delay _ := 10;
  env_stop _ := false;
  env_random n k := Some ((fun i => bz (Z.of_nat n * 7 + i)) <$> seqZ 0 (Z.of_nat k));
  env_system_time _ := 1700000000;
  env_crack_url := mini_crack;
  env_open _ _ := None;
  env_set_timeouts _ := true;
  env_set_redirects _ := true;
  env_send _ _ := WinOk tt;
  env_receive _ _ := WinOk tt;
  env_status n r := WinOk (server n r).1.1;
  env_raw_headers n r := Some (server n r).1.2;
  env_reads n r := [WinOk (server n r).2];
  env_protect _ e p := Some (e ++ p);
  env_unprotect e c := if starts_with e c then Some (drop (length e) c) else None;
  env_local_app_data := Some (&"C:\Users\me\AppData\Local");
  env_absolute p := p;
  env_create_directories _ _ := true;
  env_read_ok _ := true;
  env_write := writes;
  env_move_ok _ := true;
  env_file_ok _ := true;
  env_read_cut _ := None;
  env_ncrypt _ := 0;
  env_hash _ := None;
  env_create_key n name := KeyMade (mini_blob (name ++ [bz (Z.of_nat n)]));
  env_sign _ name digest := (0, mini_sign (mini_sha256 name) digest);
  env_mutex _ := MutexHeld;
  env_lock_busy _ := false;
  env_current_path _ := &"C:\app";
  env_exists _ p := Some (bool_decide (is_Some (package p)));
  env_file_size _ p := zlen <$> package p;
  env_read_file _ p := package p;
  env_machine _ := mini_machine
|}.

Definition mini_env : Server -> (nat -> WriteOutcome) -> Env := mini_env_with (fun _ => None).

#[global] Instance mini_dpapi package server writes : Dpapi (E := mini_env_with package server writes).
Proof.
  constructor. cbn. intros _ e p c [= <-]. by rewrite starts_with_app, drop_app_length.
Qed.

Definition start_pipe : Pipe := mkPipe ring_start None 0 false false None None None.
Definition start_world : World := mkWorld 0 1000 false ∅ ∅ clock_start start_pipe [].

Definition quiet : Server := fun _ _ => (200, [], &"ok").

Lemma http_request_discipline_witness :
  let E := mini_env quiet (fun _ => Written) in
  let input := mkHttpRequest (&"GET") (&"HTTPS://a.example/x") [] [] 1000 100 in
  let run := request false input start_world in
  same_but_sent start_world run.2 /\ is_ok run.1 = true /\
  exists handle, opened_for false (mkSent input handle) /\ w_sent run.2 = [mkSent input handle].
Proof.
  intros E input run.
  destruct (http_request_discipline (E := E) false input start_world run.1 run.2 (surjective_pairing _))
    as (Hs & [Hl|(_ & handle & Hh & Hl)] & _).
  - exfalso. revert Hl. vm_compute. discriminate.
  - split; [exact Hs|]. split; [vm_compute; reflexivity|]. exists handle. split; [exact Hh|exact Hl].
Defined.

Definition demo_store : StateStore := mkStore (&"app") (&"C:\s") (mini_sha256 (&"e")).

Lemma write_protected_outcomes_witness :
  let E := mini_env quiet (fun _ => Written) in
  let run := write_protected demo_store (&"f") (&"hello") start_world in
  only_file (store_path demo_store (&"f")) start_world run.2 /\
  (read_protected demo_store (&"f") run.2).1 = Ok (Some (&"hello")).
Proof.
  intros E run.
  destruct (write_protected_outcomes (E := E) demo_store (&"f") (&"hello") start_world) as [Ho Hr].
  split; [exact Ho|]. destruct Hr as (c & Hc & _ & Hr). apply Hr; [|reflexivity].
  injection Hc as <-. split; [vm_compute; reflexivity|vm_compute; discriminate].
Defined.

(** An error at the closing flush goes unnoticed: the write returns, and
    the state that was there before is gone. *)
Theorem flush_error_loses_state :
  let good := mini_env quiet (fun _ => Written) in
  let bad := mini_env quiet (fun _ => FlushLost 0) in
  let w1 := (write_protected (E := good) demo_store (&"f") (&"old") start_world).2 in
  let run := write_protected (E := bad) demo_store (&"f") (&"new") w1 in
  (read_protected (E := bad) demo_store (&"f") w1).1 = Ok (Some (&"old")) /\
  run.1 = Ok tt /\
  (read_protected (E := bad) demo_store (&"f") run.2).1 = Ok None.
Proof. split_and!; vm_compute; reflexivity. Qed.

(** ** A CNG for the primitives of the examples *)

(** A hash object: the secret, and what was fed. *)
Definition mini_cng : Cng := {|
  cng_status _ := 0;
  cng_hash_state := option Bytes * Bytes;
  cng_create secret := (secret, []);
  cng_hash_data h piece := (h.1, h.2 ++ piece);
  cng_finish h := match h.1 with
                  | None => mini_sha256 h.2
                  | Some secret => mini_sha256 (secret ++ h.2)
                  end;
  cng_encrypt := @bcrypt_aes_gcm mini_crypto
|}.

Lemma mini_feed (h : option Bytes * Bytes) pieces :
  foldl (@cng_hash_data mini_cng) h pieces = (h.1, h.2 ++ concat pieces).
Proof.
  revert h. induction pieces as [|piece pieces IH]; intros [secret fed]; cbn.
  - by rewrite app_nil_r.
  - rewrite IH. cbn. by rewrite app_assoc.
Qed.

#[export] Instance mini_cng_laws : CngLaws (C := mini_crypto) mini_cng.
Proof. constructor; intros; rewrite ?mini_feed; reflexivity. Qed.

(** A file, and a value, whose digests are those of their bytes. *)
Lemma calls_refine_crypto_witness :
  (sha256_file_calls (N := mini_cng) (Some (&"a file")) (mkScope 0%nat [])).1 = Ok (mini_sha256 (&"a file")) /\
  computes (N := mini_cng) (sha256_calls (N := mini_cng) (&"hello")) (mini_sha256 (&"hello")).
Proof.
  split; [vm_compute; reflexivity|].
  exact (proj1 (calls_refine_crypto (C := mini_crypto) (N := mini_cng)) (&"hello") eq_refl).
Defined.
