(* ===== verification/Identity.v ===== *)
(** * The device identity ([src/internal/device_identity.cpp])

    A P-256 key kept by the key storage provider, and the metadata file that
    names it.  A key handle is the name of an open key; [id_has_key] is
    [key_ != 0]. *)
From S2P Require Import Prelude StdString Errors Codec Clock Keyring Types Crypto MiniCrypto.
From S2P Require Import World StateStore MiniEnv.

Definition metadata_file : text := &"identity.bin".

Definition metadata_text (install_id key_name : text) : text :=
  &"v2" ++ [nl] ++ install_id ++ [nl] ++ key_name ++ [nl].

(** The parser of [read_metadata]. *)
Definition parse_metadata (txt : text) : option (text * text) :=
  match find_char nl txt with
  | None => None
  | Some first =>
      match find_from nl txt (S first) with
      | None => None
      | Some second =>
          match find_from nl txt (S second) with
          | None => None
          | Some third =>
              if negb (bool_decide (substr txt 0 first = &"v2")) then None
              else
                let install_id := substr txt (first + 1) (second - first - 1) in
                let key_name := substr txt (second + 1) (third - second - 1) in
                if negb (zlen install_id =? 32) || bool_decide (key_name = []) then None
                else Some (install_id, key_name)
          end
      end
  end.

Definition header_size : Z := 8.

Section Identity.
Context `{C : Crypto} `{E : Env}.

Definition build_key_name (app_id install_id : text) : text :=
  &"SwmSdk." ++ substr (hex_lower (sha256 app_id)) 0 12 ++ &"." ++ install_id.

Definition ncrypt (what : text) : M unit :=
  status ← call (fun n _ => env_ncrypt n); lift (check_ntstatus status what).

(** [NCryptOpenKey]: whether the key with that name could be opened. *)
Definition open_key (key_name : text) : M bool :=
  call (fun n w => bool_decide (is_Some (w_keys w !! key_name)) && (0 <=? env_ncrypt n)).

(** The status of creating a key whose name is taken. *)
Definition nte_exists : Z := -2146893809.

Definition create_key (key_name : text) : M unit :=
  w ← get_world;
  match w_keys w !! key_name with
  | Some _ => lift (check_ntstatus nte_exists (&"NCryptCreatePersistedKey"))
  | None =>
      made ← call (fun n _ => env_create_key n key_name);
      match made with
      | KeyFailed what status =>
          _ ← lift (check_ntstatus status what);
          throw (err Cryptographic 0 [] what)
      | KeyMade blob => modify (fun w => set_keys (<[key_name := blob]> (w_keys w)) w)
      end
  end.

Definition named_identity (app_id install_id key_name : text) : DeviceIdentity :=
  mkIdentity app_id install_id key_name [] [] [] [] true.

Definition create_identity (app_id : text) (reject_existing : bool) : M DeviceIdentity :=
  b ← random_bytes 16;
  let install_id := hex_lower b in
  let key_name := build_key_name app_id install_id in
  _ ← ncrypt (&"NCryptOpenStorageProvider");
  opened ← open_key key_name;
  if (opened : bool) then
    if reject_existing then
      b ← random_bytes 16;
      let install_id := hex_lower b in
      let key_name := build_key_name app_id install_id in
      _ ← create_key key_name;
      mret (named_identity app_id install_id key_name)
    else mret (named_identity app_id install_id key_name)
  else
    _ ← create_key key_name;
    mret (named_identity app_id install_id key_name).

(** The public part of a blob [BCRYPT_ECCPUBLIC_BLOB]. *)
Definition sec1_of_blob (blob : Bytes) : Result Bytes :=
  if negb (zlen blob =? header_size + 64)
  then Throw (err Identity 0 [] (&"device public key length is invalid"))
  else if negb (bool_decide (take 4 blob = &"ECS1")) ||
          negb (bool_decide (substr blob 4 4 = [bz 32; nul; nul; nul]))
  then Throw (err Identity 0 [] (&"device key is not P-256"))
  else Ok (bz 4 :: drop 8 blob).

Definition populated (identity : DeviceIdentity) (sec1 : Bytes) : DeviceIdentity :=
  let thumbprint := base64url_encode (sha256 sec1) in
  let device_material :=
    &"device_credential_v2" ++ [nl] ++ &"app_id:" ++ id_app_id identity ++
    [nl] ++ &"install_id:" ++ id_install_id identity ++
    [nl] ++ &"key_thumbprint:" ++ thumbprint in
  mkIdentity (id_app_id identity) (id_install_id identity) (id_key_name identity)
    (&"swm-device-" ++ substr thumbprint 0 22) thumbprint (base64url_encode sec1)
    (sha256_hex device_material) (id_has_key identity).

Definition populate_public_identity (identity : DeviceIdentity) : M DeviceIdentity :=
  _ ← ncrypt (&"NCryptExportKey(size)");
  _ ← ncrypt (&"NCryptExportKey");
  w ← get_world;
  let blob := default [] (w_keys w !! id_key_name identity) in
  sec1 ← lift (sec1_of_blob blob);
  mret (populated identity sec1).

Definition read_metadata (store : StateStore) : M (option (text * text)) :=
  plaintext ← read_protected store metadata_file;
  mret (match plaintext with None => None | Some txt => parse_metadata txt end).

Definition create_and_store (app_id : text) (store : StateStore) : M DeviceIdentity :=
  identity ← create_identity app_id false;
  identity ← populate_public_identity identity;
  _ ← write_protected store metadata_file
        (metadata_text (id_install_id identity) (id_key_name identity));
  mret identity.

Definition load_or_create (app_id : text) (store : StateStore) : M DeviceIdentity :=
  mutex ← call (fun n _ => env_mutex n);
  match mutex with
  | MutexUnavailable => throw (err Identity 0 [] (&"cannot create identity mutex"))
  | MutexTimeout => throw (err Identity 0 [] (&"identity mutex timeout"))
  | MutexHeld =>
      metadata ← read_metadata store;
      match metadata with
      | Some (install_id, key_name) =>
          _ ← ncrypt (&"NCryptOpenStorageProvider");
          opened ← open_key key_name;
          if (opened : bool)
          then populate_public_identity (named_identity app_id install_id key_name)
          else create_and_store app_id store
      | None => create_and_store app_id store
      end
  end.

Definition create_pending (app_id : text) : M DeviceIdentity :=
  identity ← create_identity app_id true;
  populate_public_identity identity.

(** [commit_pending] opens the store of the identity again. *)
Definition commit_pending (identity : DeviceIdentity) (state_directory : text) : M unit :=
  _ ← ensure (id_has_key identity) (err Identity 0 [] (&"pending identity is empty"));
  store ← make_store (id_app_id identity) state_directory;
  write_protected store metadata_file
    (metadata_text (id_install_id identity) (id_key_name identity)).

(** [NCryptDeleteKey]: whether the key is gone.  Only then is its handle freed. *)
Definition delete_key (identity : DeviceIdentity) : M bool :=
  status ← call (fun n _ => env_ncrypt n);
  if status <? 0 then mret false
  else
    _ ← modify (fun w => set_keys (delete (id_key_name identity) (w_keys w)) w);
    mret true.

(** [key_ = 0]. *)
Definition without_key (identity : DeviceIdentity) : DeviceIdentity :=
  mkIdentity (id_app_id identity) (id_install_id identity) (id_key_name identity)
    (id_key_id identity) (id_key_thumbprint identity) (id_public_key_sec1 identity)
    (id_device_id identity) false.

(** The status of [NCryptDeleteKey] is ignored, and the handle is dropped. *)
Definition delete_pending (identity : DeviceIdentity) : M DeviceIdentity :=
  if id_has_key identity then
    _ ← delete_key identity; mret (without_key identity)
  else mret identity.

Definition sign_sha256 (identity : DeviceIdentity) (digest : Bytes) : M Bytes :=
  _ ← ensure (id_has_key identity) (err Identity 0 [] (&"device key is unavailable"));
  answer ← call (fun n _ => env_sign n (id_key_name identity) digest);
  let '(status, sig) := answer in
  _ ← lift (check_ntstatus status (&"NCryptSignHash"));
  _ ← ensure (zlen sig =? 64) (err Identity 0 [] (&"device signature length is invalid"));
  mret sig.

End Identity.

(** * Lemmas *)

Lemma metadata_text_parse install_id key_name :
  zlen install_id = 32 -> nl ∉ install_id -> nl ∉ key_name -> key_name <> [] ->
  parse_metadata (metadata_text install_id key_name) = Some (install_id, key_name).
Proof.
  intros Hi Hni Hnk Hk. unfold parse_metadata, metadata_text.
  set (txt := _ ++ _).
  assert (find_char nl txt = Some 2%nat) as -> by done.
  assert (drop 3 txt = install_id ++ nl :: (key_name ++ [nl])) as H3 by done.
  assert (find_from nl txt 3 = Some (3 + length install_id)%nat) as ->.
  { unfold find_from. by rewrite H3, find_char_app. }
  assert (drop (S (3 + length install_id)) txt = key_name ++ nl :: []) as H4.
  { replace (S (3 + length install_id)) with (3 + (length install_id + 1))%nat by lia.
    by rewrite <- drop_drop, H3, drop_app_add. }
  assert (find_from nl txt (S (3 + length install_id)) =
    Some (S (3 + length install_id) + length key_name)%nat) as ->.
  { unfold find_from. by rewrite H4, find_char_app. }
  rewrite bool_decide_true by done. cbn [negb]. unfold substr.
  change (2 + 1)%nat with 3%nat. rewrite H3.
  replace (3 + length install_id + 1)%nat with (S (3 + length install_id)) by lia. rewrite H4.
  rewrite (take_app_exact install_id), (take_app_exact key_name) by lia.
  rewrite (proj2 (Z.eqb_eq _ _) Hi), bool_decide_false by done. done.
Qed.

Lemma hex_lower_no_nl b : nl ∉ hex_lower b.
Proof.
  intros H. pose proof (hex_lower_Forall b) as Hf. rewrite Forall_forall in Hf. by apply Hf in H.
Qed.

Section IdentityLemmas.
Context `{C : Crypto} `{E : Env}.

Lemma build_key_name_no_nl app_id b : nl ∉ build_key_name app_id (hex_lower b).
Proof.
  unfold build_key_name. rewrite !not_elem_of_app. split_and!.
  - vm_compute. set_solver.
  - unfold substr. intros H. apply (hex_lower_no_nl (sha256 app_id)).
    eapply elem_of_submseteq; [exact H|]. apply sublist_submseteq.
    etrans; [apply sublist_take|apply sublist_drop].
  - vm_compute. set_solver.
  - apply hex_lower_no_nl.
Qed.

Lemma steps_ncrypt R `{!Frame R} what : steps R (ncrypt what).
Proof. unfold ncrypt. walk. Qed.
Lemma steps_populate R `{!Frame R} i : steps R (populate_public_identity i).
Proof. pose proof (steps_ncrypt R). unfold populate_public_identity. walk. Qed.

(** What makes the stored identity loadable, and which identity it is. *)
Definition stored_identity (app_id : text) (store : StateStore) (w : World)
    (identity : DeviceIdentity) : Prop :=
  exists install_id key_name blob sec1 ciphertext txt,
    w_files w !! store_path store metadata_file = Some ciphertext /\
    0 < zlen ciphertext <= 1024 * 1024 /\
    env_unprotect (entropy_ store) ciphertext = Some txt /\
    parse_metadata txt = Some (install_id, key_name) /\
    w_keys w !! key_name = Some blob /\ sec1_of_blob blob = Ok sec1 /\
    identity = populated (named_identity app_id install_id key_name) sec1.

(** From call [k] on, no call of the operating system fails. *)
Definition healthy_from (k : nat) : Prop :=
  forall n, (k <= n)%nat -> 0 <= env_ncrypt n /\ env_mutex n = MutexHeld /\ env_read_ok n = true.

Lemma ncrypt_healthy what w : healthy_from (w_step w) -> ncrypt what w = (Ok tt, advance 0 w).
Proof.
  intros H. destruct (H (w_step w)) as (Hs & _); [lia|].
  unfold ncrypt, call. rewrite run_bind. unfold lift, check_ntstatus.
  by rewrite (proj2 (Z.ltb_ge _ _)) by lia.
Qed.

Lemma healthy_advance w extra : healthy_from (w_step w) -> healthy_from (w_step (advance extra w)).
Proof. intros H n Hn. apply H. cbn in Hn. lia. Qed.

Lemma populate_healthy i w blob sec1 : healthy_from (w_step w) ->
  w_keys w !! id_key_name i = Some blob -> sec1_of_blob blob = Ok sec1 ->
  populate_public_identity i w = (Ok (populated i sec1), advance 0 (advance 0 w)).
Proof.
  intros Hh Hk Hb. unfold populate_public_identity.
  rewrite run_bind, (ncrypt_healthy _ _ Hh), run_bind, ncrypt_healthy by by apply healthy_advance.
  rewrite run_bind. cbn [get_world]. cbn. by rewrite Hk, run_bind; cbn; rewrite Hb.
Qed.

Lemma load_stored app_id store w identity : healthy_from (w_step w) ->
  stored_identity app_id store w identity ->
  exists w', load_or_create app_id store w = (Ok identity, w') /\ same_state w w'.
Proof.
  intros Hh (install & key & blob & sec1 & c & txt & Hf & Hc & Hu & Hp & Hk & Hb & ->).
  unfold load_or_create, call. rewrite run_bind. destruct (Hh (w_step w)) as (_ & -> & _); [lia|].
  set (w1 := advance 0 w). assert (healthy_from (w_step w1)) as Hh1 by by apply healthy_advance.
  assert (read_metadata store w1 = (Ok (Some (install, key)), advance 0 w1)) as Hr.
  { unfold read_metadata, read_protected, call. rewrite run_bind. cbn. rewrite Hf.
    destruct (Hh1 (w_step w1)) as (_ & _ & Hro); [lia|]. cbn in Hro.
    rewrite (proj2 (Z.leb_gt _ _)), (proj2 (Z.ltb_ge _ _)), Hro by lia. cbn. by rewrite Hu, Hp. }
  rewrite run_bind, Hr. set (w2 := advance 0 w1).
  assert (healthy_from (w_step w2)) as Hh2 by by apply healthy_advance.
  rewrite run_bind, (ncrypt_healthy _ _ Hh2), run_bind. set (w3 := advance 0 w2).
  assert (healthy_from (w_step w3)) as Hh3 by by apply healthy_advance.
  assert (open_key key w3 = (Ok true, advance 0 w3)) as ->.
  { unfold open_key, call. cbn. rewrite Hk, bool_decide_true by done.
    destruct (Hh3 (w_step w3)) as (Hs & _); [lia|]. cbn in Hs.
    by rewrite (proj2 (Z.leb_le _ _)). }
  erewrite populate_healthy; [|by apply healthy_advance|exact Hk|exact Hb].
  eexists. split; [done|]. by split.
Qed.

Lemma populate_ok i w i' w' : populate_public_identity i w = (Ok i', w') ->
  exists sec1, sec1_of_blob (default [] (w_keys w !! id_key_name i)) = Ok sec1 /\
    i' = populated i sec1 /\ same_state w w'.
Proof.
  intros H. pose proof (steps_populate same_state i w) as Hs. rewrite H in Hs. cbn in Hs.
  unfold populate_public_identity in H.
  apply run_bind_Ok in H as ([] & w1 & H1 & H). apply run_bind_Ok in H as ([] & w2 & H2 & H).
  pose proof (steps_ncrypt same_state (&"NCryptExportKey(size)") w) as [_ Hk1 _ _ _].
  pose proof (steps_ncrypt same_state (&"NCryptExportKey") w1) as [_ Hk2 _ _ _].
  rewrite H1 in Hk1. rewrite H2 in Hk2. cbn in Hk1, Hk2.
  apply run_bind_Ok in H as (w3 & w4 & H3 & H). injection H3 as <- <-.
  run_ok. rewrite <- Hk1, <- Hk2. eauto.
Qed.

Lemma sec1_nonempty : sec1_of_blob [] = Throw (err Identity 0 [] (&"device public key length is invalid")).
Proof. done. Qed.

Lemma blob_present i w sec1 : sec1_of_blob (default [] (w_keys w !! id_key_name i)) = Ok sec1 ->
  exists blob, w_keys w !! id_key_name i = Some blob /\ sec1_of_blob blob = Ok sec1.
Proof. destruct (w_keys w !! id_key_name i) as [blob|]; [eauto|done]. Qed.

Lemma create_identity_ok app_id reject w i w' : create_identity app_id reject w = (Ok i, w') ->
  exists b, length b = 16%nat /\
    i = named_identity app_id (hex_lower b) (build_key_name app_id (hex_lower b)).
Proof.
  unfold create_identity. intros H. apply run_bind_Ok in H as (b & w1 & Hb & H).
  apply run_bind_Ok in H as ([] & w2 & _ & H). apply run_bind_Ok in H as (o & w3 & _ & H).
  apply random_bytes_length in Hb. destruct o; [destruct reject|].
  - apply run_bind_Ok in H as (b' & w4 & Hb' & H). apply random_bytes_length in Hb'.
    run_ok. eauto.
  - run_ok. eauto.
  - run_ok. eauto.
Qed.

End IdentityLemmas.

Lemma metadata_short `{C : Crypto} app_id b : length b = 16%nat ->
  zlen (metadata_text (hex_lower b) (build_key_name app_id (hex_lower b))) <= 1024.
Proof.
  intros Hb. unfold metadata_text, build_key_name, zlen, substr.
  rewrite !length_app, length_take, hex_lower_length, Hb.
  change (length (&"v2")) with 2%nat. change (length (&"SwmSdk.")) with 7%nat.
  change (length (&".")) with 1%nat. cbn [length]. lia.
Qed.

Section Written.
Context `{C : Crypto} `{E : Env}.

(** Writing the metadata of a key that exists stores the identity, unless the
    file is cut at the flush. *)
Lemma written_stored `{D : !Dpapi} store app_id b blob sec1 w w' :
  (forall n p c, zlen p <= 1024 -> env_protect n (entropy_ store) p = Some c ->
     0 < zlen c <= 1024 * 1024) ->
  let key_name := build_key_name app_id (hex_lower b) in
  length b = 16%nat -> w_keys w !! key_name = Some blob -> sec1_of_blob blob = Ok sec1 ->
  write_protected store metadata_file (metadata_text (hex_lower b) key_name) w = (Ok tt, w') ->
  stored_identity app_id store w' (populated (named_identity app_id (hex_lower b) key_name) sec1) \/
  cut_by_flush store metadata_file (metadata_text (hex_lower b) key_name) w'.
Proof.
  intros protect_size key_name Hb Hblob Hsec Hw.
  pose proof (write_protected_only store metadata_file (metadata_text (hex_lower b) key_name) w) as (Hk & _).
  destruct (write_protected_landed _ _ _ _ _ _ Hw) as (c & Hc & [Hf|Hcut]); [left|by right].
  rewrite Hw in Hk. cbn in Hk.
  exists (hex_lower b), key_name, blob, sec1, c, (metadata_text (hex_lower b) key_name).
  assert (0 < zlen c <= 1024 * 1024) as [? ?]
    by (eapply protect_size; [|exact Hc]; by apply metadata_short).
  split_and!; try done.
  - by eapply unprotect_protect.
  - apply metadata_text_parse; [|apply hex_lower_no_nl|apply build_key_name_no_nl|done].
    unfold zlen. rewrite hex_lower_length. lia.
  - by rewrite Hk.
Qed.

End Written.

Section Stable.
Context `{C : Crypto} `{E : Env} `{D : !Dpapi}.

(** The disk and DPAPI, for the metadata file: no byte lost at the closing
    flush, ciphertexts of a size that is accepted when reading. *)
Context (no_flush_loss : forall n k, env_write n <> FlushLost k).
Context (store : StateStore).
Context (protect_size : forall n p c, zlen p <= 1024 -> env_protect n (entropy_ store) p = Some c ->
  0 < zlen c <= 1024 * 1024).

Lemma create_and_store_stored app_id w identity w' :
  create_and_store app_id store w = (Ok identity, w') -> stored_identity app_id store w' identity.
Proof using D no_flush_loss protect_size.
  unfold create_and_store. intros H. apply run_bind_Ok in H as (i & w1 & Hc & H).
  apply create_identity_ok in Hc as (b & Hb & ->).
  apply run_bind_Ok in H as (i2 & w2 & Hp & H).
  apply populate_ok in Hp as (sec1 & Hsec & -> & [_ Hkeys _ _ _]). cbn [id_key_name named_identity] in Hsec.
  apply run_bind_Ok in H as ([] & w3 & Hw & H). run_ok.
  apply (blob_present (named_identity app_id (hex_lower b) (build_key_name app_id (hex_lower b))))
    in Hsec as (blob & Hblob & Hsec).
  destruct (written_stored store app_id b blob sec1 w2 w') as [|Hcut]; try done; [by rewrite Hkeys|].
  by apply no_cut_file in Hcut.
Qed.

Lemma load_or_create_stored app_id w identity w' :
  load_or_create app_id store w = (Ok identity, w') -> stored_identity app_id store w' identity.
Proof using D no_flush_loss protect_size.
  unfold load_or_create. intros H. apply run_bind_Ok in H as (mx & w1 & H1 & H).
  destruct mx; [|done..]. apply run_bind_Ok in H as (md & w2 & H2 & H).
  destruct md as [[install key]|]; [|by eapply create_and_store_stored].
  apply run_bind_Ok in H as ([] & w3 & H3 & H). apply run_bind_Ok in H as (o & w4 & H4 & H).
  destruct o; [|by eapply create_and_store_stored].
  apply populate_ok in H as (sec1 & Hsec & -> & [Hf Hk _ _ _]).
  apply blob_present in Hsec as (blob & Hblob & Hsec). cbn in Hblob.
  pose proof (steps_call same_state (fun n _ => env_mutex n) w) as [Hf1 _ _ _ _]. rewrite H1 in Hf1.
  pose proof (steps_ncrypt same_state (&"NCryptOpenStorageProvider") w2) as [Hf3 _ _ _ _].
  rewrite H3 in Hf3. injection H4 as _ <-. cbn in Hf1, Hf3, Hf, Hk, Hblob.
  unfold read_metadata in H2. apply run_bind_Ok in H2 as (p & w5 & H5 & H2). run_ok.
  destruct p as [txt|]; [|done]. injection H5 as H5 <-.
  destruct (w_files w1 !! store_path store metadata_file) as [c|] eqn:Efile; [|done].
  destruct (_ || _) eqn:Ez; [done|]. breflect. cbn in Hf3.
  exists install, key, blob, sec1, c, txt. split_and!; try done; try lia.
  - by rewrite Hf, Hf3.
  - by rewrite Hk.
Qed.

(** C30: the identity survives a restart: once [load_or_create] has returned an
    identity, loading it again from the same files and key store, when the
    operating system answers, returns that identity and changes nothing. *)
Theorem identity_survives_restart app_id w identity w1 w2 :
  load_or_create app_id store w = (Ok identity, w1) ->
  w_files w2 = w_files w1 -> w_keys w2 = w_keys w1 -> healthy_from (w_step w2) ->
  exists w3, load_or_create app_id store w2 = (Ok identity, w3) /\ same_state w2 w3.
Proof using D no_flush_loss protect_size.
  intros H Hf Hk Hh. apply load_or_create_stored in H as (i & k & blob & sec1 & c & txt & H).
  apply load_stored; [done|]. exists i, k, blob, sec1, c, txt. by rewrite Hf, Hk.
Qed.

End Stable.

(** ** A restart, worked through *)

Definition demo_env : Env := mini_env quiet (fun _ => Written).
Definition first_run := load_or_create (C := mini_crypto) (E := demo_env) (&"app") demo_store start_world.

Lemma first_run_ok : is_ok first_run.1 = true.
Proof. vm_compute. reflexivity. Qed.

Lemma demo_protect_size n p c : zlen p <= 1024 ->
  env_protect (Env := demo_env) n (entropy_ demo_store) p = Some c -> 0 < zlen c <= 1024 * 1024.
Proof.
  intros Hp H. assert (c = entropy_ demo_store ++ p) as -> by by injection H.
  rewrite zlen_app. pose proof (zlen_nonneg p). change (zlen (entropy_ demo_store)) with 32. lia.
Qed.

Lemma identity_survives_restart_witness :
  exists identity w3,
    load_or_create (C := mini_crypto) (E := demo_env) (&"app") demo_store
      (mkWorld 900 5 false (w_files first_run.2) (w_keys first_run.2) clock_start start_pipe []) =
    (Ok identity, w3) /\ w_keys w3 = w_keys first_run.2.
Proof.
  pose proof first_run_ok as Hok.
  destruct first_run as [[identity|x] w1] eqn:E; [|discriminate Hok].
  exists identity.
  destruct (identity_survives_restart (C := mini_crypto) (E := demo_env) ltac:(done) demo_store
    demo_protect_size
    (&"app") start_world identity w1
    (mkWorld 900 5 false (w_files w1) (w_keys w1) clock_start start_pipe [])) as (w3 & H & Hs).
  - exact E.
  - done.
  - done.
  - intros n _. cbn. split_and!; [lia|done|done].
  - exists w3. split; [exact H|]. by destruct Hs.
Defined.
