(* ===== verification/KeyHandles.v ===== *)
(** * The handles of the identity ([src/internal/device_identity.cpp])

    The storage provider and the key that a [DeviceIdentity] owns, and the
    named mutex under which it is loaded. *)
From stdpp Require Import gmultiset.
From S2P Require Import Prelude StdString Errors Codec Crypto MiniCrypto World StateStore MiniEnv.
From S2P Require Import Identity Scope Handles.

(** [provider_] and [key_]. *)
Record KeyHandles := mkKeyHandles { kh_provider : option nat; kh_key : option nat }.

Definition owned_keys (k : KeyHandles) : Owned := owned (kh_key k) ⊎ owned (kh_provider k).
#[export] Hint Unfold owned_keys : owned.

(** [DeviceIdentity::close]. *)
Definition close_keys (k : KeyHandles) : Handles unit :=
  _ ← destroy (kh_key k); destroy (kh_provider k).

(** [DeviceIdentity::operator=], from another object: what the target and the
    source hold afterwards. *)
Definition move_identity (target source : DeviceIdentity * KeyHandles) :
    Handles ((DeviceIdentity * KeyHandles) * KeyHandles) :=
  _ ← close_keys target.2; mret (source, mkKeyHandles None None).

Lemma destructs_keys k : destructs (owned_keys k) (close_keys k).
Proof. apply destructs_then; apply destructs_owned. Qed.

Lemma quiet_close_keys k : quiet (close_keys k).
Proof. unfold close_keys. auto with quiet. Qed.
#[export] Hint Resolve quiet_close_keys : quiet.

Section Keys.
Context `{C : Crypto} `{E : Env}.

(** [NCryptCreatePersistedKey] and the calls that finish the key: the handle
    exists once the first of them has succeeded. *)
Definition create_call : text := &"NCryptCreatePersistedKey".

Definition create_key_handle (key_name : text) : Handles nat :=
  w ← lift_state get_world;
  match w_keys w !! key_name with
  | Some _ =>
      _ ← lift_result (check_ntstatus nte_exists create_call);
      raise (err Cryptographic 0 [] create_call)
  | None =>
      made ← lift_state (call (fun n _ => env_create_key n key_name));
      match made with
      | KeyFailed what status =>
          let fails := _ ← lift_result (check_ntstatus status what); raise (err Cryptographic 0 [] what) in
          if bool_decide (what = create_call) then fails
          else key ← open_handle; unwinding (destroy (Some key)) fails
      | KeyMade blob =>
          key ← open_handle;
          _ ← unwinding (destroy (Some key))
                (lift_state (modify (fun w => set_keys (<[key_name := blob]> (w_keys w)) w)));
          mret key
      end
  end.

(** The handle of a key that is rejected is overwritten by [key = {}], which
    runs no destructor. *)
Definition create_handles (app_id : text) (reject_existing : bool) :
    Handles (DeviceIdentity * KeyHandles) :=
  b ← lift_state (random_bytes 16);
  let install_id := hex_lower b in
  let key_name := build_key_name app_id install_id in
  _ ← lift_state (ncrypt (&"NCryptOpenStorageProvider"));
  provider ← open_handle;
  unwinding (destroy (Some provider))
    (opened ← lift_state (open_key key_name);
     if (opened : bool) then
       key ← open_handle;
       if reject_existing then
         b ← unwinding (destroy (Some key)) (lift_state (random_bytes 16));
         let install_id := hex_lower b in
         let key_name := build_key_name app_id install_id in
         key ← create_key_handle key_name;
         mret (named_identity app_id install_id key_name, mkKeyHandles (Some provider) (Some key))
       else mret (named_identity app_id install_id key_name, mkKeyHandles (Some provider) (Some key))
     else
       key ← create_key_handle key_name;
       mret (named_identity app_id install_id key_name, mkKeyHandles (Some provider) (Some key))).

(** What follows with an identity that an exception destroys. *)
Definition with_identity_handles {A} (identity : DeviceIdentity * KeyHandles)
    (m : M A) : Handles (A * KeyHandles) :=
  unwinding (close_keys identity.2) (a ← lift_state m; mret (a, identity.2)).

Definition create_and_store_handles (app_id : text) (store : StateStore) :
    Handles (DeviceIdentity * KeyHandles) :=
  created ← create_handles app_id false;
  with_identity_handles created
    (identity ← populate_public_identity created.1;
     _ ← write_protected store metadata_file
           (metadata_text (id_install_id identity) (id_key_name identity));
     mret identity).

(** The mutex is waited for, and then released and its handle closed however
    the block is left. *)
Definition load_handles (app_id : text) (store : StateStore) : Handles (DeviceIdentity * KeyHandles) :=
  answer ← lift_state (call (fun n _ => env_mutex n));
  match answer with
  | MutexUnavailable => raise (err Identity 0 [] (&"cannot create identity mutex"))
  | MutexTimeout =>
      mutex ← open_handle; _ ← close_handle mutex;
      raise (err Identity 0 [] (&"identity mutex timeout"))
  | MutexHeld =>
      mutex ← open_handle;
      ownership ← open_handle;
      destroying (_ ← close_handle ownership; close_handle mutex)
        (metadata ← lift_state (read_metadata store);
         match metadata with
         | Some (install_id, key_name) =>
             _ ← lift_state (ncrypt (&"NCryptOpenStorageProvider"));
             provider ← open_handle;
             opened ← lift_state (open_key key_name);
             if (opened : bool) then
               key ← open_handle;
               let named := named_identity app_id install_id key_name in
               with_identity_handles (named, mkKeyHandles (Some provider) (Some key))
                 (populate_public_identity named)
             else
               _ ← close_handle provider;
               create_and_store_handles app_id store
         | None => create_and_store_handles app_id store
         end)
  end.

Definition create_pending_handles (app_id : text) : Handles (DeviceIdentity * KeyHandles) :=
  created ← create_handles app_id true;
  with_identity_handles created (populate_public_identity created.1).

(** [delete_pending]: [NCryptDeleteKey] frees the handle of the key, unless it
    fails; the members are cleared all the same. *)
Definition delete_handles (identity : DeviceIdentity * KeyHandles) :
    Handles (DeviceIdentity * KeyHandles) :=
  deleted ←
    (if id_has_key identity.1 then
       freed ← lift_state (delete_key identity.1);
       _ ← (if (freed : bool) then destroy (kh_key identity.2) else mret tt);
       mret (without_key identity.1)
     else mret identity.1);
  _ ← destroy (kh_provider identity.2);
  mret (deleted, mkKeyHandles None None).

(** ** Without the handles *)

Lemma erases_create_key key_name : erases (fun _ => tt) (create_key_handle key_name) (create_key key_name).
Proof.
  unfold create_key_handle, create_key. eapply erases_bind; [apply erases_state|intros w].
  unfold id. destruct (w_keys w !! key_name) as [?|].
  { intros s. reflexivity. }
  eapply erases_bind; [apply erases_state|intros made]. unfold id. destruct made as [blob|what status].
  - apply erases_quiet; [auto with quiet|intros key].
    intros s. reflexivity.
  - assert (erases (fun _ : nat => tt)
      (_ ← lift_result (check_ntstatus status what); raise (err Cryptographic 0 [] what))
      (_ ← lift (check_ntstatus status what); throw (err Cryptographic 0 [] what))) as He.
    { eapply erases_bind; [apply erases_lift|intros ?]. apply erases_raise. }
    case_bool_decide; [exact He|]. apply erases_quiet; [auto with quiet|intros key].
    apply erases_unwinding; [auto with quiet|exact He].
Qed.

Lemma erases_create app_id reject : erases fst (create_handles app_id reject) (create_identity app_id reject).
Proof.
  unfold create_handles, create_identity. eapply erases_bind; [apply erases_state|intros b].
  eapply erases_bind; [apply erases_state|intros ?]. apply erases_quiet; [auto with quiet|intros provider].
  apply erases_unwinding; [auto with quiet|].
  eapply erases_bind; [apply erases_state|intros opened]. unfold id. destruct opened.
  - apply erases_quiet; [auto with quiet|intros key]. destruct reject; [|by apply erases_ret].
    eapply erases_bind; [apply erases_unwinding; [auto with quiet|apply erases_state]|intros b2].
    eapply erases_bind; [apply erases_create_key|intros ?]. by apply erases_ret.
  - eapply erases_bind; [apply erases_create_key|intros ?]. by apply erases_ret.
Qed.

Lemma erases_with_identity {A} identity (m : M A) : erases fst (with_identity_handles identity m) m.
Proof.
  apply erases_unwinding; [auto with quiet|]. intros s. unfold lift_state, mbind, H_bind.
  by destruct (m (sc_state s)) as [[a|x] w].
Qed.

Lemma erases_create_and_store app_id store :
  erases fst (create_and_store_handles app_id store) (create_and_store app_id store).
Proof.
  unfold create_and_store_handles, create_and_store.
  eapply erases_bind; [apply erases_create|intros created]. apply erases_with_identity.
Qed.

Lemma erases_load app_id store : erases fst (load_handles app_id store) (load_or_create app_id store).
Proof.
  unfold load_handles, load_or_create. eapply erases_bind; [apply erases_state|intros answer].
  unfold id. destruct answer; [|intros s; reflexivity..].
  do 2 (apply erases_quiet; [auto with quiet|intros ?]).
  apply erases_destroying; [by intros s; cbn; eauto|].
  eapply erases_bind; [apply erases_state|intros [[install_id key_name]|]]; unfold id;
    [|apply erases_create_and_store].
  eapply erases_bind; [apply erases_state|intros ?]. apply erases_quiet; [auto with quiet|intros provider].
  eapply erases_bind; [apply erases_state|intros opened]. unfold id. destruct opened.
  - apply erases_quiet; [auto with quiet|intros key]. apply erases_with_identity.
  - apply erases_quiet; [by intros s; cbn; eauto|intros ?]. apply erases_create_and_store.
Qed.

Lemma erases_create_pending app_id : erases fst (create_pending_handles app_id) (create_pending app_id).
Proof.
  unfold create_pending_handles, create_pending.
  eapply erases_bind; [apply erases_create|intros created]. apply erases_with_identity.
Qed.

Lemma erases_delete identity : erases fst (delete_handles identity) (delete_pending identity.1).
Proof.
  intros s. unfold delete_handles, delete_pending, delete_key, lift_state, mbind, H_bind, call.
  destruct identity as [i [[p|] [k|]]]; cbn; destruct (id_has_key i); cbn; try done;
    (unfold mbind, H_bind, M_bind; cbn; destruct (env_ncrypt _ <? 0); cbn; try done).
Qed.

(** ** What they leave open *)

Lemma triple_guarded {A} h (m : M A) P :
  triple ({[+ h +]} ⊎ P) (unwinding (destroy (Some h)) (lift_state m)) (fun _ => {[+ h +]} ⊎ P) P.
Proof. eapply (triple_unwinding _ {[+ h +]}); [apply destructs_handle|]. apply triple_state. Qed.

Lemma triple_create_key key_name P : triple P (create_key_handle key_name) (fun key => {[+ key +]} ⊎ P) P.
Proof.
  unfold create_key_handle. step (triple_state get_world P) as w.
  destruct (w_keys w !! key_name) as [?|].
  { step (triple_lift (check_ntstatus nte_exists create_call) P) as ?. apply triple_raise. }
  step (triple_state (call (fun n _ => env_create_key n key_name)) P) as made.
  destruct made as [blob|what status].
  - eapply triple_bind; [apply triple_open|intros key]. eapply triple_bind; [apply triple_guarded|intros []].
    exact (triple_ret key (fun key => {[+ key +]} ⊎ P) P).
  - assert (forall Q F, triple F (_ ← lift_result (check_ntstatus status what);
      raise (err Cryptographic 0 [] what)) (Q : nat -> Owned) F) as Hfails.
    { intros Q F. step (triple_lift (check_ntstatus status what) F) as ?. apply triple_raise. }
    case_bool_decide; [apply Hfails|].
    eapply triple_bind; [apply triple_open|intros key].
    eapply (triple_unwinding _ {[+ key +]}); [apply destructs_handle|]. apply Hfails.
Qed.

(** The identity that is made from here owns [provider] and the new key. *)
Lemma triple_new_key provider app_id install_id key_name :
  triple {[+ provider +]}
    (key ← create_key_handle key_name;
     mret (named_identity app_id install_id key_name, mkKeyHandles (Some provider) (Some key)))
    (fun i => owned_keys i.2) {[+ provider +]}.
Proof.
  eapply triple_bind; [apply triple_create_key|intros key].
  exact (triple_ret (named_identity app_id install_id key_name, mkKeyHandles (Some provider) (Some key))
           (fun i => owned_keys i.2) {[+ provider +]}).
Qed.

(** Whether the name that [create_identity] draws first is that of a key that
    can be opened. *)
Definition drawn_opens (app_id : text) (s : Scope World nat) (opened : bool) : Prop :=
  forall b w u w', random_bytes 16 (sc_state s) = (Ok b, w) ->
    ncrypt (&"NCryptOpenStorageProvider") w = (Ok u, w') ->
    (open_key (build_key_name app_id (hex_lower b)) w').1 = Ok opened.

Lemma triple_create app_id reject s : (reject = true -> drawn_opens app_id s false) ->
  triple_from s ∅ (create_handles app_id reject) (fun i => owned_keys i.2) ∅.
Proof.
  intros Hno. unfold create_handles.
  eapply triple_from_bind; [apply (triple_state (random_bytes 16) ∅)|intros b s1 H1].
  eapply triple_from_bind; [apply (triple_state _ ∅)|intros [] s2 H2].
  eapply triple_from_bind; [apply triple_open|intros provider s3 H3].
  apply open_handle_Ok in H3 as [Hs3 _].
  eapply (triple_from_unwinding _ _ {[+ provider +]}); [apply destructs_handle|].
  eapply triple_from_bind; [apply (triple_state (open_key _))|intros opened s4 H4].
  apply lift_state_Ok in H1 as [H1 _], H2 as [H2 _], H4 as [H4 _].
  destruct opened; [|eapply triple_eq; [apply triple_new_key|owning..]].
  destruct reject.
  - rewrite Hs3 in H4. specialize (Hno eq_refl b _ _ _ H1 H2). by rewrite H4 in Hno.
  - eapply triple_from_bind; [apply triple_open|intros key s5 _].
    apply triple_return. owning.
Qed.

Lemma triple_with_identity {A} identity (m : M A) :
  triple (owned_keys identity.2) (with_identity_handles identity m) (fun r => owned_keys r.2) ∅.
Proof.
  eapply (triple_unwinding _ (owned_keys identity.2)); [apply destructs_keys|].
  step (triple_state m (owned_keys identity.2)) as a.
  exact (triple_ret (a, identity.2) (fun r => owned_keys r.2) (owned_keys identity.2 ⊎ ∅)).
Qed.

Lemma triple_create_and_store app_id store :
  triple ∅ (create_and_store_handles app_id store) (fun i => owned_keys i.2) ∅.
Proof.
  unfold create_and_store_handles. eapply triple_bind; [by intros s; apply triple_create|intros created].
  apply triple_with_identity.
Qed.

Lemma triple_load app_id store : triple ∅ (load_handles app_id store) (fun i => owned_keys i.2) ∅.
Proof.
  unfold load_handles. step (triple_state (call (fun n _ => env_mutex n)) ∅) as answer.
  destruct answer.
  - eapply triple_bind; [apply triple_open|intros mutex].
    eapply triple_bind; [apply triple_open|intros ownership].
    set (held := {[+ ownership +]} ⊎ {[+ mutex +]} : Owned).
    eapply (triple_destroying _ held).
    { apply (destructs_then _ _ (destroy (Some ownership)) (destroy (Some mutex))); apply destructs_handle. }
    eapply triple_eq; [apply (triple_frame held ∅ _ (fun i => owned_keys i.2) ∅)|unfold held; owning..].
    step (triple_state (read_metadata store) ∅) as metadata.
    destruct metadata as [[install_id key_name]|]; [|apply triple_create_and_store].
    step (triple_state (ncrypt (&"NCryptOpenStorageProvider")) ∅) as ?.
    eapply triple_bind; [apply triple_open|intros provider].
    eapply triple_bind; [apply (triple_returns _ _ ∅), returns_call|intros opened]. destruct opened.
    + eapply triple_bind; [apply triple_open|intros key].
      set (named := named_identity app_id install_id key_name).
      eapply triple_eq;
        [apply (triple_with_identity (named, mkKeyHandles (Some provider) (Some key)))|owning..].
    + eapply triple_bind; [apply triple_close|intros []]. apply triple_create_and_store.
  - apply triple_raise.
  - eapply triple_bind; [apply triple_open|intros mutex].
    eapply triple_bind; [apply triple_close|intros []]. apply triple_raise.
Qed.

Lemma triple_create_pending app_id s : drawn_opens app_id s false ->
  triple_from s ∅ (create_pending_handles app_id) (fun i => owned_keys i.2) ∅.
Proof.
  intros Hno. unfold create_pending_handles.
  eapply triple_from_bind; [by apply triple_create|intros created s1 _]. apply triple_with_identity.
Qed.

(** Whether the deletion that comes next succeeds. *)
Definition deletes (s : Scope World nat) : bool := 0 <=? env_ncrypt (w_step (sc_state s)).

Lemma delete_key_run identity w : exists w',
  delete_key identity w = (Ok (0 <=? env_ncrypt (w_step w)), w').
Proof.
  unfold delete_key, call. rewrite run_bind. cbn [fst snd].
  destruct (env_ncrypt (w_step w) <? 0) eqn:E0; breflect.
  - rewrite run_ret, (proj2 (Z.leb_gt _ _)) by lia. eauto.
  - rewrite run_bind. cbn. rewrite (proj2 (Z.leb_le _ _)) by lia. eauto.
Qed.

(** What the deletion of an identity with a key leaves open. *)
Lemma triple_delete identity s : id_has_key identity.1 = true ->
  triple_from s (owned_keys identity.2) (delete_handles identity)
    (fun _ => if deletes s then ∅ else owned (kh_key identity.2)) ∅.
Proof.
  intros Hk. unfold delete_handles. rewrite Hk.
  set (left := if deletes s then ∅ else owned (kh_key identity.2)).
  eapply (triple_from_bind _ _ _ _ (fun _ => left ⊎ owned (kh_provider identity.2))).
  - eapply triple_from_bind.
    { apply (triple_returns _ _ ∅). intros w. destruct (delete_key_run identity.1 w) as (w' & ->). eauto. }
    intros freed s1 H1. apply lift_state_Ok in H1 as [H1 _].
    destruct (delete_key_run identity.1 (sc_state s)) as (w' & Hrun). rewrite Hrun in H1.
    injection H1 as <- _. fold (deletes s). unfold left.
    eapply (triple_bind _ _ _ (fun _ => _)); [|intros []; apply triple_return; reflexivity].
    destruct (deletes s).
    + eapply triple_eq; [apply (destructs_owned (kh_key identity.2) (owned (kh_provider identity.2)) ∅)|owning..].
    + apply triple_return. owning.
  - intros deleted s1 _.
    eapply (triple_bind _ _ _ (fun _ => left)); [|intros []; by apply triple_return].
    eapply triple_eq; [apply (destructs_owned (kh_provider identity.2) left ∅)|owning..].
Qed.

Lemma triple_move target source X :
  triple (owned_keys target.2 ⊎ owned_keys source.2) (move_identity target source)
    (fun r => owned_keys r.1.2 ⊎ owned_keys r.2) X.
Proof.
  unfold move_identity. eapply triple_bind; [apply (destructs_keys target.2 (owned_keys source.2) X)|intros []].
  apply triple_return. owning.
Qed.

(** A drawn name that is taken costs a handle: the pending identity is made
    under another name, and the key that was found stays open. *)
Lemma colliding_key_leaks app_id s created s' :
  create_handles app_id true s = (Ok created, s') -> drawn_opens app_id s true ->
  exists lost added, sc_log s' = sc_log s ++ added /\
    replay ∅ added = Some ({[+ lost +]} ⊎ owned_keys created.2).
Proof.
  unfold create_handles. intros H Hcol.
  apply handles_bind_Ok in H as (b & s1 & [H1 L1]%lift_state_Ok & H).
  apply handles_bind_Ok in H as (u & s2 & [H2 L2]%lift_state_Ok & H).
  apply handles_bind_Ok in H as (provider & s3 & [S3 L3]%open_handle_Ok & H).
  apply unwinding_Ok, handles_bind_Ok in H as (opened & s4 & [H4 L4]%lift_state_Ok & H).
  specialize (Hcol b _ u _ H1 H2). rewrite S3 in H4. rewrite H4 in Hcol. injection Hcol as ->.
  apply handles_bind_Ok in H as (lost & s5 & [S5 L5]%open_handle_Ok & H).
  apply handles_bind_Ok in H as (b2 & s6 & [H6 L6]%unwinding_Ok%lift_state_Ok & H).
  apply handles_bind_Ok in H as (key & s7 & H7 & H). injection H as <- <-.
  destruct (triple_create_key (build_key_name app_id (hex_lower b2)) ({[+ lost +]} ⊎ {[+ provider +]}) s6)
    as (l & Hl & Hn). rewrite H7 in Hl, Hn. cbn [fst snd] in Hl, Hn.
  exists lost, (Opened provider :: Opened lost :: l). split.
  - by rewrite Hl, L6, L5, L4, L3, L2, L1, <- !app_assoc.
  - cbn [replay]. specialize (Hn ∅).
    replace ({[+ lost +]} ⊎ ({[+ provider +]} ⊎ ∅)) with ({[+ lost +]} ⊎ {[+ provider +]} ⊎ (∅ : Owned))
      by multiset_solver.
    rewrite Hn. apply (f_equal Some). owning.
Qed.

(** C20: where the handles of the identity go.  With its handles, loading,
    creating, deleting or moving an identity does what it does without them.
    Loading or creating the identity of the device releases the mutex and
    closes its handle on every path, and either the identity owns its provider
    and its key or, when an exception leaves, nothing is open.  The same holds
    for the pending identity of a rotation, unless the first name it draws is
    that of a key that opens: then exactly the handle of that key stays open
    beside those of the identity.  Deleting a pending identity leaves nothing
    open unless [NCryptDeleteKey] fails: then exactly the handle of its key
    stays open.  Moving an identity closes what the target owned, leaves the
    source empty and the handles to the target.  No handle is closed twice. *)
Theorem identity_handles_owned app_id store :
  (erases fst (load_handles app_id store) (load_or_create app_id store) /\
   triple ∅ (load_handles app_id store) (fun i => owned_keys i.2) ∅) /\
  (erases fst (create_pending_handles app_id) (create_pending app_id) /\
   (forall s, drawn_opens app_id s false ->
     triple_from s ∅ (create_pending_handles app_id) (fun i => owned_keys i.2) ∅) /\
   (forall s created s', drawn_opens app_id s true -> create_handles app_id true s = (Ok created, s') ->
     exists lost added, sc_log s' = sc_log s ++ added /\
       replay ∅ added = Some ({[+ lost +]} ⊎ owned_keys created.2))) /\
  (forall identity, erases fst (delete_handles identity) (delete_pending identity.1) /\
     forall s, id_has_key identity.1 = true ->
       triple_from s (owned_keys identity.2) (delete_handles identity)
         (fun _ => if deletes s then ∅ else owned (kh_key identity.2)) ∅) /\
  (forall target source, triple (owned_keys target.2 ⊎ owned_keys source.2)
     (move_identity target source) (fun r => owned_keys r.1.2 ⊎ owned_keys r.2) ∅).
Proof.
  split; [split; [apply erases_load|apply triple_load]|].
  split; [split; [apply erases_create_pending|split; [intros s; apply triple_create_pending|]]|].
  { intros s created s' Hcol H. by eapply colliding_key_leaks. }
  split; [intros identity; split; [apply erases_delete|intros s; apply triple_delete]|].
  intros target source. apply triple_move.
Qed.
End Keys.

(** A pending identity made in an empty key store. *)
Lemma identity_handles_owned_witness :
  let E := mini_env MiniEnv.quiet (fun _ => Written) in
  triple_from (mkScope start_world []) ∅ (create_pending_handles (C := mini_crypto) (&"app"))
    (fun i => owned_keys i.2) ∅.
Proof.
  intros E.
  apply (proj1 (proj2 (proj1 (proj2 (identity_handles_owned (C := mini_crypto) (E := E) (&"app") demo_store))))).
  intros b w u w' Hb Hn. vm_compute in Hb. injection Hb as <- <-. vm_compute in Hn.
  injection Hn as <- <-. vm_compute. reflexivity.
Defined.
