(* ===== verification/Policy.v ===== *)
(** * Request policies and service errors ([src/internal/request_pipeline.cpp])

    The pure parts of the pipeline: the retry policy of each operation, the
    backoff, and the mapping of an error response to an exception. *)
From S2P Require Import Prelude StdString Errors Codec Json World.

Inductive OperationClass :=
  | TrustedTimeSync | OnlineKeyManifest | UpdateCheck | Heartbeat
  | OpAuthorization | OperationGrantConsume | Events | Feedback
  | OpEnrollmentTicket | DeviceKeyRotation | Download | UpdateStream
  | FirmwareIdentity | DebugProtocol | DebugStream.

Record RequestPolicy := mkPolicy {
  timeout_ms : Z;
  retries : Z;
  backoff_ms : Z;
  backoff_max_ms : Z;
  deadline_ms : Z
}.

Definition resolve_request_policy (operation : OperationClass) : RequestPolicy :=
  match operation with
  | TrustedTimeSync => mkPolicy 10000 2 1000 4000 40000
  | OnlineKeyManifest => mkPolicy 10000 2 1000 4000 40000
  | UpdateCheck => mkPolicy 15000 2 1500 6000 60000
  | Heartbeat => mkPolicy 8000 2 1000 4000 30000
  | OpAuthorization => mkPolicy 10000 2 1000 4000 36000
  | OperationGrantConsume => mkPolicy 10000 1 1000 2000 24000
  | Events => mkPolicy 8000 1 1000 2000 20000
  | Feedback => mkPolicy 10000 1 1000 2000 24000
  | OpEnrollmentTicket => mkPolicy 10000 1 1000 2000 24000
  | DeviceKeyRotation => mkPolicy 10000 1 1000 2000 24000
  | Download => mkPolicy 30000 2 2000 8000 0
  | UpdateStream => mkPolicy 30000 0 0 0 0
  | FirmwareIdentity => mkPolicy 8000 1 500 1000 20000
  | DebugProtocol => mkPolicy 8000 1 500 1000 20000
  | DebugStream => mkPolicy 8000 1 500 1000 20000
  end.

Definition transient_status (status : Z) : bool :=
  (status =? 408) || (status =? 429) || (status =? 500) || (status =? 502) ||
  (status =? 503) || (status =? 504).

(** [backoff_ms << min(attempt, 16)] in a [long long], capped, as an [int]. *)
Definition retry_delay_ms (policy : RequestPolicy) (attempt : Z) : Z :=
  if backoff_ms policy <=? 0 then 0
  else
    let shift := Z.min attempt 16 in
    let scaled := i64 (Z.shiftl (backoff_ms policy) shift) in
    i32 (Z.min scaled (Z.max (backoff_max_ms policy) (backoff_ms policy))).

(** ** Service errors *)

Record ServiceError := mkServiceError {
  se_code : text;
  se_message : text;
  se_minimum_supported_version : text
}.

(** A bare error string is also the code when it looks like one. *)
Definition code_like (message : text) : bool :=
  negb (bool_decide (message = [])) && (zlen message <=? 128) &&
  forallb (fun ch => islower ch || isdigit ch || bool_decide (ch = "_"%char)) message.

Definition json_service_error (body : Json) : Result ServiceError :=
  match json_find body (&"error") with
  | None =>
      code ← json_get_string body (&"code") false;
      message ← json_get_string body (&"message") false;
      Ok (mkServiceError code message [])
  | Some (JString message) =>
      Ok (mkServiceError (if code_like message then message else []) message [])
  | Some (JObject _ as error) =>
      code ← json_get_string error (&"code") false;
      message ← json_get_string error (&"message") false;
      minimum ← json_get_string error (&"minimum_supported_version") false;
      Ok (mkServiceError code (if bool_decide (message = []) then code else message) minimum)
  | Some _ => Ok (mkServiceError [] [] [])
  end.

(** The failure action of an error object. *)
Definition error_action (body : Json) : IntegrityFailureAction :=
  match json_find body (&"error") with
  | Some (JObject _ as error) =>
      match json_find error (&"failure_action") with
      | Some (JString a) => if bool_decide (a = &"deny_operations") then DenyOperations
                            else ShutdownClient
      | _ => ShutdownClient
      end
  | _ => ShutdownClient
  end.

Record ProtocolResponse := mkResponse {
  pr_status_code : Z;
  pr_body : Bytes;
  pr_request_nonce : text;
  pr_headers : HttpHeaders
}.

Definition prefixed (prefix code : text) : bool := starts_with prefix code.

(** The exception for an error status with the fields of its body. *)
Definition service_exception (status : Z) (body : Bytes) (code message minimum : text)
    (action : IntegrityFailureAction) : Error :=
  if bool_decide (code = &"device_blocked") then error DeviceBlocked status code message
  else if bool_decide (code = &"client_version_unsupported")
  then mkError UnsupportedVersion status code message [] ShutdownClient minimum
  else if bool_decide (code = &"update_region_blocked")
  then error UpdateRegionBlocked status code message
  else if bool_decide (code = &"feedback_disabled") then error FeedbackDisabled status code message
  else if prefixed (&"release_integrity_") code
  then mkError Integrity status code message body action []
  else if prefixed (&"operation_auth_") code || prefixed (&"operation_grant_") code
  then error OperationAuthorization status code message
  else if status =? 401 then error Session status code message
  else if status =? 403 then error Unauthorized status code message
  else if status =? 429 then error RateLimit status code message
  else error (if 500 <=? status then Api else Validation) status code message.

Section ThrowIfError.
Context `{J : JsonLib}.

Definition throw_if_error (response : ProtocolResponse) : Result unit :=
  let status := pr_status_code response in
  let body := pr_body response in
  if (200 <=? status) && (status <? 300) then Ok tt
  else
    match (parsed ← parse_json body (&"service error");
           service ← json_service_error parsed;
           Ok (parsed, service)) with
    | Ok (parsed, service) =>
        Throw (Swm (service_exception status body (se_code service) (se_message service)
                      (se_minimum_supported_version service) (error_action parsed)))
    | Throw _ => Throw (Swm (service_exception status body [] body [] ShutdownClient))
    end.

End ThrowIfError.

(** * Lemmas *)

(** The delay before a retry doubles with each attempt up to the cap, is
    never negative, and for every operation all attempts with their timeouts
    and delays fit in the operation's deadline. *)
Theorem retry_schedule :
  (forall policy attempt,
     0 <= backoff_ms policy < 2 ^ 31 -> 0 <= backoff_max_ms policy < 2 ^ 31 -> 0 <= attempt ->
     retry_delay_ms policy attempt =
       Z.min (backoff_ms policy * 2 ^ Z.min attempt 16)
         (Z.max (backoff_max_ms policy) (backoff_ms policy))) /\
  (forall operation,
     let p := resolve_request_policy operation in
     0 < deadline_ms p ->
     (retries p + 1) * timeout_ms p +
       foldr Z.add 0 (retry_delay_ms p <$> seqZ 0 (retries p)) <= deadline_ms p).
Proof.
  split.
  - intros p a Hb Hm Ha. unfold retry_delay_ms. destruct (backoff_ms p <=? 0) eqn:E; breflect.
    + assert (backoff_ms p = 0) as -> by lia. lia.
    + assert (1 <= 2 ^ Z.min a 16 <= 2 ^ 16) as [H1 H2].
      { split; [apply (Z.pow_le_mono_r 2 0)|apply Z.pow_le_mono_r]; lia. }
      change (2 ^ 16) with 65536 in H2. change (2 ^ 31) with 2147483648 in *.
      rewrite Z.shiftl_mul_pow2 by lia.
      rewrite i64_small by (change (2 ^ 63) with 9223372036854775808; nia).
      unfold i32. change (2 ^ 31) with 2147483648. change (2 ^ 32) with 4294967296.
      rewrite Z.mod_small; [ring|]. nia.
  - intros [] p; unfold p; cbn; intros H; vm_compute; done.
Qed.

Section Errors.
Context `{J : JsonLib}.

Lemma throw_if_error_Ok response :
  throw_if_error response = Ok tt <-> 200 <= pr_status_code response < 300.
Proof.
  unfold throw_if_error. destruct ((200 <=? _) && _) eqn:E.
  - breflect. split; [lia|done].
  - split; [|intros; apply andb_false_iff in E as [?|?]; breflect; lia].
    intros H. exfalso. repeat case_match; done.
Qed.

Lemma service_exception_status a b c d e f : status_code (service_exception a b c d e f) = a.
Proof. unfold service_exception. repeat case_match; done. Qed.

(** [throw_if_error] lets exactly the 2xx responses pass, and every other
    one becomes a [swm::Error] that carries the response's status; an
    unreadable body is the message. *)
Theorem throw_if_error_iff response :
  (throw_if_error response = Ok tt <-> 200 <= pr_status_code response < 300) /\
  (forall x, throw_if_error response = Throw x ->
     exists e, x = Swm e /\ status_code e = pr_status_code response /\
       (forall what, parse_json (pr_body response) (&"service error") = Throw what ->
          message e = pr_body response /\ service_code e = [])).
Proof.
  split; [apply throw_if_error_Ok|]. intros x H. unfold throw_if_error in H. case_match; [done|].
  destruct (_ ≫= _) as [[parsed service]|y] eqn:Ep; injection H as <-.
  - eexists. split_and!; [done|apply service_exception_status|]. intros what Hw. by rewrite Hw in Ep.
  - eexists. split_and!; [done|apply service_exception_status|]. intros what _.
    unfold service_exception. cbn. repeat case_match; done.
Qed.

End Errors.
