(* ===== verification/Pipeline.v ===== *)
(** * The request pipeline ([src/internal/request_pipeline.cpp])

    Requests with their proof of possession and encrypted body, retries,
    the refresh of the trusted time and of the online keys, the verification
    of authorized responses, and the offline budget. *)
From S2P Require Import Prelude StdString Errors Codec Json Types Crypto Clock Keyring World.
From S2P Require Import Http StateStore Identity Policy.

Record ProtocolRequest := mkProtocolRequest {
  q_method : text;
  q_path : text;
  q_operation : OperationClass;
  q_body : Bytes;
  q_encrypt_body : bool;
  q_require_session : bool;
  q_require_trusted_time : bool;
  q_require_online_key : bool;
  q_content_type : text;
  q_query : text;
  q_dpop_resource : text
}.

Definition json_content_type : text := &"application/json; charset=utf-8".

Definition body_encryption : text := &"x25519-aes-gcm-v1".
Definition maximum_offline_ms : Z := 24 * 60 * 60 * 1000.

(** Trailing slashes of a base URL are dropped. *)
Definition strip_slashes (base : text) : text :=
  reverse (drop_while (fun c => bool_decide (c = "/"%char)) (reverse base)).

Definition version_code_header (c : option Z) : text :=
  match c with Some z => to_string z | None => [] end.

(** ** The offline budget file *)

Definition budget_text (install_id thumbprint : text) (now : Z) : text :=
  &"SwmSdkOfflineBudgetV1" ++ [nl] ++ install_id ++ [nl] ++ thumbprint ++ [nl] ++
  to_string now ++ [nl].

(** The install id, the thumbprint and the time of a budget file. *)
Definition budget_fields (txt : text) : option (text * text * text) :=
  '(header, rest) ← getline txt;
  '(install, rest) ← getline rest;
  '(thumbprint, rest) ← getline rest;
  '(milliseconds, _) ← getline rest;
  if bool_decide (header = &"SwmSdkOfflineBudgetV1") then Some (install, thumbprint, milliseconds)
  else None.

Definition offline_file : text := &"offline.bin".

Section Pipeline.
Context `{C : Crypto} `{J : JsonLib} `{E : Env}.
Context (options : ClientOptions) (store : StateStore).

Definition absolute_url (path query : text) : text :=
  strip_slashes (base_url options) ++ path ++
  (if bool_decide (query = []) then [] else &"?" ++ query).

(** ** Identity, loaded on first use *)

Definition get_identity : M DeviceIdentity :=
  p ← get_pipe;
  match p_identity p with
  | Some i => mret i
  | None =>
      i ← load_or_create (app_id options) store;
      _ ← put_pipe (with_identity (Some i));
      mret i
  end.

Definition device_id : M text :=
  if negb (bool_decide (opt_device_id options = [])) then mret (opt_device_id options)
  else i ← get_identity; mret (id_device_id i).

Definition install_id : M text := i ← get_identity; mret (id_install_id i).
Definition device_key_id : M text := i ← get_identity; mret (id_key_id i).

(** ** Session and time *)

Definition ensure_session : M text :=
  init ← clock_initialized;
  _ ← ensure init (err Errors.Clock 0 []
        (&"trusted server time is unavailable for session validation"));
  now ← now_seconds_m;
  p ← get_pipe;
  match p_session p with
  | Some s =>
      if p_session_expires_at p <=? now
      then throw (err Session 401 (&"authz_session_invalid")
                    (&"authorization session is missing or expired"))
      else mret s
  | None => throw (err Session 401 (&"authz_session_invalid")
                     (&"authorization session is missing or expired"))
  end.

Definition ensure_trusted_now : M text :=
  now ← now_seconds_m;
  if now <=? 0
  then throw (err Errors.Clock 0 [] (&"trusted server time is unavailable"))
  else mret (to_string now).

Definition clear_session : M unit := put_pipe (with_session None 0).

(** ** Proof of possession *)

Definition dpop_header (key_id : text) : Json :=
  json_object [(&"alg", JString (&"ES256")); (&"kid", JString key_id);
               (&"typ", JString (&"swm-dpop+jwt"))].

Definition dpop_payload (device install method url session_binding jti : text) (body : Bytes)
    (now : Z) : Json :=
  json_object
    [(&"app_id", JString (app_id options));
     (&"ath", JString (base64url_encode (sha256 session_binding)));
     (&"body_sha256", JString (sha256_hex body));
     (&"channel", JString (channel options));
     (&"device_id", JString device);
     (&"exp", JInt (now + 60));
     (&"htm", JString method);
     (&"htu", JString url);
     (&"iat", JInt now);
     (&"install_id", JString install);
     (&"jti", JString jti);
     (&"pcid", JString device);
     (&"release_id", JString (release_id options))].

Definition create_dpop (method url session_binding : text) (body : Bytes) : M text :=
  now ← now_seconds_m;
  _ ← ensure (negb (now <=? 0))
        (err Errors.Clock 0 [] (&"trusted server time is unavailable"));
  key_id ← device_key_id;
  device ← device_id;
  install ← install_id;
  jti ← random_bytes 16;
  header_text ← lift (json_dump (dpop_header key_id));
  payload_text ← lift (json_dump
    (dpop_payload device install method url session_binding (hex_lower jti) body now));
  let signing_input := base64url_encode header_text ++ &"." ++ base64url_encode payload_text in
  identity ← get_identity;
  sig ← sign_sha256 identity (sha256 signing_input);
  mret (signing_input ++ &"." ++ base64url_encode sig).

(** ** One attempt *)

Definition base_headers (timestamp nonce : text) : HttpHeaders :=
  foldl (fun h '(n, v) => header_add n v h) []
    [(&"X-App-Id", app_id options); (&"X-Timestamp", timestamp); (&"X-Nonce", nonce);
     (&"X-Authz-Capability", &"v3"); (&"X-Client-Release-Id", release_id options);
     (&"X-Client-Version", version options);
     (&"X-Client-Version-Code", version_code_header (version_code options))].

(** The random bytes of the body encryption: the ephemeral key and the nonce. *)
Definition encrypt_body (request : ProtocolRequest) (timestamp nonce : text) (key : ProtocolKey) :
    M Bytes :=
  stamp ← lift (of_option (stoll timestamp) (StdExn (&"stoll")));
  ephemeral ← random_bytes 32;
  nonce_bytes ← random_bytes 12;
  lift (encrypt_request_body ephemeral nonce_bytes (q_method request) (q_path request)
    (canonical_query (q_query request)) stamp nonce (app_id options) (release_id options)
    (version options) (version_code_header (version_code options)) (key_id key)
    (public_key key) (q_body request)).

(** The protected part of a request: headers and body. *)
Definition protect_request (request : ProtocolRequest) (url timestamp nonce : text)
    (headers : HttpHeaders) : M (HttpHeaders * Bytes) :=
  if negb (q_require_online_key request) then mret (headers, q_body request)
  else
    tick ← tick_ms;
    w ← get_world;
    key ← lift (current_key (p_ring (w_pipe w)) (w_clock w) tick);
    session_binding ← (if q_require_session request then ensure_session else mret []);
    proof ← create_dpop (q_method request) url session_binding (q_body request);
    let headers := header_add (&"X-SWM-DPoP") proof headers in
    let headers := if q_require_session request
                   then header_add (&"X-SWM-Session") session_binding headers else headers in
    if q_encrypt_body request then
      body ← encrypt_body request timestamp nonce key;
      let headers := header_add (&"X-SWM-Body-Enc") body_encryption headers in
      mret (header_add (&"X-SWM-Online-Key-Id") (key_id key) headers, body)
    else mret (headers, q_body request).

Definition send_attempt (request : ProtocolRequest) (policy : RequestPolicy) : M ProtocolResponse :=
  _ ← throw_if_stopped;
  timestamp ← (if q_require_trusted_time request then ensure_trusted_now
               else now ← system_time; mret (to_string now));
  nonce ← random_uuid_m;
  let url := if bool_decide (q_dpop_resource request = [])
             then absolute_url (q_path request) (q_query request) else q_dpop_resource request in
  protected ← protect_request request url timestamp nonce (base_headers timestamp nonce);
  let '(headers, body) := protected in
  let headers := if bool_decide (q_content_type request = []) then headers
                 else header_add (&"content-type") (q_content_type request) headers in
  response ← Http.request (allow_insecure_http options)
    (mkHttpRequest (q_method request) (absolute_url (q_path request) (q_query request)) headers
       body (timeout_ms policy) (16 * 1024 * 1024));
  mret (mkResponse (rs_status_code response) (rs_body response) nonce (rs_headers response)).

(** ** Retries *)

Definition can_wait (policy : RequestPolicy) (started delay attempt : Z) : M bool :=
  if retries policy <=? attempt then mret false
  else if deadline_ms policy <=? 0 then mret true
  else tick ← tick_ms;
       mret (u64 (tick - started + delay + timeout_ms policy) <=? deadline_ms policy).

Definition past_deadline (policy : RequestPolicy) (started : Z) : M bool :=
  if 0 <? deadline_ms policy then
    tick ← tick_ms; mret (deadline_ms policy <? u64 (tick - started + timeout_ms policy))
  else mret false.

Definition retryable (k : ErrorKind) : bool := bool_decide (k = Network) || bool_decide (k = Timeout).

(** The [try] around an attempt: a network or timeout error is a value. *)
Definition attempt_once {A} (m : M A) : M (A + Error) :=
  try_catch (r ← m; mret (inl r))
    (fun x => match x with
              | Swm e => if retryable (kind e) then mret (inr e) else throw x
              | StdExn _ => throw x
              end).

Definition report_last {A} (last_error : option Error) (what : text) : M A :=
  match last_error with
  | Some e => throw (Swm e)
  | None => throw (err Timeout 0 [] what)
  end.

Definition pause (delay : Z) : M unit := if 0 <? delay then sleep_for delay else mret tt.

(** The loop of [send] and of [send_web], which differ in their responses, in
    the message when the deadline has passed and in clamping the delay after a
    transient response; [more] is the number of attempts that remain. *)
Fixpoint send_loop {A} (status : A -> Z) (clamp : Z -> Z) (what : text) (policy : RequestPolicy)
    (started : Z) (m : M A) (more : nat) (attempt : Z) (last_error : option Error) : M A :=
  match more with
  | O => report_last last_error what
  | S more =>
      _ ← throw_if_stopped;
      past ← past_deadline policy started;
      if (past : bool) then report_last last_error what
      else
        outcome ← attempt_once m;
        match outcome with
        | inl response =>
            if transient_status (status response) && (attempt <? retries policy) then
              let delay := clamp (retry_delay_ms policy attempt) in
              wait ← can_wait policy started delay attempt;
              if negb (wait : bool) then mret response
              else _ ← pause delay;
                   send_loop status clamp what policy started m more (attempt + 1) last_error
            else mret response
        | inr e =>
            if retries policy <=? attempt then report_last (Some e) what
            else
              let delay := retry_delay_ms policy attempt in
              wait ← can_wait policy started delay attempt;
              if negb (wait : bool) then report_last (Some e) what
              else _ ← pause delay;
                   send_loop status clamp what policy started m more (attempt + 1) (Some e)
        end
  end.

Definition send_with_retries (request : ProtocolRequest) : M ProtocolResponse :=
  let policy := resolve_request_policy (q_operation request) in
  started ← tick_ms;
  send_loop pr_status_code (fun delay => Z.max delay 0) (&"request deadline exceeded") policy started
    (send_attempt request policy) (Z.to_nat (retries policy + 1)) 0 None.

(** ** The offline budget *)

(** The recorded time of the last verified interaction of this identity. *)
Definition recorded_time (plaintext : option Bytes) : M (option text) :=
  match plaintext ≫= budget_fields with
  | None => mret None
  | Some (install, thumbprint, milliseconds) =>
      i ← get_identity;
      mret (if bool_decide (install = id_install_id i) &&
               bool_decide (thumbprint = id_key_thumbprint i)
            then Some milliseconds else None)
  end.

Definition offline_locked : M bool :=
  p ← get_pipe;
  if p_offline_latched p then mret true
  else
    plaintext ← read_protected store offline_file;
    line ← recorded_time plaintext;
    match line ≫= stoll with
    | None => mret true
    | Some last =>
        if last <=? 0 then mret true
        else
          now ← now_ms_m;
          mret ((now <=? 0) || (now <? last) || (maximum_offline_ms <? u64 (now - last)))
    end.

Definition note_verified_interaction : M unit :=
  now ← now_ms_m;
  if now <=? 0 then mret tt
  else
    plaintext ← read_protected store offline_file;
    line ← recorded_time plaintext;
    let last := default 0 (line ≫= stoll) in
    _ ← (if (0 <? last) && (last <=? now) && (maximum_offline_ms <? u64 (now - last))
         then put_pipe (with_latched true) else mret tt);
    i ← get_identity;
    write_protected store offline_file
      (budget_text (id_install_id i) (id_key_thumbprint i) now).

(** ** The trusted time *)

Definition plain_request (path : text) (operation : OperationClass) (trusted : bool) :
    ProtocolRequest :=
  mkProtocolRequest (&"GET") path operation [] false false trusted false json_content_type [] [].

Definition time_request : ProtocolRequest := plain_request (&"/api/client/time") TrustedTimeSync false.
Definition keys_request : ProtocolRequest :=
  plain_request (&"/api/client/key-manifest") OnlineKeyManifest true.

Record SignedTime := mkSignedTime {
  tm_version : text; tm_app_id : text; tm_release_id : text; tm_nonce : text;
  tm_root_key : text; tm_signature : text; tm_server_time : Z; tm_expires_at : Z
}.

Definition signed_time (body : Json) : Result SignedTime :=
  version ← json_get_string body (&"manifest_version") true;
  app ← json_get_string body (&"app_id") true;
  release ← json_get_string body (&"release_id") true;
  nonce ← json_get_string body (&"nonce") true;
  root ← json_get_string body (&"root_trust_key_id") true;
  sig ← json_get_string body (&"signature") true;
  server_time ← json_get_int64 body (&"server_time_ms") 0;
  expires_at ← json_get_int64 body (&"expires_at_ms") 0;
  Ok (mkSignedTime version app release nonce root sig server_time expires_at).

Definition time_canonical (t : SignedTime) : text :=
  &"server_time_v1" ++ [nl] ++ &"app_id:" ++ tm_app_id t ++
  [nl] ++ &"release_id:" ++ tm_release_id t ++ [nl] ++ &"nonce:" ++ tm_nonce t ++
  [nl] ++ &"server_time_ms:" ++ to_string (tm_server_time t) ++
  [nl] ++ &"expires_at_ms:" ++ to_string (tm_expires_at t) ++
  [nl] ++ &"root_trust_key_id:" ++ tm_root_key t.

Definition time_acceptable (t : SignedTime) (request_nonce : text) : bool :=
  bool_decide (tm_version t = &"server_time_v1") && bool_decide (tm_app_id t = app_id options) &&
  bool_decide (tm_release_id t = release_id options) && bool_decide (tm_nonce t = request_nonce) &&
  bool_decide (tm_root_key t = root_trust_key_id options) && (0 <? tm_server_time t) &&
  (tm_server_time t <? tm_expires_at t) &&
  (i64 (tm_expires_at t - tm_server_time t) <=? 60000).

Definition refresh_trusted_time : M unit :=
  started ← tick_ms;
  response ← send_with_retries time_request;
  received ← tick_ms;
  _ ← lift (throw_if_error response);
  body ← lift (parse_json (pr_body response) (&"signed server time"));
  t ← lift (signed_time body);
  _ ← ensure (time_acceptable t (pr_request_nonce response))
        (err Errors.Clock 0 [] (&"signed server time identity or lifetime is invalid"));
  ok ← lift (ed25519_verify (root_trust_public_key options) (time_canonical t) (tm_signature t));
  _ ← ensure ok (err Errors.Clock 0 [] (&"signed server time signature is invalid"));
  clock ← lift (set_authoritative_time (tm_server_time t) started received);
  _ ← modify (set_clock clock);
  note_verified_interaction.

(** ** The online keys *)

(** [send] for a request that needs no online key and no session. *)
Definition send_timed (request : ProtocolRequest) : M ProtocolResponse :=
  init ← clock_initialized;
  _ ← (if q_require_trusted_time request && negb init then refresh_trusted_time else mret tt);
  send_with_retries request.

Record KeyManifest := mkKeyManifest {
  km_version : text; km_purpose : text; km_app_id : text; km_release_id : text;
  km_key_id : text; km_public_key : text; km_root_id : text; km_signature : text;
  km_issued_at : Z; km_refresh_after : Z
}.

Definition key_manifest (manifest : Json) : Result KeyManifest :=
  version ← json_get_string manifest (&"manifest_version") true;
  purpose ← json_get_string manifest (&"purpose") true;
  app ← json_get_string manifest (&"app_id") true;
  release ← json_get_string manifest (&"release_id") true;
  key_id ← json_get_string manifest (&"key_id") true;
  public_key ← json_get_string manifest (&"public_key") true;
  root_id ← json_get_string manifest (&"root_trust_key_id") true;
  sig ← json_get_string manifest (&"root_trust_signature") true;
  issued_at ← json_get_int64 manifest (&"issued_at") 0;
  refresh_after ← json_get_int64 manifest (&"refresh_after") 0;
  Ok (mkKeyManifest version purpose app release key_id public_key root_id sig issued_at
        refresh_after).

Definition manifest_acceptable (m : KeyManifest) (now : Z) : bool :=
  bool_decide (km_version m = &"online_key_manifest_v1") &&
  bool_decide (km_purpose m = &"online_body") &&
  bool_decide (km_app_id m = app_id options) && bool_decide (km_release_id m = release_id options) &&
  bool_decide (km_root_id m = root_trust_key_id options) && negb (bool_decide (km_key_id m = [])) &&
  negb (bool_decide (km_public_key m = [])) && (0 <? km_issued_at m) &&
  (km_issued_at m <? km_refresh_after m) &&
  (i64 (km_refresh_after m - km_issued_at m) <=? 30 * 24 * 60 * 60) &&
  (km_issued_at m <=? now + 120) && (now - 120 <=? km_refresh_after m).

Definition manifest_canonical (m : KeyManifest) : text :=
  &"online_key_manifest_v1" ++ [nl] ++ &"purpose:" ++ km_purpose m ++
  [nl] ++ &"app_id:" ++ km_app_id m ++ [nl] ++ &"release_id:" ++ km_release_id m ++
  [nl] ++ &"key_id:" ++ km_key_id m ++ [nl] ++ &"public_key:" ++ km_public_key m ++
  [nl] ++ &"root_trust_key_id:" ++ km_root_id m ++
  [nl] ++ &"issued_at:" ++ to_string (km_issued_at m) ++
  [nl] ++ &"refresh_after:" ++ to_string (km_refresh_after m).

Definition invalid_key_manifest (what : text) : Exn :=
  err Integrity 0 (&"online_key_manifest_invalid") what.

Definition refresh_online_keys_core : M unit :=
  response ← send_timed keys_request;
  _ ← lift (throw_if_error response);
  manifest ← lift (parse_json (pr_body response) (&"online key manifest"));
  m ← lift (key_manifest manifest);
  now ← now_seconds_m;
  _ ← ensure (manifest_acceptable m now)
        (invalid_key_manifest (&"online key manifest identity or lifetime is invalid"));
  ok ← lift (ed25519_verify (root_trust_public_key options) (manifest_canonical m) (km_signature m));
  _ ← ensure ok (invalid_key_manifest (&"online key manifest root signature is invalid"));
  p ← get_pipe;
  ring ← lift (install_key (p_ring p)
           (mkKey (km_key_id m) (km_public_key m) (km_issued_at m) (km_refresh_after m)));
  put_pipe (with_ring ring).

Definition with_clock_and_ring {A} (f : Keyring -> ClockState -> Z -> A) : M A :=
  tick ← tick_ms; w ← get_world; mret (f (p_ring (w_pipe w)) (w_clock w) tick).

(** [refresh_mutex_]: 100 ms tries until the deadline; [fuel] counts them. *)
Fixpoint lock_refresh (fuel : nat) (deadline : Z) : M unit :=
  match fuel with
  | O => throw (err Timeout 0 [] (&"online key refresh lock timeout"))
  | S f =>
      busy ← call (fun n _ => env_lock_busy n);
      if negb (busy : bool) then mret tt
      else
        _ ← sleep_for 100;
        _ ← throw_if_stopped;
        now ← tick_ms;
        if deadline <=? now then throw (err Timeout 0 [] (&"online key refresh lock timeout"))
        else lock_refresh f deadline
  end.

Definition lock_tries : nat := 301.

Definition tolerated (usable : bool) (x : Exn) : bool :=
  match x with
  | Swm e => usable && (retryable (kind e) || (500 <=? status_code e))
  | StdExn _ => false
  end.

Definition refresh_online_keys (force : bool) : M unit :=
  fresh ← (if force then mret false else with_clock_and_ring has_fresh_key);
  if (fresh : bool) then mret tt
  else
    now ← tick_ms;
    _ ← lock_refresh lock_tries (now + 30000);
    fresh ← (if force then mret false else with_clock_and_ring has_fresh_key);
    if (fresh : bool) then mret tt
    else
      try_catch
        (init ← clock_initialized;
         _ ← (if negb init then refresh_trusted_time else mret tt);
         refresh_online_keys_core)
        (fun x =>
           usable ← with_clock_and_ring can_use_current_key_after_refresh_failure;
           if tolerated usable x then mret tt else throw x).

(** ** [send] *)

Definition send (request : ProtocolRequest) : M ProtocolResponse :=
  init ← clock_initialized;
  _ ← (if q_require_trusted_time request && negb init then refresh_trusted_time else mret tt);
  _ ← (if q_require_online_key request then refresh_online_keys false else mret tt);
  _ ← (if q_require_session request then (_ ← ensure_session; mret tt) else mret tt);
  send_with_retries request.

(** ** Authorized responses *)

Record Authz := mkAuthz {
  az_version : text; az_decision : text; az_release : text; az_device : text; az_nonce : text;
  az_data_hash : text; az_key_id : text; az_reason : text; az_session : text;
  az_signature : text; az_issued_at : Z; az_expires_at : Z
}.

Definition authz_fields (authz : Json) : Result Authz :=
  version ← json_get_string authz (&"version") true;
  decision ← json_get_string authz (&"decision") true;
  release ← json_get_string authz (&"release_id") true;
  device ← json_get_string authz (&"device_id") true;
  nonce ← json_get_string authz (&"nonce") true;
  data_hash ← json_get_string authz (&"data_sha256") true;
  key_id ← json_get_string authz (&"key_id") true;
  reason ← json_get_string authz (&"reason") false;
  session ← json_get_string authz (&"session") false;
  sig ← json_get_string authz (&"signature") true;
  issued_at ← json_get_int64 authz (&"issued_at") 0;
  expires_at ← json_get_int64 authz (&"expires_at") 0;
  Ok (mkAuthz version decision release device nonce data_hash key_id reason session sig
        issued_at expires_at).

Definition authz_canonical (a : Authz) : text :=
  &"authz_v3" ++ [nl] ++ &"app_id:" ++ app_id options ++
  [nl] ++ &"release_id:" ++ az_release a ++ [nl] ++ &"device_id:" ++ az_device a ++
  [nl] ++ &"nonce:" ++ az_nonce a ++ [nl] ++ &"decision:" ++ az_decision a ++
  [nl] ++ &"reason:" ++ az_reason a ++ [nl] ++ &"data_sha256:" ++ az_data_hash a ++
  [nl] ++ &"session:" ++ az_session a ++ [nl] ++ &"issued_at:" ++ to_string (az_issued_at a) ++
  [nl] ++ &"expires_at:" ++ to_string (az_expires_at a) ++ [nl] ++ &"key_id:" ++ az_key_id a.

Definition authz_invalid : Exn :=
  err Unauthorized 403 (&"authz_invalid") (&"Authz v3 response identity or lifetime is invalid").

(** The checks before and after [device_id()] is called. *)
Definition authz_for_release (a : Authz) : bool :=
  bool_decide (az_version a = &"authz_v3") && bool_decide (az_decision a = &"allow") &&
  bool_decide (az_release a = release_id options).

Definition authz_current (a : Authz) (request_nonce : text) (now : Z) : bool :=
  bool_decide (az_nonce a = request_nonce) && (0 <? az_issued_at a) &&
  (az_issued_at a <? az_expires_at a) && (i64 (az_expires_at a - az_issued_at a) <=? 900) &&
  (az_issued_at a <=? now + 120) && (now - 120 <=? az_expires_at a).

(** All the checks of [verify_authz]: the data and the authorization. *)
Definition check_authz (response : ProtocolResponse) : M (Json * Authz) :=
  _ ← lift (throw_if_error response);
  carrier ← lift (parse_json (pr_body response) (&"Authz v3 carrier"));
  match json_find carrier (&"data"), json_find carrier (&"authz") with
  | Some data, Some (JObject _ as authz) =>
      raw_data ← lift (of_option (extract_json_member_raw (pr_body response) (&"data"))
        (err Protocol 0 [] (&"Authz v3 response data is missing")));
      a ← lift (authz_fields authz);
      now ← now_seconds_m;
      _ ← ensure (authz_for_release a) authz_invalid;
      device ← device_id;
      _ ← ensure (bool_decide (az_device a = device) &&
                  authz_current a (pr_request_nonce response) now) authz_invalid;
      _ ← ensure (bool_decide (lower_ascii (sha256_hex raw_data) = lower_ascii (az_data_hash a)))
            (err Integrity 403 (&"authz_data_mismatch")
               (&"Authz v3 response data hash is invalid"));
      p ← get_pipe;
      key ← lift (of_option (find_key (p_ring p) (az_key_id a))
              (err Unauthorized 403 (&"authz_invalid") (&"Authz v3 response key is unknown")));
      ok ← lift (ed25519_verify (public_key key) (authz_canonical a) (az_signature a));
      _ ← ensure ok (err Integrity 403 (&"authz_signature_invalid")
                       (&"Authz v3 response signature is invalid"));
      mret (data, a)
  | _, _ => throw (err Protocol 0 [] (&"Authz v3 carrier is incomplete"))
  end.

(** A verified response renews the session and the offline budget. *)
Definition verify_authz (response : ProtocolResponse) : M Json :=
  checked ← check_authz response;
  let '(data, a) := checked in
  _ ← (if bool_decide (az_session a = []) then mret tt
       else put_pipe (with_session (Some (az_session a)) (az_expires_at a)));
  _ ← note_verified_interaction;
  mret data.

Definition send_and_verify (request : ProtocolRequest) : M Json :=
  response ← send request; verify_authz response.

End Pipeline.
