(* ===== verification/Send.v ===== *)
(** * Sending: what it changes, and how it retries

    Frames for the operations of the pipeline, and the refinement of the
    retry loop of [RequestPipeline::send]. *)
From S2P Require Import Prelude StdString Errors Codec Json Types Crypto Clock Keyring World.
From S2P Require Import Http StateStore Identity Policy Pipeline.

(** ** Frames of the pipeline

    A [Local] frame also lets files be written, keys be made and the identity
    be cached, with the hardware evidence and the manifest; an [Inner] frame also lets requests be sent. *)
Class Local `{E : Env} (R : relation World) := {
  local_frame :: Frame R;
  local_files f w : R w (set_files f w);
  local_keys k w : R w (set_keys k w);
  local_identity i w : R w (set_pipe (with_identity i (w_pipe w)) w);
  local_hardware h w : R w (set_pipe (with_hardware h (w_pipe w)) w);
  local_manifest m w : R w (set_pipe (with_manifest m (w_pipe w)) w)
}.

Class Inner `{E : Env} (R : relation World) := {
  inner_local :: Local R;
  inner_log r w : R w (log_sent r w)
}.

(** The worlds agree on [f]. *)
Definition keeps {B} (f : World -> B) : relation World := fun w w' => f w' = f w.

#[global] Instance grows_to_inner `{E : Env} : Inner grows_to.
Proof.
  split; [|apply grows_log]. split; [apply _|..]; intros; split; cbn; first [lia | done].
Qed.

Ltac keeps_local :=
  split; [split; [split|]|..]; unfold keeps; try done; intros ?*; congruence.
Ltac keeps_inner := split; [keeps_local|unfold keeps; done].

#[global] Instance keeps_sent `{E : Env} : Local (keeps w_sent).
Proof. keeps_local. Qed.

#[global] Instance keeps_clock `{E : Env} : Inner (keeps w_clock).
Proof. keeps_inner. Qed.
#[global] Instance keeps_ring `{E : Env} : Inner (keeps (fun w => p_ring (w_pipe w))).
Proof. keeps_inner. Qed.
#[global] Instance keeps_session `{E : Env} :
  Inner (keeps (fun w => (p_session (w_pipe w), p_session_expires_at (w_pipe w)))).
Proof. keeps_inner. Qed.
#[global] Instance keeps_required `{E : Env} :
  Inner (keeps (fun w => p_host_integrity_required (w_pipe w))).
Proof. keeps_inner. Qed.
#[global] Instance keeps_latched `{E : Env} : Inner (keeps (fun w => p_offline_latched (w_pipe w))).
Proof. keeps_inner. Qed.

Section LocalSteps.
Context `{C : Crypto} `{J : JsonLib} `{E : Env} (R : relation World) `{I : !Local R}.
Context (options : ClientOptions) (store : StateStore).

Lemma steps_put_file path content : steps R (put_file path content).
Proof using I. apply steps_modify. intros w. apply local_files. Qed.
Lemma steps_remove_file path : steps R (remove_file path).
Proof using I. apply steps_modify. intros w. apply local_files. Qed.
Lemma steps_set_files g : steps R (modify (fun w => set_files (g w) w)).
Proof using I. apply steps_modify. intros w. apply local_files. Qed.
Lemma steps_set_keys g : steps R (modify (fun w => set_keys (g w) w)).
Proof using I. apply steps_modify. intros w. apply local_keys. Qed.
Lemma steps_put_identity i : steps R (put_pipe (with_identity i)).
Proof using I. apply steps_modify. intros w. apply local_identity. Qed.
Lemma steps_put_hardware h : steps R (put_pipe (with_hardware h)).
Proof using I. apply steps_modify. intros w. apply local_hardware. Qed.
Lemma steps_put_manifest m : steps R (put_pipe (with_manifest m)).
Proof using I. apply steps_modify. intros w. apply local_manifest. Qed.
Hint Resolve steps_put_file steps_remove_file steps_set_files steps_set_keys steps_put_identity
  steps_put_hardware steps_put_manifest : world.

Lemma steps_read_protected s name : steps R (read_protected s name).
Proof using I. unfold read_protected. walk. Qed.
Lemma steps_write_protected s name p : steps R (write_protected s name p).
Proof using I. unfold write_protected. walk. Qed.
Lemma steps_create_key name : steps R (create_key name).
Proof using I. unfold create_key. walk. Qed.
Lemma steps_open_key name : steps R (open_key name).
Proof using I. unfold open_key. walk. Qed.
Hint Resolve steps_read_protected steps_write_protected steps_create_key steps_open_key
  steps_ncrypt steps_populate : world.

Lemma steps_create_identity app reject : steps R (create_identity app reject).
Proof using I. unfold create_identity. walk. Qed.
Hint Resolve steps_create_identity : world.
Lemma steps_load_or_create app : steps R (load_or_create app store).
Proof using I. unfold load_or_create, create_and_store, read_metadata. walk. Qed.
Hint Resolve steps_load_or_create : world.
End LocalSteps.

#[export] Hint Resolve steps_put_file steps_remove_file steps_set_files steps_set_keys
  steps_put_identity steps_put_hardware steps_put_manifest steps_read_protected steps_write_protected
  steps_create_key steps_open_key steps_ncrypt steps_populate steps_create_identity
  steps_load_or_create : world.
#[export] Hint Extern 0 (Local _) => typeclasses eauto : world.

(** A frame that lets the evidence and the manifest be cached, and one that
    lets requests be sent; a [Calm] frame need not let files and keys change at
    will, only what the identity of the pipeline does when it is used. *)
Class Caches `{E : Env} (R : relation World) := {
  caches_frame :: Frame R;
  caches_hardware h w : R w (set_pipe (with_hardware h (w_pipe w)) w);
  caches_manifest m w : R w (set_pipe (with_manifest m (w_pipe w)) w)
}.

Class Logs `{E : Env} (R : relation World) := {
  logs_frame :: Frame R;
  logs_sent r w : R w (log_sent r w)
}.

Class Calm `{C : Crypto} `{E : Env} (options : ClientOptions) (store : StateStore)
    (R : relation World) := {
  calm_caches :: Caches R;
  calm_identity : steps R (get_identity options store)
}.

Class Sends `{C : Crypto} `{E : Env} (options : ClientOptions) (store : StateStore)
    (R : relation World) := {
  sends_calm :: Calm options store R;
  sends_logs :: Logs R
}.

#[global] Instance local_caches `{E : Env} R : Local R -> Caches R.
Proof. intros HR. split; [apply _|apply local_hardware|apply local_manifest]. Qed.
#[global] Instance inner_logs `{E : Env} R : Inner R -> Logs R.
Proof. intros HR. split; [apply _|apply inner_log]. Qed.
#[global] Instance local_calm `{C : Crypto} `{E : Env} options store R : Local R -> Calm options store R.
Proof. intros HR. split; [apply _|]. unfold get_identity. walk. Qed.
#[global] Instance inner_sends `{C : Crypto} `{E : Env} options store R : Inner R -> Sends options store R.
Proof. intros HR. split; apply _. Qed.

Section FrameSteps.
Context `{C : Crypto} `{J : JsonLib} `{E : Env} (R : relation World) `{I : !Frame R}.

Lemma steps_read_state s name : steps R (read_protected s name).
Proof using I. unfold read_protected. walk. Qed.
Lemma steps_sign i d : steps R (sign_sha256 i d).
Proof using I. unfold sign_sha256. walk. Qed.
Lemma steps_ensure_session : steps R ensure_session.
Proof using I. unfold ensure_session. walk. Qed.
Lemma steps_trusted_now : steps R ensure_trusted_now.
Proof using I. unfold ensure_trusted_now. walk. Qed.

(** The retry loop changes what its attempts change. *)
Lemma steps_send_loop {A} (status : A -> Z) clamp what policy started m more attempt last : steps R m ->
  steps R (send_loop status clamp what policy started m more attempt last).
Proof using I.
  intros Hm. revert attempt last. induction more as [|more IH]; intros attempt last; cbn [send_loop];
    unfold report_last, past_deadline, can_wait, pause, attempt_once; walk.
Qed.
End FrameSteps.
#[export] Hint Resolve steps_read_state steps_sign steps_ensure_session steps_trusted_now
  steps_send_loop : world.

Section CachesSteps.
Context `{E : Env} (R : relation World) `{I : !Caches R}.

Lemma steps_cache_hardware h : steps R (put_pipe (with_hardware h)).
Proof using I. apply steps_modify. intros w. apply caches_hardware. Qed.
Lemma steps_cache_manifest m : steps R (put_pipe (with_manifest m)).
Proof using I. apply steps_modify. intros w. apply caches_manifest. Qed.
End CachesSteps.

Section LogsSteps.
Context `{E : Env} (R : relation World) `{I : !Logs R}.

Lemma steps_http_request allow input : steps R (Http.request allow input).
Proof using I. apply steps_request; [apply _|]. intros h w _. apply logs_sent. Qed.
Lemma steps_http_stream allow input : steps R (Http.stream allow input).
Proof using I. apply steps_stream; [apply _|]. intros h w _. apply logs_sent. Qed.
End LogsSteps.
#[export] Hint Resolve steps_cache_hardware steps_cache_manifest steps_http_request
  steps_http_stream : world.
#[export] Hint Extern 0 (Caches _) => typeclasses eauto : world.
#[export] Hint Extern 0 (Logs _) => typeclasses eauto : world.

Section CalmSteps.
Context `{C : Crypto} `{J : JsonLib} `{E : Env} (R : relation World).
Context (options : ClientOptions) (store : StateStore) `{I : !Calm options store R}.

Lemma steps_get_identity : steps R (get_identity options store).
Proof using I. apply calm_identity. Qed.
Hint Resolve steps_get_identity steps_ncrypt : world.
Lemma steps_device_id : steps R (device_id options store).
Proof using I. unfold device_id. walk. Qed.
Hint Resolve steps_device_id : world.
Lemma steps_create_dpop method url binding body :
  steps R (create_dpop options store method url binding body).
Proof using I. unfold create_dpop, device_key_id, install_id. walk. Qed.
Hint Resolve steps_create_dpop : world.
Lemma steps_protect_request request url timestamp nonce headers :
  steps R (protect_request options store request url timestamp nonce headers).
Proof using I. unfold protect_request, encrypt_body. walk. Qed.
Lemma steps_recorded_time p : steps R (recorded_time options store p).
Proof using I. unfold recorded_time. walk. Qed.
End CalmSteps.

#[export] Hint Resolve steps_get_identity steps_device_id steps_create_dpop
  steps_protect_request steps_recorded_time : world.
#[export] Hint Extern 0 (Calm _ _ _) => typeclasses eauto : world.

Section IdentityRuns.
Context `{C : Crypto} `{E : Env} (options : ClientOptions) (store : StateStore).

(** The identity is loaded once. *)
Lemma get_identity_cached w identity : p_identity (w_pipe w) = Some identity ->
  get_identity options store w = (Ok identity, w).
Proof. intros H. unfold get_identity. rewrite run_bind. cbn. by rewrite H. Qed.

Lemma get_identity_run w i w' : get_identity options store w = (Ok i, w') ->
  p_identity (w_pipe w') = Some i.
Proof.
  unfold get_identity. intros H. apply run_bind_Ok in H as (p & w1 & Hp & H). injection Hp as <- <-.
  destruct (p_identity (w_pipe w)) as [j|] eqn:Ei; [rewrite run_ret in H; by injection H as <- <-|].
  apply run_bind_Ok in H as (j & w2 & _ & H). apply run_bind_Ok in H as ([] & w3 & Hp & H).
  rewrite run_ret in H. injection H as <- <-. injection Hp as <-. done.
Qed.
End IdentityRuns.

Section SendsSteps.
Context `{C : Crypto} `{J : JsonLib} `{E : Env} (R : relation World).
Context (options : ClientOptions) (store : StateStore) `{I : !Sends options store R}.

Lemma steps_send_attempt request policy : steps R (send_attempt options store request policy).
Proof using I. unfold send_attempt, system_time. walk. Qed.

Hint Resolve steps_send_attempt : world.

Lemma steps_send_with_retries request : steps R (send_with_retries options store request).
Proof using I. unfold send_with_retries. walk. Qed.
End SendsSteps.

#[export] Hint Resolve steps_send_attempt steps_send_with_retries : world.
#[export] Hint Extern 0 (Inner _) => typeclasses eauto : world.
#[export] Hint Extern 0 (Sends _ _ _) => typeclasses eauto : world.

(** A frame that lets the pipeline send and refresh, and one, [Free], that lets
    it do all it does: renew or clear the session too. *)
Class Refreshes `{C : Crypto} `{E : Env} (options : ClientOptions) (store : StateStore)
    (R : relation World) := {
  refreshes_sends :: Sends options store R;
  refreshes_clock c w : R w (set_clock c w);
  refreshes_ring r w : R w (set_pipe (with_ring r (w_pipe w)) w);
  refreshes_latched b w : R w (set_pipe (with_latched b (w_pipe w)) w);
  refreshes_budget txt : steps R (write_protected store offline_file txt)
}.

Class Free `{C : Crypto} `{E : Env} (options : ClientOptions) (store : StateStore)
    (R : relation World) := {
  free_refreshes :: Refreshes options store R;
  free_session s e w : R w (set_pipe (with_session s e (w_pipe w)) w)
}.

#[global] Instance grows_to_free `{C : Crypto} `{E : Env} options store : Free options store grows_to.
Proof.
  split; [split; [apply _|..]|]; [intros; split; cbn; first [lia|done]..| |intros; split; cbn; first [lia|done]].
  intros txt. apply steps_write_protected, _.
Qed.

(** The session of the client. *)
Definition session_of (w : World) : option text * Z :=
  (p_session (w_pipe w), p_session_expires_at (w_pipe w)).

#[global] Instance keeps_session_refreshes `{C : Crypto} `{E : Env} options store :
  Refreshes options store (keeps session_of).
Proof. split; [apply inner_sends, keeps_session|done..|]. intros txt. apply steps_write_protected, keeps_session. Qed.

(** An identity that is loaded stays. *)
Definition identity_stays (w w' : World) : Prop :=
  forall i, p_identity (w_pipe w) = Some i -> p_identity (w_pipe w') = Some i.

#[global] Instance identity_stays_frame `{E : Env} : Frame identity_stays.
Proof. split; [split|]; unfold identity_stays; naive_solver. Qed.

#[global] Instance identity_stays_free `{C : Crypto} `{E : Env} options store :
  Free options store identity_stays.
Proof.
  split; [split; [split; [split; [split; [apply _|..]|]|split; [apply _|]]|..]|]; try (intros; by intros i).
  - intros w i Hi. unfold get_identity. rewrite run_bind. cbn [get_pipe]. by rewrite Hi.
  - intros txt w i Hi. by destruct (write_protected_only store offline_file txt w) as (_ & _ & -> & _).
Qed.

Lemma steps_lock_refresh `{E : Env} R `{!Frame R} fuel deadline : steps R (lock_refresh fuel deadline).
Proof. induction fuel as [|fuel IH]; cbn [lock_refresh]; walk. Qed.
#[export] Hint Resolve steps_lock_refresh : world.

Section RefreshesSteps.
Context `{C : Crypto} `{J : JsonLib} `{E : Env} (R : relation World).
Context (options : ClientOptions) (store : StateStore) `{I : !Refreshes options store R}.

Lemma steps_free_clock c : steps R (modify (set_clock c)).
Proof using I. apply steps_modify. intros w. apply refreshes_clock. Qed.
Lemma steps_free_ring r : steps R (put_pipe (with_ring r)).
Proof using I. apply steps_modify. intros w. apply refreshes_ring. Qed.
Lemma steps_free_latched b : steps R (put_pipe (with_latched b)).
Proof using I. apply steps_modify. intros w. apply refreshes_latched. Qed.
Lemma free_budget txt : steps R (write_protected store offline_file txt).
Proof using I. apply refreshes_budget. Qed.
Hint Resolve steps_free_clock steps_free_ring steps_free_latched free_budget : world.

Lemma free_note : steps R (note_verified_interaction options store).
Proof using I. unfold note_verified_interaction. walk. Qed.
Hint Resolve free_note : world.
Lemma free_time : steps R (refresh_trusted_time options store).
Proof using I. unfold refresh_trusted_time. walk. Qed.
Hint Resolve free_time : world.
Lemma free_keys_core : steps R (refresh_online_keys_core options store).
Proof using I. unfold refresh_online_keys_core, send_timed. walk. Qed.
Hint Resolve free_keys_core : world.
Lemma free_keys force : steps R (refresh_online_keys options store force).
Proof using I. unfold refresh_online_keys, with_clock_and_ring. walk. Qed.
Hint Resolve free_keys : world.
Lemma free_send request : steps R (send options store request).
Proof using I. unfold send. walk. Qed.
Lemma free_check response : steps R (check_authz options store response).
Proof using I. unfold check_authz. walk. Qed.
Lemma free_offline : steps R (offline_locked options store).
Proof using I. unfold offline_locked. walk. Qed.
End RefreshesSteps.
#[export] Hint Resolve free_note free_time free_keys_core free_keys free_send free_check free_budget : world.
#[export] Hint Extern 0 (Refreshes _ _ _) => typeclasses eauto : world.

Section FreeSteps.
Context `{C : Crypto} `{J : JsonLib} `{E : Env} (R : relation World).
Context (options : ClientOptions) (store : StateStore) `{I : !Free options store R}.

Lemma steps_free_session s e : steps R (put_pipe (with_session s e)).
Proof using I. apply steps_modify. intros w. apply free_session. Qed.
Hint Resolve steps_free_session : world.
Lemma free_verify response : steps R (verify_authz options store response).
Proof using I. unfold verify_authz. walk. Qed.
Lemma free_clear : steps R clear_session.
Proof using I. unfold clear_session. walk. Qed.
End FreeSteps.
#[export] Hint Extern 0 (Free _ _ _) => typeclasses eauto : world.

(** A frame that keeps what the pipeline does to the rest of the SDK: for the
    operations of the client, the pipeline is used through these only. *)
Class Serves `{C : Crypto} `{J : JsonLib} `{E : Env} (options : ClientOptions) (store : StateStore)
    (R : relation World) := {
  serves_sends :: Sends options store R;
  serves_time : steps R (refresh_trusted_time options store);
  serves_keys force : steps R (refresh_online_keys options store force);
  serves_send request : steps R (send options store request);
  serves_verify response : steps R (verify_authz options store response);
  serves_offline : steps R (offline_locked options store)
}.

#[global] Instance free_serves `{C : Crypto} `{J : JsonLib} `{E : Env} options store R :
  Free options store R -> Serves options store R.
Proof.
  intros HR. split; [apply _|apply free_time, _|intros; apply free_keys, _|intros; apply free_send, _
    |intros; apply free_verify, _|apply free_offline, _].
Qed.

Section ServesSteps.
Context `{C : Crypto} `{J : JsonLib} `{E : Env} (R : relation World).
Context (options : ClientOptions) (store : StateStore) `{I : !Serves options store R}.

Lemma steps_refresh_time : steps R (refresh_trusted_time options store).
Proof using I. apply serves_time. Qed.
Lemma steps_refresh_keys force : steps R (refresh_online_keys options store force).
Proof using I. apply serves_keys. Qed.
Lemma steps_pipeline_send request : steps R (send options store request).
Proof using I. apply serves_send. Qed.
Lemma steps_verify_authz response : steps R (verify_authz options store response).
Proof using I. apply serves_verify. Qed.
Lemma steps_offline_locked : steps R (offline_locked options store).
Proof using I. apply serves_offline. Qed.
Hint Resolve steps_pipeline_send steps_verify_authz : world.
Lemma steps_send_and_verify request : steps R (send_and_verify options store request).
Proof using I. unfold send_and_verify. walk. Qed.
End ServesSteps.
#[export] Hint Resolve steps_refresh_time steps_refresh_keys steps_pipeline_send steps_verify_authz
  steps_offline_locked steps_send_and_verify : world.
#[export] Hint Extern 0 (Serves _ _ _) => typeclasses eauto : world.

(** ** The specification of the retries

    A run of the loop is a list of attempts, the [os], each of them a run of
    [m] that started in time, with only waiting between them. *)
Record idle_to (w w' : World) : Prop := {
  idle_grows : grows_to w w';
  idle_same : same_state w w'
}.

#[global] Instance idle_to_frame `{E : Env} : Frame idle_to.
Proof.
  split; [split|].
  - intros w. split; reflexivity.
  - intros w1 w2 w3 [] []. split; by etrans.
  - intros extra w. split; apply frame_advance.
Qed.

Section Retry.
Context `{E : Env} {A : Type} (status : A -> Z) (clamp : Z -> Z) (late : text).
Context (policy : RequestPolicy) (started : Z) (m : M A).
Context (m_grows : steps grows_to m).

(** The deadline was checked by the call just before. *)
Definition in_time (w : World) : Prop :=
  deadline_ms policy <= 0 \/
  exists w0, w = advance 0 w0 /\ u64 (w_tick w0 - started + timeout_ms policy) <= deadline_ms policy.

Inductive Attempts : World -> list (Result A) -> World -> Prop :=
  | att_done w w' : idle_to w w' -> Attempts w [] w'
  | att_more w w1 o w2 os w3 :
      idle_to w w1 -> in_time w1 -> m w1 = (o, w2) -> Attempts w2 os w3 ->
      Attempts w (o :: os) w3.

Definition worth_retry (o : Result A) : bool :=
  match o with
  | Ok response => transient_status (status response)
  | Throw (Swm e) => retryable (kind e)
  | Throw (StdExn _) => false
  end.

Definition cancelled : Exn := err Timeout 0 (&"cancelled") (&"operation cancelled").
Definition deadline_exceeded : Exn := err Timeout 0 [] late.

(** A delay the loop may wait, and the reasons to stop before the last
    attempt: an outcome that is not worth retrying, the stop, the deadline. *)
Definition some_delay (d : Z) : Prop :=
  d = 0 \/ exists a, 0 <= a /\ (d = retry_delay_ms policy a \/ d = clamp (retry_delay_ms policy a)).

Definition no_more (os : list (Result A)) (w' : World) : Prop :=
  (exists o, last os = Some o /\ worth_retry o = false) \/
  w_stopped w' = true \/
  (0 < deadline_ms policy /\ exists t d, t <= w_tick w' /\ some_delay d /\
     deadline_ms policy < u64 (t - started + d + timeout_ms policy)).

(** The error that the loop keeps: the last network or timeout error. *)
Definition last_failure (last_error : option Error) (os : list (Result A)) : option Error :=
  foldl (fun kept o => match o with
                       | Throw (Swm e) => if retryable (kind e) then Some e else kept
                       | _ => kept
                       end) last_error os.

Record retried (more : nat) (last_error : option Error) (w : World)
    (os : list (Result A)) (r : Result A) (w' : World) : Prop := {
  rt_attempts : Attempts w os w';
  rt_count : (length os <= more)%nat;
  rt_worth : forall o, o ∈ removelast os -> worth_retry o = true;
  rt_result :
    match r with
    | Ok response => last os = Some (Ok response)
    | Throw x =>
        x = cancelled /\ w_stopped w' = true \/
        last os = Some (Throw x) /\ worth_retry (Throw x) = false \/
        x = match last_failure last_error os with Some e => Swm e | None => deadline_exceeded end
    end;
  rt_stops : length os = more \/ no_more os w'
}.

Lemma Attempts_app w os w' w'' : Attempts w os w' -> idle_to w' w'' -> Attempts w os w''.
Proof using.
  induction 1 as [|w w1 o w2 os w3 Hg Ht Hm Ha IH]; intros H'; [|by eapply att_more, IH].
  apply att_done. etrans; [eassumption|done].
Qed.

Lemma Attempts_before w0 w os w' : idle_to w0 w -> Attempts w os w' -> Attempts w0 os w'.
Proof using.
  intros Hg. inversion 1; subst; [apply att_done|eapply att_more; [|eassumption..]];
    (etrans; [exact Hg|done]).
Qed.

Lemma Attempts_grows w os w' : Attempts w os w' -> grows_to w w'.
Proof using m_grows.
  induction 1 as [w w' Hg|w w1 o w2 os w3 Hg Ht Hm Ha IH]; [apply Hg|].
  etrans; [apply Hg|]. etrans; [|exact IH]. pose proof (m_grows w1) as H. by rewrite Hm in H.
Qed.

Lemma stop_check w : 
  match throw_if_stopped w with
  | (Ok _, w') => idle_to w w'
  | (Throw x, w') => x = cancelled /\ idle_to w w' /\ w_stopped w' = true
  end.
Proof using.
  unfold throw_if_stopped, stop_requested, call. rewrite run_bind.
  pose proof (frame_advance (R := idle_to) 0 w).
  destruct (w_stopped w || env_stop (w_step w)) eqn:Es; cbn; [|done]. by rewrite Es.
Qed.

Lemma deadline_check w : exists past w',
  past_deadline policy started w = (Ok past, w') /\ idle_to w w' /\
  (past = false -> in_time w') /\
  (past = true -> 0 < deadline_ms policy /\ exists t, t <= w_tick w' /\
     deadline_ms policy < u64 (t - started + timeout_ms policy)).
Proof using.
  unfold past_deadline. destruct (0 <? deadline_ms policy) eqn:Ed; breflect.
  - unfold tick_ms, call. rewrite run_bind. cbn [fst snd]. eexists _, _. split; [done|].
    pose proof (frame_advance (R := idle_to) 0 w) as Hg. split; [done|]. split; intros H; breflect.
    + right. eauto.
    + split; [done|]. exists (w_tick w). split; [apply (idle_grows _ _ Hg)|done].
  - eexists _, _. split; [done|]. split; [done|]. split; [intros _; by left|done].
Qed.

Lemma wait_check w delay attempt : attempt < retries policy -> exists wait w',
  can_wait policy started delay attempt w = (Ok wait, w') /\ idle_to w w' /\
  (wait = false -> 0 < deadline_ms policy /\ exists t, t <= w_tick w' /\
     deadline_ms policy < u64 (t - started + delay + timeout_ms policy)).
Proof using.
  intros Ha. unfold can_wait. rewrite (proj2 (Z.leb_gt _ _)) by lia.
  destruct (deadline_ms policy <=? 0) eqn:Ed; breflect.
  - by eexists _, _.
  - unfold tick_ms, call. rewrite run_bind. cbn [fst snd]. eexists _, _. split; [done|].
    pose proof (frame_advance (R := idle_to) 0 w) as Hg. split; [done|]. intros H. breflect.
    split; [done|]. exists (w_tick w). split; [apply (idle_grows _ _ Hg)|done].
Qed.

Lemma pause_check w delay : exists w', pause delay w = (Ok tt, w') /\ idle_to w w'.
Proof using.
  unfold pause. case_match; [|by eexists].
  eexists. split; [done|]. apply (frame_advance (R := idle_to)).
Qed.

(** What the [try] makes of an attempt. *)
Lemma attempt_check w : exists o w', m w = (o, w') /\
  match o with
  | Ok response => attempt_once m w = (Ok (inl response), w')
  | Throw (Swm e) => attempt_once m w = (if retryable (kind e) then Ok (inr e) else Throw (Swm e), w')
  | Throw x => attempt_once m w = (Throw x, w')
  end.
Proof using.
  unfold attempt_once, try_catch. rewrite run_bind.
  destruct (m w) as [o w'] eqn:Em. exists o, w'. split; [done|].
  destruct o as [r|[e|what]]; cbn; [done| |done]. by destruct (retryable (kind e)).
Qed.
Lemma last_cons_Some {B} (x : B) l y : last l = Some y -> last (x :: l) = Some y.
Proof using. by destruct l. Qed.

Lemma removelast_cons_in {B} (x o : B) l : o ∈ removelast (x :: l) -> o = x \/ o ∈ removelast l.
Proof using. destruct l as [|y l]; cbn [removelast]; [by intros ?%elem_of_nil|]. apply elem_of_cons. Qed.

(** The last attempt of a run. *)
Lemma Attempts_last w os w' o : Attempts w os w' -> last os = Some o ->
  exists v v', grows_to w v /\ m v = (o, v') /\ idle_to v' w'.
Proof using m_grows.
  induction 1 as [|w w1 o1 w2 os w3 Hg Ht Hm Ha IH]; intros Hl; [done|].
  destruct os as [|o2 os].
  - injection Hl as <-. exists w1, w2. split; [apply Hg|]. split; [done|]. by inversion Ha.
  - destruct (IH Hl) as (v & v' & Hv & Hr). exists v, v'. split; [|done].
    etrans; [apply Hg|]. pose proof (m_grows w1) as H. rewrite Hm in H. by etrans.
Qed.

(** One more attempt in front of a run. *)
Lemma retried_cons more last_error last_error' w w1 o w2 w3 os r w4 :
  idle_to w w1 -> in_time w1 -> m w1 = (o, w2) -> worth_retry o = true -> idle_to w2 w3 ->
  last_error' = last_failure last_error [o] ->
  retried more last_error' w3 os r w4 -> retried (S more) last_error w (o :: os) r w4.
Proof using.
  intros Hg Ht Hm Hw Hg2 -> [Ha Hc Hr Hres Hst]. split.
  - eapply att_more; [done..|]. by eapply Attempts_before.
  - cbn. lia.
  - intros o' [->|Ho]%removelast_cons_in; [done|by apply Hr].
  - destruct r as [response|x]; [by apply last_cons_Some|].
    destruct Hres as [?|[[Hl ?]|Hx]]; [by left|right; left; split; [by apply last_cons_Some|done]|].
    right. right. exact Hx.
  - destruct Hst as [<-|[(o' & Ho & Hw')|Hst]]; [by left|right; left|by right; right].
    exists o'. split; [by apply last_cons_Some|done].
Qed.

(** A run of one attempt, or of none. *)
Lemma retried_one more last_error w w1 o w2 w3 r :
  idle_to w w1 -> in_time w1 -> m w1 = (o, w2) -> idle_to w2 w3 -> (1 <= more)%nat ->
  r = o -> more = 1%nat \/ no_more [o] w3 ->
  retried more last_error w [o] r w3.
Proof using.
  intros Hg Ht Hm Hg2 Hmore -> Hst. split; [|done| | |].
  - eapply att_more; [done..|]. by apply att_done.
  - by intros o' ?%elem_of_nil.
  - destruct o as [response|x]; [done|]. right. destruct (worth_retry (Throw x)) eqn:Hx; [right|by left].
    unfold last_failure. cbn [foldl]. destruct x as [e|]; [|done]. cbn in Hx. by rewrite Hx.
  - destruct Hst as [->|?]; [by left|by right].
Qed.

Lemma retried_none more last_error w w' :
  idle_to w w' -> more = 0%nat \/ no_more [] w' ->
  forall r, match r with
       | Ok _ => False
       | Throw x => x = cancelled /\ w_stopped w' = true \/
           x = match last_error with Some e => Swm e | None => deadline_exceeded end
       end -> retried more last_error w [] r w'.
Proof using.
  intros Hg Hst r Hr. split; [by apply att_done|cbn; lia|by intros o ?%elem_of_nil| |].
  - destruct r as [?|x]; [done|]. destruct Hr as [?|Hx]; [by left|by right; right].
  - destruct Hst as [->|?]; [by left|by right].
Qed.

Lemma report_last_run (last_error : option Error) w :
  report_last (A := A) last_error late w =
  (Throw match last_error with Some e => Swm e | None => deadline_exceeded end, w).
Proof using. by destruct last_error. Qed.

Lemma send_loop_retried more attempt last_error w :
  Z.of_nat more = retries policy + 1 - attempt -> 0 <= attempt ->
  exists os r w', send_loop status clamp late policy started m more attempt last_error w = (r, w') /\
    retried more last_error w os r w'.
Proof using.
  revert attempt last_error w. induction more as [|more IH]; intros attempt last_error w Hmore Ha;
    cbn [send_loop].
  { rewrite report_last_run. eexists [], _, _. split; [done|]. apply retried_none; [done|by left|by right]. }
  rewrite run_bind. pose proof (stop_check w) as Hs.
  destruct (throw_if_stopped w) as [[[]|x] w1].
  2: { destruct Hs as (-> & Hg & Hst). eexists [], _, _. split; [done|].
       apply retried_none; [done| |by left]. right. right. by left. }
  rewrite run_bind. destruct (deadline_check w1) as (past & w2 & -> & Hg2 & Hin & Hpast).
  assert (idle_to w w2) as Hgw2 by by etrans.
  destruct past.
  { rewrite report_last_run. eexists [], _, _. split; [done|]. apply retried_none; [done| |].
    - right. right. right. destruct (Hpast eq_refl) as (Hd & t & Ht & Hlt). split; [done|].
      exists t, 0. rewrite Z.add_0_r. split_and!; [done|by left|done].
    - by right. }
  specialize (Hin eq_refl). rewrite run_bind.
  destruct (attempt_check w2) as (o & w3 & Hm & Ho).
  destruct o as [response|[e|what]].
  - rewrite Ho. destruct (transient_status (status response)) eqn:Et; cbn [andb].
    2: { eexists [Ok response], _, _. split; [done|]. eapply retried_one; try done; [lia|].
         right. left. exists (Ok response). done. }
    destruct (attempt <? retries policy) eqn:Eat; breflect.
    2: { eexists [Ok response], _, _. split; [done|]. eapply retried_one; try done; [lia|]. left. lia. }
    set (delay := clamp (retry_delay_ms policy attempt)). rewrite run_bind.
    destruct (wait_check w3 delay attempt Eat) as (wait & w4 & -> & Hg4 & Hwait).
    destruct wait; cbn [negb].
    + rewrite run_bind. destruct (pause_check w4 delay) as (w5 & -> & Hg5).
      destruct (IH (attempt + 1) last_error w5) as (os & r & w6 & -> & Hrt); [lia|lia|].
      eexists (Ok response :: os), _, _. split; [done|].
      eapply retried_cons; [exact Hgw2|done|done|done| |done|exact Hrt]. by etrans.
    + destruct (Hwait eq_refl) as (Hd & t & Ht & Hlt).
      eexists [Ok response], _, _. split; [done|]. eapply retried_one; try done; [lia|].
      right. right. right. split; [done|]. exists t, delay. split_and!; [done| |done].
      right. exists attempt. split; [done|by right].
  - rewrite Ho. destruct (retryable (kind e)) eqn:Er.
    2: { eexists [Throw (Swm e)], _, _. split; [done|]. eapply retried_one; try done; [lia|].
         right. left. exists (Throw (Swm e)). done. }
    destruct (retries policy <=? attempt) eqn:Eat; breflect.
    { rewrite report_last_run. eexists [Throw (Swm e)], _, _. split; [done|].
      eapply retried_one; try done; [lia|]. left. lia. }
    set (delay := retry_delay_ms policy attempt). rewrite run_bind.
    destruct (wait_check w3 delay attempt Eat) as (wait & w4 & -> & Hg4 & Hwait).
    destruct wait; cbn [negb].
    + rewrite run_bind. destruct (pause_check w4 delay) as (w5 & -> & Hg5).
      destruct (IH (attempt + 1) (Some e) w5) as (os & r & w6 & -> & Hrt); [lia|lia|].
      eexists (Throw (Swm e) :: os), _, _. split; [done|].
      eapply retried_cons; [exact Hgw2|done|done|done| |cbn; by rewrite Er|exact Hrt]. by etrans.
    + rewrite report_last_run. destruct (Hwait eq_refl) as (Hd & t & Ht & Hlt).
      eexists [Throw (Swm e)], _, _. split; [done|]. eapply retried_one; try done; [lia|].
      right. right. right. split; [done|]. exists t, delay. split_and!; [done| |done].
      right. exists attempt. split; [done|by left].
  - rewrite Ho. eexists [Throw (StdExn what)], _, _. split; [done|].
    eapply retried_one; try done; [lia|]. right. left. exists (Throw (StdExn what)). done.
Qed.
End Retry.

Section Sending.
Context `{C : Crypto} `{J : JsonLib} `{E : Env}.
Context (options : ClientOptions) (store : StateStore).

(** A computation that hands WinHTTP one request at most. *)
Definition one_request {A} (m : M A) : Prop :=
  forall w, (length (w_sent (m w).2) <= S (length (w_sent w)))%nat.

Lemma one_request_after {A B} (m : M A) (k : A -> M B) :
  steps (keeps w_sent) m -> (forall a, one_request (k a)) -> one_request (m ≫= k).
Proof.
  intros Hm Hk w. rewrite run_bind. specialize (Hm w). unfold keeps in Hm.
  destruct (m w) as [[a|x] w1]; cbn in Hm; [|cbn; rewrite Hm; lia].
  specialize (Hk a w1). by rewrite Hm in Hk.
Qed.

Lemma one_request_http allow input : one_request (Http.request allow input).
Proof.
  intros w. destruct (Http.request allow input w) as [r w'] eqn:Er. by apply http_sends in Er.
Qed.

Lemma send_attempt_sends request policy : one_request (send_attempt options store request policy).
Proof.
  unfold send_attempt. apply one_request_after; [walk|]. intros _.
  apply one_request_after; [unfold system_time; walk|]. intros ts.
  apply one_request_after; [walk|]. intros nonce.
  apply one_request_after; [walk|]. intros [headers body].
  intros w. rewrite run_bind. set (input := mkHttpRequest _ _ _ _ _ _).
  pose proof (one_request_http (allow_insecure_http options) input w) as H.
  by destruct (Http.request (allow_insecure_http options) input w) as [[resp|x] w1].
Qed.

Lemma attempts_sent {A} policy started (m : M A) w os w' :
  one_request m ->
  Attempts policy started m w os w' ->
  (length (w_sent w') <= length (w_sent w) + length os)%nat.
Proof.
  intros Hm. induction 1 as [w w' [_ Hg]|w w1 o w2 os w3 [_ Hg] Ht Ho Ha IH].
  - destruct Hg as [_ _ _ _ ->]. lia.
  - specialize (Hm w1). rewrite Ho in Hm. cbn in Hm. destruct Hg as [_ _ _ _ Hg].
    rewrite Hg in Hm. cbn. lia.
Qed.

(** C9: sending always ends, after a sequence of attempts of which each one
    started within the deadline, at most [retries + 1] of them and at most
    that many requests on the wire; it goes on only after a transient status
    or a network or timeout error, and it stops early only for an outcome that
    is not worth a retry, a requested stop or the deadline.  A response that it
    returns is that of the last attempt.  What it throws is the cancellation,
    when a stop was requested; or the error of the last attempt, when that is
    not worth a retry; or else the last network or timeout error of the
    attempts, also when responses with a transient status came after it, and
    the exceeded deadline when there was none. *)
Theorem send_refines_retries request w :
  let policy := resolve_request_policy (q_operation request) in
  let run := send_with_retries options store request w in
  exists w1 os,
    idle_to w w1 /\
    retried pr_status_code (fun d => Z.max d 0) (&"request deadline exceeded") policy (w_tick w)
      (send_attempt options store request policy)
      (Z.to_nat (retries policy + 1)) None w1 os run.1 run.2 /\
    (length (w_sent run.2) <= length (w_sent w) + length os)%nat.
Proof.
  intros policy run. unfold run, send_with_retries. fold policy.
  set (w1 := advance 0 w).
  rewrite run_bind. change (tick_ms w) with (Ok (w_tick w), w1).
  destruct (send_loop_retried pr_status_code (fun d => Z.max d 0) (&"request deadline exceeded") policy (w_tick w)
      (send_attempt options store request policy)
    (Z.to_nat (retries policy + 1)) 0 None w1) as (os & r & w' & Hrun & Hrt).
  { unfold policy. by destruct (q_operation request). }
  { lia. }
  rewrite Hrun. cbn [fst snd].
  assert (idle_to w w1) as Hidle by apply frame_advance.
  exists w1, os. split_and!; [done|done|].
  destruct Hidle as [_ [_ _ _ _ <-]].
  eapply attempts_sent; [|apply Hrt]. apply send_attempt_sends.
Qed.

(** The recursion of [send] through the refreshes is unfolded exactly: the
    requests they send need no further refresh. *)
Lemma send_time_request w : send options store (time_request) w = send_with_retries options store time_request w.
Proof. reflexivity. Qed.
Lemma send_keys_request w : send options store keys_request w = send_timed options store keys_request w.
Proof.
  unfold send, send_timed, keys_request. cbn [q_require_trusted_time q_require_online_key q_require_session plain_request].
  rewrite !run_bind. change (clock_initialized w) with (Ok (initialized (w_clock w)), w).
  cbv iota. rewrite !run_bind. destruct (initialized (w_clock w)); cbn [andb negb]; [done|].
  by destruct (refresh_trusted_time _ _ _) as [[[]|x] w'].
Qed.
End Sending.
