(* ===== verification/Concurrent.v ===== *)
(** * Key refreshes in several threads ([src/internal/request_pipeline.cpp])

    The asynchronous operations of a client share its pipeline, so several
    threads may be in [refresh_online_keys] at once; [refresh_mutex_] orders
    them.  Here the function is cut at the places where another thread may
    run, and the threads are interleaved in every way. *)
From S2P Require Import Prelude StdString Errors Json Types Crypto Clock Keyring World StateStore.
From S2P Require Import Policy Pipeline Send.

(** How the function is left: the key is fresh already, was refreshed, is kept
    although the refresh failed, or the exception leaves the function. *)
Inductive Outcome := AlreadyFresh | Refreshed | Kept (x : Exn) | Failed (x : Exn).

Definition result_of (o : Outcome) : Result unit :=
  match o with Failed x => Throw x | _ => Ok tt end.

(** Where a thread is; in [Leaving] the destructor of [unlock] is still to run. *)
Inductive Phase :=
  | Entering | Starting | Trying (deadline : Z)
  | Rechecking | Syncing | Fetching | Judging (x : Exn) | Leaving (o : Outcome)
  | Finished (o : Outcome).

(** Between [try_lock_for] and the destructor. *)
Definition holds (ph : Phase) : bool :=
  match ph with
  | Rechecking | Syncing | Fetching | Judging _ | Leaving _ => true
  | _ => false
  end.

Section Concurrent.
Context `{C : Crypto} `{J : JsonLib} `{E : Env}.
Context (options : ClientOptions) (store : StateStore).

Definition lock_timeout : Exn := err Timeout 0 [] (&"online key refresh lock timeout").

(** One pass of the loop around [try_lock_for(100ms)], which may also fail
    when the mutex is free; whether the lock was obtained. *)
Definition lock_turn (free : bool) (deadline : Z) : M bool :=
  busy ← call (fun n _ => env_lock_busy n);
  if negb busy && free then mret true
  else
    _ ← sleep_for 100;
    _ ← throw_if_stopped;
    now ← tick_ms;
    if deadline <=? now then throw lock_timeout else mret false.

Definition key_is_fresh (force : bool) : M bool :=
  if force then mret false else with_clock_and_ring has_fresh_key.

(** A turn of a thread: from one phase to the next. *)
Definition turn (force free : bool) (ph : Phase) : M Phase :=
  match ph with
  | Entering => fresh ← key_is_fresh force; mret (if (fresh : bool) then Finished AlreadyFresh else Starting)
  | Starting => now ← tick_ms; mret (Trying (now + 30000))
  | Trying deadline =>
      got ← attempt (lock_turn free deadline);
      mret match got with
           | inl true => Rechecking
           | inl false => Trying deadline
           | inr x => Finished (Failed x)
           end
  | Rechecking =>
      fresh ← key_is_fresh force; mret (if (fresh : bool) then Leaving AlreadyFresh else Syncing)
  | Syncing =>
      synced ← attempt (init ← clock_initialized;
                        if negb init then refresh_trusted_time options store else mret tt);
      mret match synced with inl _ => Fetching | inr x => Judging x end
  | Fetching =>
      fetched ← attempt (refresh_online_keys_core options store);
      mret match fetched with inl _ => Leaving Refreshed | inr x => Judging x end
  | Judging x =>
      usable ← with_clock_and_ring can_use_current_key_after_refresh_failure;
      mret (Leaving (if tolerated usable x then Kept x else Failed x))
  | Leaving o => mret (Finished o)
  | Finished o => mret (Finished o)
  end.

(** ** The threads and the mutex *)

(** [force], the stop token of the thread, and where it is. *)
Record Thread := mkThread { th_force : bool; th_stopped : bool; th_phase : Phase }.

Record System := mkSystem {
  threads : list Thread;
  owner : option nat;                 (* the thread that holds [refresh_mutex_] *)
  world : World
}.

(** The owner after a thread's turn: [try_lock_for] sets it, [~Unlock] resets it. *)
Definition owner_after (i : nat) (ph ph' : Phase) (owner : option nat) : option nat :=
  match ph, ph' with
  | Trying _, Rechecking => Some i
  | Leaving _, _ => None
  | _, _ => owner
  end.

Definition finished (ph : Phase) : bool := match ph with Finished _ => true | _ => false end.

Definition run_thread (i : nat) (s : System) : option System :=
  t ← threads s !! i;
  if finished (th_phase t) then None
  else
    match turn (th_force t) (bool_decide (owner s = None)) (th_phase t)
            (set_stopped (th_stopped t) (world s)) with
    | (Ok ph', w) =>
        Some (mkSystem (<[i := mkThread (th_force t) (w_stopped w) ph']> (threads s))
                (owner_after i (th_phase t) ph' (owner s)) w)
    | (Throw _, _) => None
    end.

(** A thread takes its turn, or the rest of the program acts; a turn runs with
    the stop token of its thread. *)
Inductive sys_step (s : System) : option nat -> System -> Prop :=
  | step_thread i s' : run_thread i s = Some s' -> sys_step s (Some i) s'
  | step_outside w : grows_to (world s) w -> sys_step s None (mkSystem (threads s) (owner s) w).

Definition start (forces : list bool) (w : World) : System :=
  mkSystem ((fun force => mkThread force (w_stopped w) Entering) <$> forces) None w.

(** Executions, with who acted. *)
Inductive exec (s : System) : list (option nat) -> System -> Prop :=
  | exec_nil : exec s [] s
  | exec_snoc schedule s1 who s2 :
      exec s schedule s1 -> sys_step s1 who s2 -> exec s (schedule ++ [who]) s2.

(** Where thread [i] is. *)
Definition phase (s : System) (i : nat) : option Phase := th_phase <$> threads s !! i.
Definition is_in (P : Phase -> bool) (s : System) (i : nat) : Prop :=
  exists ph, phase s i = Some ph /\ P ph = true.

Definition working (ph : Phase) : bool :=
  match ph with Syncing | Fetching | Judging _ => true | _ => false end.
Definition has_refreshed (ph : Phase) : bool :=
  match ph with Leaving Refreshed | Finished Refreshed => true | _ => false end.

Definition key_fresh (s : System) : bool :=
  has_fresh_key (p_ring (w_pipe (world s))) (w_clock (world s)) (w_tick (world s)).

(** A fresh key stays fresh, and a refresh gives one. *)
Definition steady (s s' : System) : Prop :=
  (key_fresh s = true -> key_fresh s' = true) /\
  (forall i, phase s i = Some Fetching -> phase s' i = Some (Leaving Refreshed) -> key_fresh s' = true).

Inductive steady_exec (s : System) : System -> Prop :=
  | steady_nil : steady_exec s s
  | steady_snoc s1 who s2 :
      steady_exec s s1 -> sys_step s1 who s2 -> steady s1 s2 -> steady_exec s s2.

(** * Lemmas *)

Lemma returns_key force : returns (key_is_fresh force).
Proof. unfold key_is_fresh, with_clock_and_ring. destruct force; returning. Qed.

Lemma returns_usable : returns (with_clock_and_ring can_use_current_key_after_refresh_failure).
Proof. unfold with_clock_and_ring. returning. Qed.

Lemma returns_turn force free ph : returns (turn force free ph).
Proof. unfold turn, key_is_fresh, with_clock_and_ring. destruct ph, force; returning. Qed.

Lemma run_thread_inv i s s' : run_thread i s = Some s' -> exists force stopped ph ph' w,
  threads s !! i = Some (mkThread force stopped ph) /\ finished ph = false /\
  turn force (bool_decide (owner s = None)) ph (set_stopped stopped (world s)) = (Ok ph', w) /\
  s' = mkSystem (<[i := mkThread force (w_stopped w) ph']> (threads s)) (owner_after i ph ph' (owner s)) w.
Proof.
  unfold run_thread. destruct (threads s !! i) as [[force stopped ph]|]; [cbn|done].
  destruct (finished ph) eqn:Ef; [done|].
  destruct (turn _ _ _ _) as [[ph'|] w] eqn:Ht; [|done]. intros [= <-]. eauto 10.
Qed.

(** The phases that may follow, and when the mutex is obtained. *)
Definition follows (free : bool) (ph ph' : Phase) : Prop :=
  match ph with
  | Entering => ph' = Finished AlreadyFresh \/ ph' = Starting
  | Starting => exists deadline, ph' = Trying deadline
  | Trying deadline =>
      (ph' = Rechecking /\ free = true) \/ ph' = Trying deadline \/ exists x, ph' = Finished (Failed x)
  | Rechecking => ph' = Leaving AlreadyFresh \/ ph' = Syncing
  | Syncing => ph' = Fetching \/ exists x, ph' = Judging x
  | Fetching => ph' = Leaving Refreshed \/ exists x, ph' = Judging x
  | Judging x => ph' = Leaving (Kept x) \/ ph' = Leaving (Failed x)
  | Leaving o | Finished o => ph' = Finished o
  end.

(** The cases of [H : follows free ph ph']. *)
Ltac follow_cases ph H :=
  destruct ph; cbn [follows] in H;
  repeat match type of H with
  | _ \/ _ => destruct H as [H|H]
  | _ /\ _ => destruct H as [H ?]
  | exists _, _ => destruct H as [? H]
  end; subst.

Lemma lock_turn_free free deadline w w' : lock_turn free deadline w = (Ok true, w') -> free = true.
Proof.
  unfold lock_turn. intros H. apply run_bind_Ok in H as (busy & w1 & _ & H).
  destruct (negb busy && free) eqn:Hf; [by apply andb_prop in Hf as [_ ->]|].
  run_ok. by case_match; run_ok.
Qed.

Lemma turn_follows force free ph w ph' w' : turn force free ph w = (Ok ph', w') -> follows free ph ph'.
Proof.
  unfold turn. intros H. destruct ph; [| |apply run_bind_Ok in H as ([got|x] & w1 & Hg & H)|..];
    cbn [follows]; run_ok; try (case_match; by eauto); eauto.
  apply attempt_inl in Hg. destruct got; [left; split; [done|by eapply lock_turn_free]|auto].
Qed.

(** A thread is never stuck. *)
Lemma run_thread_progress i s t :
  threads s !! i = Some t -> finished (th_phase t) = false -> is_Some (run_thread i s).
Proof.
  intros Hi Hf. unfold run_thread. rewrite Hi. cbn. rewrite Hf.
  destruct (returns_turn (th_force t) (bool_decide (owner s = None)) (th_phase t)
    (set_stopped (th_stopped t) (world s))) as (ph' & w & ->). eauto.
Qed.

(** ** One thread *)

(** Alone from [ph], a thread ends with a result. *)
Definition alone (force : bool) (ph : Phase) (w : World) (r : Result unit * World) : Prop :=
  exists o, result_of o = r.1 /\
    rtc (fun s s' => run_thread 0 s = Some s')
      (mkSystem [mkThread force (w_stopped w) ph] (if holds ph then Some 0%nat else None) w)
      (mkSystem [mkThread force (w_stopped r.2) (Finished o)] None r.2).

Lemma alone_finished force o w r : result_of o = r -> alone force (Finished o) w (r, w).
Proof. intros <-. by exists o. Qed.

Lemma alone_turn force ph w ph' w' r : finished ph = false ->
  turn force true ph w = (Ok ph', w') -> alone force ph' w' r -> alone force ph w r.
Proof.
  intros Hf Ht (o & Ho & Hr). exists o. split; [done|]. eapply rtc_l; [|exact Hr].
  unfold run_thread. cbn. rewrite Hf, set_stopped_same.
  assert (turn force (bool_decide ((if holds ph then Some 0%nat else None) = None)) ph w = (Ok ph', w')) as ->.
  { rewrite <- Ht. by destruct ph. }
  apply turn_follows in Ht. do 2 f_equal.
  follow_cases ph Ht; done.
Qed.

(** [lock_refresh] repeats the pass. *)
Lemma lock_refresh_turn fuel deadline w : lock_refresh (S fuel) deadline w =
  (got ← lock_turn true deadline; if (got : bool) then mret tt else lock_refresh fuel deadline) w.
Proof.
  cbn [lock_refresh]. unfold lock_turn, call. rewrite !run_bind.
  destruct (env_lock_busy (w_step w)); cbn [negb andb]; [|done].
  rewrite !run_bind. cbn. rewrite !run_bind. destruct (throw_if_stopped _) as [[[]|x] w3]; [|done].
  rewrite !run_bind. cbn. by destruct (deadline <=? w_tick w3).
Qed.

Lemma lock_turn_waits free deadline w w' : lock_turn free deadline w = (Ok false, w') ->
  w_tick w + 100 <= w_tick w' /\ w_tick w + 100 < deadline.
Proof.
  unfold lock_turn. intros H. apply run_bind_Ok in H as (busy & w1 & Hb & H).
  destruct (negb busy && free); [by run_ok|].
  apply run_bind_Ok in H as ([] & w2 & Hw & H). apply run_bind_Ok in H as ([] & w3 & Hs & H).
  apply run_bind_Ok in H as (now & w4 & Ht & H).
  destruct (deadline <=? now) eqn:Hl; run_ok. breflect.
  pose proof (steps_stop grows_to w2) as Hg. rewrite Hs in Hg. destruct Hg as [_ Hg _ _].
  injection Hb as _ <-. injection Hw as <-. injection Ht as <- <-. cbn in *. lia.
Qed.

(** The tries that [lock_refresh] counts suffice: each of them takes 100 ms. *)
Lemma alone_locks force (rest : M unit) fuel : forall deadline w,
  deadline - w_tick w <= 100 * (Z.of_nat fuel - 1) -> (0 < fuel)%nat ->
  (forall w', alone force Rechecking w' (rest w')) ->
  alone force (Trying deadline) w ((_ ← lock_refresh fuel deadline; rest) w).
Proof.
  induction fuel as [|fuel IH]; intros deadline w Hd Hf Hrest; [lia|].
  rewrite run_bind, lock_refresh_turn, run_bind.
  destruct (lock_turn true deadline w) as [[[]|x] w1] eqn:Hl.
  all: eapply alone_turn; [done| |]; [cbn [turn]; by rewrite run_bind, run_attempt, Hl|].
  - apply Hrest.
  - apply lock_turn_waits in Hl. rewrite <- run_bind. apply IH; lia || done.
  - by apply alone_finished.
Qed.

(** The refresh proper, with its handler. *)
Lemma alone_judges force x w : alone force (Judging x) w
  ((usable ← with_clock_and_ring can_use_current_key_after_refresh_failure;
    if tolerated usable x then mret tt else throw x) w).
Proof.
  destruct (returns_usable w) as (usable & w1 & Hu). rewrite (run_ok_bind _ _ _ _ _ Hu).
  eapply alone_turn; [done|cbn [turn]; by rewrite (run_ok_bind _ _ _ _ _ Hu)|].
  eapply alone_turn; [done..|]. destruct (tolerated usable x); by apply alone_finished.
Qed.

Lemma alone_syncs force w : alone force Syncing w
  (try_catch
     (init ← clock_initialized;
      _ ← (if negb init then refresh_trusted_time options store else mret tt);
      refresh_online_keys_core options store)
     (fun x =>
        usable ← with_clock_and_ring can_use_current_key_after_refresh_failure;
        if tolerated usable x then mret tt else throw x) w).
Proof.
  set (h := fun x : Exn => _). unfold try_catch. rewrite run_bind.
  change (clock_initialized w) with (@Ok bool (initialized (w_clock w)), w). cbn beta iota. rewrite run_bind.
  set (m := if negb _ then _ else _).
  destruct (m w) as [[[]|x] w1] eqn:Hm.
  all: eapply alone_turn; [done| |]; [cbn [turn]; rewrite run_bind, run_attempt, run_bind;
    change (clock_initialized w) with (@Ok bool (initialized (w_clock w)), w); cbn beta iota; fold m; by rewrite Hm|].
  2: apply alone_judges.
  destruct (refresh_online_keys_core options store w1) as [[[]|x] w2] eqn:Hc.
  all: eapply alone_turn; [done| |]; [cbn [turn]; by rewrite run_bind, run_attempt, Hc|].
  - eapply alone_turn; [done..|]. by apply alone_finished.
  - apply alone_judges.
Qed.

(** Cutting the function at its locks loses nothing: alone, a thread's turns
    give the result and the final world of [refresh_online_keys], every
    exception included; and the tries of the sequential definition are enough
    for the deadline. *)
Theorem alone_is_sequential force w :
  alone force Entering w (refresh_online_keys options store force w).
Proof.
  unfold refresh_online_keys. fold (key_is_fresh force).
  destruct (returns_key force w) as (fresh & w1 & Hf). rewrite (run_ok_bind _ _ _ _ _ Hf).
  eapply alone_turn; [done|cbn [turn]; by rewrite (run_ok_bind _ _ _ _ _ Hf)|].
  destruct fresh; [by apply alone_finished|].
  eapply alone_turn; [done|done|]. rewrite run_bind. cbn [tick_ms call].
  apply alone_locks; [unfold lock_tries; cbn [w_tick advance]; lia|unfold lock_tries; lia|]. clear. intros w.
  destruct (returns_key force w) as (fresh & w1 & Hf). rewrite (run_ok_bind _ _ _ _ _ Hf).
  eapply alone_turn; [done|cbn [turn]; by rewrite (run_ok_bind _ _ _ _ _ Hf)|].
  destruct fresh; [by eapply alone_turn; [done..|apply alone_finished]|]. apply alone_syncs.
Qed.

(** ** The mutex *)

Definition owned (s : System) : Prop := forall i, owner s = Some i <-> is_in holds s i.

Lemma phase_update i force stopped ph s o w j : (exists old, threads s !! i = Some old) ->
  phase (mkSystem (<[i := mkThread force stopped ph]> (threads s)) o w) j =
    if decide (j = i) then Some ph else phase s j.
Proof.
  intros [old Hi]. unfold phase. cbn. case_decide as Hj; [subst j|by rewrite list_lookup_insert_ne].
  rewrite list_lookup_insert_eq; [done|by eapply lookup_lt_Some].
Qed.

Lemma start_phase forces w i ph : phase (start forces w) i = Some ph -> ph = Entering.
Proof.
  unfold phase, start. cbn. rewrite list_lookup_fmap. by destruct (forces !! i); intros [= <-].
Qed.

Lemma owned_start forces w : owned (start forces w).
Proof. intros i. cbn. split; [done|]. intros (ph & ->%start_phase & ?). done. Qed.

(** A thread's turn, seen from the mutex. *)
Lemma thread_turn i s s' : run_thread i s = Some s' -> exists force stopped ph ph' w,
  threads s !! i = Some (mkThread force stopped ph) /\ follows (bool_decide (owner s = None)) ph ph' /\
  turn force (bool_decide (owner s = None)) ph (set_stopped stopped (world s)) = (Ok ph', w) /\ finished ph = false /\
  owner s' = owner_after i ph ph' (owner s) /\ world s' = w /\
  (forall j, phase s' j = if decide (j = i) then Some ph' else phase s j).
Proof.
  intros H. apply run_thread_inv in H as (force & stopped & ph & ph' & w & Hi & Hf & Ht & ->).
  exists force, stopped, ph, ph', w. split_and!; try done; [by eapply turn_follows|].
  intros j. apply phase_update. eauto.
Qed.

Lemma owned_step s who s' : sys_step s who s' -> owned s -> owned s'.
Proof.
  destruct 1 as [i s' Hrun|w Hg]; intros Ho; [|exact Ho].
  apply thread_turn in Hrun as (force & stopped & ph & ph' & w & Hi & Hn & _ & Hf & Ho' & _ & Hph).
  assert (phase s i = Some ph) as Hpi by (unfold phase; by rewrite Hi).
  assert (owner s = Some i <-> holds ph = true) as Hown.
  { rewrite (Ho i). unfold is_in. rewrite Hpi. naive_solver. }
  intros j. unfold is_in. rewrite Hph, Ho'. case_decide as Hj.
  - subst j. follow_cases ph Hn; cbn in *; naive_solver.
  - specialize (Ho j). unfold is_in in Ho. rewrite <- Ho.
    follow_cases ph Hn; cbn in *; breflect; naive_solver.
Qed.

Lemma owned_exec s schedule s' : owned s -> exec s schedule s' -> owned s'.
Proof. intros Ho. induction 1 as [|schedule s1 who s2 _ IH Hs]; [done|by eapply owned_step]. Qed.

Lemma owned_unique s i j : owned s -> is_in holds s i -> is_in holds s j -> i = j.
Proof. intros Ho Hi%Ho Hj%Ho. congruence. Qed.

(** ** One refresh for all *)

Definition unforced (s : System) : Prop := Forall (fun t => th_force t = false) (threads s).

Lemma key_is_fresh_run w : key_is_fresh false w =
  (Ok (has_fresh_key (p_ring (w_pipe w)) (w_clock w) (w_tick w)), advance 0 w).
Proof. reflexivity. Qed.

Lemma unforced_step s who s' : sys_step s who s' -> unforced s -> unforced s'.
Proof.
  destruct 1 as [i s' Hrun|]; intros Hu; [|done].
  apply run_thread_inv in Hrun as (force & stopped & ph & ph' & w & Hi & _ & _ & ->). unfold unforced in *. cbn.
  apply Forall_insert; [done|]. cbn. by eapply (Forall_lookup_1 _ _ _ _ Hu) in Hi.
Qed.

(** Whoever has refreshed left a fresh key, with which nobody starts again. *)
Definition settled (s : System) : Prop := forall i, is_in has_refreshed s i ->
  key_fresh s = true /\ (forall j, ~ is_in working s j) /\ (forall j, is_in has_refreshed s j -> j = i).

Lemma working_holds s i : is_in working s i -> is_in holds s i.
Proof. intros (ph & Hp & Hw). exists ph. split; [done|by destruct ph]. Qed.

Lemma settled_step s who s' : sys_step s who s' -> steady s s' -> owned s -> unforced s ->
  settled s -> settled s'.
Proof.
  intros Hs [Hkeep Hgain] Ho Hu Hset. destruct Hs as [i s' Hrun|w Hg].
  2: { intros i Hi. destruct (Hset i Hi) as (Hf & Hrest). split; [by apply Hkeep|exact Hrest]. }
  pose proof (thread_turn _ _ _ Hrun) as (force & stopped & ph & ph' & w & Hi & Hn & Ht & Hf & _ & _ & Hph).
  assert (phase s i = Some ph) as Hpi by (unfold phase; by rewrite Hi).
  assert (forall P j, is_in P s' j <-> if decide (j = i) then P ph' = true else is_in P s j) as Hin.
  { intros P j. unfold is_in. rewrite Hph. case_decide; naive_solver. }
  assert (is_in holds s i <-> holds ph = true) as Hold by (unfold is_in; rewrite Hpi; naive_solver).
  destruct (has_refreshed ph') eqn:Hr', (has_refreshed ph) eqn:Hr.
  - (* it had refreshed before *)
    assert (is_in has_refreshed s i) as Hri by (by exists ph).
    destruct (Hset i Hri) as (Hfr & Hw & Huniq). intros k Hk.
    assert (k = i) as -> by (apply Hin in Hk; case_decide; [done|by apply Huniq]).
    split_and!; [by apply Hkeep| |].
    + intros j Hj. apply Hin in Hj. case_decide; [by destruct ph'|by apply (Hw j)].
    + intros j Hj. apply Hin in Hj. case_decide; [done|by apply Huniq].
  - (* it refreshes now, alone *)
    assert (ph = Fetching /\ ph' = Leaving Refreshed) as [-> ->].
    { follow_cases ph Hn; try done; by destruct o. }
    assert (key_fresh s' = true) as Hfr.
    { apply (Hgain i); [done|]. rewrite Hph. by rewrite decide_True. }
    assert (forall j, is_in holds s j -> j = i) as Hone.
    { intros j Hj. eapply owned_unique; [exact Ho|done|]. by apply Hold. }
    assert (forall j, ~ is_in has_refreshed s j) as Hnone.
    { intros j Hj. destruct (Hset j Hj) as (_ & Hw & _). apply (Hw i). by exists Fetching. }
    intros k Hk. assert (k = i) as -> by (apply Hin in Hk; case_decide; [done|by destruct (Hnone k)]).
    split_and!; [done| |].
    + intros j Hj. apply Hin in Hj. case_decide; [done|]. by apply working_holds, Hone in Hj.
    + intros j Hj. apply Hin in Hj. case_decide; [done|by destruct (Hnone j)].
  - exfalso. follow_cases ph Hn; try done; by destruct o.
  - (* another thread has refreshed *)
    intros k Hk. assert (k <> i /\ is_in has_refreshed s k) as [Hne Hrk].
    { apply Hin in Hk. case_decide; [congruence|done]. }
    destruct (Hset k Hrk) as (Hfr & Hw & Huniq). split_and!; [by apply Hkeep| |].
    + intros j Hj. apply Hin in Hj. case_decide; [|by apply (Hw j)]. subst j.
      assert (working ph = false) as Hnw.
      { destruct (working ph) eqn:Ew; [|done]. destruct (Hw i). by exists ph. }
      assert (force = false) as -> by (by eapply (Forall_lookup_1 _ _ _ _ Hu) in Hi).
      follow_cases ph Hn; try done.
      cbn [turn] in Ht. rewrite run_bind, key_is_fresh_run in Ht. unfold key_fresh in Hfr.
      cbn [set_stopped w_pipe w_clock w_tick] in Ht.
      by rewrite Hfr in Ht.
    + intros j Hj. apply Hin in Hj. case_decide; [congruence|by apply Huniq].
Qed.

(** A thread that is forced never takes the key for fresh. *)
Definition skipped (ph : Phase) : bool :=
  match ph with Leaving AlreadyFresh | Finished AlreadyFresh => true | _ => false end.

Lemma forced_step s who s' : sys_step s who s' ->
  (forall i t, threads s !! i = Some t -> th_force t = true -> skipped (th_phase t) = false) ->
  forall i t, threads s' !! i = Some t -> th_force t = true -> skipped (th_phase t) = false.
Proof.
  destruct 1 as [i s' Hrun|w Hg]; intros H j t; [|exact (H j t)].
  apply run_thread_inv in Hrun as (force & stopped & ph & ph' & w & Hi & Hf & Ht & ->). cbn.
  destruct (decide (j = i)) as [->|Hne]; [|rewrite list_lookup_insert_ne by done; apply H].
  rewrite list_lookup_insert_eq by (by eapply lookup_lt_Some). intros [= <-]. cbn. intros ->.
  apply H in Hi as Hs; [|done]. cbn in Hs. apply turn_follows in Ht as Hn.
  follow_cases ph Hn; try done; try (by destruct o); injection Ht as <-; done.
Qed.

(** C8: the threads that ask for fresh keys together cost one refresh, when
    they do not force it.  Whatever the order of their turns and whatever the
    rest of the program does, no two of them, forced or not, are between
    [try_lock_for] and the unlocking at once.  Among threads of which none is
    forced, and as long as a refresh leaves a fresh key and a key that is fresh
    stays so, at most one has refreshed.  A forced thread, such as each call of
    [Client::refresh_online_keys], never returns because the key was fresh
    already: such threads refresh one after the other. *)
Theorem single_flight forces w :
  (forall schedule s i j, exec (start forces w) schedule s ->
     is_in holds s i -> is_in holds s j -> i = j) /\
  (forall schedule s i t, exec (start forces w) schedule s ->
     threads s !! i = Some t -> th_force t = true -> skipped (th_phase t) = false) /\
  (forall s i j, Forall (fun force => force = false) forces -> steady_exec (start forces w) s ->
     is_in has_refreshed s i -> is_in has_refreshed s j -> i = j).
Proof.
  split; [|split].
  - intros schedule s i j He. apply owned_unique. eapply owned_exec; [apply owned_start|exact He].
  - intros schedule s i t He. revert i t. induction He as [|schedule s1 who s2 _ IH Hs].
    + intros i t Hi _. cbn in Hi. rewrite list_lookup_fmap in Hi.
      destruct (forces !! i); [|done]. by injection Hi as <-.
    + by eapply forced_step.
  - intros s i j Hf He Hi Hj.
    assert (owned s /\ unforced s /\ settled s) as (_ & _ & Hs); [|symmetry; by apply (Hs i)].
    clear Hi Hj. induction He as [|s1 who s2 _ (Ho & Hu & Hset) Hs Hst].
    + split_and!; [apply owned_start| |].
      * unfold unforced, start. cbn. by rewrite Forall_fmap.
      * intros k (ph & ->%start_phase & ?). done.
    + split_and!; [by eapply owned_step|by eapply unforced_step|by eapply settled_step].
Qed.

(** ** Nobody waits for ever *)

(** The most turns a thread still has, at a time. *)
Definition turns_left (ph : Phase) (now : Z) : nat :=
  match ph with
  | Entering => 308 | Starting => 307
  | Trying deadline => 6 + Z.to_nat ((deadline - now) / 100)
  | Rechecking => 5 | Syncing => 4 | Fetching => 3 | Judging _ => 2 | Leaving _ => 1
  | Finished _ => 0
  end.

Definition turns_of (i : nat) (schedule : list (option nat)) : nat :=
  length (filter (fun who => who = Some i) schedule).

Lemma turns_of_snoc i schedule who : turns_of i (schedule ++ [who]) =
  (turns_of i schedule + if decide (who = Some i) then 1 else 0)%nat.
Proof.
  unfold turns_of. rewrite filter_app, length_app, filter_cons, filter_nil. by case_decide.
Qed.

Lemma turns_left_later ph now now' : now <= now' -> (turns_left ph now' <= turns_left ph now)%nat.
Proof.
  intros Hn. destruct ph; cbn; try lia.
  pose proof (Z.div_le_mono (deadline - now') (deadline - now) 100 ltac:(lia) ltac:(lia)). lia.
Qed.

Lemma grows_turn force free ph : steps grows_to (turn force free ph).
Proof.
  pose proof (free_keys_core grows_to options store). pose proof (free_time grows_to options store).
  unfold turn, key_is_fresh, with_clock_and_ring, lock_turn, clock_initialized.
  destruct ph, force; walk.
Qed.

Lemma turn_counts force free ph w ph' w' : finished ph = false ->
  turn force free ph w = (Ok ph', w') ->
  (turns_left ph' (w_tick w') < turns_left ph (w_tick w))%nat.
Proof.
  intros Hf Ht. pose proof (grows_turn force free ph w) as Hg. rewrite Ht in Hg. destruct Hg as [_ Hg _ _].
  pose proof (turn_follows _ _ _ _ _ _ Ht) as Hn.
  follow_cases ph Hn; cbn [turns_left] in *; try done; try lia.
  - cbn in Ht. injection Ht as Hd Hw. rewrite <- Hd. cbn [snd] in Hg.
    pose proof (Z.div_le_mono (w_tick w + 30000 - w_tick w') 30000 100 ltac:(lia) ltac:(lia)) as Hm.
    change (30000 / 100) with 300 in Hm. lia.
  - cbn [turn] in Ht. rewrite run_bind, run_attempt in Ht.
    destruct (lock_turn free deadline w) as [[[]|x] w1] eqn:Hl; try done.
    injection Ht as <-. apply lock_turn_waits in Hl as [Hw Hd].
    pose proof (Z.div_le_mono (deadline - w_tick w1) (deadline - w_tick w + (-1) * 100) 100 ltac:(lia) ltac:(lia)) as Hm.
    rewrite Z.div_add in Hm by lia.
    pose proof (Z.div_pos (deadline - w_tick w - 100) 100 ltac:(lia) ltac:(lia)) as Hp.
    replace (deadline - w_tick w - 100) with (deadline - w_tick w + (-1) * 100) in Hp by lia.
    rewrite Z.div_add in Hp by lia. lia.
Qed.

Lemma world_grows s who s' : sys_step s who s' -> w_tick (world s) <= w_tick (world s').
Proof.
  destruct 1 as [i s' Hrun|w Hg]; [|by destruct Hg].
  apply thread_turn in Hrun as (force & stopped & ph & ph' & w & _ & _ & Ht & _ & _ & <- & _).
  pose proof (grows_turn force (bool_decide (owner s = None)) ph (set_stopped stopped (world s))) as Hg.
  rewrite Ht in Hg. by destruct Hg.
Qed.

Definition left_at (s : System) (i : nat) : nat :=
  match phase s i with Some ph => turns_left ph (w_tick (world s)) | None => 0 end.

Lemma left_step s who s' i : sys_step s who s' ->
  ((if decide (who = Some i) then 1 else 0) + left_at s' i <= left_at s i)%nat.
Proof.
  intros Hs. pose proof (world_grows _ _ _ Hs) as Hw. unfold left_at.
  destruct Hs as [j s' Hrun|w Hg].
  - apply thread_turn in Hrun as (force & stopped & ph & ph' & w & Hj & _ & Ht & Hf & _ & Hww & Hph).
    rewrite Hph, Hww in *. destruct (decide (i = j)) as [->|Hne].
    + assert (phase s j = Some ph) as -> by (unfold phase; by rewrite Hj).
      apply turn_counts in Ht; [|done]. cbn [set_stopped w_tick] in Ht. case_decide; lia.
    + rewrite decide_False by congruence.
      destruct (phase s i) as [ph0|]; [|lia]. by apply turns_left_later.
  - rewrite decide_False by done. cbn [Nat.add world]. change (phase (mkSystem (threads s) (owner s) w) i) with (phase s i).
    destruct (phase s i) as [ph0|]; [|lia]. by apply turns_left_later.
Qed.

(** C18: no refresh waits for ever, and none keeps the lock.  In every
    execution a thread takes at most 308 turns; one that has not finished can
    always take its next, also while another holds the mutex; and when all
    have finished, whether with a key or with an exception, the mutex is
    free. *)
Theorem turns_bounded forces w schedule s : exec (start forces w) schedule s ->
  (forall i, turns_of i schedule <= 308)%nat /\
  (forall i ph, phase s i = Some ph -> finished ph = false -> exists s', sys_step s (Some i) s') /\
  ((forall i ph, phase s i = Some ph -> finished ph = true) -> owner s = None).
Proof.
  intros He. split_and!.
  - intros i. assert (turns_of i schedule + left_at s i <= 308)%nat; [|lia].
    induction He as [|schedule s1 who s2 He IH Hs].
    + unfold left_at. destruct (phase _ i) as [ph|] eqn:Hp; [|cbn; lia].
      by apply start_phase in Hp as ->.
    + rewrite turns_of_snoc. apply (left_step _ _ _ i) in Hs. lia.
  - intros i ph Hi Hf. unfold phase in Hi. destruct (threads s !! i) as [t|] eqn:Ht; [|done].
    injection Hi as <-. destruct (run_thread_progress _ _ _ Ht Hf) as [s' Hs']. exists s'. by constructor.
  - intros Hall. destruct (owner s) as [i|] eqn:Ho; [|done].
    apply (owned_exec _ _ _ (owned_start forces w) He) in Ho as (ph & Hp & Hh).
    apply Hall in Hp. by destruct ph.
Qed.
End Concurrent.

(** * The session

    [verify_authz] stores the session and its expiry in two writes, under no
    mutex. *)
Definition session_writes (session : text) (expires_at : Z) : list (Pipe -> Pipe) :=
  if bool_decide (session = []) then []
  else [fun p => with_session (Some session) (p_session_expires_at p) p;
        fun p => with_session (p_session p) expires_at p].

Definition write_all (writes : list (Pipe -> Pipe)) (p : Pipe) : Pipe := foldl (fun p f => f p) p writes.

(** The orders in which two threads may come. *)
Inductive interleaved {A} : list A -> list A -> list A -> Prop :=
  | interleaved_nil : interleaved [] [] []
  | interleaved_left a l1 l2 l : interleaved l1 l2 l -> interleaved (a :: l1) l2 (a :: l)
  | interleaved_right a l1 l2 l : interleaved l1 l2 l -> interleaved l1 (a :: l2) (a :: l).

(** One thread stores what [verify_authz] stores. *)
Lemma session_writes_alone session expires_at p : session <> [] ->
  write_all (session_writes session expires_at) p = with_session (Some session) expires_at p.
Proof. intros Hs. unfold session_writes. by rewrite bool_decide_false. Qed.

(** Two answers that are verified at once can leave the session of the one
    with the expiry of the other, and then a session that has expired is still
    sent with requests. *)
Theorem session_outlives_expiry `{E : Env} s1 e1 s2 e2 w : s1 <> [] -> s2 <> [] ->
  initialized (w_clock w) = true ->
  e2 <= now_unix_seconds (w_clock w) (w_tick w) < e1 ->
  exists order, interleaved (session_writes s1 e1) (session_writes s2 e2) order /\
    (ensure_session (set_pipe (write_all order (w_pipe w)) w)).1 = Ok s2.
Proof.
  intros H1 H2 Hi He. unfold session_writes. rewrite !bool_decide_false by done.
  eexists. split; [apply interleaved_left, interleaved_right, interleaved_right, interleaved_left, interleaved_nil|].
  unfold ensure_session. rewrite run_bind.
  change (clock_initialized ?v) with (@Ok bool (initialized (w_clock v)), v). cbn beta iota.
  rewrite run_ensure_bind by exact Hi.
  unfold now_seconds_m, tick_ms, call, get_world, get_pipe, mbind, M_bind, mret, M_ret.
  cbn -[now_unix_seconds].
  by rewrite (proj2 (Z.leb_gt _ _)) by lia.
Qed.
