(* ===== verification/Web.v ===== *)
(** * Requests beside the protocol ([src/internal/request_pipeline.cpp])

    Web requests with their own retries, the streams for downloads, updates
    and debug decisions, and the credentials a device shows: hardware evidence
    and debug signatures. *)
From S2P Require Import Prelude StdString Errors Codec Json Types Crypto Hardware Clock Keyring.
From S2P Require Import World Http StateStore Identity Policy Pipeline Send.

(** The default of [HttpRequest::maximum_response_bytes]. *)
Definition default_maximum : Z := 16 * 1024 * 1024.

Definition query_string (query : list (text * text)) : text :=
  foldl (fun output '(key, value) =>
    if bool_decide (value = []) then output
    else (if bool_decide (output = []) then output else output ++ &"&") ++
         url_escape key ++ &"=" ++ url_escape value) [] query.

Definition range_header (range_start : Z) (h : HttpHeaders) : HttpHeaders :=
  if 0 <? range_start then header_add (&"range") (&"bytes=" ++ to_string range_start ++ &"-") h
  else h.

Section Web.
Context `{C : Crypto} `{J : JsonLib} `{E : Env}.
Context (options : ClientOptions) (store : StateStore).

Definition absolute_web_url (path : text) : text :=
  strip_slashes (if bool_decide (web_base_url options = []) then base_url options
                 else web_base_url options) ++ path.

(** ** The evidence of the device *)

Definition hardware : M HardwareEvidence :=
  p ← get_pipe;
  match p_hardware p with
  | Some h => mret h
  | None =>
      machine ← call (fun n _ => env_machine n);
      h ← lift (collect_hardware_evidence (app_id options) machine);
      _ ← put_pipe (with_hardware (Some h));
      mret h
  end.

Definition device_auth (identity : DeviceIdentity) (value : HardwareEvidence) (challenge : text) : Json :=
  let result := json_object
    [(&"install_id", JString (id_install_id identity));
     (&"key_id", JString (id_key_id identity));
     (&"key_thumbprint", JString (id_key_thumbprint identity));
     (&"public_key_sec1", JString (id_public_key_sec1 identity));
     (&"credential_version", JString (&"device_credential_v2"));
     (&"hardware_evidence", json_object
        [(&"version", JUint (he_version value));
         (&"component_mask", JUint (component_mask value));
         (&"aggregate_hash", JString (aggregate_hash value))])] in
  if bool_decide (challenge = []) then result
  else json_set result (&"challenge") (JString challenge).

Definition create_device_auth_for (identity : DeviceIdentity) (challenge : text) : M Json :=
  value ← hardware; mret (device_auth identity value challenge).

Definition create_device_auth (challenge : text) : M Json :=
  identity ← get_identity options store; create_device_auth_for identity challenge.

(** ** Headers *)

(** The session and its proof of possession. *)
Definition session_headers (method url session : text) (body : Bytes) (h : HttpHeaders) :
    M HttpHeaders :=
  proof ← create_dpop options store method url session body;
  mret (header_add (&"X-SWM-DPoP") proof (header_add (&"X-SWM-Session") session h)).

Definition debug_canonical (method path timestamp nonce client_id : text) (body : Bytes) : text :=
  method ++ [nl] ++ path ++ [nl; nl] ++ sha256_hex body ++ [nl] ++ timestamp ++ [nl] ++ nonce ++
  [nl] ++ client_id.

(** The signature of a debug client; [nonce] is drawn by the caller. *)
Definition debug_headers (method path timestamp nonce : text) (body : Bytes) (credentials : Json)
    (h : HttpHeaders) : Result HttpHeaders :=
  client_id ← json_get_string credentials (&"client_id") true;
  secret ← json_get_string credentials (&"client_secret") true;
  let canonical := debug_canonical method path timestamp nonce client_id body in
  Ok (foldl (fun h '(n, v) => header_add n v h) h
    [(&"x-client-id", client_id); (&"x-timestamp", timestamp); (&"x-nonce", nonce);
     (&"x-signature-version", &"1"); (&"x-signature", hmac_sha256_hex secret canonical)]).

Definition optional_header (n v : text) (h : HttpHeaders) : HttpHeaders :=
  if bool_decide (v = []) then h else header_add n v h.

(** [if (!clock_.initialized()) refresh_trusted_time(stop)]. *)
Definition initialize_clock : M unit :=
  init ← clock_initialized;
  if negb init then refresh_trusted_time options store else mret tt.

(** ** [send_web] *)

Definition web_attempt (method path url session : text) (body : Bytes) (policy : RequestPolicy)
    (include_dpop : bool) (debug_credentials : option Json) (watch_token request_id : text) :
    M HttpResponse :=
  let headers := header_add (&"accept") (&"application/json") [] in
  let headers := if bool_decide (body = []) then headers
                 else header_add (&"content-type") json_content_type headers in
  headers ← (if include_dpop then session_headers method url session body headers else mret headers);
  headers ←
    match debug_credentials with
    | None => mret headers
    | Some credentials =>
        timestamp ← ensure_trusted_now;
        nonce ← random_bytes 16;
        lift (debug_headers method path timestamp (hex_lower nonce) body credentials headers)
    end;
  let headers := optional_header (&"x-debug-watch-token") watch_token headers in
  let headers := optional_header (&"x-debug-request-id") request_id headers in
  Http.request (allow_insecure_http options)
    (mkHttpRequest method url headers body (timeout_ms policy) default_maximum).

(** The response as the callers see it, with a nonce that nobody sent. *)
Definition with_random_nonce (response : HttpResponse) : M ProtocolResponse :=
  nonce ← random_uuid_m;
  mret (mkResponse (rs_status_code response) (rs_body response) nonce (rs_headers response)).

Definition send_web (method path : text) (body : Bytes) (operation : OperationClass)
    (include_dpop : bool) (debug_credentials : option Json) (watch_token request_id : text) :
    M ProtocolResponse :=
  _ ← initialize_clock;
  let policy := resolve_request_policy operation in
  let url := absolute_web_url path in
  session ← (if include_dpop || match debug_credentials with Some _ => true | None => false end
             then ensure_session else mret []);
  started ← tick_ms;
  response ← send_loop rs_status_code (fun delay => delay) (&"web request deadline exceeded")
    policy started
    (web_attempt method path url session body policy include_dpop debug_credentials watch_token
       request_id) (Z.to_nat (retries policy + 1)) 0 None;
  with_random_nonce response.

(** ** Streams and downloads *)

Definition open_web_stream (path request_id : text) (debug_credentials : Json) (watch_token : text) :
    M (ResponseStream * text) :=
  _ ← initialize_clock;
  let url := absolute_web_url path in
  session ← ensure_session;
  nonce ← random_bytes 16;
  let request_nonce := hex_lower nonce in
  headers ← session_headers (&"GET") url session []
              (header_add (&"accept") (&"text/event-stream") []);
  _ ← lift (json_get_string debug_credentials (&"client_id") true);
  _ ← lift (json_get_string debug_credentials (&"client_secret") true);
  timestamp ← ensure_trusted_now;
  headers ← lift (debug_headers (&"GET") path timestamp request_nonce [] debug_credentials headers);
  let headers := header_add (&"x-debug-watch-token") watch_token headers in
  let headers := optional_header (&"x-debug-request-id") request_id headers in
  s ← Http.stream (allow_insecure_http options)
        (mkHttpRequest (&"GET") url headers [] (timeout_ms (resolve_request_policy DebugStream))
           default_maximum);
  mret (s, request_nonce).

Definition download_timeout : Z := timeout_ms (resolve_request_policy Download).

Definition send_download (url : text) (range_start : Z) : M ProtocolResponse :=
  _ ← initialize_clock;
  session ← ensure_session;
  headers ← session_headers (&"GET") url session [] (range_header range_start []);
  response ← Http.request (allow_insecure_http options)
    (mkHttpRequest (&"GET") url headers [] download_timeout (64 * 1024));
  with_random_nonce response.

Definition send_storage (url : text) (range_start : Z) : M ProtocolResponse :=
  response ← Http.request (allow_insecure_http options)
    (mkHttpRequest (&"GET") url (range_header range_start []) [] download_timeout (64 * 1024));
  with_random_nonce response.

Definition open_download_stream (url : text) (range_start : Z) (authenticated : bool) :
    M ResponseStream :=
  _ ← initialize_clock;
  let headers := range_header range_start [] in
  headers ← (if authenticated then
               session ← ensure_session; session_headers (&"GET") url session [] headers
             else mret headers);
  Http.stream (allow_insecure_http options)
    (mkHttpRequest (&"GET") url headers [] download_timeout default_maximum).

Definition open_update_stream (url : text) : M (ResponseStream * text) :=
  _ ← initialize_clock;
  session ← ensure_session;
  request_nonce ← random_uuid_m;
  timestamp ← ensure_trusted_now;
  headers ← session_headers (&"GET") url session []
    (foldl (fun h '(n, v) => header_add n v h) []
       [(&"accept", &"text/event-stream"); (&"X-App-Id", app_id options);
        (&"X-Timestamp", timestamp); (&"X-Nonce", request_nonce);
        (&"X-Authz-Capability", &"v3"); (&"X-Client-Release-Id", release_id options);
        (&"X-Client-Version", version options);
        (&"X-Client-Version-Code", version_code_header (version_code options))]);
  s ← Http.stream (allow_insecure_http options)
        (mkHttpRequest (&"GET") url headers []
           (timeout_ms (resolve_request_policy UpdateStream)) default_maximum);
  mret (s, request_nonce).

End Web.

(** * Lemmas *)

Lemma steps_random_nonce `{E : Env} R `{!Frame R} response : steps R (with_random_nonce response).
Proof. unfold with_random_nonce. walk. Qed.
#[export] Hint Resolve steps_random_nonce : world.

Lemma steps_hardware `{C : Crypto} `{E : Env} R `{!Caches R} options : steps R (hardware options).
Proof. unfold hardware. walk. Qed.
#[export] Hint Resolve steps_hardware : world.
Lemma steps_device_auth_for `{C : Crypto} `{E : Env} R `{!Caches R} options i challenge :
  steps R (create_device_auth_for options i challenge).
Proof. unfold create_device_auth_for. walk. Qed.
#[export] Hint Resolve steps_device_auth_for : world.

Section WebSteps.
Context `{C : Crypto} `{J : JsonLib} `{E : Env} (R : relation World).
Context (options : ClientOptions) (store : StateStore).

Section Calm.
Context `{I : !Calm options store R}.

Lemma steps_device_auth challenge : steps R (create_device_auth options store challenge).
Proof using I. unfold create_device_auth. walk. Qed.
Lemma steps_session_headers method url session body h :
  steps R (session_headers options store method url session body h).
Proof using I. unfold session_headers. walk. Qed.
End Calm.
Hint Resolve steps_session_headers : world.

Section Attempt.
Context `{I : !Sends options store R}.

Lemma steps_web_attempt method path url session body policy dpop credentials token id :
  steps R (web_attempt options store method path url session body policy dpop credentials token id).
Proof using I. unfold web_attempt. walk. Qed.

Hint Resolve steps_web_attempt : world.

Lemma steps_send_storage url range : steps R (send_storage options url range).
Proof using I. unfold send_storage. walk. Qed.

End Attempt.
Hint Resolve steps_web_attempt steps_send_storage : world.

(** With a frame that keeps the pipeline's own operations. *)
Section Serving.
Context `{I2 : !Serves options store R}.

Lemma steps_initialize_clock : steps R (initialize_clock options store).
Proof using I2. unfold initialize_clock. walk. Qed.
Hint Resolve steps_initialize_clock : world.

Lemma steps_send_web method path body operation dpop credentials token id :
  steps R (send_web options store method path body operation dpop credentials token id).
Proof using I2. unfold send_web. walk. Qed.
Lemma steps_open_web_stream path id credentials token :
  steps R (open_web_stream options store path id credentials token).
Proof using I2. unfold open_web_stream. walk. Qed.
Lemma steps_send_download url range : steps R (send_download options store url range).
Proof using I2. unfold send_download. walk. Qed.
Lemma steps_open_download_stream url range authenticated :
  steps R (open_download_stream options store url range authenticated).
Proof using I2. unfold open_download_stream. walk. Qed.
Lemma steps_open_update_stream url : steps R (open_update_stream options store url).
Proof using I2. unfold open_update_stream. walk. Qed.
End Serving.
End WebSteps.

#[export] Hint Resolve steps_device_auth steps_session_headers steps_web_attempt steps_send_storage
  steps_initialize_clock steps_send_web steps_open_web_stream steps_send_download
  steps_open_download_stream steps_open_update_stream : world.

(** ** The nonce of a stream *)

Section StreamNonce.
Context `{C : Crypto} `{J : JsonLib} `{E : Env}.
Context (options : ClientOptions) (store : StateStore).

(** The last request sent between [w] and [w'] asked for a stream, with this
    nonce in its header. *)
Definition asked_for_stream (w w' : World) (url nonce : text) : Prop :=
  exists sent earlier, w_sent w' = sent :: earlier /\ w_sent w `suffix_of` earlier /\
    opened_for (allow_insecure_http options) sent /\
    rq_method sent = &"GET" /\ rq_url sent = url /\
    header_get (&"X-Nonce") (rq_headers sent) = Some nonce.

Lemma stream_asked w w1 url headers timeout max s nonce w' : grows_to w w1 ->
  header_get (&"X-Nonce") headers = Some nonce ->
  Http.stream (allow_insecure_http options)
    (mkHttpRequest (&"GET") url headers [] timeout max) w1 = (Ok s, w') ->
  asked_for_stream w w' url nonce.
Proof.
  intros Hg Hn H. apply stream_log in H as (handle & Ho & Hs).
  exists (mkSent (mkHttpRequest (&"GET") url headers [] timeout max) handle), (w_sent w1).
  split_and!; try done. apply Hg.
Qed.

Lemma session_headers_run method url session body h w h' w' :
  session_headers options store method url session body h w = (Ok h', w') ->
  exists proof, h' = header_add (&"X-SWM-DPoP") proof (header_add (&"X-SWM-Session") session h).
Proof.
  unfold session_headers. intros H. apply run_bind_Ok in H as (proof & w1 & _ & H).
  rewrite run_ret in H. injection H as <- _. by exists proof.
Qed.

Lemma open_update_stream_asked url w s nonce w' :
  open_update_stream options store url w = (Ok (s, nonce), w') -> asked_for_stream w w' url nonce.
Proof.
  unfold open_update_stream. intros H.
  apply run_bind_Ok in H as ([] & w1 & H1 & H). apply run_bind_Ok in H as (session & w2 & H2 & H).
  apply run_bind_Ok in H as (n & w3 & H3 & H). apply run_bind_Ok in H as (timestamp & w4 & H4 & H).
  apply run_bind_Ok in H as (headers & w5 & H5 & H). apply run_bind_Ok in H as (s' & w6 & H6 & H).
  rewrite run_ret in H. injection H as -> -> ->.
  assert (grows_to w w5) as Hg.
  { etrans; [eapply ran, H1; walk|]. etrans; [eapply ran, H2; walk|].
    etrans; [eapply ran, H3; walk|]. etrans; [eapply ran, H4; walk|]. eapply ran, H5; walk. }
  apply session_headers_run in H5 as (proof & ->).
  eapply stream_asked; [exact Hg| |exact H6]. cbn [foldl]. find_header.
Qed.

Lemma open_web_stream_asked path id credentials token w s nonce w' :
  open_web_stream options store path id credentials token w = (Ok (s, nonce), w') ->
  asked_for_stream w w' (absolute_web_url options path) nonce.
Proof.
  unfold open_web_stream. intros H.
  apply run_bind_Ok in H as ([] & w1 & H1 & H). apply run_bind_Ok in H as (session & w2 & H2 & H).
  apply run_bind_Ok in H as (n & w3 & H3 & H). apply run_bind_Ok in H as (headers & w4 & H4 & H).
  apply run_bind_Ok in H as (c1 & w5 & H5 & H). apply run_lift_Ok in H5 as [_ ->].
  apply run_bind_Ok in H as (c2 & w5 & H5 & H). apply run_lift_Ok in H5 as [_ ->].
  apply run_bind_Ok in H as (timestamp & w5 & H5 & H).
  apply run_bind_Ok in H as (signed & w6 & H6 & H). apply run_lift_Ok in H6 as [H6 ->].
  apply run_bind_Ok in H as (s' & w7 & H7 & H). rewrite run_ret in H. injection H as -> <- ->.
  assert (grows_to w w5) as Hg.
  { etrans; [eapply ran, H1; walk|]. etrans; [eapply ran, H2; walk|].
    etrans; [eapply ran, H3; walk|]. etrans; [eapply ran, H4; walk|]. eapply ran, H5; walk. }
  apply session_headers_run in H4 as (proof & ->).
  unfold debug_headers in H6. inv_ok.
  eapply stream_asked; [exact Hg| |exact H7]. unfold optional_header. cbn [foldl].
  case_bool_decide; find_header.
Qed.
End StreamNonce.

(** ** [send_web] refines the same retries *)

Section SendWeb.
Context `{C : Crypto} `{J : JsonLib} `{E : Env}.
Context (options : ClientOptions) (store : StateStore).

Lemma web_attempt_sends method path url session body policy dpop credentials token id :
  one_request (web_attempt options store method path url session body policy dpop credentials token id).
Proof.
  unfold web_attempt. apply one_request_after; [walk|]. intros h.
  apply one_request_after; [walk|]. intros h2. apply one_request_http.
Qed.

(** What [send_web] does before its first attempt. *)
Definition web_session (include_dpop : bool) (credentials : option Json) : M text :=
  _ ← initialize_clock options store;
  if include_dpop || match credentials with Some _ => true | None => false end
  then ensure_session else mret [].

(** A web request is sent like a protocol request: once the clock is set
    and the session found, at most [retries + 1] attempts with at most one
    request each, every one started within the deadline, going on only after
    transient outcomes; the response of the last attempt is returned with a
    fresh nonce, and what is thrown is the error of the last attempt when it is
    not worth a retry, the stop, or else the last network or timeout error of
    the attempts, and the exceeded deadline when there was none. *)
Theorem send_web_refines_retries method path body operation dpop credentials token id w :
  let policy := resolve_request_policy operation in
  let run := send_web options store method path body operation dpop credentials token id w in
  match web_session dpop credentials w with
  | (Throw x, w1) => run = (Throw x, w1)
  | (Ok session, w1) => exists w2 os (r : Result HttpResponse) w3,
      idle_to w1 w2 /\
      retried rs_status_code (fun d : Z => d) (&"web request deadline exceeded") policy (w_tick w1)
        (web_attempt options store method path (absolute_web_url options path) session body policy
           dpop credentials token id) (Z.to_nat (retries policy + 1)) None w2 os r w3 /\
      run = match r with Ok response => with_random_nonce response w3 | Throw x => (Throw x, w3) end /\
      (length (w_sent run.2) <= length (w_sent w1) + length os)%nat
  end.
Proof.
  intros policy run. unfold run, send_web, web_session. rewrite !run_bind.
  destruct (initialize_clock options store w) as [[[]|x] w0]; [|done]. rewrite run_bind.
  set (needs := dpop || _). destruct ((if needs then ensure_session else mret []) w0) as [[session|x] w1]; [|done].
  set (w2 := advance 0 w1). rewrite run_bind. change (tick_ms w1) with (Ok (w_tick w1), w2).
  set (m := web_attempt _ _ _ _ _ _ _ _ _ _ _ _). fold policy. cbv iota beta. rewrite ?run_bind.
  destruct (send_loop_retried rs_status_code (fun d : Z => d) (&"web request deadline exceeded") policy
    (w_tick w1) m (Z.to_nat (retries policy + 1)) 0 None w2) as (os & r & w3 & Hrun & Hrt).
  { unfold policy. by destruct operation. }
  { lia. }
  rewrite Hrun. assert (idle_to w1 w2) as Hidle by apply frame_advance.
  exists w2, os, r, w3. split_and!; [done|done|by destruct r|].
  assert (length (w_sent w3) <= length (w_sent w1) + length os)%nat as Hsent.
  { destruct Hidle as [_ [_ _ _ _ <-]]. eapply attempts_sent; [|apply Hrt]. apply web_attempt_sends. }
  destruct r as [response|x]; [|done].
  pose proof (steps_random_nonce (keeps w_sent) response w3) as Hk. unfold keeps in Hk. by rewrite Hk.
Qed.
End SendWeb.
