(* ===== verification/Rotate.v ===== *)
(** * Rotating the device key ([RequestPipeline::rotate_device_key])

    A new key is made beside the old one, announced to the server with proofs
    by both keys, and adopted once the server has accepted it. *)
From S2P Require Import Prelude StdString Errors Codec Json Types Crypto Hardware Clock Keyring.
From S2P Require Import World Http StateStore Identity Policy Pipeline Send Web.

Section Rotate.
Context `{C : Crypto} `{J : JsonLib} `{E : Env}.
Context (options : ClientOptions) (store : StateStore).

Definition rotation_error (what : text) : Exn := err Protocol 0 [] what.

(** The body of an attempt: the new device, and the proof by the new key when
    the server has asked for it. *)
Definition rotation_payload (pending : DeviceIdentity) (challenge proof_digest : text) : M text :=
  auth ← create_device_auth_for options pending challenge;
  let payload := json_object [(&"new_device_auth", auth)] in
  payload ←
    (if bool_decide (challenge = []) then mret payload
     else
       digest ← lift (hex_decode proof_digest);
       _ ← ensure (zlen digest =? 32)
             (rotation_error (&"device key rotation proof digest is invalid"));
       sig ← sign_sha256 pending digest;
       mret (json_set payload (&"new_key_proof") (JString (base64url_encode sig))));
  lift (json_string payload).

Definition rotation_request (body : Bytes) : ProtocolRequest :=
  mkProtocolRequest (&"POST") (&"/api/client/device-key/rotate") DeviceKeyRotation body
    true true true true json_content_type [] [].

(** The attempts; only the first may be answered by a challenge. *)
Fixpoint rotation_loop (more : nat) (attempt : Z) (pending : DeviceIdentity)
    (challenge proof_digest : text) : M Json :=
  match more with
  | O => throw (rotation_error (&"device key rotation challenge retry was exhausted"))
  | S more =>
      body ← rotation_payload pending challenge proof_digest;
      response ← send options store (rotation_request body);
      if (pr_status_code response =? 428) && (attempt =? 0) then
        challenge_body ← lift (parse_json (pr_body response) (&"device key rotation challenge"));
        challenge ← lift (json_get_string challenge_body (&"challenge") true);
        proof_digest ← lift (json_get_string challenge_body (&"proof_digest") true);
        _ ← ensure (negb (bool_decide (challenge = []) || bool_decide (proof_digest = [])))
              (rotation_error (&"device key rotation challenge is invalid"));
        rotation_loop more (attempt + 1) pending challenge proof_digest
      else
        _ ← lift (throw_if_error response);
        parsed ← lift (parse_json (pr_body response) (&"device key rotation response"));
        rotated ← lift (json_get_bool parsed (&"rotated") false);
        _ ← ensure rotated (rotation_error (&"device key rotation response is invalid"));
        install ← lift (json_get_string parsed (&"install_id") false);
        _ ← ensure (bool_decide (install = id_install_id pending))
              (rotation_error (&"device key rotation response is invalid"));
        key ← lift (json_get_string parsed (&"key_id") false);
        _ ← ensure (bool_decide (key = id_key_id pending))
              (rotation_error (&"device key rotation response is invalid"));
        mret parsed
  end.

(** [identity_ = std::move(pending)] and what goes with the old identity. *)
Definition adopt (pending : DeviceIdentity) : M unit :=
  _ ← put_pipe (with_identity (Some pending));
  _ ← put_pipe (with_latched false);
  clear_session.

Definition rotate_device_key : M DeviceKeyRotationResult :=
  _ ← initialize_clock options store;
  _ ← refresh_online_keys options store false;
  _ ← ensure_session;
  pending ← create_pending (app_id options);
  parsed ←
    try_catch
      (parsed ← rotation_loop 2 0 pending [] [];
       _ ← commit_pending pending (directory_ store);
       mret parsed)
      (fun x => _ ← delete_pending pending; throw x);
  _ ← adopt pending;
  registration ← lift (json_get_string parsed (&"registration_id") true);
  device ← device_id options store;
  mret {| rot_registration_id := registration; rot_install_id := id_install_id pending;
          rot_key_id := id_key_id pending; rot_device_id := device |}.

End Rotate.

(** * Lemmas *)

(** ** A key is made without touching the others *)

(** Keys may be added; the files and the pipeline stay. *)
Definition grown (w w' : World) : Prop :=
  w_keys w ⊆ w_keys w' /\ w_files w' = w_files w /\ w_pipe w' = w_pipe w.

#[global] Instance grown_frame `{E : Env} : Frame grown.
Proof.
  split; [split|].
  - intros w. done.
  - intros w1 w2 w3 (? & ? & ?) (? & ? & ?). split_and!; [by etrans|congruence..].
  - intros extra w. done.
Qed.

Section Pending.
Context `{C : Crypto} `{E : Env}.

Lemma create_key_grown name : steps grown (create_key name).
Proof.
  unfold create_key. intros w. rewrite run_bind. cbn [get_world].
  destruct (w_keys w !! name) as [blob|] eqn:Ek; [done|].
  rewrite run_bind. unfold call. cbn [fst snd]. destruct (env_create_key _ _) as [blob|what status].
  - cbn. split_and!; try done. by apply insert_subseteq.
  - rewrite run_bind. unfold lift. by destruct (check_ntstatus status what).
Qed.

Lemma create_key_fresh name w w' : create_key name w = (Ok tt, w') -> w_keys w !! name = None.
Proof.
  unfold create_key. rewrite run_bind. cbn [get_world].
  destruct (w_keys w !! name) as [blob|]; [|done]. intros H. apply run_lift_Ok in H as [H _].
  discriminate H.
Qed.

Hint Resolve create_key_grown steps_ncrypt steps_populate : world.

Lemma open_key_grown name : steps grown (open_key name).
Proof. apply steps_call, _. Qed.
Hint Resolve open_key_grown : world.

Lemma create_identity_grown app reject : steps grown (create_identity app reject).
Proof. unfold create_identity. walk. Qed.

Lemma create_pending_grown app : steps grown (create_pending app).
Proof. unfold create_pending. pose proof create_identity_grown. walk. Qed.

(** With [reject_existing], the key is new. *)
Lemma create_identity_fresh app w i w' : create_identity app true w = (Ok i, w') ->
  w_keys w !! id_key_name i = None.
Proof.
  unfold create_identity. intros H. apply run_bind_Ok in H as (b & w1 & H1 & H).
  apply run_bind_Ok in H as ([] & w2 & H2 & H). apply run_bind_Ok in H as (o & w3 & H3 & H).
  assert (grown w w3) as Hg.
  { pose proof (steps_random grown 16 w) as G1. rewrite H1 in G1.
    pose proof (steps_ncrypt grown (&"NCryptOpenStorageProvider") w1) as G2. rewrite H2 in G2.
    pose proof (open_key_grown (build_key_name app (hex_lower b)) w2) as G3. rewrite H3 in G3.
    etrans; [exact G1|]. etrans; [exact G2|exact G3]. }
  assert (forall name w4, grown w3 w4 -> w_keys w4 !! name = None -> w_keys w !! name = None) as Hnone.
  { intros name w4 (Hs & _) Hn. destruct Hg as (Hs' & _). eapply lookup_weaken_None; [exact Hn|].
    by etrans. }
  destruct o.
  - apply run_bind_Ok in H as (b' & w4 & H4 & H). apply run_bind_Ok in H as ([] & w5 & H5 & H).
    run_ok. cbn. apply create_key_fresh in H5. eapply Hnone; [|exact H5].
    pose proof (steps_random grown 16 w3) as G4. by rewrite H4 in G4.
  - apply run_bind_Ok in H as ([] & w5 & H5 & H). run_ok. cbn. apply create_key_fresh in H5.
    by eapply Hnone.
Qed.

(** What [create_pending] returns: an identity whose key is new. *)
Record pending_in (app : text) (keys : gmap text Bytes) (w : World) (i : DeviceIdentity) : Prop := {
  pd_fresh : keys !! id_key_name i = None;
  pd_made : exists b blob sec1, length b = 16%nat /\
    w_keys w !! build_key_name app (hex_lower b) = Some blob /\ sec1_of_blob blob = Ok sec1 /\
    i = populated (named_identity app (hex_lower b) (build_key_name app (hex_lower b))) sec1
}.

Lemma create_pending_ok app w i w' : create_pending app w = (Ok i, w') ->
  pending_in app (w_keys w) w' i /\ grown w w'.
Proof.
  intros H. pose proof (create_pending_grown app w) as Hg. rewrite H in Hg. cbn in Hg.
  split; [|exact Hg]. unfold create_pending in H. apply run_bind_Ok in H as (j & w1 & Hc & H).
  pose proof (create_identity_fresh _ _ _ _ Hc) as Hf.
  apply create_identity_ok in Hc as (b & Hb & ->).
  apply populate_ok in H as (sec1 & Hsec & -> & [_ Hkeys _ _ _]).
  apply (blob_present (named_identity app (hex_lower b) (build_key_name app (hex_lower b))))
    in Hsec as (blob & Hblob & Hsec).
  split; [done|]. exists b, blob, sec1. split_and!; try done. by rewrite Hkeys.
Qed.

Lemma delete_fresh (keys keys' : gmap text Bytes) name :
  keys ⊆ keys' -> keys !! name = None -> keys ⊆ delete name keys'.
Proof.
  intros Hs Hn. apply map_subseteq_spec. intros i x Hi. rewrite lookup_delete_ne by (intros ->; congruence).
  by eapply lookup_weaken.
Qed.

(** Deleting the pending key, or failing to, keeps every key that was there
    before it. *)
Lemma delete_pending_keeps keys w new :
  keys ⊆ w_keys w -> keys !! id_key_name new = None ->
  let w' := (delete_pending new w).2 in
  keys ⊆ w_keys w' /\ w_pipe w' = w_pipe w /\ w_files w' = w_files w /\
  exists i, delete_pending new w = (Ok i, w').
Proof.
  intros Hs Hn. unfold delete_pending, delete_key, call. destruct (id_has_key new); cbn; [|eauto].
  rewrite !run_bind. cbn [fst snd]. destruct (env_ncrypt (w_step w) <? 0); cbn;
    (split_and!; [first [done|by apply delete_fresh]|done..|eauto]).
Qed.
End Pending.

(** ** The old identity stays while the new one is announced *)

Section Settled.
Context `{C : Crypto} `{J : JsonLib} `{E : Env}.
Context (options : ClientOptions) (store : StateStore).

Definition metadata_path : text := store_path store metadata_file.

(** From a world with the identity [old], the identity, the keys and the
    metadata are untouched. *)
Definition settled (old : DeviceIdentity) (w w' : World) : Prop :=
  p_identity (w_pipe w) = Some old ->
  p_identity (w_pipe w') = Some old /\ w_keys w' = w_keys w /\
  w_files w' !! metadata_path = w_files w !! metadata_path.

Lemma metadata_not_budget :
  metadata_path <> store_path store offline_file /\
  metadata_path <> store_path store offline_file ++ &".tmp".
Proof.
  unfold metadata_path, store_path, slash_join. rewrite <- !(assoc_L app).
  split; intros H; simplify_list_eq.
Qed.

#[global] Instance settled_frame old : Frame (settled old).
Proof.
  split; [split|].
  - intros w H. done.
  - intros w1 w2 w3 H1 H2 H. destruct (H1 H) as (Hi & Hk & Hf). destruct (H2 Hi) as (Hi' & Hk' & Hf').
    split_and!; [done|congruence..].
  - intros extra w H. done.
Qed.

#[global] Instance settled_free old : Free options store (settled old).
Proof.
  split; [split; [split; [split; [split; [apply _|..]|]|split; [apply _|]]|..]|]; try (intros; by intros H).
  - intros w H. unfold get_identity. rewrite run_bind. cbn [get_pipe]. by rewrite H.
  - intros txt w H. destruct metadata_not_budget.
    destruct (write_protected_only store offline_file txt w) as (-> & _ & -> & _ & Hf).
    split_and!; [done..|]. by apply Hf.
Qed.

Lemma rotation_loop_settled old more attempt pending challenge digest :
  steps (settled old) (rotation_loop options store more attempt pending challenge digest).
Proof.
  revert attempt challenge digest. induction more as [|more IH]; intros attempt challenge digest;
    cbn [rotation_loop]; unfold rotation_payload; walk.
Qed.

(** ** The key that is announced can be loaded *)

Context (store_opened : app_id options <> [] /\ directory_ store <> [] /\
  env_absolute (directory_ store) = directory_ store /\
  entropy_ store = sha256 (&"SwmSdkStateV2" ++ [nl] ++ app_id options)).

Lemma make_store_again w s w' : make_store (app_id options) (directory_ store) w = (Ok s, w') ->
  directory_ s = directory_ store /\ entropy_ s = entropy_ store /\ same_state w w'.
Proof using store_opened.
  destruct store_opened as (Ha & Hd & Habs & He). unfold make_store. intros H.
  rewrite (bool_decide_false (directory_ store = [])) in H by done.
  apply run_bind_Ok in H as ([] & w1 & H1 & H). apply run_ensure_Ok in H1 as [_ ->].
  apply run_bind_Ok in H as (d & w1 & H1 & H). rewrite run_ret in H1. injection H1 as <- <-.
  apply run_bind_Ok in H as (c & w1 & H1 & H). injection H1 as _ <-.
  apply run_bind_Ok in H as ([] & w2 & H2 & H). apply run_ensure_Ok in H2 as [_ ->].
  rewrite run_ret in H. injection H as <- <-. cbn. rewrite Habs, He. by split_and!.
Qed.

Lemma make_store_steps w : same_state w (make_store (app_id options) (directory_ store) w).2.
Proof using. revert w. unfold make_store. walk. Qed.

Lemma stored_in_same_store app s w i : directory_ s = directory_ store ->
  entropy_ s = entropy_ store -> stored_identity app s w i -> stored_identity app store w i.
Proof using.
  intros Hd He (install & key & blob & sec1 & c & txt & H).
  exists install, key, blob, sec1, c, txt. revert H. unfold store_path. by rewrite Hd, He.
Qed.

Context `{D : !Dpapi}.
Context (protect_size : forall n p c, zlen p <= 1024 -> env_protect n (entropy_ store) p = Some c ->
  0 < zlen c <= 1024 * 1024).

(** The metadata of an identity that was committed: stored, or cut at the flush. *)
Definition committed (w : World) (i : DeviceIdentity) : Prop :=
  stored_identity (app_id options) store w i \/
  cut_by_flush store metadata_file (metadata_text (id_install_id i) (id_key_name i)) w.

(** Committing the new identity stores it, or leaves the metadata alone. *)
Lemma commit_all_or_nothing keys w new : pending_in (app_id options) keys w new ->
  let run := commit_pending new (directory_ store) w in
  w_keys run.2 = w_keys w /\ w_pipe run.2 = w_pipe w /\
  match run.1 with
  | Ok _ => committed run.2 new
  | Throw _ => w_files run.2 !! metadata_path = w_files w !! metadata_path
  end.
Proof using D protect_size store_opened.
  intros [_ (b & blob & sec1 & Hb & Hblob & Hsec & ->)] run. unfold run, commit_pending.
  set (key_name := build_key_name _ _) in *. cbn [id_has_key id_app_id populated named_identity].
  rewrite run_ensure_bind, run_bind by done.
  pose proof (make_store_steps w) as [Hf Hk _ Hp _].
  destruct (make_store _ _ w) as [[s|x] w1] eqn:Em; cbn in Hf, Hk, Hp; [|by cbn; rewrite Hf].
  apply (make_store_again) in Em as (Hd & He & _).
  assert (metadata_path = store_path s metadata_file) as Hpath
    by (unfold metadata_path, store_path; by rewrite Hd).
  cbn [id_install_id id_key_name populated named_identity].
  pose proof (write_protected_only s metadata_file (metadata_text (hex_lower b) key_name) w1)
    as (Hk1 & _ & Hp1 & _).
  pose proof (write_protected_target s metadata_file (metadata_text (hex_lower b) key_name) w1) as Ht.
  destruct (write_protected _ _ _ w1) as [[[]|x] w2] eqn:Ew; cbn in Hk1, Hp1 |- *;
    (split_and!; [congruence|congruence|]).
  - assert (forall n p c, zlen p <= 1024 -> env_protect n (entropy_ s) p = Some c ->
      0 < zlen c <= 1024 * 1024) as Hsize by by rewrite He.
    destruct (written_stored s (app_id options) b blob sec1 w1 w2 Hsize) as [Hst|Hcut]; try done;
      [by rewrite Hk|left; by apply (stored_in_same_store _ s)|right].
    revert Hcut. unfold cut_by_flush. rewrite He. by fold metadata_path; rewrite <- Hpath.
  - by rewrite Hpath, Ht, <- Hpath, Hf.
Qed.

(** The announcement and its cleanup. *)
Definition announce (pending : DeviceIdentity) : M Json :=
  try_catch
    (parsed ← rotation_loop options store 2 0 pending [] [];
     _ ← commit_pending pending (directory_ store);
     mret parsed)
    (fun x => _ ← delete_pending pending; throw x).

Lemma announce_all_or_nothing keys old w new :
  p_identity (w_pipe w) = Some old -> pending_in (app_id options) keys w new -> keys ⊆ w_keys w ->
  let run := announce new w in
  keys ⊆ w_keys run.2 /\ p_identity (w_pipe run.2) = Some old /\
  match run.1 with
  | Ok _ => committed run.2 new
  | Throw _ => w_files run.2 !! metadata_path = w_files w !! metadata_path
  end.
Proof using D protect_size store_opened.
  intros Hold Hpend Hkeys run. unfold run, announce, try_catch. rewrite run_bind.
  destruct (rotation_loop_settled old 2 0 new [] [] w Hold) as (Hi & Hk & Hf).
  destruct (rotation_loop _ _ _ _ _ _ _ w) as [[parsed|x] w1]; cbn in Hi, Hk, Hf.
  - rewrite run_bind. assert (pending_in (app_id options) keys w1 new) as Hpend1.
    { destruct Hpend as [? Hm]. split; [done|]. by rewrite Hk. }
    destruct (commit_all_or_nothing keys w1 new Hpend1) as (Hk2 & Hp2 & Hc).
    destruct (commit_pending new _ w1) as [[[]|x] w2]; cbn in Hk2, Hp2, Hc.
    + cbn. by rewrite Hk2, Hk, Hp2.
    + destruct (delete_pending_keeps keys w2 new) as (H1 & H2 & H3 & i & Hd);
        [by rewrite Hk2, Hk|apply Hpend|]. rewrite run_bind, Hd. cbn [fst snd throw].
      by rewrite H2, H3, Hp2, Hc, <- Hf.
  - destruct (delete_pending_keeps keys w1 new) as (H1 & H2 & H3 & i & Hd);
      [by rewrite Hk|apply Hpend|]. rewrite run_bind, Hd. cbn. by rewrite H2, H3.
Qed.

Definition prepare : M unit :=
  _ ← initialize_clock options store;
  _ ← refresh_online_keys options store false;
  _ ← ensure_session;
  mret tt.

Definition finish_rotation (pending : DeviceIdentity) (parsed : Json) : M DeviceKeyRotationResult :=
  _ ← adopt pending;
  registration ← lift (json_get_string parsed (&"registration_id") true);
  device ← device_id options store;
  mret {| rot_registration_id := registration; rot_install_id := id_install_id pending;
          rot_key_id := id_key_id pending; rot_device_id := device |}.

Lemma rotate_in_parts w : rotate_device_key options store w =
  (_ ← prepare; pending ← create_pending (app_id options); parsed ← announce pending;
   finish_rotation pending parsed) w.
Proof using.
  unfold rotate_device_key, prepare. rewrite !run_bind.
  destruct (initialize_clock options store w) as [[[]|x] w1]; [|done]. rewrite !run_bind.
  destruct (refresh_online_keys options store false w1) as [[[]|x] w2]; [|done]. rewrite !run_bind.
  by destruct (ensure_session w2) as [[session|x] w3].
Qed.

Lemma prepare_settled old : steps (settled old) prepare.
Proof using. unfold prepare. walk. Qed.

(** The world once [new] is in use. *)
Definition adopted_world (new : DeviceIdentity) (w : World) : World :=
  set_pipe (with_session None 0 (with_latched false (with_identity (Some new) (w_pipe w)))) w.

Lemma finish_rotation_run new parsed w : exists r, 
  finish_rotation new parsed w = (r, adopted_world new w) /\
  match r with
  | Ok result => rot_install_id result = id_install_id new /\ rot_key_id result = id_key_id new
  | Throw _ => True
  end.
Proof using.
  unfold finish_rotation.
  assert (adopt new w = (Ok tt, adopted_world new w)) as Ha by done.
  rewrite (run_ok_bind _ _ _ _ _ Ha), run_bind. unfold lift.
  destruct (json_get_string parsed (&"registration_id") true) as [registration|x]; [|by eexists].
  cbv iota beta. rewrite run_bind. unfold device_id. case_bool_decide; cbn; eexists; done.
Qed.

(** C15: rotating the device key is all or nothing on the device.  Keys that
    were in the key store stay there.  When [rotate_device_key] returns, the
    new identity is the one in use, the old session is gone, and the metadata
    file is that of the new identity, which the next start loads, or it is cut,
    because the disk reported an error at the closing flush of a write, which
    the code does not look at; when it throws, the old identity is still in
    use, its metadata file untouched and the key store as before or with the
    keys that a failed creation or a failed deletion left, unless it threw
    after the new identity was adopted. *)
Theorem rotation_all_or_nothing old w :
  p_identity (w_pipe w) = Some old ->
  let run := rotate_device_key options store w in
  let adopted new :=
    p_identity (w_pipe run.2) = Some new /\
    (stored_identity (app_id options) store run.2 new \/
     cut_by_flush store metadata_file (metadata_text (id_install_id new) (id_key_name new)) run.2) /\
    p_session (w_pipe run.2) = None /\ p_offline_latched (w_pipe run.2) = false /\
    w_keys w !! id_key_name new = None in
  w_keys w ⊆ w_keys run.2 /\
  match run.1 with
  | Ok result => exists new, adopted new /\ rot_install_id result = id_install_id new /\
      rot_key_id result = id_key_id new
  | Throw _ => (exists new, adopted new) \/
      (p_identity (w_pipe run.2) = Some old /\
       w_files run.2 !! metadata_path = w_files w !! metadata_path)
  end.
Proof using D protect_size store_opened.
  intros Hold run adopted. unfold adopted, run. clear adopted run.
  rewrite rotate_in_parts, run_bind. destruct (prepare_settled old w Hold) as (Hi1 & Hk1 & Hf1).
  destruct (prepare w) as [[[]|x] w1]; cbn in Hi1, Hk1, Hf1; [|by cbn; rewrite Hk1; auto].
  rewrite run_bind. pose proof (create_pending_grown (app_id options) w1) as (Hk2 & Hf2 & Hp2).
  destruct (create_pending (app_id options) w1) as [[new|x] w2] eqn:Ep; cbn in Hk2, Hf2, Hp2;
    [|by cbn; rewrite Hp2, Hf2, <- Hk1; auto].
  apply create_pending_ok in Ep as [Hpend _]. rewrite run_bind.
  destruct (announce_all_or_nothing (w_keys w1) old w2 new) as (Hk3 & Hi3 & H3); [by rewrite Hp2|done..|].
  destruct (announce new w2) as [[parsed|x] w3]; cbn in Hk3, Hi3, H3;
    [|by cbn; rewrite H3, Hf2, Hf1, <- Hk1; auto].
  destruct (finish_rotation_run new parsed w3) as (r & -> & Hr).
  cbn [fst snd set_pipe w_pipe w_keys p_identity p_session p_offline_latched with_identity with_session with_latched].
  rewrite <- Hk1. split; [done|].
  assert (committed (adopted_world new w3) new) as Hst by exact H3.
  pose proof (pd_fresh _ _ _ _ Hpend) as Hfr.
  destruct r as [result|x]; [|left; by exists new].
  exists new. destruct Hr. by split_and!.
Qed.
End Settled.
