(* ===== verification/Fetch.v ===== *)
(** * Downloading an artifact ([Client::download_update] of [src/client.cpp])

    The whole operation: resuming a partial file, the redirects, the range of
    the answer, writing, and the verification before the file takes its final
    name. *)
From S2P Require Import Prelude StdString Errors Codec Json Types Crypto Clock Keyring Download.
From S2P Require Import World Http SseStream StateStore Identity Policy Pipeline Send Web.

(** ** Paths and files *)

Definition is_separator (c : ascii) : bool :=
  bool_decide (c = "/"%char) || bool_decide (c = backslash).

Definition drop_back (p : ascii -> bool) (s : text) : text := reverse (drop_while p (reverse s)).

Fixpoint take_front (p : ascii -> bool) (s : text) : text :=
  match s with c :: s' => if p c then c :: take_front p s' else [] | [] => [] end.

(** [path::parent_path] of a path with a drive or none: without the file name
    and the separators before it, but never without the root. *)
Definition parent_path (p : path) : path :=
  let root_name := if bool_decide (p !! 1%nat = Some ":"%char) then take 2 p else [] in
  let rest := drop (length root_name) p in
  let root := root_name ++ take_front is_separator rest in
  let relative := drop (length root) p in
  root ++ drop_back is_separator (drop_back (fun c => negb (is_separator c)) relative).

Definition part_file (destination : path) : path := destination ++ &".part".

(** What reads of a file deliver when an error cuts them short. *)
Definition read_cut (cut : option nat) (content : Bytes) : Bytes :=
  match cut with None => content | Some k => take k content end.

Definition filesystem_error (what : text) : Exn := StdExn what.
Definition download_error (what : text) : Exn := err Protocol 0 [] what.

Section Files.
Context `{C : Crypto} `{E : Env}.

(** A call of [std::filesystem] that throws when it fails. *)
Definition file_call (what : text) : M unit :=
  ok ← call (fun n _ => env_file_ok n); ensure ok (filesystem_error what).

Definition create_parent (destination : path) : M unit :=
  if bool_decide (parent_path destination = []) then mret tt
  else
    ok ← call (fun n _ => env_create_directories n (parent_path destination));
    ensure ok (filesystem_error (&"create_directories")).

(** [exists(partial) ? file_size(partial) : 0]. *)
Definition part_size (partial : path) : M Z :=
  _ ← file_call (&"exists");
  w ← get_world;
  match w_files w !! partial with
  | None => mret 0
  | Some content => _ ← file_call (&"file_size"); mret (zlen content)
  end.

(** [std::filesystem::remove] of a file. *)
Definition remove_or_throw (p : path) : M unit :=
  _ ← file_call (&"remove"); remove_file p.

Definition try_remove (p : path) : M unit :=
  ok ← call (fun n _ => env_file_ok n); if (ok : bool) then remove_file p else mret tt.

Definition rename (source destination : path) : M unit :=
  ok ← call (fun n _ => env_move_ok n);
  _ ← ensure ok (filesystem_error (&"rename"));
  modify (fun w =>
    match w_files w !! source with
    | Some content => set_files (<[destination := content]> (delete source (w_files w))) w
    | None => w
    end).

Definition file_read_failed : Exn := err Api 0 [] (&"file read failed").

Definition read_all (p : path) : M Bytes :=
  ok ← call (fun n w => env_read_ok n && bool_decide (is_Some (w_files w !! p)));
  _ ← ensure ok file_read_failed;
  call (fun n w => read_cut (env_read_cut n) (default [] (w_files w !! p))).

(** The file is hashed as one value, so that of 4 GiB or more only the size
    modulo 2^32 first bytes count. *)
Definition sha_file (p : path) : M text :=
  data ← read_all p;
  failed ← call (fun n _ => env_hash n);
  match failed with
  | Some (what, status) =>
      _ ← lift (check_ntstatus status what); throw (err Cryptographic 0 [] what)
  | None => mret (sha256_hex data)
  end.

(** Opening the [std::ofstream], with [app] or [trunc]. *)
Definition open_output (partial : path) (append : bool) : M unit :=
  ok ← call (fun n _ => env_file_ok n);
  _ ← ensure ok (err Api 0 [] (&"cannot create download file"));
  modify (fun w => set_files
    (<[partial := if append then default [] (w_files w !! partial) else []]> (w_files w)) w).

Definition append_file (partial : path) (data : Bytes) : M unit :=
  modify (fun w => set_files
    (<[partial := default [] (w_files w !! partial) ++ data]> (w_files w)) w).

(** [output.write]: what lands of it, now or at the closing flush; after an
    error the stream is bad and writes nothing.  The code looks at neither. *)
Definition write_output (partial : path) (good : bool) (data : Bytes) : M bool :=
  if negb good then mret false
  else
    outcome ← call (fun n _ => env_write n);
    match outcome with
    | Written => _ ← append_file partial data; mret true
    | WriteFailed k | FlushLost k => _ ← append_file partial (take k data); mret false
    end.

End Files.

Section Fetch.
Context `{C : Crypto} `{J : JsonLib} `{E : Env}.
Context (options : ClientOptions) (store : StateStore).

(** The progress callback: at each call it returns or throws. *)
Context (progress : option (nat -> Z -> Z -> Result unit)).

Definition report_progress (written expected : Z) : M unit :=
  match progress with
  | None => mret tt
  | Some f => r ← call (fun n _ => f n written expected); lift r
  end.

Definition redirected (s : ResponseStream) : bool :=
  (300 <=? st_status_code s) && (st_status_code s <? 400).

(** The redirect loop, with [more] turns left; [s] is the stream so far. *)
Fixpoint follow_redirects (more : nat) (url : text) (existing : Z) (authenticated : bool)
    (s : ResponseStream) : M (ResponseStream * text * bool) :=
  match more with
  | O => mret (s, url, authenticated)
  | S more =>
      s ← open_download_stream options store url existing authenticated;
      if negb (redirected s) then mret (s, url, authenticated)
      else
        location ← lift (of_option (header_get (&"location") (st_headers s))
                     (download_error (&"download redirect is missing Location")));
        url ← lift (resolve_redirect_url url location);
        follow_redirects more url existing false s
  end.

(** [ResponseStream stream;] *)
Definition no_stream : ResponseStream := mkStream 0 [] [] true.

Definition reject_status (s : ResponseStream) : M unit :=
  if 400 <=? st_status_code s then
    answer ← stream_read s;
    throw (err Api (st_status_code s) [] answer.1)
  else mret tt.

(** The range loop: the stream to read, the bytes kept of the partial file,
    whether to append, and the total that the answer names. *)
Fixpoint match_range (more : nat) (range_attempt : Z) (s : ResponseStream) (url : text)
    (authenticated : bool) (existing : Z) : M (ResponseStream * Z * bool * Z) :=
  match more with
  | O => mret (s, existing, false, 0)
  | S more =>
      if st_status_code s =? 206 then
        content_range ← lift (of_option (header_get (&"content-range") (st_headers s))
          (download_error (&"partial download is missing Content-Range")));
        parsed ← lift (of_option (parse_content_range content_range)
          (download_error (&"partial download Content-Range is invalid")));
        if negb (Download.start parsed =? existing) then
          _ ← ensure (range_attempt =? 0)
                (download_error (&"partial download range does not match the local file"));
          s ← open_download_stream options store url 0 authenticated;
          match_range more (range_attempt + 1) s url authenticated 0
        else mret (s, existing, 0 <? existing, total parsed)
      else
        _ ← ensure (st_status_code s =? 200)
              (err Api (st_status_code s) [] (&"download was rejected"));
        mret (s, 0, false, 0)
  end.

(** The total from [Content-Length] when the range names none. *)
Definition expected_size (s : ResponseStream) (existing expected : Z) : Result Z :=
  if expected =? 0 then
    match header_get (&"content-length") (st_headers s) with
    | None => Ok (u64 (0 + existing))
    | Some v =>
        match stoull v with
        | Some n => Ok (u64 (n + existing))
        | None => Throw (download_error (&"download Content-Length is invalid"))
        end
    end
  else Ok expected.

(** The writing loop; every turn takes one read of the stream.  [None] is a run
    out of fuel, which [stream_loops_finish] excludes. *)
Fixpoint save_loop (fuel : nat) (partial : path) (good : bool) (s : ResponseStream)
    (written expected : Z) : M (option Z) :=
  match fuel with
  | O => mret None
  | S f =>
      answer ← stream_read s;
      let '(read, s) := answer in
      if bool_decide (read = []) then mret (Some written)
      else
        good ← write_output partial good read;
        let written := u64 (written + zlen read) in
        _ ← report_progress written expected;
        save_loop f partial good s written expected
  end.

Definition save_stream (partial : path) (s : ResponseStream) (written expected : Z) : M Z :=
  saved ← save_loop (S (length (st_reads s))) partial true s written expected;
  lift (of_option saved (StdExn (&"unreachable"))).

(** From the stream to the file under its final name. *)
Definition receive (update : UpdateInfo) (destination : path) (s : ResponseStream)
    (existing : Z) (append : bool) (expected : Z) : M unit :=
  let partial := part_file destination in
  _ ← open_output partial append;
  written ← save_stream partial s existing expected;
  _ ← (if (0 <? expected) && negb (written =? expected) then
         _ ← remove_or_throw partial;
         throw (err Api 0 [] (&"download length mismatch"))
       else mret tt);
  _ ← try_catch (actual ← sha_file partial; lift (verify_download update actual))
        (fun x => _ ← remove_or_throw partial; throw x);
  _ ← try_remove destination;
  rename partial destination.

Definition download_update (update : UpdateInfo) (destination : path) : M unit :=
  _ ← ensure (negb (negb (update_available update) || open_in_browser update ||
                    negb (valid_download_url (download_url update) (base_url options))))
        (err Configuration 0 [] (&"update does not contain a valid download URL"));
  _ ← create_parent destination;
  let partial := part_file destination in
  existing ← part_size partial;
  opened ← follow_redirects 4 (download_url update) existing true no_stream;
  let '(s, url, authenticated) := opened in
  _ ← ensure (negb (redirected s)) (download_error (&"download redirect limit exceeded"));
  _ ← reject_status s;
  matched ← match_range 2 0 s url authenticated existing;
  let '(s, existing, append, expected) := matched in
  expected ← lift (expected_size s existing expected);
  receive update destination s existing append expected.

End Fetch.

(** * Lemmas *)

(** ** Files outside the store stay when the pipeline works *)

Definition file_at (p : path) (w : World) : option Bytes := w_files w !! p.

(** No file of the store has the path. *)
Definition outside (store : StateStore) (p : path) : Prop :=
  forall name, p <> store_path store name /\ p <> store_path store name ++ &".tmp".

Section Outside.
Context `{C : Crypto} `{J : JsonLib} `{E : Env}.
Context (options : ClientOptions) (store : StateStore) (p : path) (p_outside : outside store p).

#[global] Instance keeps_file_frame : Frame (keeps (file_at p)).
Proof. split; [split|]; unfold keeps; [done|intros ???; congruence|done]. Qed.

Lemma store_write_outside name txt : steps (keeps (file_at p)) (write_protected store name txt).
Proof using p_outside.
  intros w. destruct (p_outside name). destruct (write_protected_only store name txt w) as (_ & _ & _ & _ & Hf).
  by apply Hf.
Qed.

Lemma create_key_outside name : steps (keeps (file_at p)) (create_key name).
Proof.
  unfold create_key. intros w. rewrite run_bind. cbn [get_world].
  destruct (w_keys w !! name); [done|]. rewrite run_bind. unfold call. cbn [fst snd].
  destruct (env_create_key _ _); [done|]. rewrite run_bind. unfold lift. by destruct (check_ntstatus _ _).
Qed.
Hint Resolve store_write_outside create_key_outside steps_ncrypt steps_populate : world.

Lemma identity_outside : steps (keeps (file_at p)) (get_identity options store).
Proof using p_outside.
  assert (forall i, steps (keeps (file_at p)) (put_pipe (with_identity i))) by (intros i w; done).
  unfold get_identity, load_or_create, create_and_store, create_identity, open_key, read_metadata.
  walk.
Qed.

Lemma outside_free : Free options store (keeps (file_at p)).
Proof using p_outside.
  split; [split; [split; [split; [split; [apply _|..]|]|split; [apply _|]]|..]|]; try done.
  - apply identity_outside.
  - intros txt. apply store_write_outside.
Qed.
End Outside.

(** ** The steps of a download *)

Section FetchSteps.
Context `{C : Crypto} `{J : JsonLib} `{E : Env}.

Section Any.
Context (R : relation World) `{!Frame R}.
Lemma steps_file_call what : steps R (file_call what).
Proof using Frame0. unfold file_call. walk. Qed.
Hint Resolve steps_file_call : world.
Lemma steps_create_parent d : steps R (create_parent d).
Proof using Frame0. unfold create_parent. walk. Qed.
Lemma steps_part_size d : steps R (part_size d).
Proof using Frame0. unfold part_size. walk. Qed.
Lemma steps_sha_file d : steps R (sha_file d).
Proof using Frame0. unfold sha_file, read_all. walk. Qed.
Lemma steps_reject_status s : steps R (reject_status s).
Proof using Frame0. unfold reject_status. walk. Qed.
Lemma steps_progress f a b : steps R (report_progress f a b).
Proof using Frame0. unfold report_progress. walk. Qed.
End Any.
Hint Resolve steps_file_call steps_create_parent steps_part_size steps_sha_file steps_reject_status
  steps_progress : world.

(** What the openings of the stream keep, the redirects and the range keep: the
    first is the one of the URL given, later ones need not be authenticated
    where the URL is another. *)
Section Opening.
Context (R : relation World) `{!Frame R} (options : ClientOptions) (store : StateStore).
Context (good : text -> bool -> Prop) (good_false : forall url, good url false).
Context (open_R : forall url existing authenticated, good url authenticated ->
  steps R (open_download_stream options store url existing authenticated)).

Lemma steps_follow more url existing authenticated s : good url authenticated ->
  steps R (follow_redirects options store more url existing authenticated s).
Proof using Frame0 open_R good_false.
  revert url authenticated s. induction more as [|more IH]; intros url authenticated s Hgood;
    cbn [follow_redirects]; [walk|]. apply steps_bind; [apply _|by apply open_R|]. intros s'. walk.
Qed.
Lemma follow_good more url existing authenticated s : good url authenticated -> forall w s' url' auth' w',
  follow_redirects options store more url existing authenticated s w = (Ok (s', url', auth'), w') ->
  good url' auth'.
Proof using good_false.
  revert url authenticated s. induction more as [|more IH]; intros url authenticated s Hgood w s' url' auth' w';
    cbn [follow_redirects]; intros H; run_ok; [done|].
  case_match; run_ok; [done|]. by eapply IH; [|eassumption].
Qed.
Lemma steps_match_range more attempt s url authenticated existing : good url authenticated ->
  steps R (match_range options store more attempt s url authenticated existing).
Proof using Frame0 open_R.
  intros Hgood. revert attempt s existing. induction more as [|more IH]; intros attempt s existing;
    cbn [match_range]; walk.
Qed.
End Opening.

(** Writing the partial file keeps any other file. *)
Section Writing.
Context (q partial : path) (q_other : q <> partial) (progress : option (nat -> Z -> Z -> Result unit)).

Lemma steps_put_other f : steps (keeps (file_at q))
  (modify (fun w => set_files (<[partial := f w]> (w_files w)) w)).
Proof using q_other. apply steps_modify. intros w. by apply lookup_insert_ne. Qed.
Lemma steps_remove_other : steps (keeps (file_at q)) (remove_file partial).
Proof using q_other. apply steps_modify. intros w. by apply lookup_delete_ne. Qed.
Hint Resolve steps_put_other steps_remove_other : world.
Lemma steps_open_output append : steps (keeps (file_at q)) (open_output partial append).
Proof using q_other. unfold open_output. walk. Qed.
Lemma steps_remove_or_throw : steps (keeps (file_at q)) (remove_or_throw partial).
Proof using q_other. unfold remove_or_throw. walk. Qed.
Lemma steps_save_loop fuel good s written expected :
  steps (keeps (file_at q)) (save_loop progress fuel partial good s written expected).
Proof using q_other.
  revert good s written. induction fuel as [|f IH]; intros good s written; cbn [save_loop];
    unfold write_output, append_file; walk.
Qed.
Lemma steps_save_stream s written expected :
  steps (keeps (file_at q)) (save_stream progress partial s written expected).
Proof using q_other. unfold save_stream. pose proof steps_save_loop. walk. Qed.
End Writing.

(** A read takes one of the reads left or ends the loop, so that their number
    is fuel enough. *)
Lemma save_loop_finishes progress fuel : forall partial good s written expected w,
  (length (st_reads s) < fuel)%nat ->
  (save_loop progress fuel partial good s written expected w).1 <> Ok None.
Proof.
  induction fuel as [|f IH]; intros partial good s written expected w Hf; [lia|].
  cbn [save_loop]. rewrite run_bind. pose proof (stream_read_run s w) as Hr.
  destruct (stream_read s w) as [[[read s']|x] w1]; [|done].
  destruct Hr as (_ & Hs & _). case_bool_decide as Hread; [done|].
  rewrite run_bind. destruct (write_output partial good read w1) as [[good'|x] w2]; [|done].
  rewrite run_bind. destruct (report_progress _ _ _ w2) as [[u|x] w3]; [|done].
  apply IH. destruct Hs as [Hs|[? _]]; [rewrite Hs in Hf; cbn in Hf; lia|done].
Qed.

Lemma part_file_ne d : d <> part_file d.
Proof.
  unfold part_file. intros H. apply (f_equal length) in H. rewrite length_app in H.
  change (length (&".part")) with 5%nat in H. lia.
Qed.

(** Bytes whose hash, as they were read, is the signed one: the SHA-256 of all
    of them, when they are fewer than 2^32. *)
Definition verified_artifact (update : UpdateInfo) (content : Bytes) : Prop :=
  exists n, let read := read_cut (env_read_cut n) content in
    verify_download update (sha256_hex read) = Ok tt /\
    (zlen content < 2 ^ 32 -> verify_download update (hex_lower (bcrypt_sha256 read)) = Ok tt).

Lemma read_cut_short cut content : zlen (read_cut cut content) <= zlen content.
Proof. destruct cut; cbn; [|done]. unfold zlen. rewrite length_take. lia. Qed.

Lemma verified_as_read update content n :
  verify_download update (sha256_hex (read_cut (env_read_cut n) content)) = Ok tt ->
  verified_artifact update content.
Proof.
  intros H. exists n. split; [done|]. intros Hl. pose proof (read_cut_short (env_read_cut n) content).
  unfold sha256_hex in H. by rewrite sha256_small in H by lia.
Qed.

Lemma sha_file_ok p w d w' : sha_file p w = (Ok d, w') ->
  same_state w w' /\ exists content n, file_at p w = Some content /\
    d = sha256_hex (read_cut (env_read_cut n) content).
Proof.
  intros H. pose proof (steps_sha_file same_state p w) as Hs. rewrite H in Hs. split; [done|].
  unfold sha_file, read_all in H. apply run_bind_Ok in H as (data & w1 & H1 & H).
  apply run_bind_Ok in H1 as (ok & w2 & H2 & H1). injection H2 as <- <-.
  apply run_bind_Ok in H1 as ([] & w3 & H3 & H1). apply run_ensure_Ok in H3 as [H3 ->].
  injection H1 as <- <-. apply run_bind_Ok in H as (failed & w2 & H2 & H). injection H2 as <- <-.
  destruct (env_hash _) as [[what status]|]; [by apply run_bind_Ok in H as ([] & ? & _ & H)|].
  rewrite run_ret in H. injection H as <- _. breflect.
  unfold file_at. destruct (w_files w !! p) as [content|] eqn:Ec;
    [|by match goal with H : is_Some None |- _ => destruct H end].
  exists content. by eexists.
Qed.

(** Saving the stream changes nothing but files. *)
Lemma steps_receive R `{!Local R} progress update d s existing append expected :
  steps R (receive progress update d s existing append expected).
Proof.
  assert (forall p fuel good s written, steps R (save_loop progress fuel p good s written expected)).
  { intros p fuel. induction fuel as [|f IH]; intros; cbn [save_loop];
      unfold write_output, append_file, report_progress; walk. }
  assert (forall a b, steps R (rename a b)).
  { intros a b. unfold rename. apply steps_bind; [apply _|walk|]. intros ok.
    apply steps_bind; [apply _|walk|]. intros _. apply steps_modify. intros w.
    destruct (w_files w !! a); [apply local_files|reflexivity]. }
  unfold receive, open_output, save_stream, sha_file, read_all, try_remove, remove_or_throw, file_call.
  walk.
Qed.

Lemma steps_download R `{!Local R} options store `{!Serves options store R} progress update d :
  steps R (download_update options store progress update d).
Proof.
  assert (forall url existing authenticated,
    steps R (open_download_stream options store url existing authenticated)) by (intros; walk).
  assert (forall more url existing authenticated s,
    steps R (follow_redirects options store more url existing authenticated s))
    by (intros; by apply (steps_follow _ _ _ (fun _ _ => True))).
  assert (forall more n s url authenticated existing,
    steps R (match_range options store more n s url authenticated existing))
    by (intros; by apply (steps_match_range _ _ _ (fun _ _ => True))).
  pose proof (steps_receive R). unfold download_update. walk.
Qed.

(** What a run leaves at the destination and in the partial file. *)
Definition download_outcome (update : UpdateInfo) (d : path) (before : option Bytes)
    (run : Result unit * World) : Prop :=
  match run.1 with
  | Ok _ => file_at (part_file d) run.2 = None /\
      exists content, file_at d run.2 = Some content /\ verified_artifact update content
  | Throw x => file_at d run.2 = before \/
      (x = filesystem_error (&"rename") /\ file_at d run.2 = None /\
       exists content, file_at (part_file d) run.2 = Some content /\ verified_artifact update content)
  end.

(** The last two steps, on a verified partial file. *)
Lemma finish_outcome update d content w : file_at (part_file d) w = Some content ->
  verified_artifact update content ->
  download_outcome update d (file_at d w)
    ((_ ← try_remove d; rename (part_file d) d) w).
Proof.
  intros Hc Hv. pose proof (part_file_ne d) as Hne.
  assert (exists w1, try_remove d w = (Ok tt, w1) /\ file_at (part_file d) w1 = Some content /\
    (file_at d w1 = file_at d w \/ file_at d w1 = None)) as (w1 & H1 & Hp & Hd).
  { unfold try_remove, call. rewrite run_bind. cbn [fst snd].
    destruct (env_file_ok _); eexists; (split; [done|]).
    - unfold file_at. cbn. split; [by rewrite lookup_delete_ne|]. right. apply lookup_delete_eq.
    - split; [done|by left]. }
  rewrite (run_ok_bind _ _ _ _ _ H1). unfold rename, call. rewrite run_bind. cbn [fst snd].
  unfold download_outcome, file_at in *. destruct (env_move_ok _).
  - rewrite run_ensure_bind by done. cbn. rewrite Hp. cbn. split.
    + rewrite lookup_insert_ne by done. apply lookup_delete_eq.
    + exists content. split; [apply lookup_insert_eq|done].
  - cbn. destruct Hd as [Hd|Hd]; [by left|]. right. split_and!; [done..|]. by exists content.
Qed.
End FetchSteps.

Section Outcome.
Context `{C : Crypto} `{J : JsonLib} `{E : Env}.
Context (options : ClientOptions) (store : StateStore).
Context (progress : option (nat -> Z -> Z -> Result unit)).
Context (update : UpdateInfo) (d : path).

(** A step that keeps the destination, and what follows it. *)
Lemma outcome_after {A} (m : M A) f w : steps (keeps (file_at d)) m ->
  (forall a w', m w = (Ok a, w') -> download_outcome update d (file_at d w') (f a w')) ->
  download_outcome update d (file_at d w) ((m ≫= f) w).
Proof.
  intros Hm Hf. specialize (Hm w). unfold keeps in Hm. rewrite run_bind.
  destruct (m w) as [[a|x] w'] eqn:Em; cbn in Hm; [|by left].
  specialize (Hf a w' eq_refl). by rewrite Hm in Hf.
Qed.

Lemma receive_outcome s existing append expected w :
  download_outcome update d (file_at d w) (receive progress update d s existing append expected w).
Proof.
  pose proof (part_file_ne d) as Hne.
  pose proof (steps_remove_or_throw d (part_file d) Hne).
  unfold receive. apply outcome_after; [by apply steps_open_output|]. intros _ w1 _.
  apply outcome_after; [by apply steps_save_stream|]. intros written w2 _.
  apply outcome_after; [walk|]. intros _ w3 _.
  apply outcome_after.
  { apply steps_try; [apply _| |intros; walk]. apply steps_bind; [apply _|apply steps_sha_file, _|].
    intros; walk. }
  intros [] w4 Ht. unfold try_catch in Ht.
  match type of Ht with context [match ?r with _ => _ end] => destruct r as [[[]|x] w5] eqn:Ev end; [|rewrite run_bind in Ht; by destruct (remove_or_throw _ _) as [[]]].
  injection Ht as ->. apply run_bind_Ok in Ev as (actual & w6 & Hs & Hv). apply run_lift_Ok in Hv as [Hv ->].
  apply sha_file_ok in Hs as ([Hf _ _ _ _] & content & n & Hc & ->).
  apply (finish_outcome update d content); [|by eapply verified_as_read]. unfold file_at in *. by rewrite Hf.
Qed.

Context (d_outside : outside store d).

Lemma opening_outside url existing authenticated :
  steps (keeps (file_at d)) (open_download_stream options store url existing authenticated).
Proof using d_outside.
  pose proof (outside_free options store d d_outside).
  apply steps_open_download_stream, _.
Qed.

Lemma download_outcome_holds w :
  download_outcome update d (file_at d w)
    (download_update options store progress update d w).
Proof using d_outside.
  unfold download_update. pose proof opening_outside as Hopen.
  apply outcome_after; [walk|]. intros _ w1 _.
  apply outcome_after; [apply steps_create_parent, _|]. intros _ w2 _.
  apply outcome_after; [apply steps_part_size, _|]. intros existing w3 _.
  apply outcome_after; [by apply (steps_follow _ _ _ (fun _ _ => True))|].
  intros [[s url] authenticated] w4 _.
  apply outcome_after; [walk|]. intros _ w5 _.
  apply outcome_after; [apply steps_reject_status, _|]. intros _ w6 _.
  apply outcome_after; [by apply (steps_match_range _ _ _ (fun _ _ => True))|].
  intros [[[s' existing'] append] total] w7 _.
  apply outcome_after; [walk|]. intros expected w8 _. apply receive_outcome.
Qed.

(** C13: a download never leaves an artifact at its destination that was not
    checked.  When [download_update] returns, the destination holds bytes
    whose hash, as they were read back, is the one the signed manifest names,
    and the partial file is gone; that hash is the SHA-256 of what was read
    for an artifact of less than 4 GiB, and of its size modulo 2^32 first
    bytes for a longer one; when it throws, the destination is as it was, unless
    the final renaming failed: then the verified bytes are in the partial file
    and the old artifact has been removed. *)
Theorem download_verified w :
  download_outcome update d (file_at d w)
    (download_update options store progress update d w).
Proof using d_outside. apply download_outcome_holds. Qed.
End Outcome.

(** ** Where the credentials go *)

(** The requests sent meanwhile all satisfy [P]. *)
Definition sends_only (P : SentRequest -> Prop) (w w' : World) : Prop :=
  exists l, w_sent w' = l ++ w_sent w /\ Forall P l.

#[global] Instance sends_only_local `{E : Env} P : Local (sends_only P).
Proof.
  assert (forall w w', w_sent w' = w_sent w -> sends_only P w w') as Hnone.
  { intros w w' H. by exists []. }
  split; [split; [split|]|..]; [..|intros; by apply Hnone|intros; by apply Hnone|intros; by apply Hnone|intros; by apply Hnone|intros; by apply Hnone|intros; by apply Hnone].
  - intros w. by apply Hnone.
  - intros w1 w2 w3 (l1 & H1 & F1) (l2 & H2 & F2). exists (l2 ++ l1). split.
    + by rewrite H2, H1, (assoc_L app).
    + by apply Forall_app.
Qed.

Lemma sends_only_log `{E : Env} (P : SentRequest -> Prop) r w : P r -> sends_only P w (log_sent r w).
Proof. intros H. exists [r]. split; [done|]. by constructor. Qed.

(** The session or a proof of possession, in the headers of a request. *)
Definition credential_names : list text := [&"x-swm-session"; &"x-swm-dpop"].
Definition carries_credentials (r : HttpRequest) : Prop :=
  exists n, n ∈ credential_names /\ header_get_exact n (rq_headers r) <> None.

(** Adding a header that is no credential. *)
Definition no_credentials (h : HttpHeaders) : Prop :=
  forall n, n ∈ credential_names -> header_get_exact n h = None.

Lemma no_credentials_add n v h : bool_decide (lower_ascii n ∈ credential_names) = false ->
  no_credentials h -> no_credentials (header_add n v h).
Proof.
  intros Hn Hh m Hm. unfold header_add. rewrite header_get_insert; [by apply Hh|].
  intros ->. by apply bool_decide_eq_false in Hn.
Qed.

Lemma no_credentials_nil : no_credentials [].
Proof. done. Qed.

Lemma no_credentials_request r : no_credentials (rq_headers r) -> ~ carries_credentials r.
Proof. intros H (n & Hn & Hr). by apply Hr, H. Qed.

Create HintDb headers.
#[export] Hint Resolve no_credentials_nil : headers.
#[export] Hint Extern 1 (no_credentials (header_add _ _ _)) =>
  apply no_credentials_add; [vm_compute; reflexivity|] : headers.

Section Credentials.
Context `{C : Crypto} `{J : JsonLib} `{E : Env}.
Context (options : ClientOptions) (store : StateStore) (U : text).

Definition only_for (r : SentRequest) : Prop :=
  opened_for (allow_insecure_http options) r /\ (carries_credentials r -> rq_url r = U).

Lemma base_headers_plain timestamp nonce : no_credentials (base_headers options timestamp nonce).
Proof. unfold base_headers. cbn [foldl]. auto 20 with headers. Qed.

(** A request that needs no online key shows no credentials. *)
Lemma plain_attempt request policy : q_require_online_key request = false ->
  steps (sends_only only_for) (send_attempt options store request policy).
Proof.
  intros Hk. unfold send_attempt, system_time.
  apply steps_bind; [apply _|walk|]. intros _. apply steps_bind; [apply _|walk|]. intros ts.
  apply steps_bind; [apply _|walk|]. intros nonce.
  unfold protect_request. rewrite Hk. cbn [negb]. intros w. rewrite run_bind. cbn [mret M_ret].
  cbv iota beta. revert w.
  apply steps_bind; [apply _| |intros; walk]. apply steps_request; [apply _|]. intros h w Ho.
  apply sends_only_log. split; [done|]. intros Hc. exfalso. revert Hc. apply no_credentials_request. cbn [sent_input rq_headers].
  pose proof (base_headers_plain ts nonce). case_bool_decide; auto with headers.
Qed.

Lemma plain_time : steps (sends_only only_for) (refresh_trusted_time options store).
Proof.
  assert (steps (sends_only only_for) (send_with_retries options store time_request)).
  { unfold send_with_retries. apply steps_bind; [apply _|walk|]. intros started.
    apply steps_send_loop; [apply _|]. by apply plain_attempt. }
  assert (forall c, steps (sends_only only_for) (modify (set_clock c))).
  { intros c. apply steps_modify. intros w. by exists []. }
  assert (forall b, steps (sends_only only_for) (put_pipe (with_latched b))).
  { intros b. apply steps_modify. intros w. by exists []. }
  unfold refresh_trusted_time, note_verified_interaction. walk.
Qed.

(** A stream shows them when it is authenticated. *)
Lemma opening_credentials url existing authenticated : (authenticated = true -> url = U) ->
  steps (sends_only only_for) (open_download_stream options store url existing authenticated).
Proof.
  intros Hu. pose proof plain_time as Ht.
  unfold open_download_stream, initialize_clock.
  apply steps_bind; [apply _|walk|]. intros _.
  destruct authenticated.
  - specialize (Hu eq_refl). apply steps_bind; [apply _|walk|]. intros h.
    apply steps_stream; [apply _|]. intros handle w Ho. apply sends_only_log. split; [done|]. intros _. exact Hu.
  - intros w. rewrite run_bind. cbn [mret M_ret]. cbv iota beta. revert w.
    apply steps_stream; [apply _|]. intros handle w Ho. apply sends_only_log. split; [done|]. intros Hc. exfalso. revert Hc.
    apply no_credentials_request. cbn [sent_input rq_headers]. unfold range_header. case_match; auto with headers.
Qed.
End Credentials.

(** C27: the credentials never leave the origin of the service.  Whatever the
    redirects say, every request that [download_update] sends with the session
    or a proof of possession goes to the download URL of the update, which was
    checked against the base URL; the redirected requests carry neither.  Each
    request is sent to the server that its URL names, over TLS when that is an
    HTTPS URL, and WinHTTP itself follows no redirect of it, with the headers
    that it has, unless setting that policy failed, which the code does not
    look at. *)
Theorem credentials_stay_home `{C : Crypto} `{J : JsonLib} `{E : Env} options store progress update d w :
  let run := download_update options store progress update d w in
  exists sent, w_sent run.2 = sent ++ w_sent w /\
    Forall (fun r => opened_for (allow_insecure_http options) r /\
      (carries_credentials r ->
         rq_url r = download_url update /\
         valid_download_url (rq_url r) (base_url options) = true)) sent.
Proof.
  intros run.
  assert (sends_only (only_for options (download_url update)) w run.2 /\
    (valid_download_url (download_url update) (base_url options) = true \/ w_sent run.2 = w_sent w))
    as [(l & Hl & HF) [Hv|Hs]].
  2: { exists l. split; [done|]. eapply Forall_impl; [exact HF|]. intros r [Ho Hr]. split; [done|].
       intros Hc. specialize (Hr Hc). by rewrite Hr. }
  2: { exists []. by split. }
  unfold run, download_update. destruct (valid_download_url _ _) eqn:Ev; last first.
  { rewrite orb_true_r. cbn. split; [by exists []|by right]. }
  split; [|by left]. set (good := fun url authenticated => authenticated = true -> url = download_url update).
  assert (forall url existing authenticated, good url authenticated ->
    steps (sends_only (only_for options (download_url update)))
      (open_download_stream options store url existing authenticated)) as Hopen.
  { intros url existing authenticated. apply opening_credentials. }
  assert (good (download_url update) true) as Hg by done.
  apply run_steps; [apply _|walk|]. intros _ w1 _.
  apply run_steps; [apply _|apply steps_create_parent, _|]. intros _ w2 _.
  apply run_steps; [apply _|apply steps_part_size, _|]. intros existing w3 _.
  apply run_steps; [apply _|by apply (steps_follow _ _ _ good)|].
  intros [[s url] authenticated] w4 H4. apply (follow_good _ _ good) in H4; [|done|done].
  apply run_steps; [apply _|walk|]. intros _ w5 _.
  apply run_steps; [apply _|apply steps_reject_status, _|]. intros _ w6 _.
  apply run_steps; [apply _|by apply (steps_match_range _ _ _ good)|].
  intros [[[s' existing'] append] total] w7 _.
  apply run_steps; [apply _|walk|]. intros expected w8 _. apply steps_receive, _.
Qed.
