(* ===== verification/Client.v ===== *)
(** * The client ([swm::Client], [src/client.cpp])

    The constructor and the operations that are one protocol request.  Their
    asynchronous variants run them in the tasks of [AsyncTask]; downloads are
    in [Fetch], debug requests and the streams in [Debug] and [Watch]. *)
From S2P Require Import Prelude StdString Errors Codec Json Types Payloads Operation Crypto Download.
From S2P Require Import Clock Keyring World Http StateStore Identity HostIntegrity Multipart Policy.
From S2P Require Import Pipeline Send Web Rotate.

(** ** The constructor *)

(** An empty [arch] is filled in, in the client's copy of the options only: the
    pipeline has made its own before. *)
Definition client_arch (options : ClientOptions) : text := or_default (arch options) (&"x64").

Definition invalid_options (what : text) : Exn := err Configuration 0 [] what.

Definition url_scheme (url : text) : text :=
  lower_ascii match find_sub scheme_separator url with None => [] | Some e => take e url end.

Definition check_options (options : ClientOptions) : Result unit :=
  _ ← require (negb (bool_decide (app_id options = []) || bool_decide (release_id options = []) ||
                     bool_decide (version options = []) ||
                     bool_decide (root_trust_key_id options = []) ||
                     bool_decide (root_trust_public_key options = [])))
        (invalid_options (&"required ClientOptions are missing"));
  _ ← require (valid_uuid (app_id options) && valid_uuid (release_id options))
        (invalid_options (&"app_id and release_id must be UUID values"));
  _ ← require (negb (bool_decide (base_url options = [])))
        (invalid_options (&"base_url is required"));
  let scheme := url_scheme (base_url options) in
  _ ← require (negb (bool_decide (scheme = []) ||
                     (negb (bool_decide (scheme = &"https")) &&
                      negb (allow_insecure_http options && bool_decide (scheme = &"http")))))
        (invalid_options (&"base_url must use HTTPS unless allow_insecure_http is enabled"));
  _ ← match decode_key_material (root_trust_public_key options) with
      | Ok key => require (zlen key =? 32) (invalid_options (&"root_trust_public_key is invalid"))
      | Throw (Swm _) => Throw (invalid_options (&"root_trust_public_key is invalid"))
      | Throw x => Throw x
      end;
  require (match version_code options with Some c => 0 <=? c | None => true end)
    (invalid_options (&"version_code cannot be negative")).

(** The pipeline is made first: it opens the state store and reads the policy. *)
Definition make_client `{C : Crypto} `{E : Env} (options : ClientOptions) : M StateStore :=
  store ← make_store (app_id options) (storage_directory options);
  _ ← load_policy options store;
  _ ← lift (check_options options);
  mret store.

(** [std::terminate].  It is written as an exception, which the handlers of the
    client let pass. *)
Definition terminate : Exn := StdExn (&"std::terminate").

Section Client.
Context `{C : Crypto} `{J : JsonLib} `{E : Env}.
Context (options : ClientOptions) (store : StateStore).

(** [Client::device_id], [install_id] and [device_key_id] are [noexcept]: an
    exception in loading the identity ends the process. *)
Definition noexcept {A} (m : M A) : M A := try_catch m (fun _ => throw terminate).
Definition client_device_id : M text := noexcept (device_id options store).
Definition client_install_id : M text := noexcept (install_id options store).
Definition client_device_key_id : M text := noexcept (device_key_id options store).

Definition json_body (value : Json) : Result Bytes := json_dump value.
Definition parse_body (response : ProtocolResponse) (context : text) : Result Json :=
  parse_json (pr_body response) context.

(** The requests of the client: a POST with an encrypted body. *)
Definition client_request (path : text) (operation : OperationClass) (body : Bytes)
    (require_session : bool) (content_type : text) : ProtocolRequest :=
  mkProtocolRequest (&"POST") path operation body true require_session true true content_type [] [].

Definition post_json (path : text) (operation : OperationClass) (payload : Json) : M Json :=
  body ← lift (json_body payload);
  send_and_verify options store (client_request path operation body true json_content_type).

(** ** Checking for an update *)

Definition check_payload (attributes : Json) (user_id : text) : M Json :=
  device ← client_device_id;
  auth ← create_device_auth options store [];
  let payload := set_text (&"user_id") user_id (json_object
    [(&"channel_code", JString (channel options));
     (&"current_version", JString (version options));
     (&"version_code", json_of_option (version_code options));
     (&"platform", JString (platform options));
     (&"arch", JString (client_arch options));
     (&"device_id", JString device);
     (&"attributes", object_or_empty attributes);
     (&"device_auth", auth)]) in
  integrity ← evidence options;
  mret (match integrity with
        | Some e => set_evidence e (set_state e payload)
        | None => payload
        end).

(** What an accepted response does. *)
Definition accept_update (response : ProtocolResponse) : M UpdateInfo :=
  data ← verify_authz options store response;
  update ← lift (update_from_json data);
  _ ← set_host_integrity_required options store (Types.host_integrity_required update);
  _ ← lift (verify_artifact_manifest update options);
  mret update.

(** Two attempts; only the first may be answered by a challenge. *)
Fixpoint check_loop (more : nat) (attempt : Z) (payload : Json) : M UpdateInfo :=
  match more with
  | O => throw (err Protocol 0 [] (&"device registration challenge retry was exhausted"))
  | S more =>
      body ← lift (json_body payload);
      response ← send options store
        (client_request (&"/api/client/update-check") UpdateCheck body false json_content_type);
      if (pr_status_code response =? 428) && (attempt =? 0) then
        body ← lift (parse_body response (&"device registration challenge"));
        challenge ← lift (json_get_string body (&"challenge") true);
        expires_at ← lift (json_get_int64 body (&"expires_at") 0);
        now ← now_seconds_m;
        _ ← ensure (negb (bool_decide (challenge = []) || (expires_at <=? now)))
              (err Protocol 0 [] (&"device registration challenge is invalid"));
        auth ← create_device_auth options store challenge;
        check_loop more (attempt + 1) (json_set payload (&"device_auth") auth)
      else accept_update response
  end.

Definition check_update (attributes : Json) (user_id : text) : M UpdateInfo :=
  payload ← check_payload attributes user_id; check_loop 2 0 payload.

(** ** Reports *)

Definition report_heartbeat (app_version : text) (attributes : Json) (user_id : text) :
    M HeartbeatResult :=
  device ← client_device_id;
  let payload := set_text (&"user_id") user_id (json_object
    [(&"device_id", JString device);
     (&"channel_code", JString (channel options));
     (&"app_version", JString (or_default app_version (version options)));
     (&"platform", JString (platform options));
     (&"arch", JString (client_arch options));
     (&"attributes", object_or_empty attributes)]) in
  p ← get_pipe;
  e ← (if p_host_integrity_required p then required_evidence options
       else e ← evidence options; mret (default no_evidence e));
  let payload := if bool_decide (ie_state e = []) then payload else set_evidence e payload in
  data ← post_json (&"/api/client/heartbeat") Heartbeat payload;
  lift (heartbeat_from_json data).

(** One event; the clock is read when the event has no time. *)
Definition event_payload (event : Event) : M Json :=
  device ← client_device_id;
  now ← (if bool_decide (event_time event = []) then system_time else mret 0);
  mret (event_to_json now event device (channel options)).

Definition event_named (event : Event) : M unit :=
  ensure (negb (bool_decide (trim_ascii (event_name event) = [])))
    (err Configuration 0 [] (&"event_name is required")).

Definition report_event (event : Event) : M unit :=
  _ ← event_named event;
  payload ← event_payload event;
  _ ← post_json (&"/api/client/events") Events payload;
  mret tt.

Fixpoint events_array (events : list Event) : M (list Json) :=
  match events with
  | [] => mret []
  | event :: rest =>
      _ ← event_named event;
      payload ← event_payload event;
      others ← events_array rest;
      mret (payload :: others)
  end.

Definition report_events (events : list Event) : M unit :=
  match events with
  | [] => mret tt
  | _ =>
      array ← events_array events;
      let payload := match array with
                     | [one] => one
                     | _ => json_object [(&"events", JArray array)]
                     end in
      _ ← post_json (&"/api/client/events") Events payload;
      mret tt
  end.

Definition submit_feedback (request : FeedbackRequest) : M FeedbackResult :=
  device ← client_device_id;
  multipart ← build_feedback_payload device (channel options) (version options) request;
  data ← send_and_verify options store
    (client_request (&"/api/client/feedback") Feedback (mp_body multipart) true
       (mp_content_type multipart));
  lift (feedback_from_json data).

Definition request_enrollment_ticket (audience : text) : M EnrollmentTicket :=
  let normalized := lower_ascii (trim_ascii audience) in
  _ ← ensure (negb (bool_decide (normalized = [])))
        (err Configuration 0 [] (&"enrollment audience is required"));
  data ← post_json (&"/api/client/enrollment-ticket") OpEnrollmentTicket
           (json_object [(&"audience", JString normalized)]);
  lift (ticket_from_json data).

(** ** Operations *)

Definition offline_exceeded : Exn :=
  err OfflineBudget 0 (&"offline_budget_exceeded")
    (&"offline budget exceeded; restart the client and complete a full bootstrap").

Definition within_budget : M unit :=
  locked ← offline_locked options store; ensure (negb locked) offline_exceeded.

(** The hashes of a host-bound request: manifest, host and module. *)
Definition host_hashes (request : OperationAuthorizationRequest) (host_bound : bool) :
    M (text * text * text) :=
  if host_bound then
    e ← required_evidence options;
    hashes ← resolve_operation_hashes request;
    mret (ie_manifest_sha256 e, hashes.1, hashes.2)
  else mret ([], [], []).

Definition authorize_payload (request : OperationAuthorizationRequest) (host_bound : bool)
    (challenge : Bytes) (hashes : text * text * text) : Json :=
  let '(manifest_hash, host_hash, module_hash) := hashes in
  let payload := json_object
    [(&"schema", JString (if host_bound then &"operation_grant_v3_host"
                          else &"operation_grant_v3_unbound"));
     (&"operation", JString (trim_ascii (operation request)));
     (&"plan_sha256", JString (sha256_hex (plan request)));
     (&"step_count", JUint (step_count request));
     (&"total_bytes", JUint (total_bytes request));
     (&"consumer_challenge", JString (hex_lower challenge));
     (&"consumer_module", JString (trim_ascii (consumer_module request)))] in
  if host_bound then
    json_set (json_set (json_set payload (&"integrity_manifest_sha256") (JString manifest_hash))
      (&"host_exe_sha256") (JString host_hash)) (&"consumer_module_sha256") (JString module_hash)
  else payload.

Definition authorize_operation (request : OperationAuthorizationRequest) : M OperationGrant :=
  _ ← within_budget;
  p ← get_pipe;
  host_bound ← lift (validate_operation_authorization_request request (p_host_integrity_required p));
  challenge ← (if bool_decide (consumer_challenge request = []) then random_bytes 32
               else mret (consumer_challenge request));
  _ ← ensure (zlen challenge =? 32)
        (err Configuration 0 [] (&"consumer challenge must be 32 bytes"));
  hashes ← host_hashes request host_bound;
  data ← post_json (&"/api/client/operation-authorizations") OpAuthorization
           (authorize_payload request host_bound challenge hashes);
  lift (grant_from_json data).

Definition consume_operation_authorization (grant : OperationGrant) : M OperationConsumptionReceipt :=
  _ ← within_budget;
  _ ← lift (validate_operation_grant grant);
  data ← post_json (&"/api/client/operation-authorizations/consume") OperationGrantConsume
           (consume_payload grant);
  lift (receipt_from_json data).

(** ** The identity of a firmware *)

Definition allowed_fields : list text :=
  [&"ota_target_version"; &"version_name"; &"post_build"; &"oplus_rom_version";
   &"android_version"; &"post_sdk_level"].

Fixpoint normalize_firmware (members : list (text * Json)) (normalized : list (text * Json)) :
    Result (list (text * Json)) :=
  match members with
  | [] => Ok normalized
  | (key, value) :: rest =>
      if negb (bool_decide (key ∈ allowed_fields)) then normalize_firmware rest normalized
      else match value with
           | JString s =>
               if 512 <? zlen s
               then Throw (err Configuration 0 [] (&"firmware metadata field is invalid: " ++ key))
               else normalize_firmware rest (obj_set key value normalized)
           | _ => Throw (err Configuration 0 [] (&"firmware metadata field is invalid: " ++ key))
           end
  end.

Definition resolve_firmware_identity (metadata : Json) : M Json :=
  match metadata with
  | JObject members =>
      normalized ← lift (normalize_firmware members []);
      _ ← ensure (negb (bool_decide (length normalized = 0%nat)))
            (err Configuration 0 [] (&"firmware metadata must contain at least one supported field"));
      body ← lift (json_body (JObject normalized));
      response ← send_web options store (&"POST") (&"/api/v1/device-models/resolve") body
                   FirmwareIdentity true None [] [];
      _ ← lift (throw_if_error response);
      lift (parse_body response (&"firmware identity response"))
  | _ => throw (err Configuration 0 [] (&"firmware metadata must be a JSON object"))
  end.

End Client.

(** * Lemmas *)

(** ** What the operations of the client may change *)

(** A frame that keeps what the client does with its pipeline. *)
Class Clients `{C : Crypto} `{J : JsonLib} `{E : Env} (options : ClientOptions)
    (store : StateStore) (R : relation World) := {
  clients_serves :: Serves options store R;
  clients_required required : steps R (set_host_integrity_required options store required)
}.
#[export] Hint Extern 0 (Clients _ _ _) => typeclasses eauto : world.

Section EvidenceSteps.
Context `{C : Crypto} `{E : Env} (R : relation World) `{I : !Caches R} (options : ClientOptions).

Lemma steps_package_root : steps R (package_root options).
Proof using I. unfold package_root. walk. Qed.
Lemma steps_hash_file p : steps R (hash_file p).
Proof using I. unfold hash_file. walk. Qed.
Hint Resolve steps_package_root steps_hash_file : world.
Lemma steps_load_manifest : steps R (load_manifest options).
Proof using I. unfold load_manifest. walk. Qed.
Lemma steps_hash_files files hashes : steps R (hash_files options files hashes).
Proof using I. revert hashes. induction files; intros hashes; cbn [hash_files]; walk. Qed.
Hint Resolve steps_load_manifest steps_hash_files : world.
Lemma steps_evidence : steps R (evidence options).
Proof using I. unfold evidence, built_in_evidence. walk. Qed.
Hint Resolve steps_evidence : world.
Lemma steps_required_evidence : steps R (required_evidence options).
Proof using I. unfold required_evidence. walk. Qed.
Lemma steps_operation_hashes request : steps R (resolve_operation_hashes request).
Proof using I. unfold resolve_operation_hashes. walk. Qed.
End EvidenceSteps.
#[export] Hint Resolve steps_evidence steps_required_evidence steps_operation_hashes : world.

Lemma steps_feedback_payload `{J : JsonLib} `{E : Env} R `{!Frame R} device channel version request :
  steps R (build_feedback_payload device channel version request).
Proof.
  assert (forall boundary paths body, steps R (add_attachments boundary paths body)).
  { intros boundary paths. induction paths; intros body; cbn [add_attachments]; unfold attachment; walk. }
  unfold build_feedback_payload. walk.
Qed.
#[export] Hint Resolve steps_feedback_payload : world.

Section ClientSteps.
Context `{C : Crypto} `{J : JsonLib} `{E : Env} (R : relation World).
Context (options : ClientOptions) (store : StateStore).

Lemma steps_noexcept `{!Frame R} {A} (m : M A) : steps R m -> steps R (noexcept m).
Proof. intros Hm. unfold noexcept. walk. Qed.

Section Saying.
Context `{I : !Calm options store R}.
Lemma steps_client_device_id : steps R (client_device_id options store).
Proof using I. apply steps_noexcept, steps_device_id, _. Qed.
Hint Resolve steps_client_device_id : world.
Lemma steps_check_payload attributes user : steps R (check_payload options store attributes user).
Proof using I. unfold check_payload. walk. Qed.
Lemma steps_event_payload event : steps R (event_payload options store event).
Proof using I. unfold event_payload, system_time. walk. Qed.
End Saying.
Hint Resolve steps_client_device_id steps_event_payload : world.

Section Asking.
Context `{I : !Serves options store R}.
Lemma steps_post_json path operation payload : steps R (post_json options store path operation payload).
Proof using I. unfold post_json. walk. Qed.
Hint Resolve steps_post_json : world.
Lemma steps_heartbeat version attributes user :
  steps R (report_heartbeat options store version attributes user).
Proof using I. unfold report_heartbeat. walk. Qed.
Lemma steps_event_named event : steps R (event_named event).
Proof using I. unfold event_named. walk. Qed.
Hint Resolve steps_event_named : world.
Lemma steps_report_event event : steps R (report_event options store event).
Proof using I. unfold report_event. walk. Qed.
Lemma steps_events_array events : steps R (events_array options store events).
Proof using I. induction events; cbn [events_array]; walk. Qed.
Hint Resolve steps_events_array : world.
Lemma steps_report_events events : steps R (report_events options store events).
Proof using I. unfold report_events. walk. Qed.
Lemma steps_submit_feedback request : steps R (submit_feedback options store request).
Proof using I. unfold submit_feedback. walk. Qed.
Lemma steps_enrollment audience : steps R (request_enrollment_ticket options store audience).
Proof using I. unfold request_enrollment_ticket. walk. Qed.
Lemma steps_within_budget : steps R (within_budget options store).
Proof using I. unfold within_budget. walk. Qed.
Hint Resolve steps_within_budget : world.
Lemma steps_authorize request : steps R (authorize_operation options store request).
Proof using I. unfold authorize_operation, host_hashes. walk. Qed.
Lemma steps_consume grant : steps R (consume_operation_authorization options store grant).
Proof using I. unfold consume_operation_authorization. walk. Qed.
Lemma steps_firmware metadata : steps R (resolve_firmware_identity options store metadata).
Proof using I. unfold resolve_firmware_identity. walk. Qed.
End Asking.
Hint Resolve steps_check_payload : world.

Context `{I : !Clients options store R}.
Lemma steps_required required : steps R (set_host_integrity_required options store required).
Proof using I. apply clients_required. Qed.
Hint Resolve steps_required : world.
Lemma steps_accept_update response : steps R (accept_update options store response).
Proof using I. unfold accept_update. walk. Qed.
Hint Resolve steps_accept_update : world.
Lemma steps_check_loop more n payload : steps R (check_loop options store more n payload).
Proof using I. revert n payload. induction more; intros n payload; cbn [check_loop]; walk. Qed.
Hint Resolve steps_check_loop : world.
Lemma steps_check_update attributes user : steps R (check_update options store attributes user).
Proof using I. unfold check_update. walk. Qed.
End ClientSteps.

#[export] Hint Resolve steps_client_device_id steps_post_json steps_heartbeat steps_report_event
  steps_report_events steps_submit_feedback steps_enrollment steps_authorize steps_consume
  steps_firmware steps_accept_update steps_check_loop steps_check_update : world.

(** ** The options that a client accepts *)

(** [find("://")] at the end of a scheme. *)
Definition has_scheme (url scheme : text) : Prop :=
  exists written rest, find_sub scheme_separator url = Some (length written) /\
    url = written ++ scheme_separator ++ rest /\ lower_ascii written = scheme.

Record acceptable_options (options : ClientOptions) : Prop := {
  ao_app : valid_uuid (app_id options) = true;
  ao_release : valid_uuid (release_id options) = true;
  ao_version : version options <> [];
  ao_root : root_trust_key_id options <> [];
  ao_scheme : has_scheme (base_url options) (&"https") \/
    (allow_insecure_http options = true /\ has_scheme (base_url options) (&"http"));
  ao_key : exists key, decode_key_material (root_trust_public_key options) = Ok key /\ zlen key = 32;
  ao_code : forall c, version_code options = Some c -> 0 <= c
}.

Lemma valid_uuid_nonempty v : valid_uuid v = true -> v <> [].
Proof. by intros H ->. Qed.

Lemma url_scheme_has url scheme : scheme <> [] -> url_scheme url = scheme <-> has_scheme url scheme.
Proof.
  intros Hs. unfold url_scheme, has_scheme. split.
  - intros <-. destruct (find_sub scheme_separator url) as [e|] eqn:Ef; [|done].
    apply find_sub_Some in Ef as Hf. destruct Hf as [Hd Hl].
    exists (take e url), (drop (e + length scheme_separator) url).
    split_and!; [by rewrite length_take_le by lia|exact Hd|done].
  - intros (written & rest & -> & -> & <-). by rewrite take_app_length.
Qed.

Lemma b64_decode_loop_throws accumulator bits value x :
  b64_decode_loop accumulator bits value = Throw x -> x = invalid_base64.
Proof.
  revert accumulator bits. induction value as [|c value IH]; intros accumulator bits; cbn; [done|].
  case_bool_decide; [done|]. destruct (b64_val c); [|by intros [= ->]].
  case_match; [|apply IH]. rewrite bind_Throw. intros [Hx|(? & _ & ?)]; [by eapply IH|done].
Qed.

Lemma hex_pairs_throws value x : hex_pairs value = Throw x -> x = invalid_hex.
Proof.
  revert value. fix IH 1. intros [|a [|b value]]; cbn; [done|by intros [= ->]|].
  unfold hex_byte. destruct (hex_val a), (hex_val b); cbn; try (by intros [= ->]).
  rewrite bind_Throw. intros [Hx|(? & _ & ?)]; [by apply (IH value)|done].
Qed.

(** Decoding a key throws nothing but configuration errors. *)
Lemma decode_key_throws value x : decode_key_material value = Throw x ->
  exists what, x = err Configuration 0 [] what.
Proof.
  unfold decode_key_material. rewrite bind_Throw. intros [Hr|([] & _ & H)].
  { apply require_Throw in Hr as [_ ->]. eauto. }
  destruct (_ && _); [|apply b64_decode_loop_throws in H as ->; unfold invalid_base64; eauto].
  unfold hex_decode in H. apply bind_Throw in H as [Hr|([] & _ & H)].
  - apply require_Throw in Hr as [_ ->]. unfold invalid_hex. eauto.
  - apply hex_pairs_throws in H as ->. unfold invalid_hex. eauto.
Qed.

(** C31: a client accepts its options exactly when they are complete and safe:
    UUIDs for application and release, a version and a root key id, a base URL
    whose scheme is https (or http when that is allowed), a root key of 32
    bytes, no negative version code; anything else is a configuration error. *)
Theorem check_options_iff options :
  (check_options options = Ok tt <-> acceptable_options options) /\
  (forall x, check_options options = Throw x -> exists what, x = err Configuration 0 [] what).
Proof.
  set (scheme := url_scheme (base_url options)).
  assert (forall key : Result Bytes, (forall x, key = Throw x -> exists what, x = err Configuration 0 [] what) ->
    let r := match key with
      | Ok key => require (zlen key =? 32) (invalid_options (&"root_trust_public_key is invalid"))
      | Throw (Swm _) => Throw (invalid_options (&"root_trust_public_key is invalid"))
      | Throw x => Throw x
      end in
    (r = Ok tt <-> exists k, key = Ok k /\ zlen k = 32) /\
    (forall x, r = Throw x -> exists what, x = err Configuration 0 [] what)) as Hkey.
  { intros [k|x] Hx; cbn.
    - rewrite require_Ok, Z.eqb_eq. split; [naive_solver|].
      intros x [_ ->]%require_Throw. unfold invalid_options. eauto.
    - destruct (Hx x eq_refl) as [what ->]. split; [naive_solver|]. intros x [= <-].
      unfold invalid_options. eauto. }
  destruct (Hkey (decode_key_material (root_trust_public_key options))) as [Hk Hkx];
    [apply decode_key_throws|]. clear Hkey. cbv zeta in Hk, Hkx.
  split.
  - unfold check_options. fold scheme. rewrite !require_then, bind_unit_Ok, require_Ok, Hk.
    rewrite !negb_true_iff, !orb_false_iff, !andb_true_iff, !bool_decide_eq_false.
    rewrite andb_false_iff, !negb_false_iff, andb_true_iff, !bool_decide_eq_true.
    unfold scheme. split.
    + intros (((((_ & _) & Hv) & Hr) & _) & [Ha Hrel] & _ & [_ Hs] & Hkey & Hc). split; try done.
      * destruct Hs as [Hs|[Hallow Hs]]; [left|right; split; [done|]]; by apply url_scheme_has.
      * intros c Hvc. rewrite Hvc in Hc. by apply Z.leb_le.
    + intros [Ha Hrel Hv Hr Hs Hkey Hc].
      assert (url_scheme (base_url options) = &"https" \/
        allow_insecure_http options = true /\ url_scheme (base_url options) = &"http") as Hs'
        by (destruct Hs as [Hs|[? Hs]]; apply url_scheme_has in Hs; auto).
      assert (base_url options <> []) as Hb.
      { intros Hb. rewrite Hb in Hs'. by destruct Hs' as [?|[_ ?]]. }
      assert (root_trust_public_key options <> []) as Hpk.
      { intros Hpk. rewrite Hpk in Hkey. by destruct Hkey as (? & ? & _). }
      split_and!; try done; try (by apply valid_uuid_nonempty).
      * by destruct Hs' as [->|[_ ->]].
      * destruct (version_code options) as [c|]; [|done]. apply Z.leb_le. auto.
  - intros x. unfold check_options. fold scheme. 
    assert (forall what, exists w, invalid_options what = err Configuration 0 [] w) as Hi by eauto.
    repeat (rewrite bind_Throw; intros [Hr|([] & _ & Hr)]; [first [apply require_Throw in Hr as [_ ->]; done
      | by apply Hkx]|revert Hr]).
    intros [_ ->]%require_Throw. eauto.
Qed.

(** ** What is not sent *)

Section Unsent.
Context `{C : Crypto} `{J : JsonLib} `{E : Env}.
Context (options : ClientOptions) (store : StateStore).

Lemma noexcept_throws {A} (m : M A) x w w' : m w = (Throw x, w') ->
  noexcept m w = (Throw terminate, w').
Proof. intros H. unfold noexcept, try_catch. by rewrite H. Qed.

(** C29: once the offline budget is spent, no operation is authorized and no
    grant consumed: both throw the offline error, whatever the request or the
    grant, and nothing goes to the service. *)
Theorem offline_lock_blocks w w1 : offline_locked options store w = (Ok true, w1) ->
  (forall request, authorize_operation options store request w = (Throw offline_exceeded, w1)) /\
  (forall grant, consume_operation_authorization options store grant w = (Throw offline_exceeded, w1)) /\
  w_sent w1 = w_sent w.
Proof.
  intros H.
  assert (within_budget options store w = (Throw offline_exceeded, w1)) as Hb.
  { unfold within_budget. by rewrite (run_ok_bind _ _ _ _ _ H). }
  split_and!.
  - intros request. unfold authorize_operation. by rewrite run_bind, Hb.
  - intros grant. unfold consume_operation_authorization. by rewrite run_bind, Hb.
  - assert (steps (keeps w_sent) (offline_locked options store)) as Hs. { unfold offline_locked. walk. }
    specialize (Hs w). by rewrite H in Hs.
Qed.

(** An identity that cannot be loaded ends the process: the accessors of
    the client are [noexcept], so that an update check, a heartbeat, an event and
    feedback meet [std::terminate] where the identity's error was thrown,
    instead of throwing it. *)
Theorem identity_failure_terminates w x w1 : device_id options store w = (Throw x, w1) ->
  (forall attributes user_id, check_update options store attributes user_id w = (Throw terminate, w1)) /\
  (forall v attributes user_id,
     report_heartbeat options store v attributes user_id w = (Throw terminate, w1)) /\
  (forall event, trim_ascii (event_name event) <> [] ->
     report_event options store event w = (Throw terminate, w1)) /\
  (forall request, submit_feedback options store request w = (Throw terminate, w1)).
Proof.
  intros H. apply noexcept_throws in H. fold (client_device_id options store) in H.
  split_and!.
  - intros attributes user_id. unfold check_update, check_payload. by rewrite !run_bind, H.
  - intros v attributes user_id. unfold report_heartbeat. by rewrite run_bind, H.
  - intros event Hn. unfold report_event, event_named.
    rewrite run_ensure_bind by by rewrite bool_decide_false. unfold event_payload.
    by rewrite !run_bind, H.
  - intros request. unfold submit_feedback. by rewrite run_bind, H.
Qed.

(** When host integrity is required, a heartbeat needs evidence that did
    not fail: with failed evidence it throws the evidence's failure, and
    nothing goes to the service. *)
Theorem failed_evidence_blocks_heartbeat v attributes user_id w device w1 e w2 :
  client_device_id options store w = (Ok device, w1) ->
  p_host_integrity_required (w_pipe w1) = true ->
  evidence options w1 = (Ok (Some e), w2) -> ie_state e = &"failed" ->
  report_heartbeat options store v attributes user_id w =
    (Throw (err Integrity 0 (ie_failure_code e) (&"host integrity validation failed")), w2) /\
  w_sent w2 = w_sent w.
Proof.
  intros Hd Hr He Hs. split.
  - unfold report_heartbeat. rewrite (run_ok_bind _ _ _ _ _ Hd). rewrite run_bind. cbn [get_pipe].
    cbv iota beta. rewrite Hr. unfold required_evidence. rewrite run_bind, run_bind, He.
    by rewrite bool_decide_true.
  - pose proof (steps_evidence (keeps w_sent) options w1) as H2. rewrite He in H2.
    assert (steps (keeps w_sent) (client_device_id options store)) as H1.
    { apply steps_noexcept; [apply _|]. unfold device_id. walk. }
    specialize (H1 w). rewrite Hd in H1. unfold keeps in *. cbn in *. congruence.
Qed.
End Unsent.
