(* ===== verification/Debug.v ===== *)
(** * Debug requests ([src/client.cpp])

    Creating and cancelling a debug request, with the credentials the client
    keeps for it, and watching it until it is decided. *)
From S2P Require Import Prelude StdString Errors Codec Json Types Payloads Crypto Sse.
From S2P Require Import Clock Keyring World Http SseStream StateStore Identity Policy Pipeline Send.
From S2P Require Import Web Client.

(** [Client::Impl::debug_credentials], by request id. *)
Definition DebugCredentials : Type := gmap text Json.

(** What a runner makes known through its callbacks. *)
Definition Callback (A : Type) : Type := option (nat -> A -> Result unit).

(** A call of a callback, and whether it was made. *)
Definition call_back `{E : Env} {A} (f : Callback A) (a : A) : M unit :=
  match f with
  | None => mret tt
  | Some f => r ← call (fun n _ => f n a); lift r
  end.
Definition called {A} (f : Callback A) (a : A) : list A :=
  match f with None => [] | Some _ => [a] end.

Section Debug.
Context `{C : Crypto} `{J : JsonLib} `{E : Env}.
Context (options : ClientOptions) (store : StateStore).

(** Five minutes, and five seconds for the clocks. *)
Definition debug_lifetime : Z := 5 * 60 + 5.

Definition web_post (path : text) (body : Bytes) (include_dpop : bool) (credentials : option Json)
    (watch_token : text) : M ProtocolResponse :=
  response ← send_web options store (&"POST") path body DebugProtocol include_dpop credentials
               watch_token [];
  _ ← lift (throw_if_error response);
  mret response.

(** The client id, secret and expiry that the enrollment answers with, and the
    credentials they make at time [now]. *)
Definition enrolled_fields (body : Json) : Result (text * text * Z) :=
  client_id ← json_get_string body (&"client_id") true;
  client_secret ← json_get_string body (&"client_secret") true;
  expires ← json_get_int64 body (&"expires_at") 0;
  Ok (client_id, client_secret, expires).

Definition debug_credentials_of (fields : text * text * Z) (session_id : text) (now : Z) :
    Result Json :=
  let '(client_id, client_secret, expires) := fields in
  if bool_decide (client_id = []) || bool_decide (client_secret = []) || (expires <=? now) ||
     (now + debug_lifetime <? expires)
  then Throw (err Protocol 0 [] (&"debug enrollment response is invalid"))
  else Ok (json_object [(&"client_id", JString client_id);
                        (&"client_secret", JString client_secret);
                        (&"session_id", JString session_id)]).

Definition debug_ticket_of (created : Json) (now : Z) : Result DebugRequestTicket :=
  request_id ← json_get_string created (&"request_id") true;
  watch_token ← json_get_string created (&"watch_token") true;
  expires_at ← json_get_int64 created (&"expires_at") 0;
  if bool_decide (request_id = []) || bool_decide (watch_token = []) || (expires_at <=? now) ||
     (now + debug_lifetime <? expires_at)
  then Throw (err Protocol 0 [] (&"debug create response is invalid"))
  else Ok {| dr_request_id := request_id; dr_watch_token := watch_token; dr_expires_at := expires_at |}.

Definition create_debug_request (known : DebugCredentials) (note : text) :
    M (DebugRequestTicket * DebugCredentials) :=
  _ ← ensure (negb ((zlen note <? 2) || (200 <? zlen note)))
        (err Configuration 0 [] (&"debug note must contain 2 to 200 characters"));
  enrollment ← request_enrollment_ticket options store (&"debug");
  random ← random_bytes 32;
  let session_id := base64url_encode random in
  device ← client_device_id options store;
  body ← lift (json_body (json_object
    [(&"ticket", JString (et_ticket enrollment)); (&"app_id", JString (app_id options));
     (&"release_id", JString (release_id options)); (&"session_id", JString session_id);
     (&"pcid", JString device); (&"app_version", JString (version options))]));
  response ← web_post (&"/api/v1/client/debug-enroll") body false None [];
  enrolled ← lift (parse_body response (&"debug enrollment response"));
  fields ← lift (enrolled_fields enrolled);
  now ← now_seconds_m;
  credentials ← lift (debug_credentials_of fields session_id now);
  device ← client_device_id options store;
  body ← lift (json_body (json_object
    [(&"session_id", JString session_id); (&"pcid", JString device);
     (&"app_version", JString (version options)); (&"note", JString note)]));
  response ← web_post (&"/api/v1/client/debug-requests") body true (Some credentials) [];
  created ← lift (parse_body response (&"debug create response"));
  ticket ← lift (debug_ticket_of created now);
  mret (ticket, <[dr_request_id ticket := credentials]> known).

Definition credentials_unavailable : Exn :=
  err Configuration 0 [] (&"debug request credentials are unavailable").

Definition cancel_debug_request (known : DebugCredentials) (ticket : DebugRequestTicket) :
    M DebugCredentials :=
  credentials ← lift (of_option (known !! dr_request_id ticket) credentials_unavailable);
  _ ← web_post (&"/api/v1/client/debug-requests/" ++ dr_request_id ticket ++ &"/cancel") [] true
        (Some credentials) (dr_watch_token ticket);
  mret (delete (dr_request_id ticket) known).

(** ** Watching a debug request *)

Definition final_state (state : text) : bool :=
  bool_decide (state ∈ [&"approved"; &"rejected"; &"cancelled"]).

(** The decision in verified data. *)
Definition debug_decision (ticket : DebugRequestTicket) (expected_hash : text) (data : Json) :
    Result DebugDecisionEvent :=
  version ← json_get_string data (&"version") true;
  request_id ← json_get_string data (&"request_id") true;
  session_hash ← json_get_string data (&"session_id_hash") true;
  state ← json_get_string data (&"status") true;
  reason ← optional_string data (&"reason");
  expires ← json_get_int64 data (&"expires_at") 0;
  if negb (bool_decide (version = &"debug_decision_v1")) ||
     negb (bool_decide (request_id = dr_request_id ticket)) ||
     negb (bool_decide (lower_ascii session_hash = expected_hash)) ||
     (negb (bool_decide (state = &"pending")) && negb (final_state state)) || (expires <=? 0)
  then Throw (err Protocol 0 [] (&"debug decision payload is invalid"))
  else Ok {| dd_state := state; dd_reason := reason;
             authorization_expires_at := if bool_decide (state = &"approved") then expires else 0 |}.

(** What a message of a verified stream is taken for. *)
Definition stream_response (data nonce : text) : ProtocolResponse := mkResponse 200 data nonce [].

(** How a turn of the loop ends. *)
Inductive Turn := TurnMore (r : StreamReader) | TurnDone.

(** A turn of the loop, with the decisions it hands to the callback, and
    whether the runner ends. *)
Definition debug_turn (ticket : DebugRequestTicket) (expected_hash nonce : text)
    (on_decision : Callback DebugDecisionEvent) (r : StreamReader) :
    M (list DebugDecisionEvent * (Turn + Exn)) :=
  read ← attempt (next_stream_event r);
  match read with
  | inr x => mret ([], inr x)
  | inl (None, _) => mret ([], inr (err Network 0 [] (&"debug stream closed")))
  | inl (Some message, r) =>
      if bool_decide (name message ∈ [&"authz_expired"; &"authz-expired"]) then
        mret ([], inr (err Session 401 (&"authz_session_expired")
                         (&"debug stream authorization expired")))
      else if negb (bool_decide (name message ∈ [&"debug-request-state"; &"debug_request_state"]))
      then mret ([], inl (TurnMore r))
      else
        checked ← attempt
          (data ← verify_authz options store (stream_response (data message) nonce);
           lift (debug_decision ticket expected_hash data));
        match checked with
        | inr x => mret ([], inr x)
        | inl decision =>
            answer ← attempt (call_back on_decision decision);
            mret (called on_decision decision,
                  match answer with
                  | inr x => inr x
                  | inl _ => inl (if final_state (dd_state decision) then TurnDone else TurnMore r)
                  end)
        end
  end.

(** The loop: what it delivered, and how it ended; every turn but the last
    consumes a message.  [None] is a run out of fuel, which
    [stream_loops_finish] excludes. *)
Fixpoint debug_loop (fuel : nat) (ticket : DebugRequestTicket) (expected_hash nonce : text)
    (on_decision : Callback DebugDecisionEvent) (r : StreamReader) :
    M (list DebugDecisionEvent * option (bool + Exn)) :=
  match fuel with
  | O => mret ([], None)
  | S f =>
      stop ← stop_requested;
      if (stop : bool) then mret ([], Some (inl false))
      else
        turn ← debug_turn ticket expected_hash nonce on_decision r;
        let '(delivered, next) := turn in
        match next with
        | inr x => mret (delivered, Some (inr x))
        | inl TurnDone => mret (delivered, Some (inl true))
        | inl (TurnMore r) =>
            rest ← debug_loop f ticket expected_hash nonce on_decision r;
            mret (delivered ++ rest.1, rest.2)
        end
  end.

Definition open_debug_stream (ticket : DebugRequestTicket) (credentials : Json) :
    M (ResponseStream * text * text) :=
  let path := &"/api/v1/client/debug-requests/" ++ dr_request_id ticket ++ &"/events" in
  opened ← open_web_stream options store path (dr_request_id ticket) credentials
             (dr_watch_token ticket);
  let '(s, nonce) := opened in
  _ ← ensure (negb ((st_status_code s <? 200) || (300 <=? st_status_code s)))
        (err Api (st_status_code s) [] (&"debug stream was rejected"));
  session_id ← lift (json_get_string credentials (&"session_id") true);
  mret (s, nonce, sha256_hex session_id).

(** The runner: the decisions delivered, the error reported, and the
    credentials that remain.  An exception that is not an [Error] ends it
    without a report. *)
Definition run_debug_watch (known : DebugCredentials) (ticket : DebugRequestTicket)
    (credentials : Json) (on_decision : Callback DebugDecisionEvent) :
    M (list DebugDecisionEvent * option Error * DebugCredentials) :=
  opened ← attempt (open_debug_stream ticket credentials);
  let failed x := match x with Swm e => Some e | StdExn _ => None end in
  match opened with
  | inr x => mret ([], failed x, known)
  | inl (s, nonce, expected_hash) =>
      let reader := mkStreamReader [] s in
      ended ← debug_loop (S (stream_size reader)) ticket expected_hash nonce on_decision reader;
      mret (ended.1,
            match ended.2 with Some (inr x) => failed x | _ => None end,
            match ended.2 with
            | Some (inl true) => delete (dr_request_id ticket) known
            | _ => known
            end)
  end.

Definition watch_debug_request (known : DebugCredentials) (ticket : DebugRequestTicket)
    (on_decision : Callback DebugDecisionEvent) :
    M (list DebugDecisionEvent * option Error * DebugCredentials) :=
  credentials ← lift (of_option (known !! dr_request_id ticket) credentials_unavailable);
  run_debug_watch known ticket credentials on_decision.

End Debug.

(** * Lemmas *)

Section CallbackSteps.
Context `{E : Env} (R : relation World) `{!Frame R}.
Lemma steps_call_back {A} (f : Callback A) a : steps R (call_back f a).
Proof using Frame0. unfold call_back. walk. Qed.
End CallbackSteps.
#[export] Hint Resolve steps_call_back : world.

Section DebugSteps.
Context `{C : Crypto} `{J : JsonLib} `{E : Env} (R : relation World).
Context (options : ClientOptions) (store : StateStore) `{I : !Serves options store R}.

Lemma steps_web_post path body dpop credentials token :
  steps R (web_post options store path body dpop credentials token).
Proof using I. unfold web_post. walk. Qed.
Hint Resolve steps_web_post : world.
Lemma steps_create_debug known note : steps R (create_debug_request options store known note).
Proof using I. unfold create_debug_request. walk. Qed.
Lemma steps_cancel_debug known ticket : steps R (cancel_debug_request options store known ticket).
Proof using I. unfold cancel_debug_request. walk. Qed.
Lemma steps_debug_turn ticket hash nonce f r : steps R (debug_turn options store ticket hash nonce f r).
Proof using I. unfold debug_turn. repeat (walk; try (apply steps_attempt; [apply _|])). Qed.
Hint Resolve steps_debug_turn : world.
Lemma steps_debug_loop fuel ticket hash nonce f r :
  steps R (debug_loop options store fuel ticket hash nonce f r).
Proof using I. revert r. induction fuel; intros r; cbn [debug_loop]; unfold stop_requested; walk. Qed.
Hint Resolve steps_debug_loop : world.
Lemma steps_watch_debug known ticket f : steps R (watch_debug_request options store known ticket f).
Proof using I.
  unfold watch_debug_request, run_debug_watch, open_debug_stream.
  repeat (walk; try (apply steps_attempt; [apply _|])).
Qed.
End DebugSteps.
#[export] Hint Resolve steps_create_debug steps_cancel_debug steps_watch_debug : world.

(** ** The loop ends *)

Section DebugEnds.
Context `{C : Crypto} `{J : JsonLib} `{E : Env} (options : ClientOptions) (store : StateStore).
Context (ticket : DebugRequestTicket) (hash nonce : text) (f : Callback DebugDecisionEvent).

Lemma returns_debug_turn r : returns (debug_turn options store ticket hash nonce f r).
Proof. unfold debug_turn. returning. Qed.

Lemma debug_turn_shrinks r w told r' w' :
  debug_turn options store ticket hash nonce f r w = (Ok (told, inl (TurnMore r')), w') ->
  (stream_size r' < stream_size r)%nat.
Proof.
  unfold debug_turn. intros H. apply run_bind_Ok in H as (read & w1 & Hr & H).
  destruct read as [[[message|] r1]|x]; [|by rewrite run_ret in H..].
  apply attempt_inl, next_stream_event_shrinks in Hr.
  destruct (bool_decide _); [by rewrite run_ret in H|].
  destruct (negb _); [rewrite run_ret in H; by injection H as _ <- _|].
  apply run_bind_Ok in H as (checked & w2 & _ & H). destruct checked as [d|x]; [|by rewrite run_ret in H].
  apply run_bind_Ok in H as (answer & w3 & _ & H). rewrite run_ret in H.
  destruct answer, (final_state (dd_state d)); try done. by injection H as _ <- _.
Qed.

Lemma debug_loop_finishes fuel : forall r w, (stream_size r < fuel)%nat ->
  exists told ended w',
    debug_loop options store fuel ticket hash nonce f r w = (Ok (told, Some ended), w').
Proof.
  induction fuel as [|fuel IH]; intros r w Hf; [lia|]. cbn [debug_loop].
  rewrite run_bind, stop_requested_run. cbn. destruct (_ || _); [rewrite run_ret; eauto|].
  match goal with |- context [advance ?n ?v] => set (w1 := advance n v) end.
  destruct (returns_debug_turn r w1) as ([told next] & w2 & Ht).
  rewrite (run_ok_bind _ _ _ _ _ Ht). destruct next as [[r'|]|x]; [|rewrite run_ret; eauto..].
  apply debug_turn_shrinks in Ht. destruct (IH r' w2 ltac:(lia)) as (told' & ended & w3 & H).
  rewrite (run_ok_bind _ _ _ _ _ H), run_ret. eauto.
Qed.
End DebugEnds.
