(* ===== verification/Watch.v ===== *)
(** * Watching for updates ([Client::watch_updates], [UpdateStream])

    The runner of an update stream as a state machine: it connects, reads and
    verifies messages, hands events to the callbacks, and reconnects with a
    growing delay.  The owner of the stream may stop it between any two of its
    steps, and [env_stop] during one. *)
From S2P Require Import Prelude StdString Errors Codec Json Types Payloads Crypto Sse.
From S2P Require Import Clock Keyring World Http SseStream StateStore Identity Policy Pipeline Send.
From S2P Require Import Web Client Debug MiniEnv.


(** ** The delay between two connections *)

Definition base_delay (options : UpdateStreamOptions) (attempt : Z) : Z :=
  Z.min (reconnect_max_backoff options)
    (reconnect_backoff options * i32 (Z.shiftl 1 (Z.min attempt 4))).

(** The modulus is 0 when half the delay is a multiple of 2^32 milliseconds. *)
Definition jitter_modulus (delay : Z) : Z := u32 (Z.max 1 (Z.quot delay 2)).

(** [None]: the remainder by 0, which is undefined in the code and ends the
    process on the processors of Windows. *)
Definition jitter_of (random : Bytes) (delay : Z) : option Z :=
  match random with
  | [hi; lo] =>
      if jitter_modulus delay =? 0 then None
      else Some (Z.lor (Z.shiftl (zb hi) 8) (zb lo) mod jitter_modulus delay)
  | _ => Some 0
  end.

(** What callbacks are told. *)
Inductive Delivery :=
  | DEvent (e : UpdateEvent)
  | DControl (e : UpdateEvent)
  | DError (e : Error).

Record WatchCallbacks := {
  on_event : Callback UpdateEvent;
  on_error : Callback Error;
  on_control : Callback UpdateEvent
}.

(** Where the runner is: before a connection, with a stream open, or at its
    end, which is normal or that of the process. *)
Inductive Runner :=
  | Connecting (attempt : Z)
  | Reading (attempt : Z) (nonce : text) (verified : bool) (r : StreamReader)
  | Finished
  | Terminated.

Definition control_event (event_type : text) : bool :=
  bool_decide (event_type ∈
    [&"device_shutdown"; &"maintenance_scheduled"; &"maintenance_cancelled"]).

Section Watch.
Context `{C : Crypto} `{J : JsonLib} `{E : Env}.
Context (options : ClientOptions) (store : StateStore).
Context (stream_options : UpdateStreamOptions) (callbacks : WatchCallbacks).

(** [sleep_for_stream_backoff]: whether the stop came; every turn but the last
    two sleeps 100 ms. *)
Fixpoint backoff_loop (fuel : nat) (deadline : Z) : M bool :=
  match fuel with
  | O => throw (StdExn (&"unreachable"))
  | S f =>
      stop ← stop_requested;
      if (stop : bool) then mret true
      else
        now ← tick_ms;
        if deadline <=? now then mret false
        else _ ← sleep_for (Z.min (deadline - now) 100); backoff_loop f deadline
  end.

Definition backoff_fuel (delay : Z) : nat := S (S (Z.to_nat (delay / 100))).

Definition sleep_for_stream_backoff (delay : Z) : M bool :=
  now ← tick_ms; backoff_loop (backoff_fuel delay) (now + delay).

(** ** Connecting *)

Definition stream_url_for (device : text) : text :=
  let current := or_default (current_version stream_options) (version options) in
  let code := match uso_version_code stream_options with
              | Some c => c
              | None => default 0 (version_code options)
              end in
  strip_slashes (base_url options) ++ &"/api/client/updates/stream?" ++
  &"device_id=" ++ url_escape device ++ &"&channel_code=" ++ url_escape (channel options) ++
  &"&platform=" ++ url_escape (platform options) ++ &"&arch=" ++ url_escape (client_arch options) ++
  &"&current_version=" ++ url_escape current ++ &"&version_code=" ++ to_string code.

Definition stream_url : M text :=
  device ← client_device_id options store; mret (stream_url_for device).

Definition connect : M (StreamReader * text) :=
  url ← stream_url;
  opened ← open_update_stream options store url;
  let '(s, nonce) := opened in
  _ ← ensure (negb ((st_status_code s <? 200) || (300 <=? st_status_code s)))
        (err Api (st_status_code s) [] (&"update stream was rejected"));
  mret (mkStreamReader [] s, nonce).

(** ** A message *)

Definition update_event (message : ParsedSseEvent) (data : Json) : Result UpdateEvent :=
  e ← event_from_json data;
  Ok {| ue_id := or_default (ue_id e) (id message);
        ue_event_type := or_default (ue_event_type e) (name message);
        ue_org_id := ue_org_id e; ue_app_id := ue_app_id e; ue_device_id := ue_device_id e;
        ue_channel_code := ue_channel_code e; ue_platform := ue_platform e; ue_arch := ue_arch e;
        ue_release_id := ue_release_id e; ue_published_at := ue_published_at e;
        ue_reason := ue_reason e; ue_message := ue_message e;
        ue_maintenance_start_at := ue_maintenance_start_at e |}.

(** The callbacks of an event: what they are told, and what they throw. *)
Definition hand_over (e : UpdateEvent) : M (list Delivery * option Exn) :=
  control ← (if control_event (ue_event_type e)
             then answer ← attempt (call_back (on_control callbacks) e);
                  mret (DControl <$> called (on_control callbacks) e, answer)
             else mret ([], inl tt));
  match control with
  | (told, inr x) => mret (told, Some x)
  | (told, inl _) =>
      answer ← attempt (call_back (on_event callbacks) e);
      mret (told ++ (DEvent <$> called (on_event callbacks) e),
            match answer with inr x => Some x | inl _ => None end)
  end.

(** What the runner does with a message: whether the stream is verified after
    it, what was delivered, and what was thrown. *)
Definition take_message (nonce : text) (verified : bool) (message : ParsedSseEvent) :
    M (bool * list Delivery * option Exn) :=
  if bool_decide (name message = []) || bool_decide (data message = []) then mret (verified, [], None)
  else if bool_decide (name message = &"authz") then
    checked ← attempt (verify_authz options store (stream_response (data message) nonce));
    mret match checked with inl _ => (true, [], None) | inr x => (verified, [], Some x) end
  else if bool_decide (name message = &"authz_expired") then
    mret (verified, [], Some (err Session 401 (&"authz_session_expired")
                                (&"update stream authorization expired")))
  else if negb verified || bool_decide (name message = &"connected") then mret (verified, [], None)
  else
    checked ← attempt
      (data ← verify_authz options store (stream_response (data message) nonce);
       lift (update_event message data));
    match checked with
    | inr x => mret (verified, [], Some x)
    | inl e => handed ← hand_over e; mret (verified, handed.1, handed.2)
    end.

(** ** The handlers of the runner's exceptions *)

Definition ends_stream (k : ErrorKind) : bool :=
  bool_decide (k ∈ [Session; Unauthorized; DeviceBlocked; Integrity]).

(** Whether to give the stream up after an error: the tests of the code from
    left to right. *)
Definition abandons (e : Error) : M bool :=
  if negb (reconnect stream_options) then mret true
  else stop ← stop_requested; mret ((stop : bool) || ends_stream (kind e)).

(** The wait before the next connection: whether the stop came. *)
Definition wait_to_reconnect (n : Z) : M bool :=
  let delay := base_delay stream_options n in
  delay ← (if jitter stream_options
             then random ← random_bytes 2;
                  match jitter_of random delay with
                  | Some added => mret (delay + added)
                  | None => throw terminate
                  end
             else mret delay);
  sleep_for_stream_backoff delay.

(** What happens after an exception: an [Error] is reported and may lead to
    another connection, any other exception is reported and ends the runner;
    an exception in a handler ends the runner too. *)
Definition handle (n : Z) (x : Exn) : M (Runner * list Delivery) :=
  if bool_decide (x = terminate) then mret (Terminated, [])
  else
    let e := match x with
             | Swm e => e
             | StdExn what => error Protocol 0 [] (&"update stream failed: " ++ what)
             end in
    let told := DError <$> called (on_error callbacks) e in
    answer ← attempt (call_back (on_error callbacks) e);
    match answer, x with
    | inr _, _ | inl _, StdExn _ => mret (Finished, told)
    | inl _, Swm _ =>
        over ← abandons e;
        if (over : bool) then mret (Finished, told)
        else
          waited ← attempt (wait_to_reconnect n);
          mret (match waited with
                | inl false => Connecting (n + 1)
                | inl true => Finished
                | inr x => if bool_decide (x = terminate) then Terminated else Finished
                end, told)
    end.

(** ** A step of the runner *)

Definition step (c : Runner) : M (Runner * list Delivery) :=
  match c with
  | Finished | Terminated => mret (c, [])
  | Connecting n =>
      stop ← stop_requested;
      if (stop : bool) then mret (Finished, [])
      else
        opened ← attempt connect;
        match opened with
        | inl (r, nonce) => mret (Reading 0 nonce false r, [])
        | inr x => handle n x
        end
  | Reading n nonce verified r =>
      stop ← stop_requested;
      if (stop : bool) then mret (Finished, [])
      else
        read ← attempt (next_stream_event r);
        match read with
        | inr x => handle n x
        | inl (None, _) => handle n (err Network 0 [] (&"update stream closed"))
        | inl (Some message, r) =>
            taken ← take_message nonce verified message;
            let '(verified, told, thrown) := taken in
            match thrown with
            | None => mret (Reading n nonce verified r, told)
            | Some x => next ← handle n x; mret (next.1, told ++ next.2)
            end
        end
  end.

(** ** [UpdateStream]: the runner in its thread, and the flag that the owner sees *)

Record WatchedStream := mkWatched { ws_runner : Runner; ws_running : bool }.

Definition start_stream : WatchedStream := mkWatched (Connecting 0) true.

(** The [State] of the thread clears the flag when the runner ends. *)
Definition stream_turn (s : WatchedStream) : M (WatchedStream * list Delivery) :=
  next ← step (ws_runner s);
  mret (mkWatched next.1 (ws_running s && match next.1 with Finished => false | _ => true end),
        next.2).

(** [UpdateStream::stop] asks the thread to stop and clears the flag at once. *)
Definition stop_stream (s : WatchedStream) : M WatchedStream :=
  _ ← modify request_stop; mret (mkWatched (ws_runner s) false).

End Watch.

(** * Lemmas *)

Section HandlerSteps.
Context `{E : Env} (R : relation World) `{I : !Frame R}.
Context (stream_options : UpdateStreamOptions) (callbacks : WatchCallbacks).

Lemma steps_wait n : steps R (wait_to_reconnect stream_options n).
Proof using I.
  assert (forall fuel deadline, steps R (backoff_loop fuel deadline)).
  { induction fuel; intros deadline; cbn [backoff_loop]; unfold stop_requested; walk. }
  unfold wait_to_reconnect, sleep_for_stream_backoff. walk.
Qed.
Hint Resolve steps_wait : world.
Lemma steps_handle n x : steps R (handle stream_options callbacks n x).
Proof using I. unfold handle, abandons, stop_requested. walk. Qed.
Lemma steps_hand_over e : steps R (hand_over callbacks e).
Proof using I. unfold hand_over. walk. Qed.
End HandlerSteps.
#[export] Hint Resolve steps_handle steps_hand_over : world.

Section WatchSteps.
Context `{C : Crypto} `{J : JsonLib} `{E : Env} (R : relation World).
Context (options : ClientOptions) (store : StateStore) `{I : !Serves options store R}.
Context (stream_options : UpdateStreamOptions) (callbacks : WatchCallbacks).

Lemma steps_connect : steps R (connect options store stream_options).
Proof using I. unfold connect, stream_url. walk. Qed.
Hint Resolve steps_connect : world.
Lemma steps_take_message nonce verified message :
  steps R (take_message options store callbacks nonce verified message).
Proof using I. unfold take_message. repeat (walk; try (apply steps_attempt; [apply _|])). Qed.
Hint Resolve steps_take_message : world.
Lemma steps_step c : steps R (step options store stream_options callbacks c).
Proof using I. unfold step, stop_requested. walk. Qed.
End WatchSteps.
#[export] Hint Resolve steps_connect steps_take_message steps_step : world.

(** ** Waiting *)

Section Waiting.
Context `{C : Crypto} `{J : JsonLib} `{E : Env}.

(** The loop ends: with the stop, or when the deadline is reached. *)
Lemma backoff_loop_run fuel deadline w :
  (1 <= fuel)%nat -> deadline - w_tick w <= 100 * (Z.of_nat fuel - 1) ->
  exists stopped w', backoff_loop fuel deadline w = (Ok stopped, w') /\ idle_to w w' /\
    if stopped then w_stopped w' = true else deadline <= w_tick w'.
Proof.
  revert w. induction fuel as [|f IH]; intros w Hf Hd; [lia|]. cbn [backoff_loop].
  rewrite run_bind, stop_requested_run. set (w1 := advance 0 w).
  assert (idle_to w w1) as H1 by apply frame_advance.
  destruct (w_stopped w || env_stop (w_step w)) eqn:Es.
  { exists true, w1. by split_and!. }
  rewrite run_bind. change (tick_ms w1) with (Ok (w_tick w1), advance 0 w1). set (w2 := advance 0 w1).
  assert (idle_to w w2) as H2 by (etrans; [exact H1|apply frame_advance]).
  pose proof (gt_tick _ _ (idle_grows _ _ H1)) as Ht1.
  assert (w_tick w1 <= w_tick w2) as Ht2 by apply (frame_advance (R := grows_to) 0 w1).
  cbv iota beta. destruct (deadline <=? w_tick w1) eqn:Ed; breflect.
  { exists false, w2. split; [done|]. split; [done|]. change (deadline <= w_tick w2); lia. }
  rewrite run_bind. change (sleep_for ?ms w2) with (Ok tt, advance ms w2).
  set (ms := Z.min _ 100). set (w3 := advance ms w2).
  assert (w_tick w2 + ms <= w_tick w3) as Ht3 by (cbn; lia).
  assert (idle_to w w3) as H3 by (etrans; [exact H2|apply frame_advance]).
  destruct (IH w3) as (stopped & w' & -> & Hi & Hr); [lia|lia|].
  exists stopped, w'. split; [done|]. split; [by etrans|done].
Qed.

Lemma sleep_for_stream_backoff_run delay w : exists stopped w',
  sleep_for_stream_backoff delay w = (Ok stopped, w') /\ idle_to w w' /\
  if stopped then w_stopped w' = true else w_tick w + delay <= w_tick w'.
Proof.
  unfold sleep_for_stream_backoff. rewrite run_bind.
  change (tick_ms w) with (Ok (w_tick w), advance 0 w). set (w1 := advance 0 w).
  assert (idle_to w w1) as H1 by apply frame_advance.
  pose proof (gt_tick _ _ (idle_grows _ _ H1)) as Ht.
  destruct (backoff_loop_run (backoff_fuel delay) (w_tick w + delay) w1) as (stopped & w' & H & Hi & Hr).
  - unfold backoff_fuel. lia.
  - unfold backoff_fuel. pose proof (Z.div_mod delay 100). pose proof (Z.mod_pos_bound delay 100). lia.
  - exists stopped, w'. split; [exact H|]. split; [by etrans|exact Hr].
Qed.

Lemma base_delay_bounds o n : 0 <= reconnect_backoff o -> 0 <= reconnect_max_backoff o -> 0 <= n ->
  0 <= base_delay o n <= reconnect_max_backoff o /\
  base_delay o n = Z.min (reconnect_max_backoff o) (reconnect_backoff o * 2 ^ Z.min n 4).
Proof.
  intros Hb Hm Hn. unfold base_delay.
  assert (i32 (Z.shiftl 1 (Z.min n 4)) = 2 ^ Z.min n 4) as ->.
  { assert (0 <= Z.min n 4 < 5) as Hr by lia.
    apply (range_dec (fun k => i32 (Z.shiftl 1 k) = 2 ^ k) 5); [vm_compute; reflexivity|exact Hr]. }
  split; [|done]. pose proof (Z.pow_nonneg 2 (Z.min n 4)). nia.
Qed.

Lemma jitter_bounds random delay : 0 <= delay < 2 ^ 33 -> exists added,
  jitter_of random delay = Some added /\ 0 <= added <= delay / 2.
Proof.
  intros Hd. unfold jitter_of, jitter_modulus.
  assert (0 <= delay / 2) by (apply Z.div_pos; lia).
  destruct random as [|hi [|lo [|]]]; try (eexists; split; [done|lia]).
  rewrite Z.quot_div_nonneg by lia.
  assert (delay / 2 < 2 ^ 32) by (apply Z.div_lt_upper_bound; lia).
  unfold u32. rewrite (Z.mod_small (Z.max 1 (delay / 2))) by lia.
  rewrite (proj2 (Z.eqb_neq _ _)) by lia. eexists; split; [done|].
  set (v := Z.lor _ _). pose proof (Z.mod_pos_bound v (Z.max 1 (delay / 2)) ltac:(lia)). lia.
Qed.

Lemma random_bytes_throws size w x : (random_bytes size w).1 = Throw x ->
  x = err Cryptographic 0 [] (&"random generation failed").
Proof.
  unfold random_bytes. case_bool_decide; [done|]. rewrite run_bind. unfold call. cbn [fst snd].
  destruct (env_random _ _); [done|]. by intros [= <-].
Qed.

(** The wait before the next connection.  The base delay doubles from the
    configured backoff up to its sixteenfold and never exceeds the configured
    maximum; the jitter adds at most half of it; and when the wait ends without
    a stop, at least the base delay has passed, so that a failing service is
    never asked more often. *)
Lemma wait_bounds o n w :
  0 <= reconnect_backoff o -> 0 <= reconnect_max_backoff o < 2 ^ 33 -> 0 <= n ->
  let base := base_delay o n in
  base = Z.min (reconnect_max_backoff o) (reconnect_backoff o * 2 ^ Z.min n 4) /\
  (forall random, exists added, jitter_of random base = Some added /\ 0 <= added <= base / 2) /\
  same_state w (wait_to_reconnect o n w).2 /\
  match wait_to_reconnect o n w with
  | (Ok false, w') => w_tick w + base <= w_tick w'
  | (Ok true, w') => w_stopped w' = true
  | (Throw x, _) => jitter o = true /\ x = err Cryptographic 0 [] (&"random generation failed")
  end.
Proof.
  intros Hb Hm Hn base. destruct (base_delay_bounds o n Hb ltac:(lia) Hn) as [Hr Heq].
  fold base in Hr, Heq. split; [exact Heq|].
  assert (forall random, exists added, jitter_of random base = Some added /\ 0 <= added <= base / 2) as Hj
    by (intros random; apply jitter_bounds; lia).
  split; [exact Hj|].
  unfold wait_to_reconnect. fold base. rewrite run_bind.
  destruct (jitter o).
  - rewrite run_bind. pose proof (steps_random same_state 2 w) as Hs.
    pose proof (steps_random grows_to 2 w) as Hg.
    pose proof (random_bytes_throws 2 w) as Hx.
    destruct (random_bytes 2 w) as [[random|x] w1]; [|by split; [|split; [|apply Hx]]]. cbn in Hs, Hg.
    destruct (Hj random) as (added & -> & Hadded). cbn [mret M_ret]. cbv iota beta.
    destruct (sleep_for_stream_backoff_run (base + added) w1)
      as (stopped & w' & -> & [_ Hi] & Hw). split; [cbn; by etrans|].
    destruct stopped; [done|]. pose proof (gt_tick _ _ Hg). lia.
  - rewrite run_ret. cbv iota beta.
    destruct (sleep_for_stream_backoff_run base w) as (stopped & w' & -> & [_ Hi] & Hw).
    split; [done|]. by destruct stopped.
Qed.
End Waiting.

Definition demo_stream_options : UpdateStreamOptions :=
  {| current_version := []; uso_version_code := None; reconnect := true;
     reconnect_backoff := 1500; reconnect_max_backoff := 20000; jitter := false |}.

(** ** The runner always goes on, and stops when asked *)

Section Progress.
Context `{C : Crypto} `{J : JsonLib} `{E : Env}.
Context (options : ClientOptions) (store : StateStore).
Context (stream_options : UpdateStreamOptions) (callbacks : WatchCallbacks).
Let step := step options store stream_options callbacks.

Lemma returns_handle n x : returns (handle stream_options callbacks n x).
Proof. unfold handle, abandons, stop_requested. returning. Qed.
Lemma returns_take_message nonce verified message :
  returns (take_message options store callbacks nonce verified message).
Proof. unfold take_message, hand_over. returning. Qed.
Hint Resolve returns_handle returns_take_message : returns.

Lemma returns_step c : returns (step c).
Proof. unfold step, Watch.step, stop_requested. returning. Qed.

(** Several steps, with all that is delivered. *)
Fixpoint run_steps (k : nat) (c : Runner) : M (Runner * list Delivery) :=
  match k with
  | O => mret (c, [])
  | S k => next ← step c; rest ← run_steps k next.1; mret (rest.1, next.2 ++ rest.2)
  end.

Definition reading (c : Runner) : bool := match c with Reading _ _ _ _ => true | _ => false end.

(** After the handler there is no stream. *)
Lemma handle_leaves n x w c told w' :
  handle stream_options callbacks n x w = (Ok (c, told), w') -> reading c = false.
Proof.
  unfold handle. case_bool_decide as Hx; [intros H; rewrite run_ret in H; by injection H as <- _ _|].
  intros H. apply run_bind_Ok in H as (answer & w1 & _ & H).
  destruct answer as [u|y]; [destruct x as [e|what]|].
  - apply run_bind_Ok in H as (over & w2 & _ & H). destruct over.
    + rewrite run_ret in H. by injection H as <- _ _.
    + apply run_bind_Ok in H as (waited & w3 & _ & H). rewrite run_ret in H. injection H as <- _ _.
      destruct waited as [[]|]; [done|done|by case_bool_decide].
  - rewrite run_ret in H. by injection H as <- _ _.
  - rewrite run_ret in H. by injection H as <- _ _.
Qed.

(** A step on a stream takes something from it or leaves it. *)
Lemma reading_step n nonce verified r w c told w' :
  step (Reading n nonce verified r) w = (Ok (c, told), w') ->
  match c with
  | Reading _ _ _ r' => (stream_size r' < stream_size r)%nat
  | _ => True
  end.
Proof.
  unfold step, Watch.step. intros H. apply run_bind_Ok in H as (stop & w1 & _ & H).
  destruct stop; [rewrite run_ret in H; by injection H as <- _ _|].
  apply run_bind_Ok in H as (read & w2 & Hr & H).
  destruct read as [[[message|] r']|x].
  - assert (next_stream_event r w1 = (Ok (Some message, r'), w2)) as Hn.
    { by apply attempt_inl. }
    apply next_stream_event_shrinks in Hn.
    apply run_bind_Ok in H as ([[v t] thrown] & w3 & _ & H).
    destruct thrown as [x|].
    + apply run_bind_Ok in H as ([c' t'] & w4 & Hh & H). apply handle_leaves in Hh.
      rewrite run_ret in H. injection H as <- _ _. cbn. by destruct c'.
    + rewrite run_ret in H. by injection H as <- _ _.
  - apply handle_leaves in H. by destruct c.
  - apply handle_leaves in H. by destruct c.
Qed.

Lemma run_steps_leave size : forall n nonce verified r w, (stream_size r < size)%nat ->
  exists k c told w', (k <= size)%nat /\
    run_steps k (Reading n nonce verified r) w = (Ok (c, told), w') /\ reading c = false.
Proof.
  induction size as [|size IH]; intros n nonce verified r w Hs; [lia|].
  destruct (returns_step (Reading n nonce verified r) w) as ([c told] & w1 & H).
  pose proof (reading_step _ _ _ _ _ _ _ _ H) as Hr.
  destruct c as [n'|n' nonce' verified' r'| |].
  2: { destruct (IH n' nonce' verified' r' w1 ltac:(lia)) as (k & c & told' & w2 & Hk & Hrun & Hc).
       exists (S k), c, (told ++ told'), w2. split_and!; [lia| |done]. cbn [run_steps].
       by rewrite (run_ok_bind _ _ _ _ _ H), (run_ok_bind _ _ _ _ _ Hrun). }
  all: exists 1%nat; eexists _, _, w1; split_and!; [lia| |];
    [cbn [run_steps]; rewrite (run_ok_bind _ _ _ _ _ H); reflexivity|done].
Qed.

End Progress.
