(* ===== verification/Trust.v ===== *)
(** * Everything the pipeline trusts is signed

    What a response must be to be accepted, and the invariant of the
    pipeline's state: its online keys, its clock and its session all come from
    messages with a valid signature, whatever the network, the disk and the
    operating system do. *)
From S2P Require Import Prelude StdString Errors Codec Json Types Crypto Clock Keyring World.
From S2P Require Import Http StateStore Identity Policy Pipeline Send.

Section Trust.
Context `{C : Crypto} `{J : JsonLib} `{E : Env}.
Context (options : ClientOptions) (store : StateStore).

(** A key that the root signed for this application and release. *)
Definition certified (key : ProtocolKey) : Prop :=
  exists m, ed25519_verify (root_trust_public_key options) (manifest_canonical m) (km_signature m) =
      Ok true /\
    km_purpose m = &"online_body" /\ km_app_id m = app_id options /\
    km_release_id m = release_id options /\ km_root_id m = root_trust_key_id options /\
    0 < km_issued_at m < km_refresh_after m /\
    key = mkKey (km_key_id m) (km_public_key m) (km_issued_at m) (km_refresh_after m).

(** A clock set from a time that the root signed for this application. *)
Definition clock_signed (c : ClockState) : Prop :=
  initialized c = true ->
  exists t started received,
    ed25519_verify (root_trust_public_key options) (time_canonical t) (tm_signature t) = Ok true /\
    tm_app_id t = app_id options /\ tm_release_id t = release_id options /\
    set_authoritative_time (tm_server_time t) started received = Ok c.

(** An authorization signed by a certified key, for this release. *)
Definition signed_authz (a : Authz) : Prop :=
  az_decision a = &"allow" /\ az_release a = release_id options /\
  0 < az_issued_at a < az_expires_at a /\
  exists key, certified key /\ key_id key = az_key_id a /\
    ed25519_verify (public_key key) (authz_canonical options a) (az_signature a) = Ok true.

Definition session_signed (p : Pipe) : Prop :=
  forall s, p_session p = Some s ->
  exists a, signed_authz a /\ az_session a = s /\ p_session_expires_at p = az_expires_at a.

Record trusted (w : World) : Prop := {
  tr_ring : ring_wf (p_ring (w_pipe w));
  tr_keys : Forall certified (held (p_ring (w_pipe w)));
  tr_clock : clock_signed (w_clock w);
  tr_session : session_signed (w_pipe w)
}.

(** The frame that preserves the invariant. *)
Definition keeps_trust (w w' : World) : Prop := trusted w -> trusted w'.

#[global] Instance keeps_trust_inner : Inner keeps_trust.
Proof.
  split; [split; [split; [split|]|..]|].
  - intros w H. done.
  - intros w1 w2 w3 H1 H2 H. by apply H2, H1.
  - intros extra w []. by split.
  - intros f w []. by split.
  - intros k w []. by split.
  - intros i w []. by split.
  - intros h w []. by split.
  - intros m w []. by split.
  - intros r w []. by split.
Qed.

Lemma held_find ring id key : find_key ring id = Some key -> key ∈ held ring /\ key_id key = id.
Proof. rewrite find_if_held. apply find_if_Some. Qed.

(** ** The steps that change what is trusted *)

Lemma install_certified ring key ring' : ring_wf ring -> Forall certified (held ring) ->
  certified key -> install_key ring key = Ok ring' -> ring_wf ring' /\ Forall certified (held ring').
Proof.
  intros Hwf Hall Hkey H. split; [by eapply install_key_wf|].
  rewrite (install_key_held _ _ _ Hwf H). apply Forall_take, Forall_cons. split; [done|].
  apply Forall_forall. intros k Hk. apply list_elem_of_filter in Hk as [_ Hk].
  by eapply Forall_forall in Hall.
Qed.

Lemma manifest_certified m now : manifest_acceptable options m now = true ->
  ed25519_verify (root_trust_public_key options) (manifest_canonical m) (km_signature m) = Ok true ->
  certified (mkKey (km_key_id m) (km_public_key m) (km_issued_at m) (km_refresh_after m)).
Proof. intros Ha Hv. unfold manifest_acceptable in Ha. breflect. exists m. split_and!; done. Qed.

(** What a response must be to be accepted in [w] for [device]. *)
Record authentic (response : ProtocolResponse) (device : text) (w : World) (data : Json)
    (a : Authz) (raw_data : Bytes) (key : ProtocolKey) : Prop := {
  au_status : 200 <= pr_status_code response < 300;
  au_data : exists carrier members,
    parse_json (pr_body response) (&"Authz v3 carrier") = Ok carrier /\
    json_find carrier (&"data") = Some data /\
    json_find carrier (&"authz") = Some (JObject members) /\
    authz_fields (JObject members) = Ok a;
  au_raw : extract_json_member_raw (pr_body response) (&"data") = Some raw_data;
  au_hash : lower_ascii (sha256_hex raw_data) = lower_ascii (az_data_hash a);
  au_version : az_version a = &"authz_v3";
  au_decision : az_decision a = &"allow";
  au_release : az_release a = release_id options;
  au_device : az_device a = device;
  au_nonce : az_nonce a = pr_request_nonce response;
  au_lifetime : 0 < az_issued_at a < az_expires_at a;
  au_short : i64 (az_expires_at a - az_issued_at a) <= 900;
  au_now : az_issued_at a - 120 <= now_unix_seconds (w_clock w) (w_tick w) <= az_expires_at a + 120;
  au_key : find_key (p_ring (w_pipe w)) (az_key_id a) = Some key;
  au_signature :
    ed25519_verify (public_key key) (authz_canonical options a) (az_signature a) = Ok true
}.

(** The device id that the client in [w] goes by: the one of its options, or
    that of its identity. *)
Definition goes_by (w : World) (device : text) : Prop :=
  opt_device_id options <> [] /\ device = opt_device_id options \/
  opt_device_id options = [] /\
    exists i, p_identity (w_pipe w) = Some i /\ device = id_device_id i.

Lemma device_id_goes_by w device w' : device_id options store w = (Ok device, w') -> goes_by w' device.
Proof.
  unfold device_id. case_bool_decide as Ho; cbn [negb]; intros H.
  - apply run_bind_Ok in H as (i & w1 & Hi & H). rewrite run_ret in H. injection H as <- <-.
    apply get_identity_run in Hi. right. eauto.
  - rewrite run_ret in H. injection H as <- _. by left.
Qed.

Lemma goes_by_stays w w' device : identity_stays w w' -> goes_by w device -> goes_by w' device.
Proof. intros Hi [?|(? & i & Hw & ?)]; [by left|right]. split; [done|]. exists i. auto. Qed.

Lemma device_id_ring w device w' : device_id options store w = (Ok device, w') ->
  p_ring (w_pipe w') = p_ring (w_pipe w).
Proof.
  intros H. pose proof (steps_device_id (keeps (fun w => p_ring (w_pipe w))) options store w) as Hr.
  by rewrite H in Hr.
Qed.

Lemma check_authz_sound response w data a w' :
  check_authz options store response w = (Ok (data, a), w') ->
  exists device raw_data key, device_id options store (advance 0 w) = (Ok device, w') /\
    authentic response device w data a raw_data key.
Proof.
  unfold check_authz. intros H.
  apply run_bind_Ok in H as ([] & w1 & H1 & H). apply run_lift_Ok in H1 as [H1 ->].
  apply run_bind_Ok in H as (carrier & w1 & H2 & H). apply run_lift_Ok in H2 as [H2 ->].
  destruct (json_find carrier (&"data")) as [d|] eqn:Ed; [|done].
  destruct (json_find carrier (&"authz")) as [[| | | | | | |l]|] eqn:Ea; try done.
  apply run_bind_Ok in H as (raw & w1 & H3 & H). apply run_lift_Ok in H3 as [H3 ->].
  apply run_bind_Ok in H as (a' & w1 & H4 & H). apply run_lift_Ok in H4 as [H4 ->].
  apply run_bind_Ok in H as (now & w1 & H5 & H). injection H5 as <- <-.
  apply run_bind_Ok in H as ([] & w2 & H6 & H). apply run_ensure_Ok in H6 as [H6 ->].
  apply run_bind_Ok in H as (device & w2 & H7 & H). run_ok.
  apply of_option_Ok in H3. 
  match goal with H : get_pipe _ = (Ok _, _) |- _ => injection H as <- <- end.
  match goal with
  | H : of_option (find_key _ _) _ = Ok _ |- _ =>
      apply of_option_Ok in H; rewrite (device_id_ring _ _ _ H7) in H
  end.
  unfold authz_for_release, authz_current in *. breflect.
  exists device. do 2 eexists. split; [exact H7|]. split; try done; try lia.
  - by apply throw_if_error_Ok.
  - eexists carrier, _. split_and!; eassumption.
Qed.

Lemma check_authz_complete response w data a w' device raw_data key :
  device_id options store (advance 0 w) = (Ok device, w') ->
  authentic response device w data a raw_data key ->
  check_authz options store response w = (Ok (data, a), w').
Proof.
  intros Hdev []. destruct au_data0 as (carrier & members & Hp & Hd & Ha & Hf).
  unfold check_authz.
  rewrite (run_lift_bind _ tt) by (by apply throw_if_error_Ok).
  rewrite (run_lift_bind _ carrier) by done. rewrite Hd, Ha.
  rewrite (run_lift_bind _ raw_data) by (by rewrite au_raw0).
  rewrite (run_lift_bind _ a) by done.
  erewrite run_ok_bind by reflexivity.
  rewrite run_ensure_bind; last first.
  { unfold authz_for_release. by rewrite au_version0, au_decision0, au_release0, !bool_decide_true. }
  rewrite (run_ok_bind _ _ _ _ _ Hdev).
  unfold authz_current. rewrite run_ensure_bind; last first.
  { rewrite au_nonce0, au_device0, !bool_decide_true by done.
    rewrite !andb_true_iff, ?Z.ltb_lt, ?Z.leb_le. cbn. split_and!; try done; lia. }
  rewrite run_ensure_bind by by rewrite bool_decide_true.
  erewrite run_ok_bind by reflexivity.
  rewrite (run_lift_bind _ key); last first.
  { rewrite (device_id_ring _ _ _ Hdev). change (w_pipe (advance 0 w)) with (w_pipe w).
    by rewrite au_key0. }
  rewrite (run_lift_bind _ true) by done.
  by rewrite run_ensure_bind.
Qed.

Lemma steps_latch b : steps keeps_trust (put_pipe (with_latched b)).
Proof. apply steps_modify. intros w []. by split. Qed.
Hint Resolve steps_latch : world.

Lemma trust_note : steps keeps_trust (note_verified_interaction options store).
Proof. unfold note_verified_interaction. walk. Qed.

Lemma trust_clear : steps keeps_trust clear_session.
Proof. apply steps_modify. intros w []. by split. Qed.

Lemma trust_offline : steps keeps_trust (offline_locked options store).
Proof. unfold offline_locked. walk. Qed.
Hint Resolve trust_note trust_clear trust_offline : world.

Lemma trust_time : steps keeps_trust (refresh_trusted_time options store).
Proof.
  intros w. unfold refresh_trusted_time.
  apply run_steps; [apply _|walk|]. intros started w1 _.
  apply run_steps; [apply _|walk|]. intros response w2 _.
  apply run_steps; [apply _|walk|]. intros received w3 _.
  do 2 (apply lift_steps; [apply _|]; intros ? _).
  apply lift_steps; [apply _|]. intros t _.
  apply ensure_steps; [apply _|]. intros Ht. unfold time_acceptable in Ht. breflect.
  apply lift_steps; [apply _|]. intros ok Hok.
  apply ensure_steps; [apply _|]. intros ->.
  apply lift_steps; [apply _|]. intros clock Hclock.
  rewrite run_bind. cbn. etrans; [|apply trust_note].
  intros []. split; try done. intros _. exists t, started, received. split_and!; done.
Qed.
Hint Resolve trust_time : world.

Lemma trust_keys_core : steps keeps_trust (refresh_online_keys_core options store).
Proof.
  intros w. unfold refresh_online_keys_core.
  apply run_steps; [apply _|unfold send_timed; walk|]. intros response w1 _.
  do 2 (apply lift_steps; [apply _|]; intros ? _).
  apply lift_steps; [apply _|]. intros m _.
  apply run_steps; [apply _|walk|]. intros now w2 _.
  apply ensure_steps; [apply _|]. intros Hm.
  apply lift_steps; [apply _|]. intros ok Hok.
  apply ensure_steps; [apply _|]. intros ->.
  rewrite run_bind. cbn [get_pipe].
  apply lift_steps; [apply _|]. intros ring Hring.
  intros [Hwf Hkeys Hclock Hsession].
  destruct (install_certified _ _ _ Hwf Hkeys (manifest_certified _ _ Hm Hok) Hring). by split.
Qed.
Hint Resolve trust_keys_core : world.

Lemma steps_lock fuel deadline : steps keeps_trust (lock_refresh fuel deadline).
Proof. induction fuel as [|fuel IH]; cbn [lock_refresh]; walk. Qed.
Hint Resolve steps_lock : world.

Lemma trust_keys force : steps keeps_trust (refresh_online_keys options store force).
Proof. unfold refresh_online_keys, with_clock_and_ring. walk. Qed.
Hint Resolve trust_keys : world.

Lemma trust_send request : steps keeps_trust (send options store request).
Proof. unfold send. walk. Qed.
Hint Resolve trust_send : world.

Lemma trust_check response : steps keeps_trust (check_authz options store response).
Proof. unfold check_authz. walk. Qed.

Lemma find_certified w id key : trusted w -> find_key (p_ring (w_pipe w)) id = Some key ->
  certified key /\ key_id key = id.
Proof.
  intros Hw H. destruct (held_find _ _ _ H) as [Hk Hid]. split; [|done].
  pose proof (tr_keys _ Hw) as Hall. by eapply Forall_forall in Hall.
Qed.

Lemma authentic_signed response device w data a raw key : trusted w ->
  authentic response device w data a raw key -> signed_authz a.
Proof.
  intros Hw []. destruct (find_certified _ _ _ Hw au_key0). split_and!; try done; try lia.
  exists key. done.
Qed.

Lemma trust_verify response : steps keeps_trust (verify_authz options store response).
Proof.
  intros w Hw. unfold verify_authz. rewrite run_bind.
  pose proof (trust_check response w) as Hstep.
  destruct (check_authz options store response w) as [[[data a]|x] w1] eqn:Ec; [|by apply Hstep].
  apply check_authz_sound in Ec as (device & raw & key & _ & Hau).
  specialize (Hstep Hw). cbn in Hstep. pose proof (authentic_signed _ _ _ _ _ _ _ Hw Hau) as Hs.
  case_bool_decide; cbn [fst snd]; rewrite run_bind; cbn [fst snd].
  - rewrite run_ret. revert Hstep. apply (steps_bind keeps_trust); [walk..|].
    intros; walk.
  - assert (trusted (set_pipe (with_session (Some (az_session a)) (az_expires_at a) (w_pipe w1)) w1))
      as Hw2.
    { destruct Hstep. split; try done. intros s Hs'. injection Hs' as <-. exists a.
      split_and!; done. }
    cbn. revert Hw2. apply (steps_bind keeps_trust); [walk..|]. intros; walk.
Qed.

#[global] Instance keeps_trust_serves : Serves options store keeps_trust.
Proof.
  split; [apply _|exact trust_time|exact trust_keys|exact trust_send|exact trust_verify|exact trust_offline].
Qed.

(** ** What a client can do *)

Inductive Op :=
  | op_time
  | op_keys (force : bool)
  | op_send (request : ProtocolRequest)
  | op_verify (response : ProtocolResponse)
  | op_send_and_verify (request : ProtocolRequest)
  | op_note
  | op_offline
  | op_clear.

Definition perform (o : Op) (w : World) : World :=
  match o with
  | op_time => (refresh_trusted_time options store w).2
  | op_keys force => (refresh_online_keys options store force w).2
  | op_send request => (send options store request w).2
  | op_verify response => (verify_authz options store response w).2
  | op_send_and_verify request => (send_and_verify options store request w).2
  | op_note => (note_verified_interaction options store w).2
  | op_offline => (offline_locked options store w).2
  | op_clear => (clear_session w).2
  end.

(** A new pipeline in a new process. *)
Definition fresh (w : World) : Prop :=
  p_ring (w_pipe w) = ring_start /\ p_session (w_pipe w) = None /\ initialized (w_clock w) = false.

(** The worlds a client reaches: operations in any order, on any response, and
    between them anything that others do to the files and to the key store. *)
Inductive reach : World -> Prop :=
  | reach_fresh w : fresh w -> reach w
  | reach_perform o w : reach w -> reach (perform o w)
  | reach_tamper f k w : reach w -> reach (set_files f (set_keys k w)).

Lemma fresh_trusted w : fresh w -> trusted w.
Proof.
  intros (Hr & Hs & Hc). split; rewrite ?Hr; [apply ring_start_wf|apply Forall_nil_2| |].
  - intros H. congruence.
  - intros s H. congruence.
Qed.

Lemma perform_trust o : forall w, trusted w -> trusted (perform o w).
Proof.
  destruct o; intros w; cbn [perform].
  - apply trust_time.
  - apply trust_keys.
  - apply trust_send.
  - apply trust_verify.
  - apply (steps_bind keeps_trust _ _ (trust_send _) trust_verify).
  - apply trust_note.
  - apply trust_offline.
  - apply trust_clear.
Qed.

Lemma reach_trusted w : reach w -> trusted w.
Proof.
  induction 1 as [w H|o w H IH|f k w H IH]; [by apply fresh_trusted|by apply perform_trust|].
  destruct IH. by split.
Qed.

(** Whatever the network answers, and whatever happens to the files and
    the key store between operations, every online key a client holds was
    signed by the root for this application and release with a positive
    lifetime, its clock was set from a time that the root signed, and its
    session, when it has one, comes from an authorization that one of the
    certified keys signed, with that authorization's expiry. *)
Theorem reachable_trusted w : reach w ->
  Forall certified (held (p_ring (w_pipe w))) /\
  clock_signed (w_clock w) /\
  (forall s, p_session (w_pipe w) = Some s ->
     exists a key, certified key /\ key_id key = az_key_id a /\
       ed25519_verify (public_key key) (authz_canonical options a) (az_signature a) = Ok true /\
       az_decision a = &"allow" /\ az_session a = s /\
       p_session_expires_at (w_pipe w) = az_expires_at a).
Proof.
  intros [_ Hk Hc Hs]%reach_trusted. split_and!; [done|done|].
  intros s (a & (Hd & _ & _ & key & Hcert & Hid & Hsig) & Ha & He)%Hs. eauto 10.
Qed.

(** ** What a verified response changes *)

Definition trust_state (w : World) : Keyring * ClockState * (option text * Z) :=
  (p_ring (w_pipe w), w_clock w, (p_session (w_pipe w), p_session_expires_at (w_pipe w))).

#[local] Instance keeps_trust_state : Inner (keeps trust_state).
Proof. keeps_inner. Qed.

Lemma steps_latch_state b : steps (keeps trust_state) (put_pipe (with_latched b)).
Proof. by apply steps_modify. Qed.
Hint Resolve steps_latch_state : world.

Lemma note_state : steps (keeps trust_state) (note_verified_interaction options store).
Proof. unfold note_verified_interaction. walk. Qed.

Lemma check_state response : steps (keeps trust_state) (check_authz options store response).
Proof. unfold check_authz. walk. Qed.

(** The session after an accepted authorization. *)
Definition renewed (a : Authz) (w : World) : option text * Z :=
  if bool_decide (az_session a = []) then (p_session (w_pipe w), p_session_expires_at (w_pipe w))
  else (Some (az_session a), az_expires_at a).

Lemma verify_authz_run response w r w' : verify_authz options store response w = (r, w') ->
  (exists x, r = Throw x /\ trust_state w' = trust_state w) \/
  exists device data a raw_data key, authentic response device w data a raw_data key /\
    goes_by w' device /\ trust_state w' = (p_ring (w_pipe w), w_clock w, renewed a w) /\
    (r = Ok data \/ exists x, r = Throw x).
Proof.
  unfold verify_authz. rewrite run_bind. pose proof (check_state response w) as Hs.
  destruct (check_authz _ _ _ w) as [[[data a]|x] w1] eqn:Ec; intros H; last first.
  { left. injection H as <- <-. eauto. }
  right. apply check_authz_sound in Ec as (device & raw & key & Hdev & Hau).
  apply device_id_goes_by in Hdev.
  exists device, data, a, raw, key. split; [done|].
  unfold keeps, trust_state in Hs. cbn in Hs. injection Hs as Hr Hc Hse He.
  assert (exists w2, trust_state w2 = (p_ring (w_pipe w), w_clock w, renewed a w) /\
    identity_stays w1 w2 /\
    (note_verified_interaction options store ≫= fun _ => mret data) w2 = (r, w')) as (w2 & Hw2 & Hi2 & Hn).
  { unfold renewed. revert H. case_bool_decide; intros Hn; [exists w1|eexists]; (split; [|split; [|exact Hn]]).
    - unfold trust_state. congruence.
    - done.
    - unfold trust_state. cbn. congruence.
    - by intros i. }
  rewrite run_bind in Hn. pose proof (note_state w2) as Hk.
  pose proof (free_note identity_stays options store w2) as Hi3.
  assert (goes_by (note_verified_interaction options store w2).2 device) as Hg
    by (eapply goes_by_stays; [|exact Hdev]; by etrans).
  destruct (note_verified_interaction _ _ w2) as [[[]|x] w3]; cbn in Hk, Hg; unfold keeps in Hk;
    injection Hn as <- <-; rewrite Hk, Hw2; eauto.
Qed.

(** ** What a client accepted *)

(** The world at another tick. *)
Definition at_tick (t : Z) (w : World) : World :=
  mkWorld (w_step w) t (w_stopped w) (w_files w) (w_keys w) (w_clock w) (w_pipe w) (w_sent w).

(** Between [w] and [w'] the client accepted the [data] of [response]: it is
    authentic for the device, the clock and the keys of the client in [w'], at
    a tick between the two, under a key that the root certified. *)
Definition accepted (response : ProtocolResponse) (w w' : World) (data : Json) : Prop :=
  exists t device a raw_data key,
    w_tick w <= t <= w_tick w' /\ goes_by w' device /\
    authentic response device (at_tick t w') data a raw_data key /\ certified key.

(** What is accepted stays so while the clock, the keys and the identity stay. *)
Record steady (w w' : World) : Prop := {
  st_tick : w_tick w <= w_tick w';
  st_clock : w_clock w' = w_clock w;
  st_ring : p_ring (w_pipe w') = p_ring (w_pipe w);
  st_identity : identity_stays w w'
}.

#[global] Instance steady_frame : Frame steady.
Proof.
  split; [split|].
  - intros w. by split.
  - intros w1 w2 w3 [] []. split; [lia|congruence..|by etrans].
  - intros extra w. split; [apply (gt_tick _ _ (frame_advance (R := grows_to) extra w))|done..|by intros i].
Qed.

Lemma authentic_steady response device w w' data a raw key :
  w_clock w' = w_clock w -> p_ring (w_pipe w') = p_ring (w_pipe w) -> w_tick w' = w_tick w ->
  authentic response device w data a raw key -> authentic response device w' data a raw key.
Proof. intros Hc Hr Ht []. split; rewrite ?Hc, ?Hr, ?Ht; done. Qed.

Lemma accepted_steady response w0 w w' w'' data : w_tick w0 <= w_tick w -> steady w' w'' ->
  accepted response w w' data -> accepted response w0 w'' data.
Proof.
  intros Ht [Ht' Hc Hr Hi] (t & device & a & raw & key & Hb & Hg & Ha & Hk).
  exists t, device, a, raw, key. split; [lia|]. split; [by eapply goes_by_stays|]. split; [|done].
  by eapply authentic_steady; [..|exact Ha].
Qed.

Lemma verified_steady response w : steady w (verify_authz options store response w).2.
Proof.
  pose proof (free_verify grows_to options store response w) as [_ Ht _ _].
  pose proof (free_verify identity_stays options store response w) as Hi.
  destruct (verify_authz options store response w) as [r w'] eqn:Hv. cbn in *.
  apply verify_authz_run in Hv as [(x & _ & Hs)|(device & data & a & raw & key & _ & _ & Hs & _)];
    (split; [done|by apply (f_equal (fun s => s.1.2)) in Hs|by apply (f_equal (fun s => s.1.1)) in Hs|done]).
Qed.

Lemma verified_accepted response w data w' : trusted w ->
  verify_authz options store response w = (Ok data, w') -> accepted response w w' data.
Proof.
  intros Hw H. pose proof (verified_steady response w) as [Ht Hc Hr _]. rewrite H in Ht, Hc, Hr.
  cbn in Ht, Hc, Hr.
  apply verify_authz_run in H as [(x & ? & _)|(device & d & a & raw & key & Hau & Hg & _ & Hd)]; [done|].
  destruct Hd as [[= ->]|(x & ?)]; [|done].
  exists (w_tick w), device, a, raw, key. split; [lia|]. split; [done|]. split.
  - by eapply authentic_steady; [..|exact Hau].
  - by apply (find_certified _ _ _ Hw (au_key _ _ _ _ _ _ _ Hau)).
Qed.

(** C2: when [send_and_verify] returns data to a client whose state is
    trusted, the response it
    accepted is authentic: a 2xx response whose [data] text has the hash that
    the authorization names, an authorization that allows this release, for
    the device that the client goes by and for the nonce of this request, is
    current by the signed clock, and is signed by a
    key that the root certified; the only change to the trusted state is the
    renewed session.  When it throws instead after the response arrived,
    either nothing trusted changed or the response was authentic. *)
Theorem accepted_data_is_authentic w request response w1 : trusted w ->
  send options store request w = (Ok response, w1) ->
  let run := send_and_verify options store request w in
  let unchanged := (p_ring (w_pipe w1), w_clock w1) in
  (forall data, run.1 = Ok data -> exists device a raw_data key,
     goes_by run.2 device /\
     authentic response device w1 data a raw_data key /\ certified key /\
     trust_state run.2 = (unchanged, renewed a w1)) /\
  (forall x, run.1 = Throw x -> trust_state run.2 = trust_state w1 \/
     exists device data a raw_data key,
       goes_by run.2 device /\
       authentic response device w1 data a raw_data key /\ certified key /\
       trust_state run.2 = (unchanged, renewed a w1)).
Proof.
  intros Hw Hsend run unchanged.
  assert (trusted w1) as Htr.
  { pose proof (trust_send request w Hw) as H. by rewrite Hsend in H. }
  assert (run = verify_authz options store response w1) as Hrun.
  { unfold run, send_and_verify. by rewrite run_bind, Hsend. }
  destruct (verify_authz options store response w1) as [r w2] eqn:Ev. rewrite Hrun. cbn.
  apply verify_authz_run in Ev as [(x & -> & Hs)|(device & data & a & raw & key & Hau & Hg & Hs & Hr)].
  { split; [done|]. intros; by left. }
  pose proof (find_certified _ _ _ Htr (au_key _ _ _ _ _ _ _ Hau)) as [Hcert _].
  split; intros d Hd; [|right; eauto 12].
  destruct Hr as [->|(x & ->)]; [|done]. injection Hd as ->. eauto 10.
Qed.

(** C3: [check_authz] returns exactly for authentic responses, of the device
    the client identifies as, and then it returns their data. *)
Theorem check_authz_iff response w device w' data a :
  device_id options store (advance 0 w) = (Ok device, w') ->
  check_authz options store response w = (Ok (data, a), w') <->
  exists raw_data key, authentic response device w data a raw_data key.
Proof.
  intros Hdev. split; [|intros (raw & key & H); by eapply check_authz_complete].
  intros (device' & raw & key & Hdev' & H)%check_authz_sound. rewrite Hdev in Hdev'.
  injection Hdev' as ->. eauto.
Qed.

End Trust.
