(* ===== verification/Wire.v ===== *)
(** * Requests on the wire

    What the service receives when [RequestPipeline::send] returns: the
    headers, the proof of possession of the device key with its claims, the
    session, and the body, plain or in its envelope; and that accepted data
    answers that very request. *)
From S2P Require Import Prelude StdString Errors Codec Json Types Crypto Clock Keyring World.
From S2P Require Import Http StateStore Identity Policy Pipeline Send Trust.

(** ** A proof of possession, as the service reads it *)

Definition dot : ascii := "."%char.

(** The three parts of a compact token. *)
Definition token_parts (token : text) : option (text * text * text) :=
  i ← find_char dot token;
  let rest := drop (S i) token in
  j ← find_char dot rest;
  Some (take i token, take j rest, drop (S j) rest).

Section Wire.
Context `{C : Crypto} `{J : JsonLib} `{E : Env}.
Context (options : ClientOptions) (store : StateStore).

(** The proof is a token whose header names the device key, whose claims are
    those of this request, and whose signature the key store made with that
    key over the first two parts. *)
Definition possession (i : DeviceIdentity) (method url session : text) (body : Bytes)
    (proof : text) : Prop :=
  exists header claims mark header_text claims_text sig device jti now n status,
    token_parts proof = Some (header, claims, mark) /\
    base64url_decode header = Ok header_text /\ json_dump (dpop_header (id_key_id i)) = Ok header_text /\
    base64url_decode claims = Ok claims_text /\
    json_dump (dpop_payload options device (id_install_id i) method url session (hex_lower jti)
      body now) = Ok claims_text /\
    0 < now /\ zlen jti = 16 /\
    (device = opt_device_id options /\ device <> [] \/
     opt_device_id options = [] /\ device = id_device_id i) /\
    base64url_decode mark = Ok sig /\ zlen sig = 64 /\
    env_sign n (id_key_name i) (sha256 (header ++ dot :: claims)) = (status, sig) /\ 0 <= status.

(** The key, the session and the body of a protected request, given the state
    of the pipeline when it was sent. *)
Definition guarded (request : ProtocolRequest) (timestamp nonce : text) (p : Pipe) (url : text)
    (headers : HttpHeaders) (body : Bytes) : Prop :=
  exists key session proof i,
    current_key_ (p_ring p) = Some key /\ p_identity p = Some i /\
    header_get (&"X-SWM-DPoP") headers = Some proof /\
    possession i (q_method request) url session (q_body request) proof /\
    (if q_require_session request
     then header_get (&"X-SWM-Session") headers = Some session /\ p_session p = Some session
     else header_get (&"X-SWM-Session") headers = None /\ session = []) /\
    (if q_encrypt_body request then
       header_get (&"X-SWM-Body-Enc") headers = Some body_encryption /\
       header_get (&"X-SWM-Online-Key-Id") headers = Some (key_id key) /\
        exists stamp ephemeral nonce_bytes, stoll timestamp = Some stamp /\ zlen ephemeral = 32 /\
         encrypt_request_body ephemeral nonce_bytes (q_method request) (q_path request)
           (canonical_query (q_query request)) stamp nonce (app_id options) (release_id options)
           (version options) (version_code_header (version_code options)) (key_id key)
           (public_key key) (q_body request) = Ok body
     else body = q_body request).

(** The URL that the proof names. *)
Definition proof_url (request : ProtocolRequest) : text :=
  if bool_decide (q_dpop_resource request = [])
  then absolute_url options (q_path request) (q_query request) else q_dpop_resource request.

Definition base_claims (timestamp nonce : text) : list (text * text) :=
  [(&"X-App-Id", app_id options); (&"X-Timestamp", timestamp); (&"X-Nonce", nonce);
   (&"X-Authz-Capability", &"v3"); (&"X-Client-Release-Id", release_id options);
   (&"X-Client-Version", version options);
   (&"X-Client-Version-Code", version_code_header (version_code options))].

Definition has_headers (headers : HttpHeaders) (claims : list (text * text)) : Prop :=
  Forall (fun '(n, v) => header_get n headers = Some v) claims.

(** What the service finds in a request that left for [request]. *)
Record carried (request : ProtocolRequest) (timestamp nonce : text) (p : Pipe)
    (input : HttpRequest) : Prop := {
  ca_method : rq_method input = q_method request;
  ca_url : rq_url input = absolute_url options (q_path request) (q_query request);
  ca_headers : has_headers (rq_headers input) (base_claims timestamp nonce);
  ca_guard :
    if q_require_online_key request
    then guarded request timestamp nonce p (proof_url request) (rq_headers input) (rq_body input)
    else header_get (&"X-SWM-DPoP") (rq_headers input) = None /\
         header_get (&"X-SWM-Session") (rq_headers input) = None /\ rq_body input = q_body request
}.

(** ** Proofs of possession *)

Lemma base64url_no_dot value : dot ∉ base64url_encode value.
Proof.
  rewrite base64url_encode_eq. intros Hin.
  assert (Forall (fun c => c <> dot) (b64_ref value)) as H
    by (apply b64_ref_Forall; by apply (range_dec (fun d => b64_char d <> dot) 64)).
  rewrite Forall_forall in H. by apply (H dot).
Qed.

Lemma token_parts_join a b c : dot ∉ a -> dot ∉ b ->
  token_parts ((a ++ dot :: b) ++ dot :: c) = Some (a, b, c).
Proof.
  intros Ha Hb. unfold token_parts. rewrite <- app_assoc. cbn [app].
  rewrite find_char_app by done. cbn [mbind option_bind].
  replace (drop (S (length a)) (a ++ dot :: b ++ dot :: c)) with (b ++ dot :: c).
  2: { change (a ++ dot :: b ++ dot :: c) with (a ++ [dot] ++ (b ++ dot :: c)).
       by rewrite app_assoc, drop_app_exact by (rewrite length_app; cbn; lia). }
  rewrite find_char_app by done. cbn [mbind option_bind].
  rewrite !take_app_exact by done.
  change (b ++ dot :: c) with (b ++ [dot] ++ c).
  by rewrite app_assoc, drop_app_exact by (rewrite length_app; cbn; lia).
Qed.

Lemma device_id_run w d w' i : p_identity (w_pipe w) = Some i ->
  device_id options store w = (Ok d, w') ->
  w' = w /\ (d = opt_device_id options /\ d <> [] \/ opt_device_id options = [] /\ d = id_device_id i).
Proof.
  intros Hi. unfold device_id. case_bool_decide as Ho; cbn [negb].
  - rewrite (run_ok_bind _ _ _ _ _ (get_identity_cached options store _ _ Hi)), run_ret.
    intros [= <- <-]. auto.
  - rewrite run_ret. intros [= <- <-]. auto.
Qed.

Lemma same_identity {A} (m : M A) w a w' i : steps same_state m -> m w = (Ok a, w') ->
  p_identity (w_pipe w) = Some i -> p_identity (w_pipe w') = Some i.
Proof. intros Hs H Hi. destruct (Hs w) as [_ _ _ Hp _]. rewrite H in Hp. cbn in Hp. by rewrite Hp. Qed.

Lemma create_dpop_run method url session body w proof w' :
  create_dpop options store method url session body w = (Ok proof, w') ->
  exists i, p_identity (w_pipe w') = Some i /\ possession i method url session body proof.
Proof.
  unfold create_dpop. intros H. apply run_bind_Ok in H as (now & w1 & _ & H).
  apply run_bind_Ok in H as ([] & w2 & Hnow & H). apply run_ensure_Ok in Hnow as [Hnow ->].
  apply run_bind_Ok in H as (kid & w2 & Hk & H). unfold device_key_id in Hk.
  apply run_bind_Ok in Hk as (i & w2' & Hi & Hk). rewrite run_ret in Hk. injection Hk as <- ->.
  apply get_identity_run in Hi.
  apply run_bind_Ok in H as (device & w3 & Hd & H). apply (device_id_run _ _ _ i) in Hd as [-> Hd]; [|done].
  apply run_bind_Ok in H as (install & w4 & Hn & H). unfold install_id in Hn.
  rewrite (run_ok_bind _ _ _ _ _ (get_identity_cached options store _ _ Hi)), run_ret in Hn.
  injection Hn as <- <-.
  apply run_bind_Ok in H as (jti & w5 & Hj & H).
  pose proof (random_bytes_length _ _ _ _ Hj) as Hjl.
  apply (same_identity _ _ _ _ i (steps_random same_state 16)) in Hj; [|done].
  apply run_bind_Ok in H as (header_text & w6 & Hh & H). apply run_lift_Ok in Hh as [Hh ->].
  apply run_bind_Ok in H as (claims_text & w6 & Hc & H). apply run_lift_Ok in Hc as [Hc ->].
  rewrite (run_ok_bind _ _ _ _ _ (get_identity_cached options store _ _ Hj)) in H.
  apply run_bind_Ok in H as (sig & w6 & Hs & H). rewrite run_ret in H. injection H as <- <-.
  assert (p_identity (w_pipe w6) = Some i) as Hi6 by (by eapply same_identity; [apply steps_sign, _| |]).
  exists i. split; [done|]. unfold sign_sha256 in Hs.
  apply run_bind_Ok in Hs as ([] & w7 & Hk & Hs). apply run_ensure_Ok in Hk as [_ ->].
  apply run_bind_Ok in Hs as ([status sig'] & w7 & Hcall & Hs).
  apply run_bind_Ok in Hs as ([] & w8 & Hst & Hs). apply run_lift_Ok in Hst as [Hst ->].
  apply run_bind_Ok in Hs as ([] & w8 & Hl & Hs). apply run_ensure_Ok in Hl as [Hl ->].
  rewrite run_ret in Hs. injection Hs as -> ->. injection Hcall as Hcall _.
  unfold possession. do 6 eexists. exists device, jti, now. do 2 eexists.
  repeat match goal with |- _ /\ _ => split end.
  - change (&".") with [dot]. cbn [app]. apply token_parts_join; apply base64url_no_dot.
  - apply base64url_roundtrip.
  - exact Hh.
  - apply base64url_roundtrip.
  - exact Hc.
  - breflect. lia.
  - unfold zlen. by rewrite Hjl.
  - exact Hd.
  - apply base64url_roundtrip.
  - breflect. done.
  - exact Hcall.
  - unfold check_ntstatus in Hst. destruct (status <? 0) eqn:E0; [done|]. breflect. lia.
Qed.

(** ** One attempt *)

Lemma base_headers_claims timestamp nonce :
  has_headers (base_headers options timestamp nonce) (base_claims timestamp nonce).
Proof.
  unfold base_headers, has_headers, base_claims. cbn [foldl].
  repeat constructor; repeat (rewrite header_get_add_other by (vm_compute; discriminate));
    by apply header_get_add.
Qed.

Lemma header_get_others n (l : list (text * text)) h :
  lower_ascii n ∉ lower_ascii ∘ fst <$> l ->
  header_get n (foldl (fun h '(m, v) => header_add m v h) h l) = header_get n h.
Proof.
  revert h. induction l as [|[m v] l IH]; intros h Hn; [done|]. cbn [foldl].
  apply not_elem_of_cons in Hn as [Hm Hn]. rewrite IH by done. by apply header_get_add_other.
Qed.

Lemma base_headers_free timestamp nonce n :
  lower_ascii n ∉ lower_ascii ∘ fst <$> base_claims timestamp nonce ->
  header_get n (base_headers options timestamp nonce) = None.
Proof. intros Hn. exact (header_get_others n (base_claims timestamp nonce) [] Hn). Qed.

(** Headers with other names leave the claims alone. *)
Lemma has_headers_add n v h timestamp nonce :
  lower_ascii n ∉ lower_ascii ∘ fst <$> base_claims timestamp nonce ->
  has_headers h (base_claims timestamp nonce) ->
  has_headers (header_add n v h) (base_claims timestamp nonce).
Proof.
  unfold has_headers. rewrite !Forall_forall. intros Hn Hh [m u] Hin. specialize (Hh _ Hin). cbn in Hh.
  rewrite header_get_add_other; [done|]. intros Hm. apply Hn. rewrite <- Hm.
  apply list_elem_of_fmap. by exists (m, u).
Qed.

(** Names that the protocol does not use for the claims; the content type is
    added last. *)
Definition guard_names : list text :=
  [&"X-SWM-DPoP"; &"X-SWM-Session"; &"X-SWM-Body-Enc"; &"X-SWM-Online-Key-Id"].

Lemma guard_names_free timestamp nonce n : n ∈ &"content-type" :: guard_names ->
  lower_ascii n ∉ lower_ascii ∘ fst <$> base_claims timestamp nonce.
Proof.
  intros Hn. cbn [fmap list_fmap compose fst base_claims].
  assert (forallb (fun n => bool_decide (lower_ascii n ∉ lower_ascii <$>
    [&"X-App-Id"; &"X-Timestamp"; &"X-Nonce"; &"X-Authz-Capability"; &"X-Client-Release-Id";
     &"X-Client-Version"; &"X-Client-Version-Code"])) (&"content-type" :: guard_names) = true) as H
    by (vm_compute; reflexivity).
  rewrite forallb_forall in H. apply list_elem_of_In in Hn. specialize (H n Hn). by breflect.
Qed.

Lemma ensure_session_run w session w' : ensure_session w = (Ok session, w') ->
  p_session (w_pipe w) = Some session /\ w_pipe w' = w_pipe w.
Proof.
  intros H. pose proof (steps_ensure_session same_state w) as [_ _ _ Hp _]. rewrite H in Hp. split; [|done].
  unfold ensure_session in H. apply run_bind_Ok in H as (init & w1 & H1 & H). injection H1 as <- <-.
  apply run_bind_Ok in H as ([] & w1 & H1 & H). apply run_ensure_Ok in H1 as [_ ->].
  apply run_bind_Ok in H as (now & w1 & H1 & H).
  pose proof (steps_now_seconds same_state w) as [_ _ _ Hw _]. rewrite H1 in Hw. cbn in Hw.
  apply run_bind_Ok in H as (p & w2 & H2 & H). injection H2 as <- <-. rewrite Hw in H.
  destruct (p_session (w_pipe w)) as [s|]; [|done]. destruct (_ <=? now); [done|].
  rewrite run_ret in H. by injection H as <- _.
Qed.

Lemma encrypt_body_run request timestamp nonce key w body w' :
  encrypt_body options request timestamp nonce key w = (Ok body, w') ->
  w_pipe w' = w_pipe w /\
  exists stamp ephemeral nonce_bytes, stoll timestamp = Some stamp /\ zlen ephemeral = 32 /\
    encrypt_request_body ephemeral nonce_bytes (q_method request) (q_path request)
      (canonical_query (q_query request)) stamp nonce (app_id options) (release_id options)
      (version options) (version_code_header (version_code options)) (key_id key)
      (public_key key) (q_body request) = Ok body.
Proof.
  intros H. assert (steps same_state (encrypt_body options request timestamp nonce key)) as Hs
    by (unfold encrypt_body; walk).
  destruct (Hs w) as [_ _ _ Hp _]. rewrite H in Hp. split; [done|].
  unfold encrypt_body in H. apply run_bind_Ok in H as (stamp & w1 & H1 & H).
  apply run_lift_Ok in H1 as [H1 ->]. apply of_option_Ok in H1.
  apply run_bind_Ok in H as (ephemeral & w2 & H2 & H). apply random_bytes_length in H2.
  apply run_bind_Ok in H as (nb & w3 & _ & H). apply run_lift_Ok in H as [H _].
  exists stamp, ephemeral, nb. split_and!; [done| |done]. unfold zlen. by rewrite H2.
Qed.

Lemma create_dpop_keeps method url session body w proof w' :
  create_dpop options store method url session body w = (Ok proof, w') ->
  current_key_ (p_ring (w_pipe w')) = current_key_ (p_ring (w_pipe w)) /\
  p_session (w_pipe w') = p_session (w_pipe w).
Proof.
  intros H.
  pose proof (steps_create_dpop (keeps (fun w => p_ring (w_pipe w))) options store method url session body w) as Hr.
  pose proof (steps_create_dpop (keeps (fun w => (p_session (w_pipe w), p_session_expires_at (w_pipe w))))
    options store method url session body w) as Hs.
  rewrite H in Hr, Hs. cbn in Hr, Hs. unfold keeps in *. split; [by rewrite Hr|by injection Hs].
Qed.

Lemma current_key_held ring clock tick key : current_key ring clock tick = Ok key ->
  current_key_ ring = Some key.
Proof. unfold current_key. destruct (current_key_ ring); [|done]. case_match; [done|]. by intros [= ->]. Qed.

(** The headers of the guard, added to headers that have none of their names. *)
Definition guard_headers (proof session kid : text) (bound sealed : bool) (h : HttpHeaders) : HttpHeaders :=
  let h := header_add (&"X-SWM-DPoP") proof h in
  let h := if bound then header_add (&"X-SWM-Session") session h else h in
  if sealed
  then header_add (&"X-SWM-Online-Key-Id") kid (header_add (&"X-SWM-Body-Enc") body_encryption h)
  else h.

Ltac get_header Hfree :=
  repeat (rewrite header_get_add_other by (vm_compute; discriminate));
  first [apply Hfree; set_solver | apply header_get_add; get_header Hfree].

Lemma guard_headers_get proof session kid bound sealed h :
  (forall n, n ∈ guard_names -> header_get n h = None) ->
  let h' := guard_headers proof session kid bound sealed h in
  header_get (&"X-SWM-DPoP") h' = Some proof /\
  header_get (&"X-SWM-Session") h' = (if bound then Some session else None) /\
  (sealed = true -> header_get (&"X-SWM-Body-Enc") h' = Some body_encryption /\
     header_get (&"X-SWM-Online-Key-Id") h' = Some kid).
Proof.
  intros Hfree. unfold guard_headers. destruct bound, sealed; cbv zeta iota;
    (split; [|split; [|intros Hc; [discriminate Hc || split]]]); get_header Hfree.
Qed.

Lemma guard_headers_claims proof session kid bound sealed h timestamp nonce :
  has_headers h (base_claims timestamp nonce) ->
  has_headers (guard_headers proof session kid bound sealed h) (base_claims timestamp nonce).
Proof.
  assert (forall n v h, n ∈ guard_names -> has_headers h (base_claims timestamp nonce) ->
    has_headers (header_add n v h) (base_claims timestamp nonce)) as Hadd
    by (intros n v h' Hn; apply has_headers_add, guard_names_free; by right).
  intros Hh. unfold guard_headers. destruct bound, sealed; repeat (apply Hadd; [set_solver|]); done.
Qed.

Lemma protect_request_run request url timestamp nonce w headers body w' :
  protect_request options store request url timestamp nonce
    (base_headers options timestamp nonce) w = (Ok (headers, body), w') ->
  has_headers headers (base_claims timestamp nonce) /\
  if q_require_online_key request
  then guarded request timestamp nonce (w_pipe w') url headers body
  else header_get (&"X-SWM-DPoP") headers = None /\
       header_get (&"X-SWM-Session") headers = None /\ body = q_body request.
Proof.
  pose proof (base_headers_claims timestamp nonce) as Hb.
  assert (forall n, n ∈ guard_names -> header_get n (base_headers options timestamp nonce) = None) as Hfree
    by (intros n Hn; apply base_headers_free, guard_names_free; by right).
  unfold protect_request. destruct (q_require_online_key request); cbn [negb].
  2: { rewrite run_ret. intros [= <- <- <-]. split_and!; [done|..|done]; apply Hfree; set_solver. }
  intros H. apply run_bind_Ok in H as (tick & w1 & H1 & H). injection H1 as <- <-.
  set (w1 := advance 0 w) in *.
  apply run_bind_Ok in H as (w2 & w2' & H2 & H). injection H2 as <- <-.
  apply run_bind_Ok in H as (key & w2 & Hk & H). apply run_lift_Ok in Hk as [Hk ->].
  apply current_key_held in Hk.
  apply run_bind_Ok in H as (session & w2 & Hs & H).
  assert (w_pipe w2 = w_pipe w1 /\
    if q_require_session request then p_session (w_pipe w2) = Some session else session = [])
    as [Hp Hsession].
  { destruct (q_require_session request); [|rewrite run_ret in Hs; by injection Hs as <- <-].
    apply ensure_session_run in Hs as [Hs ->]. by split. }
  clear Hs. rewrite <- Hp in Hk. apply run_bind_Ok in H as (proof & w3 & Hd & H).
  pose proof (create_dpop_keeps _ _ _ _ _ _ _ Hd) as [Hring Hkeep].
  apply create_dpop_run in Hd as (i & Hi & Hposs). rewrite <- Hring in Hk.
  set (h0 := base_headers options timestamp nonce) in *.
  set (sealed := q_encrypt_body request) in *. set (bound := q_require_session request) in *.
  pose proof (guard_headers_get proof session (key_id key) bound sealed h0 Hfree) as (G1 & G2 & G3).
  apply (guard_headers_claims proof session (key_id key) bound sealed) in Hb.
  assert (headers = guard_headers proof session (key_id key) bound sealed h0 /\
    w_pipe w' = w_pipe w3 /\
    if sealed then exists stamp ephemeral nonce_bytes, stoll timestamp = Some stamp /\ zlen ephemeral = 32 /\
      encrypt_request_body ephemeral nonce_bytes (q_method request) (q_path request)
        (canonical_query (q_query request)) stamp nonce (app_id options) (release_id options)
        (version options) (version_code_header (version_code options)) (key_id key)
        (public_key key) (q_body request) = Ok body
    else body = q_body request) as (-> & Hp3 & Hbody).
  { unfold guard_headers. destruct sealed.
    - apply run_bind_Ok in H as (b & w4 & Hb4 & H). rewrite run_ret in H. injection H as <- <- <-.
      apply encrypt_body_run in Hb4 as [Hp4 Hb4]. by split_and!.
    - rewrite run_ret in H. injection H as <- <- <-. by split_and!. }
  split; [exact Hb|]. exists key, session, proof, i. rewrite Hp3. fold bound sealed.
  split; [exact Hk|]. split; [exact Hi|]. split; [exact G1|]. split; [exact Hposs|]. split.
  - destruct bound; (split; [exact G2|]); [by rewrite Hkeep|done].
  - destruct sealed; [|exact Hbody]. destruct (G3 eq_refl) as [G4 G5]. by split_and!.
Qed.

Lemma http_request_sent allow input w response w' :
  Http.request allow input w = (Ok response, w') ->
  exists sent, sent_input sent = input /\ opened_for allow sent /\
    w_sent w' = sent :: w_sent w /\ w_pipe w' = w_pipe w /\
    received (w_step w) (w_step w') input (rs_status_code response) (rs_body response).
Proof.
  intros H. pose proof (same_request allow input w) as Hp. pose proof (request_log allow input w) as Hl.
  rewrite H in Hp, Hl. destruct Hl as [[_ ?]|(_ & handle & Ho & Hl)]; [done|].
  exists (mkSent input handle). split_and!; [done|done|done|apply Hp|by apply request_received in H].
Qed.

Lemma guarded_headers request timestamp nonce p url h h' body :
  (forall n, n ∈ guard_names -> header_get n h' = header_get n h) ->
  guarded request timestamp nonce p url h body -> guarded request timestamp nonce p url h' body.
Proof.
  intros Hh (key & session & proof & i & H). exists key, session, proof, i.
  rewrite !Hh by set_solver. exact H.
Qed.

(** [sent] left for [request], and [response] is what came back for it. *)
Definition exchanged (request : ProtocolRequest) (n n' : nat) (p : Pipe) (sent : SentRequest)
    (response : ProtocolResponse) : Prop :=
  opened_for (allow_insecure_http options) sent /\
  (exists timestamp, carried request timestamp (pr_request_nonce response) p sent) /\
  received n n' sent (pr_status_code response) (pr_body response).

Lemma send_attempt_exchanged request policy w response w' :
  send_attempt options store request policy w = (Ok response, w') ->
  exists sent, w_sent w' = sent :: w_sent w /\
    exchanged request (w_step w) (w_step w') (w_pipe w') sent response.
Proof.
  intros H. unfold send_attempt in H. apply run_bind_Ok in H as ([] & w1 & H1 & H).
  pose proof (steps_stop (keeps w_sent) w) as Hs1. pose proof (steps_stop grows_to w) as Hg1.
  rewrite H1 in Hs1, Hg1.
  apply run_bind_Ok in H as (timestamp & w2 & H2 & H).
  assert (w_sent w2 = w_sent w1 /\ grows_to w1 w2) as [Hs2 Hg2].
  { match type of H2 with ?m w1 = _ => assert (steps (keeps w_sent) m /\ steps grows_to m) as [Hs Hg]
      by (split; unfold system_time; walk); specialize (Hs w1); specialize (Hg w1) end.
    by rewrite H2 in Hs, Hg. }
  apply run_bind_Ok in H as (nonce & w3 & H3 & H).
  pose proof (steps_uuid (keeps w_sent) w2) as Hs3. pose proof (steps_uuid grows_to w2) as Hg3.
  rewrite H3 in Hs3, Hg3.
  apply run_bind_Ok in H as ([headers body] & w4 & H4 & H). set (h0 := base_headers _ _ _) in H4.
  pose proof (steps_protect_request (keeps w_sent) options store request (proof_url request) timestamp nonce
    h0 w3) as Hs4.
  pose proof (steps_protect_request grows_to options store request (proof_url request) timestamp nonce
    h0 w3) as Hg4. unfold proof_url in Hs4, Hg4. rewrite H4 in Hs4, Hg4.
  apply run_bind_Ok in H as (r & w5 & H5 & H). rewrite run_ret in H. injection H as <- <-.
  apply http_request_sent in H5 as (sent & Hinput & Ho & Hs5 & Hp5 & Hr5). unfold keeps in *. cbn [fst snd] in *.
  apply protect_request_run in H4 as [Hb Hg].
  exists sent. split; [rewrite Hs5; f_equal; congruence|]. split; [exact Ho|]. rewrite Hinput, Hp5.
  split.
  2: { destruct Hr5 as (i & j & Hi & Hj & Hr). exists i, j. apply gt_step in Hg1, Hg2, Hg3, Hg4.
       split; [lia|]. split; [lia|exact Hr]. }
  exists timestamp. cbn [pr_request_nonce].
  assert (forall n, n ∈ guard_names -> header_get n (if bool_decide (q_content_type request = []) then headers
    else header_add (&"content-type") (q_content_type request) headers) = header_get n headers) as Hh.
  { intros n Hn. case_bool_decide; [done|]. apply header_get_add_other.
    revert n Hn. apply Forall_forall. by repeat constructor. }
  split; cbn [rq_method rq_url rq_headers rq_body]; [done|done| |].
  - case_bool_decide; [done|]. apply has_headers_add; [|done]. apply guard_names_free. left.
  - destruct (q_require_online_key request); [by eapply guarded_headers|]. by rewrite !Hh by set_solver.
Qed.

(** ** The loop and the whole of [send] *)

Lemma exchanged_steps request n0 n n' n1 p sent response : (n0 <= n)%nat -> (n' <= n1)%nat ->
  exchanged request n n' p sent response -> exchanged request n0 n1 p sent response.
Proof.
  intros H0 H1 (Ho & Hc & i & j & Hi & Hj & Hr). split; [exact Ho|]. split; [exact Hc|].
  exists i, j. split; [lia|]. split; [lia|exact Hr].
Qed.

Lemma grows_attempt request policy : steps grows_to (send_attempt options store request policy).
Proof. apply steps_send_attempt, _. Qed.

Lemma send_exchanged request w response w' : send options store request w = (Ok response, w') ->
  exists sent earlier, w_sent w' = sent :: earlier /\ w_sent w `suffix_of` earlier /\
    exchanged request (w_step w) (w_step w') (w_pipe w') sent response.
Proof.
  intros H. unfold send in H.
  apply run_bind_Ok in H as (init & w1 & H1 & H).
  apply run_bind_Ok in H as ([] & w2 & H2 & H). apply run_bind_Ok in H as ([] & w3 & H3 & H).
  apply run_bind_Ok in H as ([] & w4 & H4 & H).
  assert (grows_to w w4) as Hg.
  { assert (forall A (m : M A) v a v', steps grows_to m -> m v = (Ok a, v') -> grows_to v v') as Hstep
      by (intros A m v a v' Hm Hv; specialize (Hm v); by rewrite Hv in Hm).
    etrans; [eapply Hstep, H1; unfold clock_initialized; walk|].
    etrans; [eapply Hstep, H2; walk|]. etrans; [eapply Hstep, H3; walk|]. eapply Hstep, H4; walk. }
  destruct (send_loop_retried pr_status_code (fun d => Z.max d 0) (&"request deadline exceeded")
    (resolve_request_policy (q_operation request)) (w_tick w4)
    (send_attempt options store request (resolve_request_policy (q_operation request)))
    (Z.to_nat (retries (resolve_request_policy (q_operation request)) + 1)) 0 None (advance 0 w4))
    as (os & r & w5 & Hrun & [Ha _ _ Hr _]).
  { by destruct (q_operation request). }
  { lia. }
  unfold send_with_retries in H. rewrite run_bind in H.
  change (tick_ms w4) with (Ok (w_tick w4), advance 0 w4) in H. cbv iota beta zeta in H.
  rewrite Hrun in H. injection H as -> ->.
  destruct (Attempts_last _ _ _ (grows_attempt _ _) _ _ _ _ Ha Hr) as (v & v' & Hv & Hm & [Hgv [_ _ _ Hp Hs]]).
  apply send_attempt_exchanged in Hm as (sent & Hsent & He). exists sent, (w_sent v).
  rewrite Hs, Hp. split; [done|].
  assert (grows_to w v) as Hgw by (etrans; [exact Hg|etrans; [apply frame_advance|exact Hv]]).
  split; [apply Hgw|]. eapply exchanged_steps; [apply Hgw|apply Hgv|exact He].
Qed.

(** ** The answer to a request *)

(** Verifying a response sends nothing. *)
Lemma verify_authz_sends_nothing response : steps (keeps w_sent) (verify_authz options store response).
Proof.
  assert (forall f, steps (keeps w_sent) (put_pipe f)) by (intros f; by apply steps_modify).
  unfold verify_authz, check_authz, note_verified_interaction. walk.
Qed.

(** The pipeline of [w'] as it was when the last request was sent: with the
    session that the client held in [w], since only the answer renews it. *)
Definition asking (w w' : World) : Pipe :=
  with_session (p_session (w_pipe w)) (p_session_expires_at (w_pipe w)) (w_pipe w').

(** Between [w] and [w'], [data] was accepted as the answer to [request]: the
    last request sent left for [request], with the device key, the online key
    and the session of the client; [response] is what the network answered to
    it, for the nonce in its header; and the client accepted the data of
    [response]. *)
Definition answered (request : ProtocolRequest) (w w' : World) (data : Json) : Prop :=
  exists sent earlier response,
    w_sent w' = sent :: earlier /\ w_sent w `suffix_of` earlier /\
    exchanged request (w_step w) (w_step w') (asking w w') sent response /\
    header_get (&"X-Nonce") (rq_headers sent) = Some (pr_request_nonce response) /\
    accepted options response w w' data.

Lemma exchanged_pipe request n n' p p' sent response :
  p_ring p' = p_ring p -> p_session p' = p_session p ->
  (forall i, p_identity p = Some i -> p_identity p' = Some i) ->
  exchanged request n n' p sent response -> exchanged request n n' p' sent response.
Proof.
  intros Hr Hs Hi (Ho & (timestamp & [Hm Hu Hh Hg]) & Hrec). split; [exact Ho|]. split; [|exact Hrec].
  exists timestamp. split; try done. destruct (q_require_online_key request); [|exact Hg].
  destruct Hg as (key & session & proof & i & Hk & Hid & Hg). exists key, session, proof, i.
  rewrite Hr, Hs. split; [exact Hk|]. split; [by apply Hi|exact Hg].
Qed.

Lemma exchanged_nonce request n n' p sent response : exchanged request n n' p sent response ->
  header_get (&"X-Nonce") (rq_headers sent) = Some (pr_request_nonce response).
Proof.
  intros (_ & (timestamp & Hc) & _). pose proof (ca_headers _ _ _ _ _ Hc) as Hh.
  unfold has_headers, base_claims in Hh. rewrite !Forall_cons in Hh. apply Hh.
Qed.

(** Sending and then accepting, from any world before that has the session. *)
Lemma send_then_accept request w0 w response w1 data w' : trusted options w ->
  grows_to w0 w -> session_of w = session_of w0 ->
  send options store request w = (Ok response, w1) ->
  verify_authz options store response w1 = (Ok data, w') -> answered request w0 w' data.
Proof.
  intros Hw Hg Hses Hsend H.
  assert (trusted options w1) as Hw1.
  { pose proof (steps_pipeline_send (keeps_trust options) options store request w Hw) as Hw1.
    by rewrite Hsend in Hw1. }
  pose proof (free_send (keeps session_of) options store request w) as Hs1.
  pose proof (free_send grows_to options store request w) as Hg1.
  pose proof (free_verify grows_to options store response w1) as Hg2.
  pose proof (verified_steady options store response w1) as [_ _ Hring Hid].
  pose proof (verify_authz_sends_nothing response w1) as Hk.
  apply send_exchanged in Hsend as Hx. rewrite Hsend in Hs1, Hg1. rewrite H in Hg2, Hring, Hid, Hk.
  unfold keeps, session_of in *. cbn [fst snd] in *. destruct Hx as (sent & earlier & Hsent & Hsuf & He).
  exists sent, earlier, response. rewrite Hk. split; [done|].
  split; [etrans; [apply Hg|exact Hsuf]|]. split; [|split].
  - eapply exchanged_steps; [apply Hg|apply Hg2|].
    eapply exchanged_pipe; [..|exact He]; cbn; [done|congruence|exact Hid].
  - by eapply exchanged_nonce.
  - eapply accepted_steady; [|reflexivity|by eapply verified_accepted].
    apply gt_tick in Hg, Hg1. lia.
Qed.

Lemma send_and_verify_answered request w data w' : trusted options w ->
  send_and_verify options store request w = (Ok data, w') -> answered request w w' data.
Proof.
  intros Hw H. unfold send_and_verify in H. apply run_bind_Ok in H as (response & w1 & Hs & H).
  by eapply send_then_accept.
Qed.

(** An operation that did not change the session before it asked. *)
Lemma answered_from request w0 w w' data : grows_to w0 w -> session_of w = session_of w0 ->
  answered request w w' data -> answered request w0 w' data.
Proof.
  intros Hg Hses (sent & earlier & response & Hs & Hsuf & He & Hn & Ha). exists sent, earlier, response.
  split; [done|]. split; [etrans; [apply Hg|done]|]. unfold session_of in Hses. injection Hses as H1 H2.
  split; [|split; [done|eapply accepted_steady; [apply Hg|reflexivity|exact Ha]]].
  unfold asking in *. rewrite <- H1, <- H2. eapply exchanged_steps; [apply Hg|done|exact He].
Qed.

(** What only settles the world afterwards keeps the answer. *)
Lemma answered_after request w w' w'' data : steady w' w'' -> w_sent w'' = w_sent w' ->
  (w_step w' <= w_step w'')%nat -> answered request w w' data -> answered request w w'' data.
Proof.
  intros Hst Hs Hstep (sent & earlier & response & Hsent & Hsuf & He & Hn & Ha).
  exists sent, earlier, response. rewrite Hs. split; [done|]. split; [done|]. split; [|split; [done|]].
  - eapply exchanged_steps; [reflexivity|exact Hstep|].
    eapply exchanged_pipe; [..|exact He]; cbn; [apply Hst|done|apply Hst].
  - eapply accepted_steady; [reflexivity|exact Hst|exact Ha].
Qed.

(** C4: accepted data answers the request that was sent for it.  When
    [send_and_verify] returns in [w'], the last request handed to the network
    is the one asked for: its method and URL, the headers of the protocol, a
    proof of possession whose claims name the method, the URL, the session and
    the plain body and which the key store signed with the device key of the
    client, the session that the client held before, and the body, sealed for
    the client's current online key where that is asked for; and the data was
    read from what the network answered to that very request, and was signed
    for the nonce of that request and for the device of the client, by an
    online key that the client holds and the root certified, within its
    lifetime by the client's clock. *)
Theorem answers_the_request request w data w' : trusted options w ->
  send_and_verify options store request w = (Ok data, w') ->
  exists sent earlier response timestamp t device a raw_data key,
    w_sent w' = sent :: earlier /\ w_sent w `suffix_of` earlier /\
    opened_for (allow_insecure_http options) sent /\
    carried request timestamp (az_nonce a) (asking w w') sent /\
    header_get (&"X-Nonce") (rq_headers sent) = Some (az_nonce a) /\
    received (w_step w) (w_step w') sent (pr_status_code response) (pr_body response) /\
    w_tick w <= t <= w_tick w' /\ goes_by options w' device /\
    authentic options response device (at_tick t w') data a raw_data key /\ certified options key.
Proof.
  intros Hw H. apply send_and_verify_answered in H; [|done].
  destruct H as (sent & earlier & response & Hs & Hsuf & (Ho & (timestamp & Hc) & Hr) & Hn & Ha).
  destruct Ha as (t & device & a & raw & key & [Ht1 Ht2] & Hg & Ha & Hk).
  exists sent, earlier, response, timestamp, t, device, a, raw, key.
  rewrite (au_nonce _ _ _ _ _ _ _ _ Ha). by split_and!.
Qed.
End Wire.

(** ** The service opens the body *)

Section Service.
Context `{C : Crypto} `{!CryptoLaws C} `{J : JsonLib} `{E : Env}.
Context (options : ClientOptions) (store : StateStore).
Context (aes_gcm_open : Bytes -> Bytes -> Bytes -> Bytes -> Bytes -> option Bytes).
Hypothesis aes_gcm_correct : forall k n p a,
  aes_gcm_open k n (bcrypt_aes_gcm k n p a).1 (bcrypt_aes_gcm k n p a).2 a = Some p.

(** The service's side: everything but its own key, the path and the query is
    read from the request. *)
Definition service_reads (server_private online_key : Bytes) (path query : text)
    (input : HttpRequest) : option Bytes :=
  let field n := header_get n (rq_headers input) in
  timestamp ← field (&"X-Timestamp"); stamp ← stoll timestamp;
  nonce ← field (&"X-Nonce"); app ← field (&"X-App-Id");
  release ← field (&"X-Client-Release-Id"); ver ← field (&"X-Client-Version");
  vcode ← field (&"X-Client-Version-Code"); kid ← field (&"X-SWM-Online-Key-Id");
  open_request_body aes_gcm_open server_private online_key
    (build_body_aad (rq_method input) path (canonical_query query) stamp nonce app release ver vcode kid)
    app release kid (rq_body input).

End Service.
