(* ===== verification/System.v ===== *)
(** * The whole client

    The public operations of [swm::Client] together: the invariant of what the
    client trusts under any sequence of them, and what the client hands to the
    application: updates, downloads, events and debug decisions. *)
From S2P Require Import Prelude StdString Errors Codec Json Types Payloads Crypto Sse Download.
From S2P Require Import Clock Keyring World Http SseStream StateStore Identity HostIntegrity Policy.
From S2P Require Import Pipeline Send Web Rotate Fetch Client Debug Watch Trust Wire.

Section System.
Context `{C : Crypto} `{J : JsonLib} `{E : Env}.
Context (options : ClientOptions) (store : StateStore).

Abbreviation trust := (keeps_trust options).

(** ** Every operation keeps the trust *)

#[global] Instance trust_clients : Clients options store trust.
Proof.
  split; [apply _|]. intros required. unfold set_host_integrity_required, store_policy.
  assert (steps trust (put_pipe (with_required required))) by (apply steps_modify; intros w []; by split).
  walk.
Qed.

Lemma trust_rotate : steps trust (rotate_device_key options store).
Proof.
  assert (forall more n pending challenge digest,
    steps trust (rotation_loop options store more n pending challenge digest)).
  { induction more as [|more IH]; intros; cbn [rotation_loop]; unfold rotation_payload; walk. }
  assert (forall i, steps trust (adopt i)).
  { intros i. unfold adopt. pose proof (trust_clear options).
    assert (steps trust (put_pipe (with_latched false))) by (apply steps_modify; intros w []; by split).
    walk. }
  assert (forall i d, steps trust (commit_pending i d)) by (intros; unfold commit_pending, make_store; walk).
  assert (forall i, steps trust (delete_pending i)) by (intros; unfold delete_pending, delete_key; walk).
  unfold rotate_device_key, create_pending. walk.
Qed.

(** ** A client at work *)

(** The public operations, and the pipeline's own on any response; the streams
    take one step, or run to their end. *)
Inductive ClientOp :=
  | do_refresh_keys
  | do_check (attributes : Json) (user_id : text)
  | do_heartbeat (app_version : text) (attributes : Json) (user_id : text)
  | do_event (event : Event)
  | do_events (events : list Event)
  | do_feedback (request : FeedbackRequest)
  | do_enroll (audience : text)
  | do_rotate
  | do_authorize (request : OperationAuthorizationRequest)
  | do_consume (grant : OperationGrant)
  | do_download (progress : option (nat -> Z -> Z -> Result unit)) (update : UpdateInfo) (d : path)
  | do_firmware (metadata : Json)
  | do_debug (known : DebugCredentials) (note : text)
  | do_cancel (known : DebugCredentials) (ticket : DebugRequestTicket)
  | do_watch_debug (known : DebugCredentials) (ticket : DebugRequestTicket)
      (on_decision : Callback DebugDecisionEvent)
  | do_watch (stream_options : UpdateStreamOptions) (callbacks : WatchCallbacks) (c : Runner)
  | do_pipeline (o : Op).

Definition run_op (o : ClientOp) (w : World) : World :=
  match o with
  | do_refresh_keys => (refresh_online_keys options store true w).2
  | do_check attributes user_id => (check_update options store attributes user_id w).2
  | do_heartbeat v attributes user_id => (report_heartbeat options store v attributes user_id w).2
  | do_event event => (report_event options store event w).2
  | do_events events => (report_events options store events w).2
  | do_feedback request => (submit_feedback options store request w).2
  | do_enroll audience => (request_enrollment_ticket options store audience w).2
  | do_rotate => (rotate_device_key options store w).2
  | do_authorize request => (authorize_operation options store request w).2
  | do_consume grant => (consume_operation_authorization options store grant w).2
  | do_download progress update d => (download_update options store progress update d w).2
  | do_firmware metadata => (resolve_firmware_identity options store metadata w).2
  | do_debug known note => (create_debug_request options store known note w).2
  | do_cancel known ticket => (cancel_debug_request options store known ticket w).2
  | do_watch_debug known ticket f => (watch_debug_request options store known ticket f w).2
  | do_watch stream_options callbacks c => (step options store stream_options callbacks c w).2
  | do_pipeline o => perform options store o w
  end.

(** The worlds of an application: a client is made in a new process, and then
    uses its operations in any order, on any arguments, while others do
    anything to the files and to the key store. *)
Inductive at_work : World -> Prop :=
  | work_start w w' : fresh w -> make_client options w = (Ok store, w') -> at_work w'
  | work_op o w : at_work w -> at_work (run_op o w)
  | work_others f k w : at_work w -> at_work (set_files f (set_keys k w)).

Lemma run_op_trust o w : trusted options w -> trusted options (run_op o w).
Proof.
  destruct o; cbn [run_op]; try (revert w; match goal with
    |- forall w, trusted _ w -> trusted _ (?m w).2 => change (steps trust m) end; walk; fail).
  - revert w. change (steps trust (rotate_device_key options store)). apply trust_rotate.
  - revert w. change (steps trust (download_update options store progress update d)).
    apply steps_download; apply _.
  - apply perform_trust.
Qed.

Lemma make_client_trust w w' s : fresh w -> make_client options w = (Ok s, w') -> trusted options w'.
Proof.
  intros Hf H. apply (fresh_trusted options) in Hf.
  assert (steps trust (make_client options)) as Hs.
  { assert (forall b, steps trust (put_pipe (with_required b)))
      by (intros b; apply steps_modify; intros v []; by split).
    unfold make_client, make_store, load_policy, read_cached_policy. walk. }
  specialize (Hs w Hf). by rewrite H in Hs.
Qed.

Lemma at_work_trusted w : at_work w -> trusted options w.
Proof.
  induction 1 as [w w' Hf H|o w H IH|f k w H []]; [by eapply make_client_trust|by apply run_op_trust|].
  by split.
Qed.

(** C1: whatever the application calls, in any order and with any arguments,
    whatever the network answers, and whatever happens to the files and the
    key store meanwhile: every online key the client holds was signed by the
    root for this application and release with a positive lifetime, its clock
    was set from a time that the root signed, and its session, when it has
    one, comes from an authorization that one of the certified keys signed,
    with that authorization's expiry. *)
Theorem client_trust_invariant w : at_work w ->
  Forall (certified options) (held (p_ring (w_pipe w))) /\
  clock_signed options (w_clock w) /\
  (forall s, p_session (w_pipe w) = Some s ->
     exists a key, certified options key /\ key_id key = az_key_id a /\
       ed25519_verify (public_key key) (authz_canonical options a) (az_signature a) = Ok true /\
       az_decision a = &"allow" /\ az_session a = s /\
       p_session_expires_at (w_pipe w) = az_expires_at a).
Proof.
  intros [_ Hk Hc Hs]%at_work_trusted. split_and!; [done|done|].
  intros s (a & (Hd & _ & _ & key & Hcert & Hid & Hsig) & Ha & He)%Hs. eauto 10.
Qed.

(** ** Updates *)

(** What an update check says; the device is identified anew when the service
    answers with a challenge. *)
Definition update_check_of (attributes : Json) (user_id : text) (payload : Json) : Prop :=
  exists device auth integrity again,
    payload =
      (let plain := set_text (&"user_id") user_id (json_object
         [(&"channel_code", JString (channel options));
          (&"current_version", JString (version options));
          (&"version_code", json_of_option (version_code options));
          (&"platform", JString (platform options));
          (&"arch", JString (client_arch options));
          (&"device_id", JString device);
          (&"attributes", object_or_empty attributes);
          (&"device_auth", auth)]) in
       let full := match integrity with
                   | Some e => set_evidence e (set_state e plain)
                   | None => plain
                   end in
       match again with
       | Some auth => json_set full (&"device_auth") auth
       | None => full
       end).

Definition update_request (body : Bytes) : ProtocolRequest :=
  client_request (&"/api/client/update-check") UpdateCheck body false json_content_type.

(** Setting the requirement settles the world. *)
Lemma set_required_settles required w u w' :
  set_host_integrity_required options store required w = (Ok u, w') ->
  steady w w' /\ w_sent w' = w_sent w /\ (w_step w <= w_step w')%nat /\
  p_host_integrity_required (w_pipe w') = required.
Proof.
  intros H. assert (steps grows_to (set_host_integrity_required options store required)) as Hg.
  { assert (steps grows_to (put_pipe (with_required required)))
      by (apply steps_modify; intros v; split; cbn; first [lia|done]).
    unfold set_host_integrity_required, store_policy. walk. }
  specialize (Hg w). rewrite H in Hg. cbn in Hg.
  unfold set_host_integrity_required in H. apply run_bind_Ok in H as ([] & w5 & Hp & Hs).
  injection Hp as <-. unfold store_policy in Hs. apply run_bind_Ok in Hs as (tick & w6 & Ht & Hs).
  injection Ht as _ <-.
  match type of Hs with write_protected ?s ?n ?p ?w = _ =>
    pose proof (write_protected_only s n p w) as (_ & Hc & Hp & Hsent & _) end.
  rewrite Hs in Hc, Hp, Hsent. cbn in Hc, Hp, Hsent. destruct Hg as [Hstep Htick _ _].
  split; [split; [done|done|by rewrite Hp|intros i; by rewrite Hp]|]. by rewrite Hp.
Qed.

(** What [check_update] promises of an update that it returns. *)
Record checked (payload : Json) (w w' : World) (update : UpdateInfo) : Prop := {
  ck_answer : exists body data, json_dump payload = Ok body /\
    answered options (update_request body) w w' data /\ update_from_json data = Ok update;
  ck_manifest : verify_artifact_manifest update options = Ok tt;
  ck_required : p_host_integrity_required (w_pipe w') = Types.host_integrity_required update
}.

Lemma check_loop_checked more : forall n payload w0 w update w', trusted options w ->
  grows_to w0 w -> session_of w = session_of w0 ->
  check_loop options store more n payload w = (Ok update, w') ->
  checked payload w0 w' update \/
  n = 0 /\ exists auth, checked (json_set payload (&"device_auth") auth) w0 w' update.
Proof.
  induction more as [|more IH]; intros n payload w0 w update w' Hw Hg Hses H; [done|]. cbn [check_loop] in H.
  apply run_bind_Ok in H as (body & w1 & Hb & H). apply run_lift_Ok in Hb as [Hb ->].
  apply run_bind_Ok in H as (response & w1 & Hs & H). fold (update_request body) in Hs.
  destruct (_ && _) eqn:Echallenge.
  - (* a challenge: the device is identified, and the loop goes on *)
    right. apply andb_true_iff in Echallenge as [_ ->%Z.eqb_eq]. split; [done|].
    apply run_bind_Ok in H as (b & w2 & Hc & H). apply run_lift_Ok in Hc as [_ ->].
    apply run_bind_Ok in H as (challenge & w2 & Hc & H). apply run_lift_Ok in Hc as [_ ->].
    apply run_bind_Ok in H as (expires & w2 & Hc & H). apply run_lift_Ok in Hc as [_ ->].
    apply run_bind_Ok in H as (now & w2 & Hn & H). apply run_bind_Ok in H as ([] & w3 & He & H).
    apply run_ensure_Ok in He as [_ ->]. apply run_bind_Ok in H as (auth & w3 & Hauth & H).
    assert (forall R, Refreshes options store R -> R w w3) as Hstep.
    { intros R HR. pose proof (free_send R options store (update_request body) w) as G1.
      pose proof (steps_now_seconds R w1) as G2. pose proof (steps_device_auth R options store challenge w2) as G3.
      rewrite Hs in G1. rewrite Hn in G2. rewrite Hauth in G3. etrans; [exact G1|]. etrans; [exact G2|exact G3]. }
    exists auth. 
    assert (trusted options w3) as Hw3.
    { pose proof (steps_pipeline_send trust options store (update_request body) w Hw) as G1. rewrite Hs in G1.
      pose proof (steps_now_seconds trust w1 G1) as G2. rewrite Hn in G2.
      pose proof (steps_device_auth trust options store challenge w2 G2) as G3. by rewrite Hauth in G3. }
    edestruct (IH (0 + 1) (json_set payload (&"device_auth") auth) w0 w3) as [Hck|[? _]]; [exact Hw3|..|exact H|exact Hck|done].
    + etrans; [exact Hg|]. apply (Hstep grows_to), _.
    + rewrite <- Hses. apply (Hstep (keeps session_of)), _.
  - left. unfold accept_update in H. apply run_bind_Ok in H as (data & w2 & Hv & H).
    apply run_bind_Ok in H as (u & w3 & Hu & H). apply run_lift_Ok in Hu as [Hu ->].
    apply run_bind_Ok in H as ([] & w3 & Hset & H). apply run_bind_Ok in H as ([] & w4 & Ha & H).
    apply run_lift_Ok in Ha as [Ha ->]. rewrite run_ret in H. injection H as -> ->.
    apply set_required_settles in Hset as (Hst & Hsent & Hstep & Hreq). split; [|done|done].
    exists body, data. split; [done|]. split; [|done].
    eapply answered_after; [exact Hst|exact Hsent|exact Hstep|].
    by eapply send_then_accept.
Qed.

Lemma check_update_checked attributes user_id w update w' : trusted options w ->
  check_update options store attributes user_id w = (Ok update, w') ->
  exists payload, update_check_of attributes user_id payload /\ checked payload w w' update.
Proof.
  intros Hw H. unfold check_update in H. apply run_bind_Ok in H as (payload & w1 & Hp & H).
  pose proof (steps_check_payload trust options store attributes user_id w Hw) as Hw1.
  pose proof (steps_check_payload grows_to options store attributes user_id w) as Hg.
  pose proof (steps_check_payload (keeps session_of) options store attributes user_id w) as Hs.
  rewrite Hp in Hw1, Hg, Hs.
  assert (forall again, update_check_of attributes user_id
    (match again with Some a => json_set payload (&"device_auth") a | None => payload end)) as Hof.
  { unfold check_payload in Hp. apply run_bind_Ok in Hp as (device & v1 & _ & Hp).
    apply run_bind_Ok in Hp as (auth & v2 & _ & Hp). apply run_bind_Ok in Hp as (integrity & v3 & _ & Hp).
    rewrite run_ret in Hp. injection Hp as <- _. intros again.
    by exists device, auth, integrity, again. }
  apply (check_loop_checked _ _ _ w) in H as [Hck|(_ & auth & Hck)]; [..|exact Hw1|exact Hg|exact Hs].
  - exists payload. split; [apply (Hof None)|exact Hck].
  - exists (json_set payload (&"device_auth") auth). split; [apply (Hof (Some auth))|exact Hck].
Qed.

(** C6: an update is what the service signed: when [check_update] returns in
    [w'], on a client whose state was trusted in [w], the update was read from
    data that answers the last request sent, which is the POST of the update
    check with the members that the caller gave: the data came back from the
    network for that request, and a key that the client holds and the root
    certified signed it for this release, for the device of the client and for
    the nonce of that request, within its lifetime by the client's clock; the
    artifact manifest of the update passes the check against the pinned root;
    and from now on host integrity is required exactly when the update says
    so. *)
Theorem check_update_genuine attributes user_id w update w' : trusted options w ->
  check_update options store attributes user_id w = (Ok update, w') ->
  (exists payload body data,
     update_check_of attributes user_id payload /\ json_dump payload = Ok body /\
     answered options (update_request body) w w' data /\ update_from_json data = Ok update) /\
  verify_artifact_manifest update options = Ok tt /\
  p_host_integrity_required (w_pipe w') = Types.host_integrity_required update.
Proof.
  intros Hw H. apply check_update_checked in H as (payload & Hp & [(body & data & Hb & Ha & Hu) Hm Hr]); [|done].
  split; [|done]. exists payload, body, data. by split_and!.
Qed.

(** C7: from the update check to the installed file: when an update whose
    delivery method is not an external link was accepted by [check_update], and
    [download_update] of it has returned, in any world and with any files, then
    the file at the destination has, as it was read back, the SHA-256 of a
    manifest that a key signed which the root key in the client's options has
    certified for this application; of a file of 4 GiB or more the code hashes
    the size modulo 2^32 bytes only, and so does [sha256_hex]. *)
Theorem installed_file_is_certified attributes user_id w update w1 progress d w2 w3 :
  trusted options w ->
  check_update options store attributes user_id w = (Ok update, w1) ->
  lower_ascii (delivery_method update) <> &"external_link" ->
  outside store d ->
  download_update options store progress update d w2 = (Ok tt, w3) ->
  exists content n,
    file_at d w3 = Some content /\
    lower_ascii (checksum_sha256 update) = sha256_hex (read_cut (env_read_cut n) content) /\
    (zlen content < 2 ^ 32 ->
     lower_ascii (checksum_sha256 update) =
       hex_lower (bcrypt_sha256 (read_cut (env_read_cut n) content))) /\
    ed25519_verify (manifest_public_key update) (artifact_canonical update) (signature update) = Ok true /\
    ed25519_verify (root_trust_public_key options)
      (root_canonical (app_id options) (root_trust_key_id options) update)
      (root_trust_signature update) = Ok true.
Proof.
  intros Hw Hc Hm Ho Hd. apply check_update_checked in Hc as (payload & _ & [_ Ha _]); [|done].
  pose proof (download_outcome_holds options store progress update d Ho w2) as Hv. rewrite Hd in Hv.
  destruct Hv as (_ & content & Hf & n & Hv & _). exists content, n.
  unfold download_update in Hd. apply run_bind_Ok in Hd as ([] & w4 & He & _).
  apply run_ensure_Ok in He as [He _]. apply negb_true_iff in He.
  apply orb_false_iff in He as [He _]. apply orb_false_iff in He as [He1 He2].
  destruct (artifact_chain_of_trust update options (read_cut (env_read_cut n) content))
    as (H1 & H2 & _ & _ & H3); [|done|done|].
  2: { pose proof (read_cut_short (env_read_cut n) content). split_and!; try done. intros Hlen.
       unfold sha256_hex in H3. by rewrite sha256_small in H3 by lia. }
  unfold not_downloaded. by rewrite He1, He2, bool_decide_false.
Qed.

(** ** Streams end *)

(** The loops over a response stream end: on whatever the network
    delivers, the saving of a download comes to the end of the stream or
    throws, and the loop of a debug request ends with a decision, the stop or
    an error, whatever the callbacks answer. *)
Theorem stream_loops_finish :
  (forall progress partial good s written expected w,
     (save_loop progress (S (length (st_reads s))) partial good s written expected w).1 <> Ok None) /\
  (forall ticket hash nonce f r w, exists told ended w',
     debug_loop options store (S (stream_size r)) ticket hash nonce f r w = (Ok (told, Some ended), w')).
Proof.
  split; intros; [apply save_loop_finishes|apply debug_loop_finishes]; lia.
Qed.

End System.
