(* ===== verification/Answers.v ===== *)
(** * The operations and their answers

    What an operation of the client returns was read from data that answers
    the request the operation sent, and that request carries what the caller
    asked for. *)
From S2P Require Import Prelude StdString Errors Codec Json Types Payloads Operation Crypto Clock.
From S2P Require Import Keyring World Http StateStore HostIntegrity Multipart Identity Policy Pipeline.
From S2P Require Import Send Client Trust Wire System.

Section Answers.
Context `{C : Crypto} `{J : JsonLib} `{E : Env}.
Context (options : ClientOptions) (store : StateStore).

Abbreviation trust := (keeps_trust options).
Abbreviation answered := (answered options).

(** Between [w] and [w'], [r] was read by [read] from data that answers a JSON
    request with [payload]. *)
Definition posted {R} (path : text) (operation : OperationClass) (payload : Json)
    (read : Json -> Result R) (r : R) (w w' : World) : Prop :=
  exists body data, json_dump payload = Ok body /\
    answered (client_request path operation body true json_content_type) w w' data /\
    read data = Ok r.

(** What an operation does before it sends its request: the session stays. *)
Definition prepares : relation World := fun w w' =>
  trust w w' /\ grows_to w w' /\ keeps session_of w w'.

#[local] Instance prepares_inner : Inner prepares.
Proof.
  pose proof (keeps_trust_inner options) as H1. pose proof grows_to_inner as H2.
  pose proof keeps_session as H3. unfold prepares.
  split; [split; [split; [split|]|..]|].
  - intros w. split_and!; reflexivity.
  - intros w1 w2 w3 (? & ? & ?) (? & ? & ?). split_and!; by etrans.
  - intros. split_and!; apply frame_advance.
  - intros. split_and!; apply local_files.
  - intros. split_and!; apply local_keys.
  - intros. split_and!; apply local_identity.
  - intros. split_and!; apply local_hardware.
  - intros. split_and!; apply local_manifest.
  - intros. split_and!; apply inner_log.
Qed.

Lemma steps_offline_prepares : steps prepares (offline_locked options store).
Proof.
  intros w. split_and!; [apply trust_offline|apply free_offline, _|].
  exact (free_offline (keeps session_of) options store w).
Qed.
Hint Resolve steps_offline_prepares : world.

Lemma prepared {A} (m : M A) w w1 a w' : steps prepares m ->
  prepares w w1 -> m w1 = (Ok a, w') -> prepares w w'.
Proof. intros Hs Hw H. etrans; [exact Hw|by eapply ran]. Qed.

Lemma prepared_answered request w w1 data w' : trusted options w -> prepares w w1 ->
  send_and_verify options store request w1 = (Ok data, w') -> answered request w w' data.
Proof.
  intros Hw (Ht & Hg & Hs) H. eapply answered_from; [exact Hg|exact Hs|].
  eapply send_and_verify_answered; [by apply Ht|exact H].
Qed.

Lemma post_json_posted {R} path operation payload (read : Json -> Result R) w w1 data r w' :
  trusted options w -> prepares w w1 ->
  post_json options store path operation payload w1 = (Ok data, w') ->
  read data = Ok r -> posted path operation payload read r w w'.
Proof.
  intros Hw Hp H Hr. unfold post_json in H. apply run_bind_Ok in H as (body & w2 & Hb & H).
  apply run_lift_Ok in Hb as [Hb ->]. exists body, data. split; [done|].
  split; [by eapply prepared_answered|done].
Qed.

(** ** Authorization and consumption of operations *)

Lemma required_kept w locked w' : offline_locked options store w = (Ok locked, w') ->
  p_host_integrity_required (w_pipe w') = p_host_integrity_required (w_pipe w).
Proof.
  intros H. assert (steps (keeps (fun w => p_host_integrity_required (w_pipe w))) (offline_locked options store))
    as Hs by (unfold offline_locked; walk).
  specialize (Hs w). by rewrite H in Hs.
Qed.

(** What an authorization asks for, and from where. *)
Definition authorization_of (request : OperationAuthorizationRequest) (required : bool)
    (payload : Json) : Prop :=
  exists bound challenge hashes,
    valid_request request required bound /\ zlen challenge = 32 /\
    (consumer_challenge request <> [] -> challenge = consumer_challenge request) /\
    (bound = false -> hashes = ([], [], [])) /\
    payload = authorize_payload request bound challenge hashes.

Lemma authorize_answered request w grant w' : 0 <= step_count request -> trusted options w ->
  authorize_operation options store request w = (Ok grant, w') ->
  (offline_locked options store w).1 = Ok false /\
  exists payload, authorization_of request (p_host_integrity_required (w_pipe w)) payload /\
    posted (&"/api/client/operation-authorizations") OpAuthorization payload grant_from_json grant w w'.
Proof.
  intros Hsteps Hw H. unfold authorize_operation in H.
  apply run_bind_Ok in H as ([] & w1 & Hb & H). pose proof Hb as Hin. unfold within_budget in Hin.
  apply run_bind_Ok in Hin as (locked & w1' & Hl & Hin). apply run_ensure_Ok in Hin as [Hlocked <-].
  apply negb_true_iff in Hlocked as ->. split; [by rewrite Hl|].
  assert (prepares w w1) as Hp1 by (eapply prepared; [|reflexivity|exact Hb]; walk).
  apply required_kept in Hl.
  apply run_bind_Ok in H as (p & w2 & Hp & H). injection Hp as <- <-. rewrite Hl in H.
  apply run_bind_Ok in H as (bound & w3 & Hv & H). apply run_lift_Ok in Hv as [Hv ->].
  apply operation_request_iff in Hv; [|done].
  apply run_bind_Ok in H as (challenge & w4 & Hc & H).
  assert (prepares w w4) as Hp4 by (eapply prepared; [|exact Hp1|exact Hc]; walk).
  apply run_bind_Ok in H as ([] & w5 & Hlen & H). apply run_ensure_Ok in Hlen as [Hlen ->].
  apply run_bind_Ok in H as (hashes & w6 & Hh & H).
  assert (prepares w w6) as Hp6 by (eapply prepared; [|exact Hp4|exact Hh]; unfold host_hashes; walk).
  apply run_bind_Ok in H as (data & w7 & Hpost & H). apply run_lift_Ok in H as [Hg <-].
  exists (authorize_payload request bound challenge hashes). split.
  - exists bound, challenge, hashes. breflect. split_and!; try done.
    + intros Hne. rewrite bool_decide_false in Hc by done. rewrite run_ret in Hc. by injection Hc.
    + intros ->. unfold host_hashes in Hh. rewrite run_ret in Hh. by injection Hh.
  - by eapply post_json_posted.
Qed.

Lemma consume_answered grant w receipt w' : trusted options w ->
  consume_operation_authorization options store grant w = (Ok receipt, w') ->
  (offline_locked options store w).1 = Ok false /\ validate_operation_grant grant = Ok tt /\
  posted (&"/api/client/operation-authorizations/consume") OperationGrantConsume
    (consume_payload grant) receipt_from_json receipt w w'.
Proof.
  intros Hw H. unfold consume_operation_authorization in H.
  apply run_bind_Ok in H as ([] & w1 & Hb & H). pose proof Hb as Hin. unfold within_budget in Hin.
  apply run_bind_Ok in Hin as (locked & w1' & Hl & Hin). apply run_ensure_Ok in Hin as [Hlocked <-].
  apply negb_true_iff in Hlocked as ->. split; [by rewrite Hl|].
  assert (prepares w w1) as Hp1 by (eapply prepared; [|reflexivity|exact Hb]; walk).
  apply run_bind_Ok in H as ([] & w2 & Hv & H). apply run_lift_Ok in Hv as [Hv ->].
  apply run_bind_Ok in H as (data & w3 & Hpost & H). apply run_lift_Ok in H as [Hg <-].
  split; [done|]. by eapply post_json_posted.
Qed.

(** C16: operations are authorized and consumed on signed answers alone.  A
    grant is returned only within the offline budget and for a valid request,
    and it was read from data that a certified key signed in answer to the
    request sent for it, whose body carries the hash of the plan, the counts,
    the module and a challenge of 32 bytes, the caller's if there is one; a
    receipt likewise, for a complete grant whose fields were sent. *)
Theorem authorization_answered w : trusted options w ->
  (forall request grant w', 0 <= step_count request ->
     authorize_operation options store request w = (Ok grant, w') ->
     (offline_locked options store w).1 = Ok false /\
     exists payload, authorization_of request (p_host_integrity_required (w_pipe w)) payload /\
       posted (&"/api/client/operation-authorizations") OpAuthorization payload grant_from_json grant w w') /\
  (forall grant receipt w',
     consume_operation_authorization options store grant w = (Ok receipt, w') ->
     (offline_locked options store w).1 = Ok false /\ validate_operation_grant grant = Ok tt /\
     posted (&"/api/client/operation-authorizations/consume") OperationGrantConsume
       (consume_payload grant) receipt_from_json receipt w w').
Proof.
  intros Hw. split; [intros request grant w' Hs H; by apply authorize_answered|].
  intros grant receipt w' H. by apply consume_answered.
Qed.

(** ** Reports *)

(** What a heartbeat says. *)
Definition heartbeat_of (app_version : text) (attributes : Json) (user_id : text) (required : bool)
    (payload : Json) : Prop :=
  exists device e,
    (required = true -> ie_state e <> &"failed") /\
    payload =
      (let plain := set_text (&"user_id") user_id (json_object
         [(&"device_id", JString device); (&"channel_code", JString (channel options));
          (&"app_version", JString (or_default app_version (version options)));
          (&"platform", JString (platform options)); (&"arch", JString (client_arch options));
          (&"attributes", object_or_empty attributes)]) in
       if bool_decide (ie_state e = []) then plain else set_evidence e plain).

Lemma device_required w device w' : client_device_id options store w = (Ok device, w') ->
  p_host_integrity_required (w_pipe w') = p_host_integrity_required (w_pipe w).
Proof.
  intros H. pose proof (steps_noexcept (keeps (fun w => p_host_integrity_required (w_pipe w)))
    (device_id options store) (steps_device_id _ _ _)) as Hs.
  specialize (Hs w). unfold client_device_id in H. by rewrite H in Hs.
Qed.

Lemma heartbeat_answered app_version attributes user_id w result w' : trusted options w ->
  report_heartbeat options store app_version attributes user_id w = (Ok result, w') ->
  exists payload,
    heartbeat_of app_version attributes user_id (p_host_integrity_required (w_pipe w)) payload /\
    posted (&"/api/client/heartbeat") Heartbeat payload heartbeat_from_json result w w'.
Proof.
  intros Hw H. unfold report_heartbeat in H. apply run_bind_Ok in H as (device & w1 & Hd & H).
  pose proof (device_required _ _ _ Hd) as Hreq.
  assert (prepares w w1) as Hp1 by (eapply prepared; [|reflexivity|exact Hd]; walk).
  apply run_bind_Ok in H as (p & w2 & Hp & H).
  injection Hp as <- <-. apply run_bind_Ok in H as (e & w3 & He & H). rewrite Hreq in He.
  assert (prepares w w3) as Hp3 by (eapply prepared; [|exact Hp1|exact He]; walk).
  apply run_bind_Ok in H as (data & w4 & Hpost & H). apply run_lift_Ok in H as [Hr <-].
  eexists. split; [|by eapply post_json_posted]. exists device, e. split; [|reflexivity].
  intros Hrequired. rewrite Hrequired in He. unfold required_evidence in He.
  apply run_bind_Ok in He as (result' & w5 & _ & He). destruct result' as [e'|].
  - destruct (bool_decide (ie_state e' = &"failed")) eqn:Hf; [discriminate He|].
    apply bool_decide_eq_false in Hf. rewrite run_ret in He. injection He as <- _. exact Hf.
  - rewrite run_ret in He. by injection He as <- _.
Qed.

Lemma enrollment_answered audience w ticket w' : trusted options w ->
  request_enrollment_ticket options store audience w = (Ok ticket, w') ->
  lower_ascii (trim_ascii audience) <> [] /\
  posted (&"/api/client/enrollment-ticket") OpEnrollmentTicket
    (json_object [(&"audience", JString (lower_ascii (trim_ascii audience)))]) ticket_from_json ticket w w'.
Proof.
  intros Hw H. unfold request_enrollment_ticket in H. apply run_bind_Ok in H as ([] & w1 & He & H).
  apply run_ensure_Ok in He as [He ->]. breflect.
  apply run_bind_Ok in H as (data & w2 & Hpost & H). apply run_lift_Ok in H as [Hr <-].
  split; [done|]. by eapply post_json_posted.
Qed.

Lemma event_answered event w w' : trusted options w ->
  report_event options store event w = (Ok tt, w') ->
  trim_ascii (event_name event) <> [] /\
  exists device now, posted (&"/api/client/events") Events
    (event_to_json now event device (channel options)) (fun _ => Ok tt) tt w w'.
Proof.
  intros Hw H. unfold report_event in H. apply run_bind_Ok in H as ([] & w1 & He & H).
  unfold event_named in He. apply run_ensure_Ok in He as [He ->]. breflect. split; [done|].
  apply run_bind_Ok in H as (payload & w1 & Hp & H).
  assert (prepares w w1) as Hp1 by (eapply prepared; [|reflexivity|exact Hp]; walk).
  apply run_bind_Ok in H as (data & w2 & Hpost & H). rewrite run_ret in H. injection H as <-.
  unfold event_payload in Hp. apply run_bind_Ok in Hp as (device & w3 & _ & Hp).
  apply run_bind_Ok in Hp as (now & w4 & _ & Hp). rewrite run_ret in Hp. injection Hp as <- _.
  exists device, now. by eapply post_json_posted.
Qed.

Lemma feedback_answered request w result w' : trusted options w ->
  submit_feedback options store request w = (Ok result, w') ->
  exists device w1 multipart w2 data,
    build_feedback_payload device (channel options) (version options) request w1 = (Ok multipart, w2) /\
    answered (client_request (&"/api/client/feedback") Feedback (mp_body multipart) true
      (mp_content_type multipart)) w w' data /\
    feedback_from_json data = Ok result.
Proof.
  intros Hw H. unfold submit_feedback in H. apply run_bind_Ok in H as (device & w1 & Hd & H).
  assert (prepares w w1) as Hp1 by (eapply prepared; [|reflexivity|exact Hd]; walk).
  apply run_bind_Ok in H as (multipart & w2 & Hm & H).
  assert (prepares w w2) as Hp2
    by (eapply prepared; [|exact Hp1|exact Hm]; apply steps_feedback_payload, _).
  apply run_bind_Ok in H as (data & w3 & Hpost & H). apply run_lift_Ok in H as [Hr <-].
  exists device, w1, multipart, w2, data. split_and!; [done| |done]. by eapply prepared_answered.
Qed.

End Answers.
