(* ===== verification/Delivery.v ===== *)
(** * What a client hands to the callbacks of its streams

    The events of an update stream and the decisions about a debug request:
    only what a certified key signed for the stream reaches a callback. *)
From S2P Require Import Prelude StdString Errors Codec Json Types Payloads Crypto Sse.
From S2P Require Import Clock Keyring World Http SseStream StateStore Identity Policy.
From S2P Require Import Pipeline Send Web Client Debug Watch Trust Wire System.

Section Delivery.
Context `{C : Crypto} `{J : JsonLib} `{E : Env}.
Context (options : ClientOptions) (store : StateStore).

(** ** What happens on an update stream

    A record of the stream, in order: its connections, the messages that the
    runner took from them, and what the callbacks were told.  An entry of a
    connection or a message has the worlds between which it was handled. *)
Inductive Entry :=
  | Opened (v v' : World) (nonce : text)
  | Took (v v' : World) (message : ParsedSseEvent)
  | Told (d : Delivery).

(** The connection that is open at the end of a record: the nonce it was asked
    for with, and the messages taken from it. *)
Record Connection := mkConnection {
  cn_nonce : option text;
  cn_taken : list (World * World * ParsedSseEvent)
}.

Definition no_connection : Connection := mkConnection None [].

Definition observe (c : Connection) (e : Entry) : Connection :=
  match e with
  | Opened _ _ nonce => mkConnection (Some nonce) []
  | Took v v' message => mkConnection (cn_nonce c) (cn_taken c ++ [(v, v', message)])
  | Told _ => c
  end.

Definition connection (record : list Entry) : Connection := foldl observe no_connection record.

(** The message that a turn of the runner takes, and the world right after the
    read. *)
Definition message_of (c : Runner) (w : World) : option (ParsedSseEvent * World) :=
  match c with
  | Reading _ _ _ r =>
      match stop_requested w with
      | (Ok false, w1) =>
          match next_stream_event r w1 with
          | (Ok (Some message, _), w2) => Some (message, w2)
          | _ => None
          end
      | _ => None
      end
  | _ => None
  end.

(** The entries of a turn from [c] in [w] to [c'] in [w']. *)
Definition entries (c : Runner) (w : World) (c' : Runner) (w' : World) (told : list Delivery) :
    list Entry :=
  match c, c' with
  | Connecting _, Reading _ nonce _ _ => [Opened w w' nonce]
  | _, _ => match message_of c w with Some (message, v) => [Took v w' message] | None => [] end
  end ++ (Told <$> told).

(** The message, as a response to the request with [nonce], was accepted. *)
Definition took (nonce : text) (v v' : World) (message : ParsedSseEvent) (data : Json) : Prop :=
  accepted options (stream_response (Sse.data message) nonce) v v' data.

(** An authorization has been accepted on the connection. *)
Definition authorized (nonce : text) (taken : list (World * World * ParsedSseEvent)) : Prop :=
  exists v v' message data, (v, v', message) ∈ taken /\ name message = &"authz" /\
    took nonce v v' message data.

(** The event was read from the last message of the connection. *)
Definition genuine_event (c : Connection) (e : UpdateEvent) : Prop :=
  exists nonce taken v v' message data,
    c = mkConnection (Some nonce) (taken ++ [(v, v', message)]) /\ authorized nonce taken /\
    took nonce v v' message data /\ update_event message data = Ok e.

Definition told_ok (c : Connection) (d : Delivery) : Prop :=
  match d with
  | DEvent e => genuine_event c e
  | DControl e => genuine_event c e /\ control_event (ue_event_type e) = true
  | DError _ => True
  end.

Section Watching.
Context (stream_options : UpdateStreamOptions) (callbacks : WatchCallbacks).

(** What must hold of an entry, after the entries that led to [c]. *)
Definition entry_ok (c : Connection) (e : Entry) : Prop :=
  match e with
  | Opened v v' nonce => exists device,
      asked_for_stream options v v' (stream_url_for options stream_options device) nonce
  | Took _ _ _ => is_Some (cn_nonce c)
  | Told d => told_ok c d
  end.

Fixpoint record_ok (c : Connection) (record : list Entry) : Prop :=
  match record with
  | [] => True
  | e :: rest => entry_ok c e /\ record_ok (observe c e) rest
  end.

Lemma record_ok_app record1 : forall c record2,
  record_ok c (record1 ++ record2) <-> record_ok c record1 /\ record_ok (foldl observe c record1) record2.
Proof. induction record1 as [|e r IH]; intros c r2; cbn; [tauto|]. rewrite IH. tauto. Qed.

Lemma record_ok_entry before e after :
  record_ok no_connection (before ++ e :: after) -> entry_ok (connection before) e.
Proof. by intros [_ [H _]]%record_ok_app. Qed.

Lemma record_ok_told c told : Forall (told_ok c) told ->
  record_ok c (Told <$> told) /\ foldl observe c (Told <$> told) = c.
Proof.
  induction 1 as [|d told Hd _ [IH1 IH2]]; [done|]. cbn. by rewrite IH2.
Qed.

(** The connection of the runner. *)
Definition runner_ok (conn : Connection) (c : Runner) : Prop :=
  match c with
  | Reading _ nonce verified _ =>
      cn_nonce conn = Some nonce /\ (verified = true -> authorized nonce (cn_taken conn))
  | _ => True
  end.

Lemma handle_told conn n x w c told w' :
  handle stream_options callbacks n x w = (Ok (c, told), w') ->
  Forall (told_ok conn) told /\ (forall conn', runner_ok conn' c) /\ steady w w'.
Proof.
  intros H. split; [|split].
  - assert (forall e, Forall (told_ok conn) (DError <$> called (on_error callbacks) e)) as Herr.
    { intros e. unfold called. destruct (on_error callbacks); by repeat constructor. }
    unfold handle in H. revert H. case_bool_decide as Hx; [intros [= <- <- <-]; constructor|].
    intros H. apply run_bind_Ok in H as (answer & w1 & _ & H).
    destruct answer as [u|y]; [destruct x as [e|what]|].
    2, 3: rewrite run_ret in H; by injection H as _ <- _.
    apply run_bind_Ok in H as (over & w2 & _ & H). destruct over.
    + rewrite run_ret in H. by injection H as _ <- _.
    + apply run_bind_Ok in H as (waited & w3 & _ & H). rewrite run_ret in H. by injection H as _ <- _.
  - apply handle_leaves in H. intros conn'. by destruct c.
  - eapply ran, H. apply steps_handle, _.
Qed.

(** What the callbacks are told about an event. *)
Lemma hand_over_told conn e w told thrown w' : genuine_event conn e ->
  hand_over callbacks e w = (Ok (told, thrown), w') -> Forall (told_ok conn) told /\ steady w w'.
Proof.
  intros He H. split; [|eapply ran, H; apply steps_hand_over, _].
  unfold hand_over in H. apply run_bind_Ok in H as ([told1 answer] & w1 & Hc & H).
  assert (Forall (told_ok conn) told1) as H1.
  { destruct (control_event (ue_event_type e)) eqn:Ec.
    - apply run_bind_Ok in Hc as (a & w2 & _ & Hc). rewrite run_ret in Hc. injection Hc as <- _ _.
      unfold called. destruct (on_control callbacks); by repeat constructor.
    - rewrite run_ret in Hc. injection Hc as <- _ _. constructor. }
  destruct answer as [u|x]; [|rewrite run_ret in H; by injection H as <- _ _].
  apply run_bind_Ok in H as (a & w2 & _ & H). rewrite run_ret in H. injection H as <- _ _.
  apply Forall_app. split; [done|]. unfold called. destruct (on_event callbacks); by repeat constructor.
Qed.

Lemma authorized_app nonce taken more : authorized nonce taken -> authorized nonce (taken ++ more).
Proof. intros (v & v' & m & data & Hin & H). exists v, v', m, data. split; [set_solver|exact H]. Qed.

(** What a message does to a verified stream, and what is delivered for it,
    when the turn goes on to [w'']. *)
Lemma take_message_told nonce taken verified message w v told thrown w' w'' : trusted options w ->
  (verified = true -> authorized nonce taken) ->
  take_message options store callbacks nonce verified message w = (Ok (v, told, thrown), w') ->
  steady w' w'' ->
  let taken' := taken ++ [(w, w'', message)] in
  Forall (told_ok (mkConnection (Some nonce) taken')) told /\ (v = true -> authorized nonce taken').
Proof.
  intros Hw Hv H Hst taken'. assert (verified = true -> authorized nonce taken') as Hv'
    by (intros ?; by apply authorized_app, Hv).
  unfold take_message in H.
  destruct (bool_decide (name message = []) || _); [rewrite run_ret in H; by injection H as <- <- _ _|].
  destruct (bool_decide (name message = &"authz")) eqn:Ename.
  { breflect. apply run_bind_Ok in H as (checked & w1 & Hc & H). rewrite run_ret in H.
    destruct checked as [d|x]; injection H as <- <- _ <-; (split; [constructor|]); [|done].
    intros _. apply attempt_inl in Hc. exists w, w'', message, d. split; [set_solver|]. split; [done|].
    eapply accepted_steady; [reflexivity|exact Hst|]. by eapply verified_accepted. }
  destruct (bool_decide (name message = &"authz_expired"));
    [rewrite run_ret in H; by injection H as <- <- _ _|].
  destruct (negb verified || _) eqn:Ev; [rewrite run_ret in H; by injection H as <- <- _ _|].
  apply orb_false_iff in Ev as [Ev _]. apply negb_false_iff in Ev.
  apply run_bind_Ok in H as (checked & w1 & Hc & H). destruct checked as [e|x];
    [|rewrite run_ret in H; by injection H as <- <- _ _].
  apply run_bind_Ok in H as ([told1 thrown1] & w2 & Hh & H). rewrite run_ret in H.
  injection H as <- <- _ <-. split; [|done].
  apply attempt_inl in Hc. apply run_bind_Ok in Hc as (d & w3 & Hd & He).
  apply run_lift_Ok in He as [He ->].
  assert (steady w3 w2) as Hst2 by (eapply ran, Hh; apply steps_hand_over, _).
  eapply hand_over_told, Hh. exists nonce, taken, w, w'', message, d.
  split; [done|]. split; [by apply Hv|]. split; [|done].
  eapply accepted_steady; [reflexivity| |by eapply verified_accepted]. by etrans.
Qed.

Lemma connect_asked w r nonce w' : connect options store stream_options w = (Ok (r, nonce), w') ->
  exists device, asked_for_stream options w w' (stream_url_for options stream_options device) nonce.
Proof.
  intros H. unfold connect in H. apply run_bind_Ok in H as (url & w1 & Hu & H).
  assert (grows_to w w1) as Hg by (eapply ran, Hu; unfold stream_url; walk).
  unfold stream_url in Hu. apply run_bind_Ok in Hu as (device & w2 & _ & Hu).
  rewrite run_ret in Hu. injection Hu as <- <-.
  apply run_bind_Ok in H as ([s n] & w3 & Ho & H). apply run_bind_Ok in H as ([] & w4 & He & H).
  apply run_ensure_Ok in He as [_ ->]. rewrite run_ret in H. injection H as _ -> <-. exists device.
  apply open_update_stream_asked in Ho as (sent & earlier & H1 & H2 & H3). exists sent, earlier.
  split; [done|]. split; [|exact H3]. etrans; [apply Hg|exact H2].
Qed.

Lemma step_told conn c w c' told w' : trusted options w -> runner_ok conn c ->
  step options store stream_options callbacks c w = (Ok (c', told), w') ->
  record_ok conn (entries c w c' w' told) /\ runner_ok (foldl observe conn (entries c w c' w' told)) c'.
Proof.
  intros Hw Hc H.
  assert (forall conn told, Forall (told_ok conn) told -> (forall conn', runner_ok conn' c') ->
    record_ok conn (Told <$> told) /\ runner_ok (foldl observe conn (Told <$> told)) c') as Hend.
  { intros k t Ht Hr. split; [by apply record_ok_told|apply Hr]. }
  destruct c as [n|n nonce verified r| |]; cbn [step] in H.
  3, 4: rewrite run_ret in H; injection H as <- <- _; by apply Hend.
  - apply run_bind_Ok in H as (stop & w1 & Hs & H). destruct stop;
      [rewrite run_ret in H; injection H as <- <- _; by apply Hend|].
    apply run_bind_Ok in H as (opened & w2 & Ho & H). destruct opened as [[r nonce]|x].
    + rewrite run_ret in H. injection H as <- <- <-. cbn. split; [|done]. split; [|done].
      apply attempt_inl, connect_asked in Ho as (device & sent & earlier & H1 & H2 & H3).
      exists device, sent, earlier. split; [done|]. split; [|exact H3].
      etrans; [|exact H2]. assert (grows_to w w1) as [] by (eapply ran, Hs; unfold stop_requested; walk).
      done.
    + apply handle_leaves in H as Hl. apply (handle_told conn) in H as (Ht & Hr & _).
      unfold entries. destruct c'; try done; by apply Hend.
  - destruct Hc as [Hn Hv].
    apply run_bind_Ok in H as (stop & w1 & Hs & H). unfold entries, message_of. rewrite Hs.
    destruct stop; [rewrite run_ret in H; injection H as <- <- _; by apply Hend|].
    apply run_bind_Ok in H as (read & w2 & Hr & H).
    assert (trusted options w2) as Hw2.
    { assert (steps (keeps_trust options) (stop_requested ≫= fun _ => attempt (next_stream_event r))) as Ht
        by (unfold stop_requested; walk).
      specialize (Ht w Hw). by rewrite (run_ok_bind _ _ _ _ _ Hs), Hr in Ht. }
    destruct read as [[[message|] r']|x].
    + apply attempt_inl in Hr. rewrite Hr. destruct conn as [cn taken]. cbn in Hn, Hv. subst cn.
      apply run_bind_Ok in H as ([[v t] thrown] & w3 & Ht & H). cbn [foldl app observe cn_nonce cn_taken record_ok].
      destruct thrown as [x|].
      * apply run_bind_Ok in H as ([c1 t1] & w4 & Hh & H). rewrite run_ret in H. injection H as <- <- <-.
        apply (handle_told (mkConnection (Some nonce) (taken ++ [(w2, w4, message)])))
          in Hh as (Hh & Hok & Hst).
        eapply take_message_told in Ht as [Ht _]; [|done..|exact Hst].
        assert (Forall (told_ok (mkConnection (Some nonce) (taken ++ [(w2, w4, message)]))) (t ++ t1)) as Hall
          by by apply Forall_app.
        destruct (Hend _ _ Hall Hok) as [H1 H2]. split; [|exact H2]. split; [by eexists|exact H1].
      * rewrite run_ret in H. injection H as <- <- <-.
        eapply take_message_told in Ht as [Ht Hauth]; [|done..|reflexivity].
        apply record_ok_told in Ht as [H1 ->]. split; [|by split]. split; [by eexists|exact H1].
    + apply attempt_inl in Hr. rewrite Hr. apply (handle_told conn) in H as (Ht & Hok & _). by apply Hend.
    + assert (match next_stream_event r w1 with
              | (Ok (Some message, _), w2) => Some (message, w2) | _ => None end = None) as ->.
      { unfold attempt, try_catch in Hr. rewrite run_bind in Hr. destruct (next_stream_event r w1) as [[[[message|] r']|y] w3]; done. }
      apply (handle_told conn) in H as (Ht & Hok & _). by apply Hend.
Qed.

(** ** The states of a watched stream

    Turns of the runner, calls of [stop], and between them anything that keeps
    the client's state trusted, as all of its operations do; with the record
    of the stream. *)
Inductive stream_reach : WatchedStream -> World -> list Entry -> Prop :=
  | sr_start w : trusted options w -> stream_reach start_stream w []
  | sr_turn s w record s' told w' : stream_reach s w record ->
      stream_turn options store stream_options callbacks s w = (Ok (s', told), w') ->
      stream_reach s' w' (record ++ entries (ws_runner s) w (ws_runner s') w' told)
  | sr_stop s w record s' w' : stream_reach s w record -> stop_stream s w = (Ok s', w') ->
      stream_reach s' w' record
  | sr_others s w record w' : stream_reach s w record -> trusted options w' ->
      (w_stopped w = true -> w_stopped w' = true) -> stream_reach s w' record.

Lemma stream_turn_step s w s' told w' :
  stream_turn options store stream_options callbacks s w = (Ok (s', told), w') ->
  step options store stream_options callbacks (ws_runner s) w = (Ok (ws_runner s', told), w') /\
  ws_running s' = ws_running s && match ws_runner s' with Finished => false | _ => true end.
Proof.
  intros H. unfold stream_turn in H. apply run_bind_Ok in H as ([c t] & w1 & Hs & H).
  rewrite run_ret in H. by injection H as <- <- <-.
Qed.

Lemma stream_turn_ok s w : exists s' told w',
  stream_turn options store stream_options callbacks s w = (Ok (s', told), w').
Proof.
  destruct (returns_step options store stream_options callbacks (ws_runner s) w) as ([c told] & w' & H).
  unfold stream_turn. rewrite (run_ok_bind _ _ _ _ _ H). by eexists _, _, _.
Qed.

Record stream_ok (s : WatchedStream) (w : World) (record : list Entry) : Prop := {
  so_trusted : trusted options w;
  so_runner : runner_ok (connection record) (ws_runner s);
  so_record : record_ok no_connection record;
  so_finished : ws_runner s = Finished -> ws_running s = false;
  so_stopped : ws_running s = false -> ws_runner s = Finished \/ w_stopped w = true
}.

Lemma stream_reach_ok s w record : stream_reach s w record -> stream_ok s w record.
Proof.
  induction 1 as [w Hw|s w record s' told w' _ [Hw Hr Hl Hf Hs] Ht|s w record s' w' _ [Hw Hr Hl Hf Hs] Ht
    |s w record w' _ [Hw Hr Hl Hf Hs] Hw' Hk].
  - by split.
  - apply stream_turn_step in Ht as [Ht Hrun].
    destruct (step_told _ _ _ _ _ _ Hw Hr Ht) as [Htold Hr'].
    pose proof (steps_step (keeps_trust options) options store stream_options callbacks (ws_runner s) w Hw) as Hw'.
    pose proof (steps_step grows_to options store stream_options callbacks (ws_runner s) w) as Hg.
    rewrite Ht in Hw', Hg. split; [done| | | |].
    + unfold connection. by rewrite foldl_app.
    + by apply record_ok_app.
    + intros Hfin. by rewrite Hrun, Hfin, andb_false_r.
    + rewrite Hrun. destruct (ws_runner s') eqn:Es'; rewrite ?andb_true_r; try (by left);
        intros Hnr; (destruct (Hs Hnr) as [Hfin|Hst]; [|right; by apply Hg]);
        rewrite Hfin in Ht; discriminate Ht.
  - unfold stop_stream in Ht. rewrite run_bind in Ht. injection Ht as <- <-.
    split; try done; [by destruct Hw|by right].
  - split; try done. intros Hnr. destruct (Hs Hnr); auto.
Qed.

(** C11: whatever the network sends on an update stream, and however turns of
    the runner, stops and other operations of the client interleave: an event
    that reaches the event or the control callback was read from the message
    just taken from the open connection; a key that the client holds and the
    root certified signed the data of that message for the device of the
    client, for this release and for the nonce of this very connection, which
    the request that opened it carried in its header; and an earlier [authz]
    message of the same connection had been accepted in the same way.  The
    control callback is told only of shutdowns and maintenance; and the stream
    does not run once its runner has ended, and stops running only for that or
    for a requested stop. *)
Theorem deliveries_are_genuine s w record : stream_reach s w record ->
  (forall before d after, record = before ++ Told d :: after ->
     match d with
     | DEvent e => genuine_event (connection before) e
     | DControl e => genuine_event (connection before) e /\ control_event (ue_event_type e) = true
     | DError _ => True
     end) /\
  (forall before v v' nonce after, record = before ++ Opened v v' nonce :: after ->
     exists device,
       asked_for_stream options v v' (stream_url_for options stream_options device) nonce) /\
  (ws_runner s = Finished -> ws_running s = false) /\
  (ws_running s = false -> ws_runner s = Finished \/ w_stopped w = true).
Proof.
  intros H%stream_reach_ok. destruct H as [_ _ Hr Hf Hs]. split; [|split; [|by split]].
  - intros before d after ->. by apply record_ok_entry in Hr.
  - intros before v v' nonce after ->. by apply record_ok_entry in Hr.
Qed.

End Watching.

(** ** Debug decisions *)

(** What verified data must say to be taken for the decision [d]. *)
Record decides (ticket : DebugRequestTicket) (session_id : text) (data : Json)
    (d : DebugDecisionEvent) : Prop := {
  de_version : json_get_string data (&"version") true = Ok (&"debug_decision_v1");
  de_request : json_get_string data (&"request_id") true = Ok (dr_request_id ticket);
  de_session : exists hash, json_get_string data (&"session_id_hash") true = Ok hash /\
    lower_ascii hash = sha256_hex session_id;
  de_state : json_get_string data (&"status") true = Ok (dd_state d) /\
    dd_state d ∈ [&"pending"; &"approved"; &"rejected"; &"cancelled"];
  de_reason : json_get_string data (&"reason") false = Ok (dd_reason d);
  de_expires : exists expires, json_get_int64 data (&"expires_at") 0 = Ok expires /\ 0 < expires /\
    authorization_expires_at d = if bool_decide (dd_state d = &"approved") then expires else 0
}.

Lemma debug_decision_sound ticket session_id data d :
  debug_decision ticket (sha256_hex session_id) data = Ok d -> decides ticket session_id data d.
Proof.
  unfold debug_decision, optional_string. intros H. inv_ok.
  match goal with H : (if ?b then _ else _) = Ok _ |- _ => destruct b eqn:Eb; [done|]; injection H as <- end.
  breflect. subst. split; cbn; try done; eauto.
  split; [done|]. unfold final_state in *.
  match goal with H : _ && _ = false |- _ => apply andb_false_iff in H as [H|H]; breflect; set_solver end.
Qed.

(** [d] was read from data that was accepted between [w] and [w'], signed for
    [nonce]. *)
Definition genuine_decision (ticket : DebugRequestTicket) (session_id nonce : text) (w w' : World)
    (d : DebugDecisionEvent) : Prop :=
  exists body data, accepted options (stream_response body nonce) w w' data /\
    decides ticket session_id data d.

(** The decisions that a runner delivers, one after the other. *)
Definition decisions_ok (ticket : DebugRequestTicket) (session_id nonce : text) (w w' : World)
    (told : list DebugDecisionEvent) : Prop :=
  Forall (genuine_decision ticket session_id nonce w w') told /\
  Forall (fun d => final_state (dd_state d) = false) (removelast told).

Lemma genuine_steady ticket session_id nonce w0 w w' w'' d : w_tick w0 <= w_tick w -> steady w' w'' ->
  genuine_decision ticket session_id nonce w w' d -> genuine_decision ticket session_id nonce w0 w'' d.
Proof.
  intros Ht Hs (body & data & Ha & Hd). exists body, data. split; [|done]. by eapply accepted_steady.
Qed.

Lemma verify_stays_steady response : steps steady (verify_authz options store response).
Proof. intros w. apply verified_steady. Qed.
Hint Resolve verify_stays_steady : world.

Lemma steady_debug_turn ticket hash nonce f r : steps steady (debug_turn options store ticket hash nonce f r).
Proof. unfold debug_turn. repeat (walk; try (apply steps_attempt; [apply _|])). Qed.
Hint Resolve steady_debug_turn : world.

Lemma steady_debug_loop fuel ticket hash nonce f : forall r,
  steps steady (debug_loop options store fuel ticket hash nonce f r).
Proof. induction fuel; intros r; cbn [debug_loop]; unfold stop_requested; walk. Qed.

Lemma debug_turn_told ticket session_id nonce f r w told next w' : trusted options w ->
  debug_turn options store ticket (sha256_hex session_id) nonce f r w = (Ok (told, next), w') ->
  told = [] \/ exists d, told = [d] /\ genuine_decision ticket session_id nonce w w' d /\
    (forall r', next = inl (TurnMore r') -> final_state (dd_state d) = false).
Proof.
  intros Hw H. unfold debug_turn in H. apply run_bind_Ok in H as (read & w1 & Hr & H).
  pose proof (steps_attempt (keeps_trust options) _ (steps_next_event _ r) w Hw) as Hw1.
  pose proof (steps_attempt steady _ (steps_next_event _ r) w) as [Ht _ _ _].
  rewrite Hr in Hw1, Ht. cbn in Hw1, Ht.
  destruct read as [[[message|] r']|x]; [|rewrite run_ret in H; injection H as <- _ _; by left..].
  destruct (bool_decide _); [rewrite run_ret in H; injection H as <- _ _; by left|].
  destruct (negb _); [rewrite run_ret in H; injection H as <- _ _; by left|].
  apply run_bind_Ok in H as (checked & w2 & Hc & H).
  destruct checked as [d|x]; [|rewrite run_ret in H; injection H as <- _ _; by left].
  apply run_bind_Ok in H as (answer & w3 & Hcall & H). rewrite run_ret in H. injection H as <- <- <-.
  unfold called. destruct f as [f|]; [right|by left]. exists d. split; [done|]. split.
  - apply attempt_inl in Hc. apply run_bind_Ok in Hc as (data & w4 & Hv & Hd).
    apply run_lift_Ok in Hd as [Hd ->].
    assert (steady w4 w3) as Hst by (eapply ran, Hcall; walk).
    eapply genuine_steady; [exact Ht|exact Hst|]. eexists _, data.
    split; [by eapply verified_accepted|by apply debug_decision_sound].
  - intros r'' Hn. destruct answer; [|done]. by destruct (final_state (dd_state d)).
Qed.

Lemma debug_loop_told fuel : forall ticket session_id nonce f r w told next w', trusted options w ->
  debug_loop options store fuel ticket (sha256_hex session_id) nonce f r w = (Ok (told, next), w') ->
  decisions_ok ticket session_id nonce w w' told.
Proof.
  assert (forall ticket session_id nonce w w', decisions_ok ticket session_id nonce w w' []) as Hnil
    by by split.
  induction fuel as [|fuel IH]; intros ticket session_id nonce f r w told next w' Hw H; cbn [debug_loop] in H.
  { rewrite run_ret in H. by injection H as <- _ _. }
  apply run_bind_Ok in H as (stop & w1 & Hs & H). destruct stop;
    [rewrite run_ret in H; by injection H as <- _ _|].
  pose proof (steps_call (keeps_trust options) (fun n w => w_stopped w || env_stop n) w Hw) as Hw1.
  fold stop_requested in Hw1. rewrite Hs in Hw1. cbn in Hw1.
  assert (steady w w1) as Hst1 by (eapply ran, Hs; unfold stop_requested; walk).
  apply run_bind_Ok in H as ([t nx] & w2 & Ht & H).
  pose proof (steps_debug_turn (keeps_trust options) options store ticket (sha256_hex session_id) nonce f r w1 Hw1)
    as Hw2. rewrite Ht in Hw2. cbn in Hw2.
  pose proof (ran steady _ _ _ _ (steady_debug_turn _ _ _ _ _) Ht) as Hst2.
  apply debug_turn_told in Ht; [|done].
  assert (forall v, steady w2 v -> decisions_ok ticket session_id nonce w v t) as Htok.
  { intros v Hv. destruct Ht as [->|(d & -> & Hd & _)]; [done|]. split; [|constructor].
    constructor; [|constructor]. eapply genuine_steady; [apply Hst1|exact Hv|exact Hd]. }
  destruct nx as [[r'|]|x]; [|rewrite run_ret in H; injection H as <- _ <-; by apply Htok..].
  apply run_bind_Ok in H as ([t2 nx2] & w3 & H2 & H). rewrite run_ret in H. injection H as <- _ <-. cbn.
  pose proof (ran steady _ _ _ _ (steady_debug_loop _ _ _ _ _ _) H2) as Hst3.
  apply IH in H2 as [Hg Hl]; [|done]. destruct (Htok _ Hst3) as [Hg1 _].
  split; [apply Forall_app; split; [exact Hg1|]|].
  - eapply Forall_impl; [exact Hg|]. intros d Hd. eapply genuine_steady; [|reflexivity|exact Hd].
    destruct Hst1, Hst2. lia.
  - destruct Ht as [->|(d & -> & Hd & Hf)]; [done|]. cbn [app]. destruct t2 as [|d2 t2]; [constructor|].
    cbn [removelast] in *. constructor; [by eapply Hf|done].
Qed.

(** Where the decisions about a request come from. *)
Definition debug_events_url (ticket : DebugRequestTicket) : text :=
  absolute_web_url options (&"/api/v1/client/debug-requests/" ++ dr_request_id ticket ++ &"/events").

(** C12: the decisions about a debug request.  A decision reaches the callback
    only when a stream was opened for the request with the credentials that the
    client kept for it, by a request with a fresh nonce in its header; it was
    read from data that a key which the client holds and the root certified
    signed for the device of the client, for this release and for that nonce,
    and it names this request, the session that the client made for it and one
    of the four states; the expiry of the authorization is told for an approval
    only; nothing follows a final decision; and the kept credentials change in
    nothing but the entry of this request. *)
Theorem debug_decisions_genuine known ticket on_decision w told error known' w' :
  trusted options w ->
  watch_debug_request options store known ticket on_decision w = (Ok (told, error, known'), w') ->
  exists credentials, known !! dr_request_id ticket = Some credentials /\
    (told = [] \/ exists s nonce hash session_id w1,
       open_debug_stream options store ticket credentials w = (Ok (s, nonce, hash), w1) /\
       asked_for_stream options w w1 (debug_events_url ticket) nonce /\
       json_get_string credentials (&"session_id") true = Ok session_id /\
       decisions_ok ticket session_id nonce w1 w' told) /\
    (known' = known \/ known' = delete (dr_request_id ticket) known).
Proof.
  intros Hw H. unfold watch_debug_request in H. apply run_bind_Ok in H as (credentials & w1 & Hc & H).
  apply run_lift_Ok in Hc as [Hc ->]. apply of_option_Ok in Hc. exists credentials. split; [done|].
  unfold run_debug_watch in H. apply run_bind_Ok in H as (opened & w2 & Ho & H).
  assert (trusted options w2) as Hw2.
  { assert (steps (keeps_trust options) (attempt (open_debug_stream options store ticket credentials))) as Ht.
    { apply steps_attempt; [apply _|]. unfold open_debug_stream. walk. }
    specialize (Ht w Hw). by rewrite Ho in Ht. }
  destruct opened as [[[s nonce] hash]|x]; [|rewrite run_ret in H; injection H as <- _ <- _; auto].
  apply run_bind_Ok in H as ([t nx] & w3 & Hl & H). rewrite run_ret in H. injection H as <- _ <- <-. cbn.
  split; [|destruct nx as [[[]|]|]; auto]. right.
  apply attempt_inl in Ho. pose proof Ho as Hopen. unfold open_debug_stream in Ho.
  apply run_bind_Ok in Ho as ([s1 n1] & w4 & Hask & Ho). apply run_bind_Ok in Ho as ([] & w5 & He & Ho).
  apply run_ensure_Ok in He as [_ ->].
  apply run_bind_Ok in Ho as (session_id & w6 & Hs & Ho). apply run_lift_Ok in Hs as [Hs ->].
  rewrite run_ret in Ho. injection Ho as _ -> <- ->.
  exists s, nonce, (sha256_hex session_id), session_id, w2. split; [exact Hopen|].
  split; [by apply open_web_stream_asked in Hask|]. split; [done|]. by eapply debug_loop_told.
Qed.
End Delivery.
