(* ===== verification/Offline.v ===== *)
(** * The offline budget ([RequestPipeline::offline_locked] and
      [note_verified_interaction])

    The recorded time of the last verified interaction opens a window of
    24 hours; a client that comes back later than that is locked for good. *)
From S2P Require Import Prelude StdString Errors Codec Json Types Crypto Clock Keyring World.
From S2P Require Import Http StateStore Identity Policy Pipeline Send Trust.

(** ** The budget file *)

Lemma budget_fields_text install thumbprint now :
  nl ∉ install -> nl ∉ thumbprint -> 0 <= now ->
  budget_fields (budget_text install thumbprint now) = Some (install, thumbprint, to_string now).
Proof.
  intros Hi Ht Hn. unfold budget_fields, budget_text.
  cbn [app]. rewrite getline_app by (apply (bool_decide_eq_false (_ ∈ _)); vm_compute; done).
  cbn [mbind option_bind]. rewrite getline_app by done.
  cbn [mbind option_bind]. rewrite getline_app by done.
  cbn [mbind option_bind]. rewrite getline_app by by apply to_string_notin.
  cbn [mbind option_bind]. by rewrite bool_decide_true.
Qed.

Lemma now_ms_range c tick : - 2 ^ 63 <= now_unix_ms c tick < 2 ^ 63.
Proof.
  unfold now_unix_ms. repeat case_match; [lia|lia|apply i64_range].
Qed.

Section Offline.
Context `{C : Crypto} `{J : JsonLib} `{E : Env}.
Context (options : ClientOptions) (store : StateStore).

(** The time a client reads now. *)
Definition now_in (w : World) : Z := now_unix_ms (w_clock w) (w_tick w).

(** Whether [now] is inside the window that [last] opened. *)
Definition in_window (last now : Z) : bool :=
  bool_decide (0 < now) && bool_decide (last <= now <= last + maximum_offline_ms).

(** What the file says of [identity]: the time of its last interaction. *)
Definition budget_of (identity : DeviceIdentity) (plaintext : option Bytes) : option Z :=
  '(install, thumbprint, milliseconds) ← plaintext ≫= budget_fields;
  if bool_decide (install = id_install_id identity) &&
     bool_decide (thumbprint = id_key_thumbprint identity)
  then stoll milliseconds else None.

Lemma recorded_cached plaintext w identity : p_identity (w_pipe w) = Some identity ->
  exists line, recorded_time options store plaintext w = (Ok line, w) /\
    line ≫= stoll = budget_of identity plaintext.
Proof.
  intros H. unfold recorded_time, budget_of.
  destruct (plaintext ≫= budget_fields) as [[[install thumbprint] ms]|]; cbn; [|by eexists].
  rewrite run_bind, (get_identity_cached options store _ _ H). cbn. eexists. split; [done|].
  by destruct (_ && _).
Qed.

(** [offline_locked] of a client whose identity is loaded. *)
Lemma offline_locked_run w identity plaintext : p_identity (w_pipe w) = Some identity ->
  (read_protected store offline_file w).1 = Ok plaintext ->
  exists w', offline_locked options store w =
    (Ok (p_offline_latched (w_pipe w) ||
         match budget_of identity plaintext with
         | None => true
         | Some last => (last <=? 0) || negb (in_window last (now_in (advance 0 w)))
         end), w').
Proof.
  intros Hi Hr. unfold offline_locked. rewrite run_bind. cbn [get_pipe].
  destruct (p_offline_latched (w_pipe w)); [by eexists|].
  destruct (read_protected_run store offline_file w) as [r Hrun].
  rewrite Hrun in Hr. injection Hr as ->. rewrite run_bind, Hrun, run_bind.
  destruct (recorded_cached plaintext (advance 0 w) identity Hi) as (line & -> & ->).
  cbn [orb]. destruct (budget_of identity plaintext) as [last|]; [|by eexists].
  destruct (last <=? 0) eqn:El; [by eexists|]. cbn [orb].
  unfold now_ms_m, tick_ms, call. rewrite !run_bind. cbn [get_world]. rewrite !run_ret.
  eexists. f_equal. f_equal.
  pose proof (now_ms_range (w_clock w) (w_tick (advance 0 w))) as Hn.
  unfold in_window, now_in, maximum_offline_ms. breflect.
  change (w_clock (advance 0 (advance 0 w))) with (w_clock w).
  change (w_clock (advance 0 w)) with (w_clock w).
  set (now := now_unix_ms _ _) in *.
  destruct (now <=? 0) eqn:E1; breflect; [rewrite (bool_decide_false (0 < now)) by lia; done|].
  rewrite (bool_decide_true (0 < now)) by lia. cbn [orb negb andb].
  destruct (now <? last) eqn:E2; breflect; cbn [orb]; [rewrite bool_decide_false by lia; done|].
  rewrite u64_small by lia. case_bool_decide; cbn; [apply Z.ltb_ge|apply Z.ltb_lt]; lia.
Qed.

(** [note_verified_interaction] latches an overrun and records the time. *)
Lemma note_run w identity plaintext : p_identity (w_pipe w) = Some identity ->
  0 < now_in w -> (read_protected store offline_file (advance 0 w)).1 = Ok plaintext ->
  let overrun := match budget_of identity plaintext with
                 | Some last => (0 <? last) && (last <=? now_in w) &&
                                (maximum_offline_ms <? now_in w - last)
                 | None => false
                 end in
  exists w1, w_files w1 = w_files w /\ w_pipe w1 =
      (if overrun then with_latched true (w_pipe w) else w_pipe w) /\
    note_verified_interaction options store w =
    write_protected store offline_file
      (budget_text (id_install_id identity) (id_key_thumbprint identity) (now_in w)) w1.
Proof.
  intros Hi Hn Hr overrun. unfold note_verified_interaction, now_ms_m, tick_ms, call.
  rewrite !run_bind. cbn [get_world]. rewrite run_ret.
  change (now_unix_ms (w_clock (advance 0 w)) (w_tick w)) with (now_in w).
  rewrite (proj2 (Z.leb_gt _ _)) by lia.
  destruct (read_protected_run store offline_file (advance 0 w)) as [r Hrun].
  rewrite Hrun in Hr. injection Hr as ->. rewrite run_bind, Hrun, run_bind.
  destruct (recorded_cached plaintext (advance 0 (advance 0 w)) identity Hi) as (line & -> & ->).
  pose proof (now_ms_range (w_clock w) (w_tick w)) as Hrange. fold (now_in w) in Hrange.
  assert ((0 <? default 0 (budget_of identity plaintext)) &&
    (default 0 (budget_of identity plaintext) <=? now_in w) &&
    (maximum_offline_ms <? u64 (now_in w - default 0 (budget_of identity plaintext))) = overrun) as ->.
  { unfold overrun. destruct (budget_of identity plaintext) as [last|]; cbn; [|done].
    destruct (0 <? last) eqn:E1, (last <=? now_in w) eqn:E2; breflect; cbn; try done.
    by rewrite u64_small by lia. }
  destruct overrun; (erewrite run_ok_bind by reflexivity);
    (erewrite (run_ok_bind (get_identity options store) _ _ identity);
     [|by apply get_identity_cached]).
  - exists (set_pipe (with_latched true (w_pipe w)) (advance 0 (advance 0 w))). done.
  - exists (advance 0 (advance 0 w)). done.
Qed.

(** C28: a verified interaction opens a window of exactly 24 hours.  After
    [note_verified_interaction] returned at the trusted time [now], a client
    with the same identity, the file untouched, is unlocked if and only if no
    overrun was latched and its trusted time is between [now] and 24 hours
    later; a clock that is behind [now] or not set locks it. *)
Theorem offline_budget_window `{!Dpapi} w w1 identity w2 :
  (forall n k, env_write n <> FlushLost k) ->
  p_identity (w_pipe w) = Some identity ->
  nl ∉ id_install_id identity -> nl ∉ id_key_thumbprint identity ->
  0 < now_in w ->
  note_verified_interaction options store w = (Ok tt, w1) ->
  (forall c, w_files w1 !! store_path store offline_file = Some c -> 0 < zlen c <= 1024 * 1024) ->
  w_files w2 !! store_path store offline_file = w_files w1 !! store_path store offline_file ->
  p_identity (w_pipe w2) = Some identity -> env_read_ok (w_step w2) = true ->
  exists w3, offline_locked options store w2 =
    (Ok (p_offline_latched (w_pipe w2) || negb (in_window (now_in w) (now_in (advance 0 w2)))), w3).
Proof.
  intros Hflush Hi Hin Htn Hnow Hnote Hsize Hfile Hi2 Hok.
  destruct (read_protected_run store offline_file (advance 0 w)) as [plaintext Hr].
  destruct (note_run w identity plaintext) as (w0 & _ & _ & Hrun); [done|done|by rewrite Hr|].
  rewrite Hnote in Hrun. symmetry in Hrun.
  pose proof (write_protected_target store offline_file (budget_text (id_install_id identity)
    (id_key_thumbprint identity) (now_in w)) w0) as Ht. rewrite Hrun in Ht.
  destruct Ht as (c & Hc & Hf). destruct (env_write _) as [|k|k] eqn:Ew; [|done|by apply Hflush in Ew].
  destruct (offline_locked_run w2 identity (Some (budget_text (id_install_id identity)
    (id_key_thumbprint identity) (now_in w)))) as (w3 & ->); [done| |].
  - apply Hsize in Hf as Hs. unfold read_protected, call. cbn. rewrite Hfile, Hf.
    rewrite (proj2 (Z.leb_gt _ _)), (proj2 (Z.ltb_ge _ _)), Hok by lia. cbn.
    by rewrite (unprotect_protect _ _ _ _ Hc).
  - exists w3. f_equal. f_equal. f_equal. unfold budget_of. cbn [mbind option_bind].
    rewrite budget_fields_text by first [done|lia]. cbn [mbind option_bind].
    rewrite !bool_decide_true by done. cbn [andb].
    pose proof (now_ms_range (w_clock w) (w_tick w)) as Hrange. fold (now_in w) in Hrange.
    pose proof (stoll_to_string (now_in w) []) as Hs. rewrite app_nil_r in Hs. rewrite Hs by done.
    by rewrite (proj2 (Z.leb_gt _ _)) by lia.
Qed.

(** ** The latch *)

Definition latch_stays (w w' : World) : Prop :=
  p_offline_latched (w_pipe w) = true -> p_offline_latched (w_pipe w') = true.

#[local] Instance latch_stays_inner : Inner latch_stays.
Proof.
  split; [split; [split; [split|]|..]|]; try (intros ?? H; exact H).
  - by intros w H.
  - intros w1 w2 w3 H1 H2 H. by apply H2, H1.
Qed.

Lemma latch_put f : (forall p, p_offline_latched p = true -> p_offline_latched (f p) = true) ->
  steps latch_stays (put_pipe f).
Proof. intros Hf. apply steps_modify. intros w H. by apply Hf. Qed.

Lemma latch_clock c : steps latch_stays (modify (set_clock c)).
Proof. apply steps_modify. by intros w H. Qed.

Lemma latch_lock fuel deadline : steps latch_stays (lock_refresh fuel deadline).
Proof. induction fuel as [|fuel IH]; cbn [lock_refresh]; walk. Qed.
Hint Resolve latch_clock latch_lock : world.
Hint Extern 2 (steps latch_stays (put_pipe _)) => apply latch_put; done : world.

Lemma latch_note : steps latch_stays (note_verified_interaction options store).
Proof. unfold note_verified_interaction. walk. Qed.
Hint Resolve latch_note : world.
Lemma latch_time : steps latch_stays (refresh_trusted_time options store).
Proof. unfold refresh_trusted_time. walk. Qed.
Hint Resolve latch_time : world.
Lemma latch_keys force : steps latch_stays (refresh_online_keys options store force).
Proof.
  unfold refresh_online_keys, with_clock_and_ring, refresh_online_keys_core, send_timed. walk.
Qed.
Hint Resolve latch_keys : world.
Lemma latch_send request : steps latch_stays (send options store request).
Proof. unfold send. walk. Qed.
Hint Resolve latch_send : world.
Lemma latch_verify response : steps latch_stays (verify_authz options store response).
Proof. unfold verify_authz, check_authz. walk. Qed.
Hint Resolve latch_verify : world.

Lemma latch_perform o w : latch_stays w (perform options store o w).
Proof.
  destruct o; cbn [perform].
  - apply latch_time.
  - apply latch_keys.
  - apply latch_send.
  - apply latch_verify.
  - apply (steps_bind latch_stays _ _ (latch_send _) latch_verify).
  - apply latch_note.
  - revert w. change (steps latch_stays (offline_locked options store)). unfold offline_locked. walk.
  - revert w. change (steps latch_stays clear_session). unfold clear_session. walk.
Qed.

(** A client that interacts again more than 24 hours after its recorded
    interaction is latched, and no later operation unlocks it, although that
    interaction renewed the recorded time. *)
Theorem overrun_locks_for_good w identity plaintext last ops :
  p_identity (w_pipe w) = Some identity ->
  (read_protected store offline_file (advance 0 w)).1 = Ok plaintext ->
  budget_of identity plaintext = Some last -> 0 < last ->
  last + maximum_offline_ms < now_in w ->
  let w1 := (note_verified_interaction options store w).2 in
  let w2 := foldl (fun w o => perform options store o w) w1 ops in
  offline_locked options store w2 = (Ok true, w2).
Proof.
  intros Hi Hr Hb Hlast Hnow w1 w2.
  assert (p_offline_latched (w_pipe w2) = true) as Hl; last first.
  { unfold offline_locked. rewrite run_bind. cbn. by rewrite Hl. }
  assert (p_offline_latched (w_pipe w1) = true) as Hl.
  { unfold w1. unfold maximum_offline_ms in Hnow.
    destruct (note_run w identity plaintext) as (w0 & _ & Hp & ->); [done|lia|done|].
    rewrite Hb in Hp. unfold maximum_offline_ms in Hp.
    rewrite !(proj2 (Z.ltb_lt _ _)), (proj2 (Z.leb_le _ _)) in Hp by lia. cbn in Hp.
    pose proof (steps_write_protected latch_stays store offline_file (budget_text
      (id_install_id identity) (id_key_thumbprint identity) (now_in w)) w0) as H.
    apply H. by rewrite Hp. }
  unfold w2. clear w2. revert Hl. generalize w1. clear w1.
  induction ops as [|o ops IH]; intros w1 Hl; [done|]. apply IH. by apply latch_perform.
Qed.

End Offline.
