(* ===== verification/Demo.v ===== *)
(** * A worked session

    A server that signs, and a client that sets its clock, fetches the online
    key, sends an encrypted request and accepts the answer.  The theorems of
    [Trust] and [Offline] are applied to this run, and the run shows what the
    verification of a response does with a repeated member. *)
From S2P Require Import Prelude StdString Errors Codec Json MiniJson Types Crypto MiniCrypto.
From S2P Require Import Clock Keyring World Http StateStore MiniEnv Identity Policy Pipeline.
From S2P Require Import Send Trust Offline.

Definition demo_app : text := &"6f9619ff-8b86-d011-b42d-00cf4fc964ff".
Definition demo_release : text := &"0f8fad5b-d9cb-469f-a165-70867728950e".

Definition demo_options : ClientOptions := {|
  base_url := &"https://api.example/"; web_base_url := []; app_id := demo_app;
  release_id := demo_release; version := &"1.0.0"; version_code := Some 7;
  root_trust_key_id := &"root"; root_trust_public_key := hex_lower demo_key;
  channel := &"stable"; platform := &"windows"; arch := &"x64"; opt_device_id := &"dev";
  storage_directory := []; allow_insecure_http := false; host_integrity := no_host_integrity
|}.

Definition online_key : Bytes := bz <$> seqZ 50 32.
Definition server_ms : Z := 1700000000000.
Definition server_seconds : Z := 1700000000.

Definition signed_by (key message : Bytes) : text := hex_lower (mini_sign key message).

Definition str_fields (l : list (text * text)) : list (text * Json) :=
  (fun '(k, v) => (k, JString v)) <$> l.

(** ** The answers of the server *)

Definition time_answer (nonce : text) : text :=
  let t := mkSignedTime (&"server_time_v1") demo_app demo_release nonce (&"root") [] server_ms
             (server_ms + 60000) in
  mini_dump (json_object (str_fields
    [(&"manifest_version", tm_version t); (&"app_id", tm_app_id t); (&"release_id", tm_release_id t);
     (&"nonce", nonce); (&"root_trust_key_id", tm_root_key t);
     (&"signature", signed_by demo_key (time_canonical t))] ++
    [(&"server_time_ms", JInt server_ms); (&"expires_at_ms", JInt (server_ms + 60000))])).

Definition demo_manifest : KeyManifest :=
  mkKeyManifest (&"online_key_manifest_v1") (&"online_body") demo_app demo_release (&"k1")
    (hex_lower online_key) (&"root") [] server_seconds (server_seconds + 86400).

Definition keys_answer : text :=
  let m := demo_manifest in
  mini_dump (json_object (str_fields
    [(&"manifest_version", km_version m); (&"purpose", km_purpose m); (&"app_id", km_app_id m);
     (&"release_id", km_release_id m); (&"key_id", km_key_id m); (&"public_key", km_public_key m);
     (&"root_trust_key_id", km_root_id m);
     (&"root_trust_signature", signed_by demo_key (manifest_canonical m))] ++
    [(&"issued_at", JInt (km_issued_at m)); (&"refresh_after", JInt (km_refresh_after m))])).

(** The authorization of [data] for a nonce. *)
Definition unsigned_authz (nonce data : text) : Authz :=
  mkAuthz (&"authz_v3") (&"allow") demo_release (&"dev") nonce (hex_lower (mini_sha256 data)) (&"k1") []
    (&"s1") [] server_seconds (server_seconds + 600).

Definition demo_authz (nonce data : text) : Authz :=
  mkAuthz (&"authz_v3") (&"allow") demo_release (&"dev") nonce (hex_lower (mini_sha256 data)) (&"k1") []
    (&"s1") (signed_by online_key (authz_canonical demo_options (unsigned_authz nonce data)))
    server_seconds (server_seconds + 600).

Definition authz_answer (nonce data : text) : text :=
  let a := demo_authz nonce data in
  mini_dump (json_object (str_fields
    [(&"version", az_version a); (&"decision", az_decision a); (&"release_id", az_release a);
     (&"device_id", az_device a); (&"nonce", nonce); (&"data_sha256", az_data_hash a);
     (&"key_id", az_key_id a); (&"session", az_session a); (&"signature", az_signature a)] ++
    [(&"issued_at", JInt (az_issued_at a)); (&"expires_at", JInt (az_expires_at a))])).

Definition demo_data : text := jtext "{'update':false}".

(** A carrier, whose last member may repeat [data]. *)
Definition carrier (nonce data again : text) : text :=
  jtext "{'data':" ++ data ++ jtext ",'authz':" ++ authz_answer nonce data ++ again ++ &"}".

Definition demo_server (again : text) : Server := fun _ r =>
  let nonce := default [] (header_get (&"X-Nonce") (rq_headers r)) in
  let body :=
    if bool_decide (rq_url r = &"https://api.example/api/client/time") then time_answer nonce
    else if bool_decide (rq_url r = &"https://api.example/api/client/key-manifest") then keys_answer
    else carrier nonce demo_data again in
  (200, [], body).

Definition honest : Env := mini_env (demo_server []) (fun _ => Written).
Definition evil_data : text := jtext "{'update':true}".
Definition repeating : Env :=
  mini_env (demo_server (jtext ",'data':" ++ evil_data)) (fun _ => Written).

Definition demo_request : ProtocolRequest :=
  mkProtocolRequest (&"POST") (&"/api/client/check") UpdateCheck (&"{}") true false true true
    json_content_type [] [].

(** ** The run *)

#[local] Existing Instance mini_crypto.
#[local] Existing Instance mini_json.

Notation sent_run E := (send (E := E) demo_options demo_store demo_request start_world).
Notation demo_run E := (send_and_verify (E := E) demo_options demo_store demo_request start_world).

(** Three requests go out, and the session of the authorization is kept. *)
Example demo_run_ok :
  (demo_run honest).1 = Ok (JObject [(&"update", JBool false)]) /\
  (rq_url ∘ sent_input) <$> reverse (w_sent (demo_run honest).2) =
    [&"https://api.example/api/client/time"; &"https://api.example/api/client/key-manifest";
     &"https://api.example/api/client/check"] /\
  p_session (w_pipe (demo_run honest).2) = Some (&"s1").
Proof. split_and!; vm_compute; reflexivity. Qed.

(** A response may carry [data] twice.  The hash of the authorization is
    compared with the text of the first, while the data returned is the
    parser's, the last: data that nobody signed is returned as verified. *)
Theorem repeated_data_is_accepted :
  match (sent_run repeating).1 with
  | Ok response => extract_json_member_raw (pr_body response) (&"data") = Some demo_data
  | Throw _ => False
  end /\
  json_parse false demo_data = inl (JObject [(&"update", JBool false)]) /\
  (demo_run repeating).1 = Ok (JObject [(&"update", JBool true)]).
Proof. split_and!; vm_compute; reflexivity. Qed.

(** ** The theorems on this run *)

Definition demo_world : World :=
  perform (E := honest) demo_options demo_store (op_send_and_verify demo_request) start_world.

Lemma demo_start : reach (E := honest) demo_options demo_store start_world.
Proof. by apply reach_fresh. Qed.

Lemma demo_reach : reach (E := honest) demo_options demo_store demo_world.
Proof. exact (reach_perform _ _ (op_send_and_verify demo_request) start_world demo_start). Qed.

Lemma reachable_trusted_witness :
  exists a key, certified demo_options key /\ key_id key = az_key_id a /\
    ed25519_verify (public_key key) (authz_canonical demo_options a) (az_signature a) = Ok true /\
    az_decision a = &"allow" /\ az_session a = &"s1" /\
    p_session_expires_at (w_pipe demo_world) = az_expires_at a.
Proof.
  apply (reachable_trusted (E := honest) demo_options demo_store demo_world demo_reach).
  vm_compute. reflexivity.
Defined.

Lemma demo_sent : exists response w1, sent_run honest = (Ok response, w1).
Proof.
  assert (is_ok (sent_run honest).1 = true) as H by (vm_compute; reflexivity).
  destruct (sent_run honest) as [[r|x] w1]; [by eexists _, _|discriminate H].
Qed.

Lemma accepted_data_is_authentic_witness :
  exists response w1 device a raw_data key,
    goes_by demo_options (demo_run honest).2 device /\
    authentic demo_options response device w1 (JObject [(&"update", JBool false)]) a raw_data key /\
    certified demo_options key.
Proof.
  destruct demo_sent as (response & w1 & H). exists response, w1.
  destruct (accepted_data_is_authentic (E := honest) demo_options demo_store start_world demo_request
    response w1) as [Hok _].
  - apply (reach_trusted (E := honest) _ _ _ demo_start).
  - exact H.
  - destruct (Hok (JObject [(&"update", JBool false)])) as (device & a & raw & key & Hg & Ha & Hc & _).
    + vm_compute. reflexivity.
    + exists device, a, raw, key. exact (conj Hg (conj Ha Hc)).
Defined.

(** A client in the middle of a session. *)
Definition demo_identity : DeviceIdentity :=
  mkIdentity demo_app (&"install-1") (&"key-1") (&"kid-1") (&"thumb-1") [] (&"dev") true.

Definition client_world : World :=
  mkWorld 0 1000 false ∅ ∅ (mkClock true server_ms 900)
    (mkPipe (mkRing (Some (mkKey (&"k1") (hex_lower online_key) server_seconds
                             (server_seconds + 86400))) [])
       None 0 false false (Some demo_identity) None None) [].

Definition demo_response : ProtocolResponse :=
  mkResponse 200 (carrier (&"n1") demo_data []) (&"n1") [].

Lemma check_authz_iff_witness : exists raw_data key,
  authentic demo_options demo_response (&"dev") client_world (JObject [(&"update", JBool false)])
    (demo_authz (&"n1") demo_data) raw_data key.
Proof.
  apply (check_authz_iff (E := honest) demo_options demo_store demo_response client_world (&"dev")
    (advance (E := honest) 0 client_world)); [reflexivity|]. vm_compute. reflexivity.
Defined.

(** ** The offline budget *)

Lemma readable_size (file : option Bytes) :
  match file with Some c => (0 <? zlen c) && (zlen c <=? 1024 * 1024) | None => true end = true ->
  forall c, file = Some c -> 0 < zlen c <= 1024 * 1024.
Proof. intros H c ->. breflect. lia. Qed.

Definition noted_world : World :=
  (note_verified_interaction (E := honest) demo_options demo_store client_world).2.
Definition later (ms : Z) : World := (sleep_for (E := honest) ms noted_world).2.

(** Twenty hours after a verified interaction the client is unlocked. *)
Lemma offline_budget_window_witness : exists w3,
  offline_locked (E := honest) demo_options demo_store (later (20 * 60 * 60 * 1000)) = (Ok false, w3).
Proof.
  destruct (offline_budget_window (E := honest) demo_options demo_store client_world noted_world
    demo_identity (later (20 * 60 * 60 * 1000))) as [w3 H].
  - done.
  - reflexivity.
  - apply (bool_decide_eq_false (_ ∈ _)). vm_compute. reflexivity.
  - apply (bool_decide_eq_false (_ ∈ _)). vm_compute. reflexivity.
  - vm_compute. reflexivity.
  - vm_compute. reflexivity.
  - apply readable_size. vm_compute. reflexivity.
  - vm_compute. reflexivity.
  - vm_compute. reflexivity.
  - vm_compute. reflexivity.
  - exists w3. rewrite H. vm_compute. reflexivity.
Defined.

(** Thirty hours after, an interaction locks it, whatever follows. *)
Lemma overrun_locks_for_good_witness :
  let w1 := (note_verified_interaction (E := honest) demo_options demo_store
               (later (30 * 60 * 60 * 1000))).2 in
  let w2 := foldl (fun w o => perform (E := honest) demo_options demo_store o w) w1
              [op_verify demo_response; op_note; op_clear] in
  offline_locked (E := honest) demo_options demo_store w2 = (Ok true, w2).
Proof.
  apply (overrun_locks_for_good (E := honest) demo_options demo_store (later (30 * 60 * 60 * 1000))
    demo_identity (Some (budget_text (&"install-1") (&"thumb-1") (server_ms + 100)))
    (server_ms + 100) [op_verify demo_response; op_note; op_clear]); vm_compute; reflexivity.
Defined.
