(* ===== verification/RotateDemo.v ===== *)
(** * A key rotation, worked through

    A server that asks for a proof and then accepts the new key; the theorem
    of [Rotate] on that run, and the run in which the disk refuses the metadata
    of the new identity. *)
From S2P Require Import Prelude StdString Errors Codec Json MiniJson Types Crypto MiniCrypto.
From S2P Require Import Clock Keyring World Http StateStore MiniEnv Identity Policy Pipeline.
From S2P Require Import Send Web Rotate Trust Demo.

#[local] Existing Instance mini_crypto.
#[local] Existing Instance mini_json.

Definition rotating_store : StateStore :=
  mkStore demo_app (&"C:\s") (mini_sha256 (&"SwmSdkStateV2" ++ [nl] ++ demo_app)).

Definition session_world : World :=
  set_pipe (with_session (Some (&"s1")) (server_seconds + 600) (w_pipe client_world)) client_world.

(** The identity that the rotation will make in this world. *)
Definition expected_pending : DeviceIdentity :=
  let E := mini_env quiet (fun _ => Written) in
  match (_ ← prepare (E := E) demo_options rotating_store; create_pending (E := E) demo_app)
          session_world with
  | (Ok i, _) => i
  | _ => demo_identity
  end.

Definition rotated_answer : text :=
  mini_dump (json_object (str_fields
    [(&"registration_id", &"reg-1"); (&"install_id", id_install_id expected_pending);
     (&"key_id", id_key_id expected_pending)] ++ [(&"rotated", JBool true)])).

Definition challenge_answer : text :=
  mini_dump (json_object (str_fields
    [(&"challenge", &"c-1"); (&"proof_digest", hex_lower (mini_sha256 (&"proof")))])).

(** The first announcement is answered by a challenge. *)
Definition rotation_server (first : nat) : Server := fun n _ =>
  if bool_decide (n <= first)%nat then (428, [], challenge_answer) else (200, [], rotated_answer).

Definition first_call : nat := 40.

Definition rotating_env (writes : nat -> WriteOutcome) : Env :=
  mini_env (rotation_server first_call) writes.

Definition rotation (writes : nat -> WriteOutcome) : Result DeviceKeyRotationResult * World :=
  rotate_device_key (E := rotating_env writes) demo_options rotating_store session_world.

(** The rotation succeeds at the second announcement. *)
Example rotation_succeeds :
  let run := rotation (fun _ => Written) in
  length (w_sent run.2) = 2%nat /\
  rot_key_id <$> run.1 = Ok (id_key_id expected_pending).
Proof. split; vm_compute; reflexivity. Qed.

Lemma rotating_protect_size writes n p c : zlen p <= 1024 ->
  env_protect (Env := rotating_env writes) n (entropy_ rotating_store) p = Some c ->
  0 < zlen c <= 1024 * 1024.
Proof.
  intros Hp H. assert (c = entropy_ rotating_store ++ p) as -> by by injection H.
  rewrite zlen_app. pose proof (zlen_nonneg p).
  change (zlen (entropy_ rotating_store)) with 32. lia.
Qed.

Lemma rotating_opened :
  app_id demo_options <> [] /\ directory_ rotating_store <> [] /\
  env_absolute (Env := rotating_env (fun _ => Written)) (directory_ rotating_store) =
    directory_ rotating_store /\
  entropy_ rotating_store =
    sha256 (C := mini_crypto) (&"SwmSdkStateV2" ++ [nl] ++ app_id demo_options).
Proof. split_and!; try discriminate; vm_compute; reflexivity. Qed.

Lemma rotation_all_or_nothing_witness :
  exists result w' new,
    rotation (fun _ => Written) = (Ok result, w') /\
    stored_identity (C := mini_crypto) (E := rotating_env (fun _ => Written)) demo_app
      rotating_store w' new /\
    rot_key_id result = id_key_id new.
Proof.
  pose proof (rotation_all_or_nothing (E := rotating_env (fun _ => Written)) demo_options
    rotating_store rotating_opened (rotating_protect_size _) demo_identity session_world
    ltac:(reflexivity)) as [_ H].
  assert (is_ok (rotation (fun _ => Written)).1 = true) as Hok by (vm_compute; reflexivity).
  unfold rotation in Hok |- *.
  destruct (rotate_device_key _ _ _) as [[result|x] w']; [|discriminate Hok].
  destruct H as (new & (_ & [Hst|(n & k & c & _ & Hcut & _)] & _) & _ & Hid); [|discriminate Hcut].
  exists result, w', new. split; [reflexivity|]. exact (conj Hst Hid).
Defined.

(** The server has accepted the new key, and the metadata cannot be written:
    the new key is deleted, and the device keeps a key that the server has
    replaced. *)
Theorem commit_failure_loses_key :
  let run := rotation (fun _ => WriteFailed 0) in
  (rq_url ∘ sent_input) <$> w_sent run.2 =
    (fun _ => &"https://api.example/api/client/device-key/rotate") <$> [1%nat; 2%nat] /\
  run.1 = Throw (err Identity 0 [] (&"cannot write SDK state")) /\
  w_keys run.2 = ∅ /\ p_identity (w_pipe run.2) = Some demo_identity.
Proof. split_and!; vm_compute; reflexivity. Qed.
