(* ===== verification/FetchDemo.v ===== *)
(** * Downloads, worked through

    A resumed and redirected download with the theorems of [Fetch] on it, and a
    complete partial file that can never be finished. *)
From S2P Require Import Prelude StdString Errors Codec Json MiniJson Types Crypto MiniCrypto.
From S2P Require Import Clock Keyring World Http StateStore MiniEnv Identity Policy Pipeline.
From S2P Require Import Send Web Trust Demo RotateDemo Download Fetch.

#[local] Existing Instance mini_crypto.
#[local] Existing Instance mini_json.

Definition destination : path := &"D:\setup.exe".
Definition cdn_url : text := &"https://cdn.example/setup".

Definition header_text (n v : text) : text := n ++ &": " ++ v ++ crlf.

(** The service redirects to storage, which has the seven bytes and answers
    a range that starts at their end with 416, as HTTP wants it. *)
Definition artifact_server : Server := fun _ r =>
  if bool_decide (rq_url r = cdn_url) then
    match header_get (&"range") (rq_headers r) with
    | None => (200, header_text (&"content-length") (&"7") ++ crlf, &"payload")
    | Some v =>
        if bool_decide (v = &"bytes=3-")
        then (206, header_text (&"content-range") (&"bytes 3-6/7") ++ crlf, &"load")
        else (416, header_text (&"content-range") (&"bytes */7") ++ crlf, &"range")
    end
  else (302, header_text (&"location") cdn_url ++ crlf, []).

Definition artifact_env : Env := mini_env artifact_server (fun _ => Written).

Definition with_part (content : Bytes) : World :=
  set_files (<[destination := &"old"]> {[part_file destination := content]}) session_world.

Definition download (w : World) : Result unit * World :=
  download_update (E := artifact_env) Download.demo_options demo_store None (demo_update (&"file"))
    destination w.

Lemma destination_outside : outside demo_store destination.
Proof. intros name. split; discriminate. Qed.

Lemma download_verified_witness :
  exists content,
    file_at destination (download (with_part (&"pay"))).2 = Some content /\
    verified_artifact (E := artifact_env) (demo_update (&"file")) content.
Proof.
  pose proof (download_verified (E := artifact_env) Download.demo_options demo_store None
    (demo_update (&"file")) destination destination_outside (with_part (&"pay"))) as H.
  unfold download_outcome in H. fold (download (with_part (&"pay"))) in H.
  assert (is_ok (download (with_part (&"pay"))).1 = true) as Hok by (vm_compute; reflexivity).
  destruct (download _).1; [exact (proj2 H)|discriminate Hok].
Defined.

(** The two requests of that download, the newest first: only the one to the
    service carries the session. *)
Example download_requests :
  (fun r : SentRequest => (rq_url r, header_get (&"x-swm-session") (rq_headers r))) <$>
    w_sent (download (with_part (&"pay"))).2 =
  [(cdn_url, None); (demo_url, Some (&"s1"))].
Proof. vm_compute. reflexivity. Qed.

(** A partial file that is complete, for instance because the process ended
    before the renaming, is asked to be continued after its last byte.  The
    download fails and leaves the file, so that every later attempt fails in
    the same way; without the partial file the same download succeeds. *)
Theorem complete_part_never_finishes :
  let w1 := with_part (&"payload") in
  let stuck := download w1 in
  stuck.1 = Throw (err Api 416 [] (&"range")) /\
  w_files stuck.2 = w_files w1 /\
  (download stuck.2).1 = stuck.1 /\
  is_ok (download (set_files ∅ session_world)).1 = true.
Proof.
  split_and!; [|apply (bool_decide_eq_true_1 (_ = _))| |]; vm_compute; reflexivity.
Qed.
