(* ===== verification/SystemDemo.v ===== *)
(** * A client at work, worked through

    A client is made, checks for an update, downloads and installs it, and
    watches a stream of events; the theorems of [System], [Delivery] and
    [Client] on these runs. *)
From S2P Require Import Prelude StdString Errors Codec Json MiniJson Types Payloads Crypto MiniCrypto.
From S2P Require Import Clock Keyring World Http SseStream StateStore HostIntegrity MiniEnv Identity.
From S2P Require Import Policy Pipeline Send Web Rotate Trust Offline Demo Fetch Client Debug Watch Wire.
From S2P Require Import System Delivery Download.

#[local] Existing Instance mini_crypto.
#[local] Existing Instance mini_json.

Abbreviation client_options := Demo.demo_options.

Definition system_store : StateStore :=
  match (make_client (E := honest) client_options start_world).1 with
  | Ok s => s
  | Throw _ => demo_store
  end.

(** ** An update and its service *)

Definition package_url : text := &"https://api.example/api/client/artifacts/7/download?ticket=t1".

Definition offered_with (sig root_sig : text) : UpdateInfo := {|
  update_available := true; mandatory := false; heartbeat_interval_seconds := 60;
  open_in_browser := false; delivery_method := &"file"; ui_release_id := &"r2";
  ui_version := &"2.0"; ui_version_code := None; notes := []; download_url := package_url;
  checksum_sha256 := hex_lower (mini_sha256 (&"payload")); signature := sig;
  manifest_key_id := &"mk"; manifest_public_key := hex_lower demo_manifest_key;
  ui_root_trust_key_id := &"root"; root_trust_signature := root_sig;
  artifact_file_name := &"setup.exe"; artifact_platform := &"windows"; artifact_arch := &"x64";
  authz_protocol := []; Types.host_integrity_required := true; ui_size := 7;
  rollback_allowed := false; ui_maintenance := None
|}.

Definition offered : UpdateInfo :=
  let unsigned := offered_with [] [] in
  offered_with (hex_lower (mini_sign demo_manifest_key (artifact_canonical unsigned)))
    (hex_lower (mini_sign demo_key (root_canonical demo_app (&"root") unsigned))).

Definition offer_data : text :=
  mini_dump (json_object (str_fields
    [(&"delivery_method", delivery_method offered); (&"release_id", ui_release_id offered);
     (&"version", ui_version offered); (&"download_url", download_url offered);
     (&"checksum_sha256", checksum_sha256 offered); (&"signature", signature offered);
     (&"manifest_key_id", manifest_key_id offered);
     (&"manifest_public_key", manifest_public_key offered);
     (&"root_trust_key_id", ui_root_trust_key_id offered);
     (&"root_trust_signature", root_trust_signature offered);
     (&"artifact_file_name", artifact_file_name offered);
     (&"artifact_platform", artifact_platform offered); (&"artifact_arch", artifact_arch offered)] ++
    [(&"update_available", JBool true); (&"host_integrity_required", JBool true);
     (&"heartbeat_interval_seconds", JInt 60); (&"size", JUint 7)])).

(** Two messages of the stream: the authorization, and an event. *)
Definition stream_text (nonce : text) : text :=
  let message name data :=
    &"event: " ++ name ++ [nl] ++ &"data: " ++ carrier nonce data [] ++ [nl; nl] in
  message (&"authz") demo_data ++
  message (&"release_published") (jtext "{'id':'e1','release_id':'r2'}").

(** The answer to a debug request. *)
Definition debug_text (nonce : text) : text :=
  let data := mini_dump (json_object (str_fields
    [(&"version", &"debug_decision_v1"); (&"request_id", &"q1");
     (&"session_id_hash", hex_lower (mini_sha256 (&"session-1"))); (&"status", &"approved")] ++
    [(&"expires_at", JInt 1700000300)])) in
  &"event: debug-request-state" ++ [nl] ++ &"data: " ++ carrier nonce data [] ++ [nl; nl].

Definition update_server : Server := fun n r =>
  let nonce := default [] (header_get (&"X-Nonce") (rq_headers r)) in
  if bool_decide (rq_url r = package_url) then (200, [], &"payload")
  else if starts_with (&"https://api.example/api/client/updates/stream") (rq_url r)
  then (200, [], stream_text nonce)
  else if bool_decide (rq_url r = &"https://api.example/api/client/update-check")
  then (200, [], carrier nonce offer_data [])
  else if bool_decide (rq_url r = &"https://api.example/api/v1/client/debug-requests/q1/events")
  then (200, [], debug_text nonce)
  else demo_server [] n r.

Definition service : Env := mini_env update_server (fun _ => Written).

Definition made_world : World := (make_client (E := service) client_options start_world).2.

Definition check_run : Result UpdateInfo * World :=
  check_update (E := service) client_options system_store (JObject []) [] made_world.

Definition checked_world : World := run_op (E := service) client_options system_store
  (do_check (JObject []) []) made_world.

Example check_run_ok : check_run.1 = Ok offered.
Proof. vm_compute. reflexivity. Qed.

(** ** The trust of this client *)

Lemma made_at_work : at_work (E := service) client_options system_store made_world.
Proof.
  apply (work_start (E := service) client_options system_store start_world); [by split_and!|].
  vm_compute. reflexivity.
Qed.

Lemma checked_at_work : at_work (E := service) client_options system_store checked_world.
Proof. apply (work_op (E := service)), made_at_work. Qed.

Lemma client_trust_invariant_witness :
  exists a key, certified client_options key /\ key_id key = az_key_id a /\
    ed25519_verify (public_key key) (authz_canonical client_options a) (az_signature a) = Ok true /\
    az_decision a = &"allow" /\ az_session a = &"s1" /\
    p_session_expires_at (w_pipe checked_world) = az_expires_at a.
Proof.
  apply (client_trust_invariant (E := service) client_options system_store checked_world checked_at_work).
  vm_compute. reflexivity.
Defined.

Lemma check_run_returned : exists w', check_run = (Ok offered, w').
Proof. exists check_run.2. rewrite <- check_run_ok. apply surjective_pairing. Qed.

Lemma made_trusted : trusted client_options made_world.
Proof. apply (at_work_trusted (E := service) client_options system_store), made_at_work. Qed.

Lemma check_update_genuine_witness :
  exists w' payload body data, check_run = (Ok offered, w') /\
    update_check_of client_options (JObject []) [] payload /\ json_dump payload = Ok body /\
    answered (E := service) client_options (update_request body) made_world w' data /\
    update_from_json data = Ok offered.
Proof.
  destruct check_run_returned as [w' H]. pose proof H as Hrun. unfold check_run in H.
  destruct (check_update_genuine (E := service) client_options system_store (JObject []) [] made_world
    offered w' made_trusted H) as [(payload & body & data & Hg) _].
  exists w', payload, body, data. exact (conj Hrun Hg).
Defined.

(** ** The installed file *)

Definition installed : path := &"D:\setup.exe".

Definition install_run : Result unit * World :=
  download_update (E := service) client_options system_store None offered installed checked_world.

Lemma install_returned : exists w', install_run = (Ok tt, w').
Proof.
  assert (is_ok install_run.1 = true) as H by (vm_compute; reflexivity).
  destruct install_run as [[[]|x] w']; [by exists w'|discriminate H].
Qed.

Lemma installed_outside : outside system_store installed.
Proof.
  assert (exists rest, directory_ system_store = &"C:" ++ rest) as [rest Hd]
    by (vm_compute; eexists; reflexivity).
  intros name. unfold store_path, slash_join. rewrite Hd. split; discriminate.
Qed.

Lemma installed_file_is_certified_witness :
  exists w3 content n, install_run = (Ok tt, w3) /\ file_at installed w3 = Some content /\
    lower_ascii (checksum_sha256 offered) =
      sha256_hex (C := mini_crypto) (read_cut (env_read_cut (Env := service) n) content).
Proof.
  destruct check_run_returned as [w1 H1]. destruct install_returned as [w3 H3].
  unfold check_run in H1. unfold install_run in *.
  destruct (installed_file_is_certified (E := service) client_options system_store (JObject []) []
    made_world offered w1 None installed checked_world w3 made_trusted H1) as (content & n & Hf & Hh & _).
  - vm_compute. discriminate.
  - exact installed_outside.
  - exact H3.
  - exists w3, content, n. split; [exact H3|]. split; [exact Hf|exact Hh].
Defined.

(** ** The streams *)

Definition listeners : WatchCallbacks :=
  {| on_event := Some (fun _ _ => Ok tt); on_error := None; on_control := None |}.

Definition turn (x : WatchedStream * World * list Entry) : WatchedStream * World * list Entry :=
  let '(s, w, record) := x in
  match stream_turn (E := service) client_options system_store demo_stream_options listeners s w with
  | (Ok (s', told), w') =>
      (s', w', record ++ entries (E := service) (ws_runner s) w (ws_runner s') w' told)
  | (Throw _, w') => (s, w', record)
  end.

Definition turns (k : nat) : WatchedStream * World * list Entry :=
  Nat.iter k turn (start_stream, checked_world, []).

Definition reached (x : WatchedStream * World * list Entry) : Prop :=
  stream_reach (E := service) client_options system_store demo_stream_options listeners x.1.1 x.1.2 x.2.

Lemma turn_reached x : reached x -> reached (turn x).
Proof.
  destruct x as [[s w] record]. intros Hx. unfold turn.
  destruct (stream_turn_ok (E := service) client_options system_store demo_stream_options listeners s w)
    as (s' & told & w' & H). rewrite H. exact (sr_turn _ _ _ _ s w record s' told w' Hx H).
Qed.

Lemma turns_reached k : reached (turns k).
Proof.
  induction k as [|k IH]; [exact (sr_start _ _ _ _ _ (at_work_trusted (E := service) _ _ _ checked_at_work))|].
  apply turn_reached, IH.
Qed.

(** After three turns there was a connection, the authorization, the event, and
    its delivery. *)
Lemma deliveries_are_genuine_witness :
  exists before e, (turns 3).2 = before ++ [Told (DEvent e)] /\
    ue_event_type e = &"release_published" /\
    genuine_event client_options (connection before) e.
Proof.
  destruct (deliveries_are_genuine (E := service) client_options system_store demo_stream_options
    listeners _ _ _ (turns_reached 3)) as [Htold _].
  assert (match (turns 3).2 with
          | [Opened _ _ _; Took _ _ _; Took _ _ _; Told (DEvent e)] =>
              bool_decide (ue_event_type e = &"release_published")
          | _ => false end = true) as Hl by (vm_compute; reflexivity).
  destruct (turns 3).2 as [|[] [|[] [|[] [|[| |[e|e|e]] [|]]]]]; try discriminate Hl.
  apply bool_decide_eq_true in Hl. eexists [_; _; _], e. split; [reflexivity|]. split; [exact Hl|].
  exact (Htold [_; _; _] (DEvent e) [] eq_refl).
Defined.

(** A debug request that is approved. *)
Definition debug_ticket : DebugRequestTicket :=
  {| dr_request_id := &"q1"; dr_watch_token := &"w1"; dr_expires_at := 1700000300 |}.
Definition debug_known : DebugCredentials :=
  {[ &"q1" := json_object (str_fields
       [(&"client_id", &"c1"); (&"client_secret", &"s"); (&"session_id", &"session-1")]) ]}.

Definition debug_run :=
  watch_debug_request (E := service) client_options system_store debug_known debug_ticket
    (Some (fun _ _ => Ok tt)) checked_world.

Lemma debug_decisions_genuine_witness :
  exists d session_id nonce w1 w', (fst <$> (fst <$> debug_run.1)) = Ok [d] /\
    dd_state d = &"approved" /\
    asked_for_stream (E := service) client_options checked_world w1
      (debug_events_url client_options debug_ticket) nonce /\
    decisions_ok client_options debug_ticket session_id nonce w1 w' [d].
Proof.
  assert (match debug_run.1 with
          | Ok ([d], _, _) => bool_decide (dd_state d = &"approved")
          | _ => false end = true) as Hl by (vm_compute; reflexivity).
  pose proof (debug_decisions_genuine (E := service) client_options system_store debug_known
    debug_ticket (Some (fun _ _ => Ok tt)) checked_world) as H.
  fold debug_run in H. destruct debug_run as [[[[told error] known']|x] w']; [|discriminate Hl].
  destruct told as [|d [|]]; [discriminate Hl| |discriminate Hl]. apply bool_decide_eq_true in Hl.
  destruct (H [d] error known' w' (at_work_trusted (E := service) _ _ _ checked_at_work) eq_refl)
    as (c & _ & [Ht|(s & nonce & hash & session_id & w1 & _ & Hask & _ & Hd)] & _); [discriminate Ht|].
  exists d, session_id, nonce, w1, w'. split; [reflexivity|]. exact (conj Hl (conj Hask Hd)).
Defined.

(** ** What is not sent *)

Definition locked_world : World := set_pipe (with_latched true (w_pipe start_world)) start_world.
Definition any_grant : OperationGrant :=
  {| og_schema := []; og_app_id := []; og_release_id := []; og_device_id := [];
     og_device_key_id := []; og_key_thumbprint := []; og_device_public_key := [];
     og_authz_public_key := []; og_authz_key_id := []; og_authz_root_trust_key_id := [];
     og_authz_root_trust_signature := []; og_session := []; og_grant_id := []; og_operation := [];
     og_plan_sha256 := []; og_step_count := 1; og_total_bytes := 0; og_issued_at := 0;
     og_expires_at := 0; og_consumer_challenge := []; og_integrity_manifest_sha256 := [];
     og_host_exe_sha256 := []; og_consumer_module := []; og_consumer_module_sha256 := [] |}.

Lemma offline_lock_blocks_witness :
  consume_operation_authorization (E := service) client_options system_store any_grant locked_world =
    (Throw offline_exceeded, locked_world).
Proof.
  apply (offline_lock_blocks (E := service) client_options system_store locked_world locked_world).
  reflexivity.
Defined.

(** A disk that refuses the metadata of the identity. *)
Definition full_disk : Env := mini_env quiet (fun _ => WriteFailed 0).

Definition identity_error : Exn := err Errors.Identity 0 [] (&"cannot write SDK state").
Definition device_run : Result text * World :=
  device_id (E := full_disk) Download.demo_options demo_store start_world.

Lemma identity_failure_terminates_witness : exists w1,
  check_update (E := full_disk) Download.demo_options demo_store (JObject []) [] start_world =
    (Throw terminate, w1).
Proof.
  assert (match device_run.1 with Ok _ => True | Throw x => x = identity_error end) as H
    by (vm_compute; reflexivity).
  assert (is_ok device_run.1 = false) as Hk by (vm_compute; reflexivity).
  destruct device_run as [[device|x] w1] eqn:Hd; [discriminate Hk|]. exists w1.
  cbn [fst] in H. subst x. unfold device_run in Hd.
  apply (identity_failure_terminates (E := full_disk) Download.demo_options demo_store start_world
    identity_error w1 Hd).
Defined.

(** A provider of evidence that says the host was changed. *)
Definition guarded_options : ClientOptions := {|
  base_url := base_url client_options; web_base_url := []; app_id := demo_app;
  release_id := demo_release; version := &"1.0.0"; version_code := Some 7;
  root_trust_key_id := &"root"; root_trust_public_key := hex_lower demo_key;
  channel := &"stable"; platform := &"windows"; arch := &"x64"; opt_device_id := &"dev";
  storage_directory := []; allow_insecure_http := false;
  host_integrity := {| hio_enabled := true; hio_package_root := []; hio_manifest_path := [];
    hio_evidence_provider := Some (fun _ => Ok (json_object (str_fields
      [(&"integrity_state", &"failed"); (&"integrity_failure_code", &"changed")]))) |}
|}.

Definition guarded_world : World := set_pipe (with_required true (w_pipe start_world)) start_world.
Definition guarded_run : Result (option IntegrityEvidence) * World :=
  evidence (E := service) guarded_options guarded_world.
Definition changed_host : IntegrityEvidence :=
  {| ie_state := &"failed"; ie_failure_code := &"changed"; ie_evidence_version := None;
     ie_manifest_sha256 := []; ie_files := ∅ |}.

Lemma failed_evidence_blocks_heartbeat_witness : exists w2,
  report_heartbeat (E := service) guarded_options system_store [] (JObject []) [] guarded_world =
    (Throw (err Integrity 0 (&"changed") (&"host integrity validation failed")), w2).
Proof.
  assert (guarded_run.1 = Ok (Some changed_host)) as H by (vm_compute; reflexivity).
  destruct guarded_run as [r w2] eqn:Hr. cbn [fst] in H. subst r. exists w2. unfold guarded_run in Hr.
  apply (failed_evidence_blocks_heartbeat (E := service) guarded_options system_store [] (JObject []) []
    guarded_world (&"dev") guarded_world changed_host w2).
  - reflexivity.
  - reflexivity.
  - exact Hr.
  - reflexivity.
Defined.
