(* ===== verification/WireDemo.v ===== *)
(** * Requests and answers, worked through

    A client that sends a sealed request, asks for an enrollment ticket and
    has an operation authorized; the theorems of [Wire] and [Answers] on these
    runs. *)
From S2P Require Import Prelude StdString Errors Codec Json MiniJson Types Payloads Operation Crypto.
From S2P Require Import MiniCrypto Clock Keyring World Http StateStore HostIntegrity MiniEnv Identity.
From S2P Require Import Policy Pipeline Send Client Trust Wire System Answers Demo.

#[local] Existing Instance mini_crypto.
#[local] Existing Instance mini_json.

(** ** The sealed request of [Demo] *)

Lemma demo_start_trusted : trusted demo_options start_world.
Proof. by apply fresh_trusted. Qed.

Abbreviation sealed_run := (send (E := honest) demo_options demo_store demo_request start_world).

Lemma sealed_run_ok : exists response w' key, sealed_run = (Ok response, w') /\
  current_key_ (p_ring (w_pipe w')) = Some key /\ public_key key = hex_lower online_key.
Proof.
  assert (match sealed_run with
          | (Ok _, w) => bool_decide (public_key <$> current_key_ (p_ring (w_pipe w)) = Some (hex_lower online_key))
          | _ => false
          end = true) as Hk by (vm_compute; reflexivity).
  destruct (send _ _ _ _) as [[response|x] w']; [|discriminate Hk].
  apply bool_decide_eq_true in Hk. apply fmap_Some in Hk as (key & Hkey & Hpub).
  exists response, w', key. by rewrite <- Hpub.
Qed.

Lemma online_key_text : decode_key_material (hex_lower online_key) = Ok online_key.
Proof. vm_compute. reflexivity. Qed.


Lemma answers_the_request_witness : exists w' (input : SentRequest) earlier nonce,
  send_and_verify (E := honest) demo_options demo_store demo_request start_world =
    (Ok (JObject [(&"update", JBool false)]), w') /\
  w_sent w' = input :: earlier /\ header_get (&"X-Nonce") (rq_headers input) = Some nonce.
Proof.
  assert ((send_and_verify (E := honest) demo_options demo_store demo_request start_world).1 =
    Ok (JObject [(&"update", JBool false)])) as H by (vm_compute; reflexivity).
  destruct (send_and_verify _ _ _ _) as [r w'] eqn:Hr. cbn [fst] in H. subst r.
  destruct (answers_the_request (E := honest) demo_options demo_store demo_request start_world
    (JObject [(&"update", JBool false)]) w' demo_start_trusted Hr)
    as (input & earlier & response & timestamp & t & device & a & raw & key & Hs & _ & _ & _ & Hn & _).
  exists w', input, earlier, (az_nonce a). split; [reflexivity|]. split; [exact Hs|exact Hn].
Defined.

(** ** A ticket and a grant *)

Definition ticket_data : text :=
  mini_dump (json_object [(&"ticket", JString (&"t-1")); (&"expires_at", JInt 1700000300);
                          (&"audience", JString (&"debug"))]).

Definition grant_data : text :=
  mini_dump (json_object (str_fields
    [(&"schema", &"operation_grant_v3_unbound"); (&"app_id", demo_app); (&"release_id", demo_release);
     (&"device_id", &"dev"); (&"device_key_id", &"kid"); (&"key_thumbprint", &"thumb");
     (&"device_public_key", &"dpk"); (&"authz_public_key", &"apk"); (&"authz_key_id", &"k1");
     (&"authz_root_trust_key_id", &"root"); (&"authz_root_trust_signature", &"sig");
     (&"session", &"s1"); (&"grant_id", &"g1"); (&"operation", &"wipe");
     (&"plan_sha256", hex_lower (mini_sha256 (&"plan"))); (&"consumer_challenge", &"c");
     (&"consumer_module", &"m.dll")] ++
    [(&"step_count", JUint 3); (&"total_bytes", JUint 9); (&"issued_at", JInt 1700000000);
     (&"expires_at", JInt 1700000300)])).

Definition office_server : Server := fun n r =>
  let nonce := default [] (header_get (&"X-Nonce") (rq_headers r)) in
  if bool_decide (rq_url r = &"https://api.example/api/client/enrollment-ticket")
  then (200, [], carrier nonce ticket_data [])
  else if bool_decide (rq_url r = &"https://api.example/api/client/operation-authorizations")
  then (200, [], carrier nonce grant_data [])
  else demo_server [] n r.

Definition office : Env := mini_env office_server (fun _ => Written).

Definition working_world : World :=
  perform (E := office) demo_options demo_store (op_send_and_verify demo_request) start_world.

Lemma working_trusted : trusted demo_options working_world.
Proof. apply (perform_trust (E := office) demo_options demo_store), demo_start_trusted. Qed.


Definition wipe_request : OperationAuthorizationRequest :=
  {| operation := &" wipe "; plan := &"plan"; step_count := 3; total_bytes := 9;
     consumer_challenge := []; consumer_module := &"m.dll"; host_executable_path := [];
     consumer_module_path := [] |}.

Lemma authorization_answered_witness : exists grant w' payload,
  authorize_operation (E := office) demo_options demo_store wipe_request working_world = (Ok grant, w') /\
  og_grant_id grant = &"g1" /\
  authorization_of (C := mini_crypto) wipe_request false payload /\
  posted (E := office) demo_options (&"/api/client/operation-authorizations") OpAuthorization payload
    grant_from_json grant working_world w'.
Proof.
  assert (match (authorize_operation (E := office) demo_options demo_store wipe_request working_world).1 with
          | Ok g => bool_decide (og_grant_id g = &"g1") | _ => false end = true) as H
    by (vm_compute; reflexivity).
  destruct (authorize_operation _ _ _ _) as [[grant|x] w'] eqn:Hr; [|discriminate H].
  cbn [fst] in H. apply bool_decide_eq_true in H.
  destruct (authorization_answered (E := office) demo_options demo_store working_world working_trusted)
    as (Hg & _).
  destruct (Hg wipe_request grant w' ltac:(discriminate) Hr) as (_ & payload & Ha & Hp).
  assert (p_host_integrity_required (w_pipe working_world) = false) as Hf by (vm_compute; reflexivity).
  rewrite Hf in Ha. exists grant, w', payload. split; [reflexivity|]. split; [exact H|exact (conj Ha Hp)].
Defined.
