(* ===== verification/ConcurrentDemo.v ===== *)
(** * Two threads that ask for fresh keys

    Against the server of [Demo]: one of them synchronizes the clock and
    fetches the key while the other waits for the mutex, finds the key fresh
    and returns. *)
From S2P Require Import Prelude StdString Errors Codec Json MiniJson Types Crypto MiniCrypto.
From S2P Require Import Clock Keyring World StateStore MiniEnv Policy Pipeline Send Concurrent Demo.

#[local] Existing Instance mini_crypto.
#[local] Existing Instance mini_json.
#[local] Existing Instance honest.

Definition steadyb (s s' : System) : bool :=
  implb (key_fresh s) (key_fresh s') &&
  implb (existsb (fun t => match th_phase t with Leaving Refreshed => true | _ => false end) (threads s'))
    (key_fresh s').

(** Turns of the threads in the order given, as long as they are steady. *)
Fixpoint play (turns : list nat) (s : System) : option System :=
  match turns with
  | [] => Some s
  | i :: turns =>
      s' ← run_thread demo_options demo_store i s;
      if steadyb s s' then play turns s' else None
  end.

Lemma steadyb_steady s s' : steadyb s s' = true -> steady s s'.
Proof.
  unfold steadyb. intros [Hk Hr]%andb_prop. split.
  - intros Hf. by rewrite Hf in Hk.
  - intros i _ Hi. unfold phase in Hi.
    destruct (threads s' !! i) as [t|] eqn:Ht; [|done]. injection Hi as Hi.
    assert (existsb (fun t => match th_phase t with Leaving Refreshed => true | _ => false end) (threads s') = true)
      as He.
    { apply List.existsb_exists. exists t. split; [|by rewrite Hi].
      apply list_elem_of_In. by eapply list_elem_of_lookup_2. }
    by rewrite He in Hr.
Qed.

Lemma play_runs s0 turns s s' schedule : play turns s = Some s' ->
  exec demo_options demo_store s0 schedule s -> steady_exec demo_options demo_store s0 s ->
  exec demo_options demo_store s0 (schedule ++ (Some <$> turns)) s' /\
  steady_exec demo_options demo_store s0 s'.
Proof.
  revert s schedule. induction turns as [|i turns IH]; intros s schedule Hp He Hs; cbn in Hp.
  { injection Hp as <-. cbn. by rewrite app_nil_r. }
  destruct (run_thread _ _ i s) as [s1|] eqn:Hr; [|done]. cbn in Hp.
  destruct (steadyb s s1) eqn:Hb; [|done]. cbn. rewrite cons_middle, app_assoc.
  eapply IH; [exact Hp| |].
  - eapply exec_snoc; [exact He|by constructor].
  - eapply steady_snoc; [exact Hs|by constructor|by apply steadyb_steady].
Qed.

(** Thread 1 tries while thread 0 holds the mutex, and again afterwards. *)
Definition two_turns : list nat := [0; 0; 0; 1; 1; 1; 0; 0; 0; 1; 0; 1; 1; 1]%nat.

Definition as_told (s : System) : bool :=
  match phase s 0, phase s 1 with
  | Some (Finished Refreshed), Some (Finished AlreadyFresh) => key_fresh s
  | _, _ => false
  end.

Abbreviation two_threads := (start [false; false] start_world).

Lemma two_threads_run : exists s,
  exec demo_options demo_store two_threads (Some <$> two_turns) s /\
  steady_exec demo_options demo_store two_threads s /\
  phase s 0 = Some (Finished Refreshed) /\ phase s 1 = Some (Finished AlreadyFresh).
Proof.
  assert (match play two_turns two_threads with Some s => as_told s | None => false end = true) as H
    by (vm_compute; reflexivity).
  destruct (play _ _) as [s|] eqn:Hp; [|discriminate H]. exists s.
  destruct (play_runs _ _ _ _ [] Hp (exec_nil _ _ _) (steady_nil _ _ _)) as [He Hs]. clear Hp.
  split; [exact He|split; [exact Hs|]]. unfold as_told in H. by repeat case_match.
Qed.

Lemma single_flight_witness : exists s,
  steady_exec demo_options demo_store two_threads s /\
  is_in has_refreshed s 0 /\ phase s 1 = Some (Finished AlreadyFresh) /\
  (forall j, is_in has_refreshed s j -> 0%nat = j).
Proof.
  destruct two_threads_run as (s & _ & Hs & H0 & H1). exists s.
  pose proof (ex_intro _ (Finished Refreshed) (conj H0 eq_refl) : is_in has_refreshed s 0) as Hr.
  split; [exact Hs|split; [exact Hr|split; [exact H1|]]]. intros j.
  apply (proj2 (proj2 (single_flight demo_options demo_store [false; false] start_world)) s 0%nat j);
    [repeat constructor|exact Hs|exact Hr].
Defined.

Lemma turns_bounded_witness : exists s,
  exec demo_options demo_store two_threads (Some <$> two_turns) s /\
  (forall i, turns_of i (Some <$> two_turns) <= 308)%nat.
Proof.
  destruct two_threads_run as (s & He & _). exists s. split; [exact He|].
  exact (proj1 (turns_bounded demo_options demo_store [false; false] start_world _ s He)).
Defined.
