(* ===== verification/AsyncTask.v ===== *)
(** * Asynchronous tasks ([include/swm/async_task.hpp])

    The state that a worker thread and its callers share, as a machine whose
    steps are the critical sections of [make_async], [on_completed], [on_error]
    and [cancel]; a run is any interleaving of them.  For [AsyncTask<void>] the
    value is a unit. *)
From S2P Require Import Prelude.

Section AsyncTask.
Context {V X K : Type}.   (* values, exceptions, callbacks *)

(** Where the worker is: in the callable, past the section that stores the
    outcome, past the section that takes the callbacks, or returned. *)
Inductive Worker :=
  | Running
  | Stored
  | Taken (completed failed : option K) (exception : option X)
  | Returned.

(** An empty [std::function] is [None]. *)
Record AsyncState := mkState {
  value : option V;
  exception : option X;
  completed : option K;
  failed : option K;
  done : bool;
  stop : bool;
  worker : Worker
}.

Inductive Call := Completed (k : K) | Failed (k : K) (x : X).

(** The critical sections, with what their caller passes. *)
Inductive Action :=
  | callable_returns (v : V)
  | callable_throws (x : X)
  | take_callbacks
  | invoke_callbacks
  | on_completed (callback : option K)
  | on_error (callback : option K)
  | cancel.

Definition make_async : AsyncState := mkState None None None None false false Running.

Definition store_value (v : V) (s : AsyncState) : AsyncState :=
  mkState (Some v) (exception s) (completed s) (failed s) true (stop s) Stored.
Definition store_exception (x : X) (s : AsyncState) : AsyncState :=
  mkState (value s) (Some x) (completed s) (failed s) true (stop s) Stored.
Definition move_callbacks (s : AsyncState) : AsyncState :=
  mkState (value s) (exception s) None None (done s) (stop s)
    (Taken (completed s) (failed s) (exception s)).
Definition set_worker (p : Worker) (s : AsyncState) : AsyncState :=
  mkState (value s) (exception s) (completed s) (failed s) (done s) (stop s) p.
Definition set_completed (k : option K) (s : AsyncState) : AsyncState :=
  mkState (value s) (exception s) k (failed s) (done s) (stop s) (worker s).
Definition set_failed (k : option K) (s : AsyncState) : AsyncState :=
  mkState (value s) (exception s) (completed s) k (done s) (stop s) (worker s).
Definition request_stop (s : AsyncState) : AsyncState :=
  mkState (value s) (exception s) (completed s) (failed s) (done s) true (worker s).

(** Which callback the worker invokes. *)
Definition worker_calls (completed failed : option K) (exception : option X) : list Call :=
  match exception, failed with
  | Some x, Some k => [Failed k x]
  | _, _ => match completed with Some k => [Completed k] | None => [] end
  end.

(** [on_completed] and [on_error]: invoked at once when the outcome is known,
    kept otherwise. *)
Definition register_completed (callback : option K) (s : AsyncState) : AsyncState * list Call :=
  match done s, exception s with
  | true, None => (s, match callback with Some k => [Completed k] | None => [] end)
  | _, _ => (set_completed callback s, [])
  end.
Definition register_failed (callback : option K) (s : AsyncState) : AsyncState * list Call :=
  match done s, exception s with
  | true, Some x => (s, match callback with Some k => [Failed k x] | None => [] end)
  | _, _ => (set_failed callback s, [])
  end.

(** A section where it can run: the new state and the callbacks it invokes. *)
Definition step (e : Action) (s : AsyncState) : option (AsyncState * list Call) :=
  match e, worker s with
  | callable_returns v, Running => Some (store_value v s, [])
  | callable_throws x, Running => Some (store_exception x s, [])
  | take_callbacks, Stored => Some (move_callbacks s, [])
  | invoke_callbacks, Taken c f x => Some (set_worker Returned s, worker_calls c f x)
  | on_completed callback, _ => Some (register_completed callback s)
  | on_error callback, _ => Some (register_failed callback s)
  | cancel, _ => Some (request_stop s, [])
  | _, _ => None
  end.

(** [wait]: [None] while it blocks; [inr None] is its logic error. *)
Definition wait (s : AsyncState) : option (V + option X) :=
  if done s then
    match exception s, value s with
    | Some x, _ => Some (inr (Some x))
    | None, Some v => Some (inl v)
    | None, None => Some (inr None)
    end
  else None.

(** [AsyncTask<void>::wait]: only an exception is told. *)
Definition wait_void (s : AsyncState) : option (option X) := if done s then Some (exception s) else None.

(** Runs: sections in any order the threads allow. *)
Inductive run : list Action -> AsyncState -> list Call -> Prop :=
  | run_start : run [] make_async []
  | run_step tr s calls e s' new :
      run tr s calls -> step e s = Some (s', new) -> run (tr ++ [e]) s' (calls ++ new).

(** The registrations of a run. *)
Definition completions (tr : list Action) : list (option K) :=
  omap (fun e => match e with on_completed k => Some k | _ => None end) tr.
Definition errors (tr : list Action) : list (option K) :=
  omap (fun e => match e with on_error k => Some k | _ => None end) tr.

(** ** The invariant *)

Definition failures (calls : list Call) : list (K * X) :=
  omap (fun c => match c with Failed k x => Some (k, x) | Completed _ => None end) calls.

(** The callbacks the worker may still invoke. *)
Definition owed_completed (s : AsyncState) : list K :=
  match worker s with
  | Running | Stored => option_list (completed s)
  | Taken c _ _ => option_list c
  | Returned => []
  end.
Definition owed_failed (s : AsyncState) : list K :=
  match worker s with
  | Running | Stored => option_list (failed s)
  | Taken _ f _ => option_list f
  | Returned => []
  end.

Record task_inv (tr : list Action) (s : AsyncState) (calls : list Call) : Prop := {
  (* the outcome is stored once, with the flag *)
  ti_done : done s = match worker s with Running => false | _ => true end;
  ti_outcome : match value s, exception s with
               | None, None => done s = false
               | Some _, Some _ => False
               | _, _ => done s = true
               end;
  ti_taken : match worker s with Taken _ _ x => x = exception s | _ => True end;
  (* a task that has not thrown calls the completion it was given *)
  ti_completed : exception s = None -> (length (completions tr) <= 1)%nat ->
    calls ++ (Completed <$> owed_completed s) = Completed <$> (completions tr ≫= option_list);
  (* a task that has thrown calls the error callback it was given *)
  ti_waiting : done s = false -> failures calls = [] /\
    ((length (errors tr) <= 1)%nat -> owed_failed s = errors tr ≫= option_list);
  ti_failed x : exception s = Some x -> (length (errors tr) <= 1)%nat ->
    failures calls ++ ((fun k => (k, x)) <$> owed_failed s) =
    (fun k => (k, x)) <$> (errors tr ≫= option_list)
}.

Lemma completions_snoc tr e : completions (tr ++ [e]) = completions tr ++ completions [e].
Proof. apply omap_app. Qed.
Lemma errors_snoc tr e : errors (tr ++ [e]) = errors tr ++ errors [e].
Proof. apply omap_app. Qed.
Lemma failures_app c1 c2 : failures (c1 ++ c2) = failures c1 ++ failures c2.
Proof. apply omap_app. Qed.

Lemma start_inv : task_inv [] make_async [].
Proof. by split. Qed.

Lemma first_registration {A} (l : list A) k : (length (l ++ [k]) <= 1)%nat -> l = [].
Proof. destruct l; [done|]. rewrite length_app. cbn. lia. Qed.

(** The hypotheses of the invariant at a known worker and outcome. *)
Ltac use_inv := repeat match goal with
  | H : None = None -> _ |- _ => specialize (H eq_refl)
  | H : Some _ = None -> _ |- _ => clear H
  | H : false = false -> _ |- _ => specialize (H eq_refl) as [? ?]
  | H : true = false -> _ |- _ => clear H
  | H : forall x, None = Some x -> _ |- _ => clear H
  | H : forall x, Some ?y = Some x -> _ |- _ => specialize (H y eq_refl)
  | H : (length (_ ++ [_]) <= 1)%nat |- _ => apply first_registration in H; rewrite H in *
  | H : ?P -> _ |- _ => specialize (H ltac:(first [assumption | cbn; lia]))
  | H : _ ++ _ = [] |- _ => apply app_eq_nil in H as [? ?]
  | H : _ <$> _ = [] |- _ => apply fmap_nil_inv in H
  | H : _ ++ [] = _ |- _ => rewrite app_nil_r in H
  | k : option K |- _ => destruct k
  | _ => progress simplify_eq/=
  end.

Lemma step_inv tr s calls e s' new : task_inv tr s calls -> step e s = Some (s', new) ->
  task_inv (tr ++ [e]) s' (calls ++ new).
Proof.
  intros [Hd Ho Ht Hc Hw Hf] Hs. destruct s as [v x c f d st p]. cbn in *.
  destruct e as [v'|x'| | |k|k|]; cbn in Hs; unfold register_completed, register_failed in Hs; cbn in Hs.
  all: destruct p, v, x; cbn in *; subst; try done; simplify_eq/=.
  all: split; cbn; rewrite ?completions_snoc, ?errors_snoc, ?failures_app, ?app_nil_r; cbn.
  all: rewrite ?app_nil_r; try done; intros; try discriminate.
  all: use_inv; rewrite ?app_nil_r; try done; try congruence.
  all: repeat match goal with
    | H : failures _ = _ |- _ => rewrite H
    | H : _ = errors _ ≫= option_list |- _ => rewrite <- H
    | |- _ /\ _ => split
    end; try done.
  all: intros H; use_inv; done.
Qed.

Lemma run_inv tr s calls : run tr s calls -> task_inv tr s calls.
Proof. induction 1 as [|tr s calls e s' new _ IH Hs]; [apply start_inv|by eapply step_inv]. Qed.

(** The outcome is what the callable did. *)
Lemma run_outcome tr s calls : run tr s calls ->
  (forall v, value s = Some v <-> callable_returns v ∈ tr) /\
  (forall x, exception s = Some x <-> callable_throws x ∈ tr).
Proof.
  induction 1 as [|tr s calls e s' new Hr [IHv IHx] Hs].
  { split; intros; (split; [done|by intros ?%elem_of_nil]). }
  apply run_inv in Hr as [Hd Ho _ _ _ _].
  assert (forall a, a ∈ tr ++ [e] <-> a ∈ tr \/ a = e) as Hin.
  { intros a. rewrite elem_of_app, elem_of_cons, elem_of_nil. naive_solver. }
  setoid_rewrite Hin. destruct s as [v x c f d st p]. cbn in *.
  destruct e, p; cbn in Hs; unfold register_completed, register_failed in Hs; try done; repeat case_match; simplify_eq/=;
    try done; split; intros; rewrite ?IHv, ?IHx; try naive_solver.
Qed.

(** A task without a value waits as one whose value is a unit. *)
Lemma wait_void_run tr s calls : run tr s calls ->
  wait_void s = (fun r => match r with inl _ => None | inr x => x end) <$> wait s.
Proof.
  intros Hr. apply run_inv in Hr as [_ Ho _ _ _ _]. unfold wait_void, wait.
  destruct (done s), (exception s), (value s); try done.
Qed.

(** ** A task that threw *)

Definition successes (calls : list Call) : list K :=
  omap (fun c => match c with Completed k => Some k | Failed _ _ => None end) calls.

(** The error callback was registered before the callable threw. *)
Definition early (x : X) (k : K) (tr : list Action) : Prop :=
  exists before after, tr = before ++ callable_throws x :: after /\ on_error (Some k) ∈ before.

Record thrown_inv (tr : list Action) (s : AsyncState) (calls : list Call) : Prop := {
  (* nothing is invoked before the outcome is known *)
  th_quiet : done s = false -> calls = [];
  (* the error callback, if it came in time, is all that is invoked *)
  th_early x k : exception s = Some x -> errors tr = [Some k] -> early x k tr ->
    match worker s with
    | Running => False
    | Stored => failed s = Some k /\ calls = []
    | Taken _ f y => f = Some k /\ y = Some x /\ calls = []
    | Returned => calls = [Failed k x]
    end;
  th_throws x k : early x k tr -> exception s <> None;
  (* the completion callback is invoked once at most *)
  th_success : exception s <> None -> (length (completions tr) <= 1)%nat ->
    (successes calls ++ owed_completed s) `sublist_of` (completions tr ≫= option_list)
}.

Lemma successes_app c1 c2 : successes (c1 ++ c2) = successes c1 ++ successes c2.
Proof. apply omap_app. Qed.

Lemma early_registered x k tr : early x k tr -> Some k ∈ errors tr.
Proof.
  intros (before & after & -> & Hin). unfold errors. apply list_elem_of_omap.
  exists (on_error (Some k)). split; [apply elem_of_app; by left|done].
Qed.

Lemma successes_completed l : successes (Completed <$> l) = l.
Proof. induction l; [done|]. cbn. by f_equal. Qed.

(** It stays early, and was early before any other action. *)
Lemma early_snoc x k tr e : early x k (tr ++ [e]) ->
  early x k tr \/ e = callable_throws x /\ Some k ∈ errors tr.
Proof.
  intros (before & after & Heq & Hin). destruct after as [|a after _] using rev_ind.
  - apply app_inj_tail in Heq as [-> ->]. right. split; [done|]. unfold errors.
    apply list_elem_of_omap. by exists (on_error (Some k)).
  - rewrite app_comm_cons, app_assoc in Heq. apply app_inj_tail in Heq as [-> ->]. left. by exists before, after.
Qed.

Lemma single_snoc {A} (l : list A) l' k : l ++ l' = [k] -> k ∈ l -> l = [k] /\ l' = [].
Proof.
  destruct l as [|a [|b l]]; [by intros _ ?%elem_of_nil| |done]. by intros [= -> ->].
Qed.

Lemma early_step tr s calls e s' new : task_inv tr s calls -> thrown_inv tr s calls ->
  step e s = Some (s', new) -> forall x k, exception s' = Some x -> errors (tr ++ [e]) = [Some k] ->
  early x k (tr ++ [e]) ->
  match worker s' with
  | Running => False
  | Stored => failed s' = Some k /\ calls ++ new = []
  | Taken _ f y => f = Some k /\ y = Some x /\ calls ++ new = []
  | Returned => calls ++ new = [Failed k x]
  end.
Proof.
  intros [Hd Ho Ht _ Hw _] [Hq He Hth _] Hs x k Hx Herr Hearly. rewrite errors_snoc in Herr.
  apply early_snoc in Hearly as [Hearly|[-> Hin]].
  - apply single_snoc in Herr as [Herr Hnew]; [|by apply (early_registered x)].
    apply Hth in Hearly as Hsome.
    destruct s as [v y c f d st p], e; cbn in Hs, Hnew; unfold register_completed in Hs; cbn in *;
      destruct p, y; cbn in *; try done; simplify_eq/=; repeat case_match; simplify_eq/=; try done;
      specialize (He _ _ eq_refl Herr Hearly); try done; destruct_and?; subst; try done;
      rewrite ?app_nil_r; first [done | cbn; congruence].
  - apply single_snoc in Herr as [Herr _]; [|done].
    destruct s as [v y c f d st p]. destruct p; cbn in *; try done. subst d.
    destruct v, y; try done. injection Hs as <- <-. cbn in *. clear Hx.
    destruct (Hw eq_refl) as [_ Hf]. rewrite Herr in Hf. specialize (Hf ltac:(cbn; lia)). cbn in Hf.
    rewrite (Hq eq_refl). destruct f; by simplify_eq/=.
Qed.

Lemma success_step tr s calls e s' new : task_inv tr s calls -> thrown_inv tr s calls ->
  step e s = Some (s', new) -> exception s' <> None -> (length (completions (tr ++ [e])) <= 1)%nat ->
  (successes (calls ++ new) ++ owed_completed s') `sublist_of` (completions (tr ++ [e]) ≫= option_list).
Proof.
  intros [Hd Ho Ht Hc _ _] [Hq _ _ Hs] Hstep Hx Hlen. rewrite completions_snoc, successes_app in *.
  rewrite length_app in Hlen. rewrite bind_app.
  destruct s as [v y c f d st p], e; cbn in Hstep; unfold register_completed, register_failed in Hstep; cbn in *.
  all: destruct p, v, y; cbn in *; subst; try done; simplify_eq/=.
  all: unfold owed_completed in *; cbn in *; rewrite ?app_nil_r in *.
  1: { specialize (Hc eq_refl ltac:(lia)). rewrite (Hq eq_refl) in *. cbn in *.
       apply (f_equal successes) in Hc. by rewrite !successes_completed in Hc; rewrite Hc. }
  all: specialize (Hs ltac:(done) ltac:(lia)).
  all: try (destruct (completions tr); cbn in Hlen; [|lia];
            cbn in Hs |- *; apply sublist_nil_r in Hs; try apply app_eq_nil in Hs as [Hs ?];
            rewrite Hs in *; destruct callback; simplify_eq/=; repeat constructor).
  all: repeat match goal with k : option K |- _ => destruct k end; cbn in *; rewrite ?app_nil_r in *;
    try done; (etrans; [|exact Hs]); by apply sublist_inserts_r.
Qed.

Lemma thrown_step tr s calls e s' new : task_inv tr s calls -> thrown_inv tr s calls ->
  step e s = Some (s', new) -> thrown_inv (tr ++ [e]) s' (calls ++ new).
Proof.
  intros Hi Ht Hs. split.
  - destruct Ht as [Hq _ _ _], Hi as [Hd _ _ _ _ _]. destruct s as [v y c f [] st p], e; cbn in Hs;
      unfold register_completed, register_failed in Hs; cbn in *; destruct p; try done;
      repeat case_match; simplify_eq/=; try done; intros _; by rewrite Hq by done.
  - by eapply early_step.
  - intros x k Hearly. apply early_snoc in Hearly as [Hearly|[-> _]].
    + apply (th_throws _ _ _ Ht) in Hearly. destruct s as [v y c f d st p], e; cbn in *;
        unfold register_completed, register_failed in Hs; cbn in Hs; destruct p; try done;
        repeat case_match; by simplify_eq/=.
    + destruct s as [v y c f d st p]. cbn in Hs. destruct p; try done. by injection Hs as <- _.
  - by eapply success_step.
Qed.

Lemma run_thrown tr s calls : run tr s calls -> thrown_inv tr s calls.
Proof.
  induction 1 as [|tr s calls e s' new Hr IH Hs]; [|by eapply thrown_step; [apply run_inv| |]].
  split; cbn; try done. intros x k (before & after & H & _). by destruct before.
Qed.

(** C23: in every interleaving of the worker with its callers, [wait] blocks
    until the callable has ended and then gives its value or its exception,
    and never the logic error of a task without a value.  When the worker has
    returned from a callable that produced a value, a completion callback that
    was registered once, at whatever moment, was invoked exactly once and
    nothing else was.  When it has returned from a callable that threw, an
    error callback that was registered once was invoked exactly once with the
    exception, and nothing else was if it was registered before the callable
    threw; otherwise the completion callback may have been invoked too, once at
    most, as [failure_reported_as_completion] shows. *)
Theorem callbacks_exactly_once tr s calls : run tr s calls ->
  wait s <> Some (inr None) /\
  (forall v, wait s = Some (inl v) <-> callable_returns v ∈ tr) /\
  (forall x, wait s = Some (inr (Some x)) <-> callable_throws x ∈ tr) /\
  (worker s = Returned ->
     (forall v k, callable_returns v ∈ tr -> completions tr = [Some k] -> calls = [Completed k]) /\
     (forall x k, callable_throws x ∈ tr -> errors tr = [Some k] ->
        failures calls = [(k, x)] /\
        (early x k tr -> calls = [Failed k x]) /\
        (forall c, completions tr = [Some c] -> successes calls = [] \/ successes calls = [c]))).
Proof.
  intros Hr. destruct (run_outcome _ _ _ Hr) as [Hv Hx]. apply run_thrown in Hr as Hth.
  apply run_inv in Hr as [Hd Ho _ Hc _ Hf].
  assert (forall v, value s = Some v -> exception s = None /\ done s = true) as Hval.
  { intros v E. rewrite E in Ho. by destruct (exception s). }
  assert (forall x, exception s = Some x -> value s = None /\ done s = true) as Hexc.
  { intros x E. rewrite E in Ho. by destruct (value s). }
  unfold wait. split_and!.
  - destruct (done s) eqn:E; [|done]. destruct (exception s), (value s); done.
  - intros v. rewrite <- Hv. destruct (value s) as [v'|] eqn:Ev.
    + destruct (Hval _ eq_refl) as [-> ->]. naive_solver.
    + repeat case_match; naive_solver.
  - intros x. rewrite <- Hx. destruct (exception s) as [x'|] eqn:Ex.
    + destruct (Hexc _ eq_refl) as [_ ->]. naive_solver.
    + repeat case_match; naive_solver.
  - intros Hw. unfold owed_completed, owed_failed in *. rewrite Hw in *. split.
    + intros v k Hin Hk. apply Hv in Hin. destruct (Hval _ Hin) as [E _].
      specialize (Hc E). rewrite Hk in Hc. specialize (Hc ltac:(cbn; lia)).
      cbn in Hc. by rewrite app_nil_r in Hc.
    + intros x k Hin Hk. apply Hx in Hin. specialize (Hf _ Hin). rewrite Hk in Hf.
      specialize (Hf ltac:(cbn; lia)). cbn in Hf. split; [by rewrite app_nil_r in Hf|].
      destruct Hth as [_ He _ Hs]. split.
      * intros Hearly. specialize (He x k Hin Hk Hearly). by rewrite Hw in He.
      * intros c Hc'. unfold owed_completed in Hs. rewrite Hc', Hw, app_nil_r in Hs.
        specialize (Hs ltac:(by rewrite Hin) ltac:(cbn; lia)). cbn in Hs.
        apply sublist_cons_r in Hs as [->%sublist_nil_r|(l & -> & ->%sublist_nil_r)]; auto.
Qed.

(** Running a list of actions. *)
Fixpoint exec (tr : list Action) (s : AsyncState) (calls : list Call) : option (AsyncState * list Call) :=
  match tr with
  | [] => Some (s, calls)
  | e :: tr' => '(s', new) ← step e s; exec tr' s' (calls ++ new)
  end.

Lemma exec_run tr0 tr s0 s calls0 calls : run tr0 s0 calls0 ->
  exec tr s0 calls0 = Some (s, calls) -> run (tr0 ++ tr) s calls.
Proof.
  revert tr0 s0 calls0. induction tr as [|e tr IH]; intros tr0 s0 calls0 Hr He; cbn in He.
  { injection He as -> ->. by rewrite app_nil_r. }
  destruct (step e s0) as [[s' new]|] eqn:Es; [|done].
  replace (tr0 ++ e :: tr) with ((tr0 ++ [e]) ++ tr) by by rewrite <- app_assoc.
  eapply IH; [|exact He]. by eapply run_step.
Qed.

(** A task that threw can report completion.  With a completion callback
    and no error callback, the worker invokes the completion callback for the
    exception; and an error callback registered between the storing of the
    exception and the taking of the callbacks is invoked while the worker also
    invokes the completion callback.  Registered after the worker returned,
    the same completion callback is not invoked. *)
Theorem failure_reported_as_completion (x : X) (k e : K) :
  (exists s, run [on_completed (Some k); callable_throws x; take_callbacks; invoke_callbacks]
               s [Completed k] /\ wait s = Some (inr (Some x))) /\
  (exists s, run [on_completed (Some k); callable_throws x; on_error (Some e); take_callbacks;
                  invoke_callbacks] s [Failed e x; Completed k] /\ wait s = Some (inr (Some x))) /\
  (exists s, run [callable_throws x; take_callbacks; invoke_callbacks; on_completed (Some k)]
               s [] /\ wait s = Some (inr (Some x))).
Proof.
  split_and!; (eexists; split; [apply (exec_run [] _ make_async _ [] _ run_start); reflexivity|done]).
Qed.

End AsyncTask.

(** A race: the callback is registered while the worker stores its value. *)
Lemma callbacks_exactly_once_witness :
  let tr := [on_error (Some 7); callable_returns true; on_completed (Some 5); take_callbacks;
             invoke_callbacks] : list (Action (V := bool) (X := nat) (K := Z)) in
  exists s, run tr s [Completed 5] /\ worker s = Returned /\ wait s = Some (inl true).
Proof.
  intros tr. destruct (exec tr make_async []) as [[s calls]|] eqn:E; [|discriminate E].
  assert (run tr s calls) as Hr by (apply (exec_run [] tr make_async s [] calls run_start E)).
  injection E as <- <-.
  destruct (callbacks_exactly_once _ _ _ Hr) as (_ & Hv & _ & Hw).
  eexists. split; [exact Hr|]. split; [done|]. apply Hv. cbn. set_solver.
Defined.

