(* ===== verification/Tasks.v ===== *)
(** * The asynchronous operations of the client ([src/client.cpp],
    [include/swm/async_task.hpp])

    Every [*_async] method hands its operation to [make_async].  Here the task
    is run with the operation it was given, and the life of its shared state
    is followed to the destructor of its thread. *)
From S2P Require Import Prelude Errors Json MiniJson Types Crypto MiniCrypto AsyncTask.
From S2P Require Import Clock Keyring World StateStore MiniEnv Pipeline Rotate Fetch Client Debug Demo.

(** ** A task and its operation *)

Record TaskOf (A : Type) := mkTask {
  task_state : @AsyncState A Exn nat;
  task_callable : M A
}.
Arguments mkTask {A} _ _.
Arguments task_state {A} _.
Arguments task_callable {A} _.

Definition make_async_of {A} (operation : M A) : TaskOf A := mkTask AsyncTask.make_async operation.

Section Methods.
Context `{C : Crypto} `{J : JsonLib} `{E : Env}.
Context (options : ClientOptions) (store : StateStore).

Definition refresh_online_keys_async : TaskOf unit :=
  make_async_of (refresh_online_keys options store true).
Definition check_update_async (attributes : Json) (user_id : text) : TaskOf UpdateInfo :=
  make_async_of (check_update options store attributes user_id).
Definition report_heartbeat_async (app_version : text) (attributes : Json) (user_id : text) :
    TaskOf HeartbeatResult :=
  make_async_of (report_heartbeat options store app_version attributes user_id).
Definition report_event_async (event : Event) : TaskOf unit :=
  make_async_of (report_event options store event).
Definition report_events_async (events : list Event) : TaskOf unit :=
  make_async_of (report_events options store events).
Definition submit_feedback_async (request : FeedbackRequest) : TaskOf FeedbackResult :=
  make_async_of (submit_feedback options store request).
Definition request_enrollment_ticket_async (audience : text) : TaskOf EnrollmentTicket :=
  make_async_of (request_enrollment_ticket options store audience).
Definition rotate_device_key_async : TaskOf DeviceKeyRotationResult :=
  make_async_of (rotate_device_key options store).
Definition authorize_operation_async (request : OperationAuthorizationRequest) : TaskOf OperationGrant :=
  make_async_of (authorize_operation options store request).
Definition consume_operation_authorization_async (grant : OperationGrant) :
    TaskOf OperationConsumptionReceipt :=
  make_async_of (consume_operation_authorization options store grant).
Definition download_update_async (update : UpdateInfo) (destination : path)
    (progress : option (nat -> Z -> Z -> Result unit)) : TaskOf unit :=
  make_async_of (download_update options store progress update destination).
Definition resolve_firmware_identity_async (metadata : Json) : TaskOf Json :=
  make_async_of (resolve_firmware_identity options store metadata).
Definition create_debug_request_async (known : DebugCredentials) (note : text) :
    TaskOf (DebugRequestTicket * DebugCredentials) :=
  make_async_of (create_debug_request options store known note).
Definition cancel_debug_request_async (known : DebugCredentials) (ticket : DebugRequestTicket) :
    TaskOf DebugCredentials :=
  make_async_of (cancel_debug_request options store known ticket).
End Methods.

Section Run.
Context `{E : Env} {A : Type} (task : TaskOf A).

(** The callable stores a value, or the exception that leaves it. *)
Definition outcome (r : Result A) : @Action A Exn nat :=
  match r with Ok v => callable_returns v | Throw x => callable_throws x end.

Definition of_callable (e : @Action A Exn nat) : bool :=
  match e with callable_returns _ | callable_throws _ => true | _ => false end.

(** Runs of the task: the critical sections in any order, the operation when
    the worker comes to it, with the stop that [cancel] requests, and in
    between whatever else the program does.
    [ops] are the runs of the operation: where it started and how it ended. *)
Inductive task_run (w0 : World) : @AsyncState A Exn nat -> World -> list (World * Result A) -> Prop :=
  | task_start : task_run w0 (task_state task) w0 []
  | task_operates s w ops r w' s' new :
      task_run w0 s w ops -> task_callable task (set_stopped (stop s) w) = (r, w') ->
      AsyncTask.step (outcome r) s = Some (s', new) ->
      task_run w0 s' w' (ops ++ [(set_stopped (stop s) w, r)])
  | task_section s w ops e s' new :
      task_run w0 s w ops -> of_callable e = false -> AsyncTask.step e s = Some (s', new) ->
      task_run w0 s' w ops
  | task_elsewhere s w ops w' : task_run w0 s w ops -> grows_to w w' -> task_run w0 s w' ops.

(** What the state says of the runs of the operation. *)
Definition agrees (s : @AsyncState A Exn nat) (ops : list (World * Result A)) : Prop :=
  match ops with
  | [] => worker s = Running /\ done s = false /\ value s = None /\ exception s = None
  | [(_, Ok v)] => worker s <> Running /\ done s = true /\ value s = Some v /\ exception s = None
  | [(_, Throw x)] => worker s <> Running /\ done s = true /\ value s = None /\ exception s = Some x
  | _ => False
  end.

Lemma task_agrees w0 s w ops : task_state task = AsyncTask.make_async -> task_run w0 s w ops -> agrees s ops.
Proof.
  intros Hm. induction 1 as [|s w ops r w' s' new _ IH _ Hs|s w ops e s' new _ IH He Hs|]; [by rewrite Hm| | |done].
  - destruct ops as [|[w1 [v|x]] [|]]; cbn in IH; try done.
    + destruct IH as (Hw & Hd & Hv & Hx). unfold AsyncTask.step in Hs.
      destruct r as [v|x]; cbn in Hs; rewrite Hw in Hs; injection Hs as <- <-; cbn; by rewrite ?Hv, ?Hx.
    + destruct IH as (Hw & _). unfold AsyncTask.step in Hs. destruct r; cbn in Hs; by destruct (worker s).
    + destruct IH as (Hw & _). unfold AsyncTask.step in Hs. destruct r; cbn in Hs; by destruct (worker s).
  - assert (done s' = done s /\ value s' = value s /\ exception s' = exception s /\
      (worker s' = Running <-> worker s = Running)) as (Hd & Hv & Hx & Hw).
    { unfold AsyncTask.step, AsyncTask.register_completed, AsyncTask.register_failed in Hs.
      destruct e; try done; repeat case_match; simplify_eq/=; naive_solver. }
    unfold agrees. rewrite Hd, Hv, Hx.
    destruct ops as [|[w1 [v|x]] [|]]; cbn in IH; naive_solver.
Qed.
End Run.

(** C24: a task is its operation.  Whatever else runs between its critical
    sections, the operation of an asynchronous method runs at most once;
    [wait] blocks until it has, and then gives the value it returned, or the
    exception that left it. *)
Theorem async_is_operation `{E : Env} {A} (operation : M A) w0 s w ops :
  task_run (make_async_of operation) w0 s w ops ->
  (length ops <= 1)%nat /\
  (forall v, wait s = Some (inl v) <-> exists w1, ops = [(w1, Ok v)]) /\
  (forall x, wait s = Some (inr (Some x)) <-> exists w1, ops = [(w1, Throw x)]) /\
  (wait s = None <-> ops = []).
Proof.
  intros H%task_agrees; [|done]. unfold wait. unfold agrees in H.
  destruct ops as [|[w1 [v|x]] [|]]; try done; destruct H as (_ & -> & Hv & Hx);
    rewrite ?Hv, ?Hx; cbn; split_and!; try lia; naive_solver.
Qed.

(** No events to report: the worker operates, and its owner waits. *)
Lemma async_is_operation_witness :
  let E := mini_env quiet (fun _ => Written) in
  let task := report_events_async (C := mini_crypto) (J := mini_json) (E := E) demo_options demo_store [] in
  exists s ops, task_run task start_world s start_world ops /\ wait s = Some (inl tt) /\
    exists w1, ops = [(w1, Ok tt)].
Proof.
  intros E task. eexists _, _.
  assert (task_run task start_world (AsyncTask.store_value tt AsyncTask.make_async) start_world
    ([] ++ [(set_stopped false start_world, Ok tt)])) as Hrun.
  { eapply (task_operates task start_world AsyncTask.make_async start_world [] (Ok tt)); [constructor|reflexivity..]. }
  split; [exact Hrun|split; [reflexivity|]].
  apply (proj1 (proj1 (proj2 (async_is_operation (E := E) _ start_world _ start_world _ Hrun)) tt)).
  reflexivity.
Defined.

(** ** The life of the shared state

    The task objects and the closure of the worker thread own the state
    together; the state owns the [jthread], whose destructor joins it.  The
    closure is destroyed on its own thread when the worker has returned. *)
Section Life.
Context {V X K : Type}.

(** The last owner was a task object after the thread had ended, or the thread
    itself: joining itself throws in a destructor, which ends the process. *)
Inductive Fate := Joined | Terminated.

Record Shared := mkShared {
  sh_state : @AsyncState V X K;
  sh_tasks : nat;               (* task objects that share the state *)
  sh_thread : bool;             (* the closure of the worker still does *)
  sh_fate : option Fate
}.

Inductive LifeAction :=
  | section (e : @Action V X K) | copy_task | drop_task | thread_exits.

Definition by_worker (e : @Action V X K) : bool :=
  match e with
  | callable_returns _ | callable_throws _ | take_callbacks | invoke_callbacks => true
  | _ => false
  end.

Definition shared : Shared := mkShared AsyncTask.make_async 1 true None.

Definition life_step (a : LifeAction) (s : Shared) : option Shared :=
  match sh_fate s, a with
  | Some _, _ => None
  | None, section e =>
      if by_worker e || (0 <? sh_tasks s)%nat then
        '(state, _) ← AsyncTask.step e (sh_state s);
        Some (mkShared state (sh_tasks s) (sh_thread s) None)
      else None
  | None, copy_task =>
      if (0 <? sh_tasks s)%nat then Some (mkShared (sh_state s) (S (sh_tasks s)) (sh_thread s) None) else None
  | None, drop_task =>
      match sh_tasks s with
      | O => None
      | S n => Some (mkShared (sh_state s) n (sh_thread s)
                       (if (n =? 0)%nat && negb (sh_thread s) then Some Joined else None))
      end
  | None, thread_exits =>
      match worker (sh_state s), sh_thread s with
      | Returned, true =>
          Some (mkShared (sh_state s) (sh_tasks s) false
                  (if (sh_tasks s =? 0)%nat then Some Terminated else None))
      | _, _ => None
      end
  end.

Fixpoint live (tr : list LifeAction) (s : Shared) : option Shared :=
  match tr with [] => Some s | a :: tr => s ← life_step a s; live tr s end.

(** What a step can do to the owners. *)
Lemma life_step_owners a s s' : life_step a s = Some s' ->
  sh_fate s = None /\ (sh_thread s' = true -> sh_thread s = true) /\
  (sh_tasks s = 0%nat -> sh_tasks s' = 0%nat) /\
  (sh_tasks s = 0%nat -> sh_thread s' = true -> sh_fate s' = None) /\
  (sh_tasks s = 0%nat -> sh_thread s = true -> sh_thread s' = false -> sh_fate s' = Some Terminated) /\
  (sh_thread s = false -> sh_thread s' = false /\ sh_fate s' <> Some Terminated).
Proof.
  unfold life_step. destruct (sh_fate s) eqn:Hf; [done|]. intros H.
  destruct a as [e| | |].
  - destruct (_ || _); [|done]. destruct (AsyncTask.step e (sh_state s)) as [[st new]|]; [|done].
    injection H as <-. cbn. split_and!; intros; try split; first [done | congruence].
  - destruct (0 <? sh_tasks s)%nat eqn:Ht; [|done]. injection H as <-. apply Nat.ltb_lt in Ht. cbn.
    split_and!; intros; try split; first [done | lia | congruence].
  - destruct (sh_tasks s) as [|n] eqn:Ht; [done|]. injection H as <-. cbn.
    split_and!; try done. intros ->. rewrite andb_true_r. by destruct (n =? 0)%nat.
  - destruct (worker (sh_state s)); try done. destruct (sh_thread s) eqn:Ht; [|done].
    injection H as <-. cbn. split_and!; try done. intros -> _ _. done.
Qed.

(** A task object that goes away before its thread has ended ends the process
    when the thread ends, and nothing can avert it; that happens too when the
    owner has waited for the value, as long as the worker is still between
    storing it and its end.  A thread that ends while a task object is left
    never does. *)
Theorem dropped_task_terminates :
  (forall tr s s', live tr s = Some s' -> sh_tasks s = 0%nat -> sh_thread s = true ->
     sh_thread s' = false -> sh_fate s' = Some Terminated) /\
  (forall v, exists s, live [section (callable_returns v)] shared = Some s /\
     wait (sh_state s) = Some (inl v) /\
     exists s', live [drop_task; section take_callbacks; section invoke_callbacks; thread_exits] s = Some s' /\
       sh_fate s' = Some Terminated) /\
  (forall tr s s', live tr s = Some s' -> sh_fate s <> Some Terminated -> sh_thread s = false ->
     sh_fate s' <> Some Terminated).
Proof.
  split_and!.
  - induction tr as [|a tr IH]; intros s s' H Ht Hth Hend; [injection H as <-; congruence|].
    cbn in H. destruct (life_step a s) as [s1|] eqn:Hs; [|done]. cbn in H.
    destruct (life_step_owners _ _ _ Hs) as (_ & _ & Htasks & _ & Hfate & _).
    destruct (sh_thread s1) eqn:Hth1; [by apply (IH s1); auto|].
    specialize (Hfate Ht Hth eq_refl). destruct tr as [|b tr]; [by injection H as <-|].
    cbn in H. unfold life_step in H. by rewrite Hfate in H.
  - intros v. eexists. split; [reflexivity|split; [reflexivity|]]. eexists. split; reflexivity.
  - induction tr as [|a tr IH]; intros s s' H Hf Hth; [by injection H as <-|].
    cbn in H. destruct (life_step a s) as [s1|] eqn:Hs; [|done]. cbn in H.
    destruct (life_step_owners _ _ _ Hs) as (_ & _ & _ & _ & _ & Hdead).
    destruct (Hdead Hth) as [Hth1 Hf1]. by apply (IH s1).
Qed.
End Life.
