(* ===== verification/HostDemo.v ===== *)
(** * Host integrity at work

    A package with a signed manifest, one of whose files is missing. *)
From S2P Require Import Prelude StdString Errors Codec Json MiniJson Rim2 Types Crypto.
From S2P Require Import MiniCrypto Clock Keyring World Http StateStore HostIntegrity Multipart.
From S2P Require Import MiniEnv.

#[local] Existing Instance mini_crypto.
#[local] Existing Instance mini_json.

Definition host_options (arch : text) : ClientOptions := {|
  base_url := &"https://api.example/"; web_base_url := []; app_id := demo_app;
  release_id := demo_release; version := &"1.2.0"; version_code := Some 7;
  root_trust_key_id := &"root-1"; root_trust_public_key := base64url_encode demo_root_key;
  channel := &"stable"; platform := &"windows"; arch := arch; opt_device_id := [];
  storage_directory := []; allow_insecure_http := false;
  host_integrity := {| hio_enabled := true; hio_package_root := &"C:\App";
    hio_manifest_path := &"release-integrity.v2"; hio_evidence_provider := None |}
|}.

Definition package (path : text) : option Bytes :=
  if bool_decide (path = &"C:\App\release-integrity.v2") then Some demo_manifest
  else if bool_decide (path = &"C:\App\bin\App.exe") then Some (&"abc") else None.

Definition host_env : Env := mini_env_with package quiet (fun _ => Written).
#[local] Existing Instance host_env.

Definition demo_evidence : IntegrityEvidence :=
  {| ie_state := &"verified"; ie_failure_code := []; ie_evidence_version := Some 2;
     ie_manifest_sha256 := sha256_hex demo_manifest;
     ie_files := {[ &"bin/App.exe" := sha256_hex (&"abc") ]} |}.

Example evidence_x64 : (evidence (host_options (&"x64")) start_world).1 = Ok (Some demo_evidence).
Proof. vm_compute. reflexivity. Qed.

(** The same package, with the architecture left to its default. *)
Example evidence_default_arch : (evidence (host_options []) start_world).1 =
  Ok (Some (evidence_failed (&"host_release_mismatch"))).
Proof. vm_compute. reflexivity. Qed.

Lemma verified_evidence_witness : exists raw m file full n content,
  parse_rim2 raw (expected_release (host_options (&"x64"))) (base64url_encode demo_root_key) = Ok m /\
  file ∈ files m /\ Rim2.path file = &"bin/App.exe" /\ env_read_file n full = Some content /\
  sha256_hex (&"abc") = hex_lower (bcrypt_sha256 content).
Proof.
  destruct (verified_evidence (host_options (&"x64")) start_world demo_evidence
    (evidence (host_options (&"x64")) start_world).2) as (raw & m & Hm & _ & Hf & _).
  - intros m Hm. discriminate Hm.
  - reflexivity.
  - apply injective_projections; [vm_compute; reflexivity|reflexivity].
  - reflexivity.
  - destruct (Hf (&"bin/App.exe") (sha256_hex (&"abc"))) as (file & full & n & content & H1 & H2 & _ & H3 & H4).
    + vm_compute. reflexivity.
    + exists raw, m, file, full, n, content. split_and!; assumption.
Defined.

Lemma empty_arch_never_verifies_witness : ~ exists raw m,
  parse_rim2 raw (expected_release (host_options [])) (root_trust_public_key (host_options [])) = Ok m /\
  rm_arch m = &"x64".
Proof.
  destruct (empty_arch_never_verifies (host_options []) eq_refl) as [H _].
  intros (raw & m & Hm & Ha). exact (proj2 (H raw m Hm) Ha).
Defined.

Lemma safe_join_below_witness :
  exists rest, lower_ascii (&"C:\App\bin\App.exe") = lower_ascii (&"C:\App") ++ rest.
Proof.
  destruct (safe_join_below (&"C:\App") (&"bin/App.exe") (&"C:\App\bin\App.exe")) as (_ & H & _).
  - vm_compute. reflexivity.
  - exact H.
Defined.

(** ** The policy *)

Definition policy_world : World := (store_policy (host_options []) demo_store true start_world).2.

Lemma policy_roundtrip_witness :
  read_cached_policy (host_options (&"x64")) demo_store policy_world = (Ok (Some true), advance 0 policy_world).
Proof.
  rewrite (policy_roundtrip (host_options []) demo_store ltac:(apply (bool_decide_eq_false (_ ∈ _));
    vm_compute; reflexivity) ltac:(apply (bool_decide_eq_false (_ ∈ _)); vm_compute; reflexivity)
    (host_options (&"x64")) true start_world policy_world policy_world).
  - reflexivity.
  - done.
  - vm_compute. reflexivity.
  - assert (match w_files policy_world !! store_path demo_store policy_file with
            | Some c => (0 <? zlen c) && (zlen c <=? 1024 * 1024) | None => true end = true) as H
      by (vm_compute; reflexivity).
    intros c Hc. rewrite Hc in H. breflect. lia.
  - reflexivity.
  - reflexivity.
Defined.

(** A manifest may name a file [a..b]: the parser takes it, and then no
    evidence can be made. *)
(** The two path checks disagree: a manifest file name with two dots
    inside a part is safe for [parse_rim2] and refused by [safe_join] under
    every root, so that a manifest that names such a file never verifies. *)
Theorem dotted_name_refused `{E0 : Env} root :
  safe_path (&"lib/a..b.dll") = true /\
  safe_join (E := E0) root (&"lib/a..b.dll") = Throw (unsafe_path (&"integrity path is unsafe")).
Proof. split; [vm_compute; reflexivity|]. unfold safe_join. reflexivity. Qed.

(** ** Feedback with an attachment *)

Definition demo_feedback : FeedbackRequest := {|
  content := &"It crashed."; rating := Some 4; contact := []; fb_app_version := [];
  attachments := [&"C:\App\bin\App.exe"]; metadata := JObject [] |}.

Abbreviation demo_payload := (build_feedback_payload (&"device-1") (&"stable") (&"1.2.0") demo_feedback).

Definition boundary_of (content_type : text) : text := drop 30 content_type.

Example feedback_parts :
  match demo_payload start_world with
  | (Ok p, _) => match read_multipart (boundary_of (mp_content_type p)) (mp_body p) with
                 | Some parts => parts.*2 | None => [] end
  | _ => []
  end = [&"device-1"; &"stable"; &"It crashed."; &"4"; &"1.2.0"; &"abc"].
Proof. vm_compute. reflexivity. Qed.

Definition sent_payload : MultipartPayload :=
  match demo_payload start_world with (Ok p, _) => p | _ => mkPayload [] [] end.

Lemma multipart_roundtrip_witness : exists boundary files,
  attached (attachments demo_feedback) files /\
  mp_content_type sent_payload = &"multipart/form-data; boundary=" ++ boundary.
Proof.
  destruct (multipart_roundtrip (&"device-1") (&"stable") (&"1.2.0") demo_feedback start_world
    sent_payload (demo_payload start_world).2) as (boundary & files & Ht & Ha & _).
  - apply injective_projections; vm_compute; reflexivity.
  - exists boundary, files. exact (conj Ha Ht).
Defined.
